(* ===== verification/_CoqProject ===== *)
-Q . S2P
Prelude.v
JsData.v
DecimalText.v
Calendar.v
IsoDate.v
Encoding.v
Schema.v
Continuity.v
EmployerPayment.v
Canonical.v
AuditChain.v
AuditChainFacts.v
Lease.v
Idempotency.v
IdempotencyFacts.v
PaymentStore.v
AggregateEarnings.v
ProofStore.v
Credentials.v
Issuance.v
IssuanceFacts.v
Renewal.v
RenewalFacts.v
CircuitBreaker.v
Contract.v
Lifecycle.v
LifecycleFacts.v
ShareTokens.v
ShareTokensFacts.v
Accounts.v
Sessions.v
WalletAuth.v
AuthSystem.v
AuthFacts.v
AuthSystemFacts.v
AuthLoginFacts.v
AuthRequestFacts.v
RecentAuth.v
DestinationGuard.v
DestinationGuardFacts.v
Predicates.v
WebhookStore.v
WebhookPayloads.v
WebhookEndpoints.v
WebhookEndpointsFacts.v
WebhookResponse.v
WebhookDelivery.v
WebhookDeliveryRuns.v
WebhookDeliveryFacts.v
WebhookDispatchFacts.v
WebhookRedriveFacts.v
Anchoring.v
AnchoringFacts.v
ProofSystem.v
ProofSystemFacts.v
Quotas.v
SecretReceipts.v
ApiKeys.v
ApiKeysFacts.v
ApiKeyRotationFacts.v
RequestSigning.v
Organizations.v
OrganizationLifecycle.v
OrganizationInvitations.v
MembershipImport.v
OrganizationSystem.v
OrganizationFacts.v
OrganizationRuns.v
