(* ===== verification/Prelude.v ===== *)
(** * EarnProof backend: verification library

    The program ([src/src], a NestJS service over PostgreSQL through Prisma)
    issues privacy-preserving proofs of income about payments observed on the
    Stellar network, renews and revokes them, answers verifiers, anchors the
    proofs in a contract through a background worker, signs wallets in, manages
    organizations with their members and API keys, and tells integrators what happened
    through signed webhooks.  This library models the proof core, authentication, sharing,
    API keys, organizations and webhooks as executable definitions and proves what the
    parts guarantee, alone and when they run concurrently on one database.

    ** Parts and files

    The language and data:
    - [Prelude]: results of fallible code, tactics, transition systems;
    - [JsData]: stable sort, maps, tables as row lists with the shapes of the
      Prisma calls; [DecimalText], [Calendar], [IsoDate], [Encoding]: [BigInt] text, [Date]
      with its NaN value and range, ISO timestamps, base64url;
    - [Schema]: the enumerations of [prisma/schema.prisma] and the client's errors;
    - [Canonical]: [common/crypto/canonicalize.ts], JSON values, their canonical text.

    The proof core, [proofs/]:
    - [AggregateEarnings], [EmployerPayment], [Continuity]: the three policies of
      the same names and the aggregate calculator;
    - [PaymentStore], [ProofStore]: the tables the handlers read and write, with
      their unique constraints;
    - [Credentials]: the eight credential bodies and [rebuildCredential];
    - [Issuance], [IssuanceFacts]: the eight [create...Proof] handlers;
    - [Renewal], [RenewalFacts]: [proof-renewal.policy.ts] and [renewProof];
    - [Lifecycle], [LifecycleFacts]: [verifyProof], [verifyProofsBatch],
      [revokeProof], and the expiry job [jobs/proof-expiration-reconciler.service.ts].

    The contract and the jobs:
    - [CircuitBreaker]: [common/resilience/]; [Contract]: [contract-anchoring.service.ts];
    - [Anchoring], [AnchoringFacts]: the worker [jobs/anchoring-worker.service.ts],
      operator decisions, and the three reconcilers;
    - [ProofSystem], [ProofSystemFacts]: all of them as one transition system, in which
      accounts also rotate their wallets.

    Sharing and authentication, [proofs/share-tokens/], [auth/], [users/]:
    - [ShareTokens], [ShareTokensFacts]: issuing, revoking and resolving share tokens;
    - [Accounts]: the account status policy and [users.service.ts]; [Sessions]:
      [session.service.ts], device labels and the guard; [WalletAuth]: challenges,
      sign-in, wallet rotation, origins, rate limits; [RecentAuth]: assertions for
      destructive actions;
    - [AuthSystem]: these as one transition system; [AuthFacts], [AuthSystemFacts],
      [AuthLoginFacts], [AuthRequestFacts]: its invariant and what it shows.

    API keys, [api-keys/], [quotas/]:
    - [Quotas]: [organization-quota.service.ts]; [SecretReceipts]:
      [audit/secret-retrieval-receipt.service.ts];
    - [ApiKeys]: [api-key.service.ts], rotation, the expiry job and the guards that use keys,
      as a transition system of several processes with a cache each; [ApiKeysFacts],
      [ApiKeyRotationFacts]: what it shows;
    - [RequestSigning]: signed requests, their nonces and diagnostics.

    Organizations, [organizations/]:
    - [Organizations]: tables, [organizations.service.ts], [organization-members.service.ts] and the
      membership guard; [OrganizationLifecycle]: archive, restore, legal holds and deletion;
      [OrganizationInvitations]: [organization-invitations.service.ts]; [MembershipImport]:
      imports and access reviews;
    - [OrganizationSystem]: these as one transition system; [OrganizationFacts]: what holds in
      every run; [OrganizationRuns]: concrete runs.

    Webhooks, [webhooks/]:
    - [DestinationGuard], [DestinationGuardFacts]: [common/http/destination-guard.ts];
    - [Predicates]: the predicate grammar, its validators and its evaluator;
    - [WebhookStore]: rows and signatures; [WebhookPayloads], [WebhookResponse]: the bytes
      sent and the record of the answer;
    - [WebhookEndpoints], [WebhookEndpointsFacts]: [webhooks.service.ts] and the verification
      of destinations, as a transition system;
    - [WebhookDelivery]: fan-out, queue, attempts, retries, replay, redrive, circuits and
      recovery as a transition system of one process with restarts, in which delivery rows
      are not deleted; [WebhookDeliveryRuns]: concrete runs, also of two processes;
      [WebhookDeliveryFacts], [WebhookDispatchFacts], [WebhookRedriveFacts]: what holds in
      all of them.

    Around the core:
    - [AuditChain], [AuditChainFacts]: [audit/audit-chain.ts],
      [audit/audit-verification.service.ts] and the writer of [database/prisma.service.ts];
    - [Lease]: [jobs/distributed-lease.service.ts] and the challenge cleanup of
      [auth/cleanup.job.ts];
    - [Idempotency], [IdempotencyFacts]: [common/services/idempotency.service.ts] and the
      interceptor around the decorated handlers, with the removal of records by the
      retention sweep of [jobs/retention/] and by the deletion of an organization.

    ** How code becomes definitions

    A function that may throw returns [result E A]; a table is a list of records;
    a Prisma call is a function on it with its error ([P2002], [P2025]).  A handler that
    reads and later writes in a transaction is two definitions: what it read and
    decided is a value carried to the second, which acts on a table other handlers
    may have changed.  The worker has a third part, the contract call.  In
    [ProofSystem], [AuthSystem], [OrganizationSystem] and [WebhookEndpoints] these values are the operations in
    flight, and a step starts, continues or finishes one; in [IdempotencyFacts] they are
    the phases of requests, in [WebhookDelivery] those of queued jobs.
    The state of a component is a record with the source's names; its enumerations
    are inductive types.

    Code outside the sources is an argument: the digest [sha256] and the HMAC, the payment
    keyring ([decrypt], keyed digests), the Stellar
    command line and its signature check, the URL parser and the resolver, the answers of
    webhook receivers, what a [jsonb] column reads back, and the handlers behind the
    idempotency interceptor.  Issuance takes the outcome of its quota charge as an argument
    too; the charge itself is in [Quotas].  The only facts assumed of them are named in the
    theorems that need them (a jsonb column keeps a value up to the order of
    properties; a digest is not empty; a parsed URL has a host in canonical form);
    statements about hashes say that either the data agree or two texts with the
    same digest are exhibited.

    ** What the theorems show

    - Every run ([ProofSystemFacts]): the schema's constraints hold, supersession is a
      forest of chains, rows are never lost or rewritten, a stored hash verifies for the
      wallet the proof was issued for and, up to collisions, for no other, a revoked proof
      is never reported valid again, a proof is marked anchored only after the contract reported it, and each row follows an abstract
      life cycle (a refinement).
    - Issuance: each accepted request rests on payments that satisfy its policy, and the
      credential issued is the one verification rebuilds; canonical text identifies a
      value up to property order; amounts round-trip.
    - Verification: [VALID] exactly under the conditions the code checks; the contract, when
      required, can only make the answer stricter.
    - Renewal: atomic, raced renewals have one winner, retries are idempotent.
    - Anchoring: claims take the oldest due intents under backpressure, failures end
      in quarantine, reconcilers repair what they look at; and what they do not.
    - Circuit breaker: its invariant, the cool-down, the bound on probes.
    - Audit chain: appended chains verify, with the metadata as the database returns its
      JSON, verification accepts exactly unbroken chains, a last hash determines the
      history (metadata without a [__proto__] property); and the inserts that bypass the
      writer.
    - Leases: exclusive from the grant or renewal to the expiry its owner was told, unless
      released, and taken over after it.
    - Idempotency: a key runs one request for as long as its record is kept, which is
      removed only after the retention period or with its organization; completed requests
      replay, stored responses are stripped; and where concurrent, failed and unscoped requests escape it.
    - Share tokens: uses are bounded, revoked and superseded tokens are dead.
    - Authentication: every accepted request acts for a wallet whose key signed a challenge
      that the service issued for it, a challenge opens one session, and status changes and
      rotations end the sessions they should; and the request under a legacy session that
      survives a rotation.
    - API keys: an accepted request holds the secret and the scopes of a stored key, a key
      that is inactive while nobody caches it or is looking it up stays out, a cutover is
      recorded once, windowed quotas admit exactly what their reports say, a nonce is
      spent once until its expired row is purged, the diagnostics of a signed request agree
      with the guard; and the runs in which a revoked key is
      still accepted from a cache and in which rotations fail.
    - Organizations: an invitation adds at most one row to the members, for its wallet; the last
      owner stays while requests come one at a time; deletion commits exactly under its
      conditions and is final; reviewed members cannot be removed; and the races and
      routes that defeat the checks.
    - Webhook endpoints: what an active endpoint proves about its destination, in any
      interleaving and one at a time; accepted destinations are outside the reserved blocks,
      for IPv4 and for IPv6 in the spellings of RFC 4291; exactly the predicates of the
      grammar within its limits are accepted, and they are evaluated to their meaning;
      bodies determine events; stored answers are bounded and redacted.
    - Webhook delivery: every attempt carries the event's stored bytes, one process sends no
      row twice whatever other processes do, no row disappears while a process runs, an
      endpoint has one delivery in progress, a dead letter is redriven once, circuits
      implement their automaton; and the runs in which a crash, an open circuit, a failed
      fan-out or a second process loses, delays or repeats an event.

    ** Bounds and fuel

    Integers are [Z]: amounts are [BigInt] in the source, counters and milliseconds
    stay far below 2^53, and dates carry the range of [Date] explicitly.  Strings are
    sequences of 8-bit code units.  The supersession walk has the source's bound of 256
    links, the expiry cycle its 10 batches of 100, the reconcilers their batch sizes.  The
    paged audit walk has fuel for one page per row, shown to be enough: it equals
    one walk over the whole chain.

    ** Not modelled

    Controllers, validation decorators, modules and configuration (framework
    wiring); logs, metrics and health (no effect on the tables); reminders (effects after
    the modelled transactions, outside their tables); approval policies, exports, residency
    and the sending of invitations, issuers, payments ingestion, disputes, disclosure and
    governance (services of their own on other tables, of which the model reads only what
    issuance and deletion read); the synthetic test delivery, client certificates and listings of
    webhooks; the retention sweeps of the other tables; encryption and the Stellar network
    (libraries).  The poll timers and cron
    schedules are left out: a step of a job may happen at any time. *)

From stdpp Require Export prelude gmap strings sorting pretty.
From Stdlib Require Export ZArith Lia.

#[export] Set Default Goal Selector "!".

(** ** Fallible code

    A TypeScript function that returns [A] or throws an [E] is a function to
    [result E A]; stdpp's [MRet]/[MBind] give it the usual notation
    [x ← m; k]. *)

Inductive result (E A : Type) : Type :=
| Ok (a : A)
| Err (e : E).
Arguments Ok {E A} a.
Arguments Err {E A} e.

#[export] Instance result_ret E : MRet (result E) := fun A a => Ok a.
#[export] Instance result_bind E : MBind (result E) := fun A B f m =>
  match m with Ok a => f a | Err e => Err e end.
#[export] Instance result_fmap E : FMap (result E) := fun A B f m =>
  match m with Ok a => Ok (f a) | Err e => Err e end.

(** [throw_if c e] is the guard [if (c) throw e;]. *)
Definition throw_if {E} (c : bool) (e : E) : result E unit :=
  if c then Err e else Ok tt.

Lemma bind_Ok {E A B} (m : result E A) (f : A -> result E B) (b : B) :
  (m ≫= f) = Ok b <-> exists a, m = Ok a /\ f a = Ok b.
Proof. destruct m; cbn; naive_solver. Qed.

Lemma bind_Err {E A B} (m : result E A) (f : A -> result E B) (e : E) :
  (m ≫= f) = Err e <-> m = Err e \/ exists a, m = Ok a /\ f a = Err e.
Proof. destruct m; cbn; naive_solver. Qed.

Lemma throw_if_Ok {E} c (e : E) u : throw_if c e = Ok u <-> c = false.
Proof. destruct c, u; cbn; naive_solver. Qed.

Lemma throw_if_Err {E} c (e e' : E) : throw_if c e = Err e' <-> c = true /\ e = e'.
Proof. destruct c; cbn; naive_solver. Qed.

(** ** Automation *)

Create HintDb earn.
#[export] Hint Extern 1 (_ < _)%Z => lia : earn.
#[export] Hint Extern 1 (_ <= _)%Z => lia : earn.

(** Turn boolean tests on integers and strings into propositions. *)
Ltac reflect_hyps :=
  repeat match goal with
  | H : (_ && _) = true |- _ => apply andb_true_iff in H; destruct H
  | H : (_ || _) = false |- _ => apply orb_false_iff in H; destruct H
  | H : negb _ = true |- _ => apply negb_true_iff in H
  | H : negb _ = false |- _ => apply negb_false_iff in H
  | H : bool_decide _ = true |- _ => apply bool_decide_eq_true in H
  | H : bool_decide _ = false |- _ => apply bool_decide_eq_false in H
  | H : (_ <? _)%Z = true |- _ => apply Z.ltb_lt in H
  | H : (_ <? _)%Z = false |- _ => apply Z.ltb_ge in H
  | H : (_ <=? _)%Z = true |- _ => apply Z.leb_le in H
  | H : (_ <=? _)%Z = false |- _ => apply Z.leb_gt in H
  | H : (_ =? _)%Z = true |- _ => apply Z.eqb_eq in H
  | H : (_ =? _)%Z = false |- _ => apply Z.eqb_neq in H
  | H : (_ >? _)%Z = _ |- _ => rewrite Z.gtb_ltb in H
  | H : (_ >=? _)%Z = _ |- _ => rewrite Z.geb_leb in H
  end.

(** Follow a successful or failed monadic computation to the values it used. *)
Ltac run_result :=
  repeat match goal with
  | H : (_ ≫= _) = Ok _ |- _ =>
      apply bind_Ok in H; let x := fresh "x" in destruct H as (x & ? & H)
  | H : throw_if _ _ = Ok _ |- _ => apply throw_if_Ok in H
  | H : Ok _ = Ok _ |- _ => injection H as H; subst
  | H : Err _ = Err _ |- _ => injection H as H; subst
  | H : Ok _ = Err _ |- _ => discriminate H
  | H : Err _ = Ok _ |- _ => discriminate H
  end.

(** Case on every test of the goal. *)
Ltac split_ifs :=
  repeat match goal with
  | |- context [ if ?c then _ else _ ] =>
      let E := fresh "E" in destruct c eqn:E
  end.

(** ** Invariants of transition systems *)

Section invariants.
Context {S : Type} (step : relation S) (Inv : S -> Prop).

Lemma rtc_invariant (Hstep : forall s s', step s s' -> Inv s -> Inv s') s s' :
  rtc step s s' -> Inv s -> Inv s'.
Proof. induction 1; eauto. Qed.

(** A relation between successive states that is a preorder holds between the
    ends of a run. *)
Lemma rtc_preorder (R : relation S) `{!PreOrder R}
    (Hstep : forall s s', step s s' -> Inv s -> Inv s' /\ R s s') s s' :
  rtc step s s' -> Inv s -> R s s'.
Proof.
  induction 1 as [|s1 s2 s3 H12 _ IH]; intros Hi; [reflexivity|].
  destruct (Hstep _ _ H12 Hi). etrans; eauto.
Qed.
End invariants.

(** ** Concrete runs *)

(** Evaluate the first state of a run. *)
Lemma rtc_from {S} (R : relation S) s s' e : s = s' -> rtc R s' e -> rtc R s e.
Proof. by intros ->. Qed.

Ltac evaluate_run :=
  match goal with |- rtc ?R ?s ?e =>
    let s' := eval vm_compute in s in apply (rtc_from R s s' e); [vm_compute; reflexivity|]
  end.
Tactic Notation "run_step" tactic3(tac) := eapply rtc_l; [tac|evaluate_run].

(** An equation whose left side is closed. *)
Ltac computes :=
  match goal with
  | |- ?x = _ => let x' := eval vm_compute in x in transitivity x'; [vm_compute; reflexivity|reflexivity]
  | |- _ => vm_compute; reflexivity
  end.
