(* ===== verification/JsData.v ===== *)
(** * JavaScript data the sources rely on

    The parts of the language's standard library the modelled sources use:
    [Array.prototype.sort] (a stable sort), [Map] and [Set] (insertion
    ordered), decimal text and [BigInt], and database tables as ordered row
    lists with Prisma's [findFirst]/[updateMany] shapes.  A JavaScript string
    is modelled by a sequence of 8-bit code units; comparison is by code unit,
    as in the language. *)

From S2P Require Import Prelude.
From Stdlib Require Import Ascii.

(** ** Sorting *)

(** [Array.prototype.sort] with a consistent comparator, as a stable insertion
    sort; [le x y] is [compare(x, y) <= 0]. *)
Section js_sort.
Context {A : Type} (le : A -> A -> bool).

Fixpoint insert_sorted (x : A) (l : list A) : list A :=
  match l with
  | [] => [x]
  | y :: r => if le x y then x :: l else y :: insert_sorted x r
  end.

Definition js_sort (l : list A) : list A := foldr insert_sorted [] l.

Lemma insert_sorted_perm x l : insert_sorted x l ≡ₚ x :: l.
Proof.
  induction l as [|y l IH]; cbn; [done|]. destruct (le x y); [done|].
  rewrite IH. constructor.
Qed.

Lemma js_sort_perm l : js_sort l ≡ₚ l.
Proof.
  induction l as [|x l IH]; cbn; [done|].
  by rewrite insert_sorted_perm, IH.
Qed.

(** The comparator need only be consistent on the elements present. *)
Context (P : A -> Prop).
Hypothesis le_total : forall x y, P x -> P y -> le x y = true \/ le y x = true.
Hypothesis le_trans : forall x y z, P x -> P y -> P z ->
  le x y = true -> le y z = true -> le x z = true.

Lemma insert_sorted_sorted x l :
  P x -> Forall P l ->
  StronglySorted (fun x y => le x y = true) l ->
  StronglySorted (fun x y => le x y = true) (insert_sorted x l).
Proof.
  intros Hx HP. induction 1 as [|y l Hl IH Hy]; cbn.
  { repeat constructor. }
  apply Forall_cons in HP as [HPy HP].
  destruct (le x y) eqn:Exy.
  - constructor; [by constructor|]. constructor; [done|].
    rewrite Forall_forall in Hy, HP |- *. eauto.
  - constructor; [by apply IH|]. rewrite insert_sorted_perm. constructor; [|done].
    destruct (le_total x y); [done..|congruence|done].
Qed.

Lemma js_sort_sorted l :
  Forall P l -> StronglySorted (fun x y => le x y = true) (js_sort l).
Proof.
  induction 1; cbn; [constructor|]. apply insert_sorted_sorted; [done| |done].
  change (Forall P (js_sort l)). by rewrite js_sort_perm.
Qed.

(** The output does not depend on the input order when ties are equal. *)
Lemma js_sort_unique l1 l2 :
  Forall P l1 ->
  (forall x y, x ∈ l1 -> y ∈ l1 -> le x y = true -> le y x = true -> x = y) ->
  l1 ≡ₚ l2 -> js_sort l1 = js_sort l2.
Proof.
  intros HP Hanti Hp. apply (StronglySorted_unique_strong (fun x y => le x y = true)).
  - intros x y Hx Hy Hxy Hyx. rewrite js_sort_perm in Hx.
    rewrite js_sort_perm, <- Hp in Hy. by apply Hanti.
  - by apply js_sort_sorted.
  - apply js_sort_sorted. by rewrite <- Hp.
  - by rewrite !js_sort_perm.
Qed.
End js_sort.

Lemma js_sort_sorted_id {A} (le : A -> A -> bool) l :
  StronglySorted (fun x y => le x y = true) l -> js_sort le l = l.
Proof.
  induction 1 as [|x l Hl IH Hx]; [done|].
  change (insert_sorted le x (js_sort le l) = x :: l). rewrite IH.
  destruct l as [|y l]; cbn; [done|]. apply Forall_cons in Hx as [-> _]. done.
Qed.

(** Default [sort()] on strings: code unit order. *)
Definition str_le (s1 s2 : string) : bool := String.leb s1 s2.
Definition str_lt (s1 s2 : string) : bool := negb (String.leb s2 s1).

Lemma str_le_total s1 s2 : str_le s1 s2 = true \/ str_le s2 s1 = true.
Proof. apply String.leb_total. Qed.

Lemma str_le_iff s1 s2 : str_le s1 s2 = true <-> String.le s1 s2.
Proof. unfold str_le, String.le. by rewrite Is_true_true. Qed.

Lemma str_le_trans s1 s2 s3 :
  str_le s1 s2 = true -> str_le s2 s3 = true -> str_le s1 s3 = true.
Proof. rewrite !str_le_iff. apply transitivity. Qed.

Lemma str_le_antisymm s1 s2 : str_le s1 s2 = true -> str_le s2 s1 = true -> s1 = s2.
Proof. rewrite !str_le_iff. apply (anti_symm String.le). Qed.

Definition sort_strings : list string -> list string := js_sort str_le.

Lemma sort_strings_perm l : sort_strings l ≡ₚ l.
Proof. apply js_sort_perm. Qed.

Lemma sort_strings_unique l1 l2 : l1 ≡ₚ l2 -> sort_strings l1 = sort_strings l2.
Proof.
  apply (js_sort_unique _ (fun _ => True)); eauto using str_le_total, str_le_trans, str_le_antisymm.
  by apply Forall_true.
Qed.

(** ** Insertion-ordered maps *)

Module JsMap.
Section jsmap.
Context {K V : Type} `{EqDecision K}.

(** [m.get(k)] *)
Fixpoint get (k : K) (m : list (K * V)) : option V :=
  match m with
  | [] => None
  | (k', v) :: r => if decide (k = k') then Some v else get k r
  end.

(** [m.set(k, v)]: an existing key keeps its position. *)
Fixpoint set (k : K) (v : V) (m : list (K * V)) : list (K * V) :=
  match m with
  | [] => [(k, v)]
  | (k', v') :: r => if decide (k = k') then (k, v) :: r else (k', v') :: set k v r
  end.

Lemma get_set_eq k v m : get k (set k v m) = Some v.
Proof. induction m as [|[k' v'] m IH]; cbn; repeat (case_decide; cbn); congruence. Qed.

Lemma get_set_ne k k' v m : k <> k' -> get k (set k' v m) = get k m.
Proof.
  intros ?. induction m as [|[k1 v1] m IH]; cbn; repeat (case_decide; cbn); congruence.
Qed.

Lemma get_set k k' v m : get k (set k' v m) = if decide (k = k') then Some v else get k m.
Proof. case_decide; subst; [apply get_set_eq|by apply get_set_ne]. Qed.

Lemma keys_set k v m :
  (set k v m).*1 = if decide (k ∈ m.*1) then m.*1 else m.*1 ++ [k].
Proof.
  induction m as [|[k' v'] m IH]; cbn.
  { rewrite decide_False by set_solver. done. }
  destruct (decide (k = k')) as [->|Hne]; cbn.
  { rewrite decide_True by set_solver. done. }
  rewrite IH. destruct (decide (k ∈ m.*1)) as [Hin|Hin].
  - rewrite decide_True by set_solver. done.
  - rewrite decide_False by set_solver. done.
Qed.

Lemma NoDup_set k v m : NoDup m.*1 -> NoDup (set k v m).*1.
Proof.
  intros Hm. rewrite keys_set. case_decide; [done|].
  apply NoDup_app. split; [done|]. split; [set_solver|apply NoDup_singleton].
Qed.

Lemma elem_of_keys k m : k ∈ m.*1 <-> is_Some (get k m).
Proof.
  induction m as [|[k' v'] m IH]; cbn.
  - split; [set_solver|by intros [? ?]].
  - case_decide as Hk; [subst; split; [eauto|set_solver]|].
    rewrite <- IH. set_solver.
Qed.

Lemma elem_of_get k v m : NoDup m.*1 -> (k, v) ∈ m <-> get k m = Some v.
Proof.
  induction m as [|[k' v'] m IH]; cbn; intros Hnd.
  { split; [set_solver|done]. }
  apply NoDup_cons in Hnd as [Hni Hnd]. case_decide as Hk.
  - subst k'. split.
    + intros [?|Hin]%elem_of_cons; [naive_solver|]. destruct Hni.
      apply list_elem_of_fmap. by exists (k, v).
    + intros [= ->]. set_solver.
  - rewrite <- IH by done. set_solver.
Qed.

(** Two maps with the same bindings list the same entries, in some order. *)
Lemma get_ext_perm m1 m2 :
  NoDup m1.*1 -> NoDup m2.*1 -> (forall k, get k m1 = get k m2) -> m1 ≡ₚ m2.
Proof.
  intros H1 H2 Hget. apply NoDup_Permutation.
  - by apply NoDup_fmap_1 in H1.
  - by apply NoDup_fmap_1 in H2.
  - intros [k v]. rewrite !elem_of_get by done. by rewrite Hget.
Qed.
End jsmap.
End JsMap.

(** ** Tables *)

(** [updateMany({ where, data })]: every matching row is rewritten in place. *)
Definition update_where {R} (p : R -> bool) (f : R -> R) (t : list R) : list R :=
  (fun r => if p r then f r else r) <$> t.

(** [deleteMany({ where })]. *)
Definition delete_where {R} (p : R -> bool) (t : list R) : list R := List.filter (fun r => negb (p r)) t.

(** The [count] an [updateMany] or [deleteMany] returns. *)
Definition count_where {R} (p : R -> bool) (t : list R) : nat :=
  length (List.filter p t).

(** [findFirst({ where })] / [findUnique]. *)
Fixpoint find_where {R} (p : R -> bool) (t : list R) : option R :=
  match t with
  | [] => None
  | r :: t => if p r then Some r else find_where p t
  end.

Section tables.
Context {R : Type}.
Implicit Types (p : R -> bool) (f : R -> R) (t : list R).

Lemma find_where_Some p t r : find_where p t = Some r -> r ∈ t /\ p r = true.
Proof.
  induction t as [|x t IH]; cbn; [done|]. destruct (p x) eqn:E.
  - intros [= ->]. split; [set_solver|done].
  - intros [??]%IH. split; [set_solver|done].
Qed.

Lemma find_where_None p t : find_where p t = None <-> Forall (fun r => p r = false) t.
Proof.
  induction t as [|x t IH]; cbn; [by split; [constructor|]|].
  rewrite Forall_cons. destruct (p x) eqn:E; naive_solver.
Qed.

Lemma elem_of_update_where p f t r :
  r ∈ update_where p f t <->
  exists r0, r0 ∈ t /\ r = if p r0 then f r0 else r0.
Proof. unfold update_where. rewrite list_elem_of_fmap. naive_solver. Qed.

Lemma update_where_keys {K} (key : R -> K) p f t :
  (forall r, key (f r) = key r) -> key <$> update_where p f t = key <$> t.
Proof.
  intros Hk. unfold update_where. rewrite <- list_fmap_compose.
  apply list_fmap_ext. intros i r _. cbn. by destruct (p r).
Qed.

Lemma length_update_where p f t : length (update_where p f t) = length t.
Proof. apply length_fmap. Qed.

Lemma update_where_id p f t : count_where p t = 0%nat -> update_where p f t = t.
Proof.
  unfold count_where, update_where. induction t as [|x t IH]; cbn; [done|].
  destruct (p x); cbn; [lia|]. intros H. by rewrite (IH H).
Qed.

Lemma find_where_update w p f t :
  (forall r, w (f r) = w r) ->
  find_where w (update_where p f t) = (fun r => if p r then f r else r) <$> find_where w t.
Proof.
  intros Hw. unfold update_where. induction t as [|r t IH]; cbn; [done|].
  assert (w (if p r then f r else r) = w r) as -> by by destruct (p r).
  by destruct (w r).
Qed.

(** Rows an update takes out of a selection. *)
Lemma count_where_update e p f t :
  (forall r, r ∈ t -> p r = true -> e r = true /\ e (f r) = false) ->
  (count_where e (update_where p f t) + count_where p t)%nat = count_where e t.
Proof.
  unfold count_where, update_where. induction t as [|r t IH]; intros H; [done|].
  rewrite fmap_cons. cbn. assert (forall r, r ∈ t -> p r = true -> e r = true /\ e (f r) = false) as H'
    by (intros; apply H; set_solver). specialize (IH H'). pose proof (H r ltac:(set_solver)) as Hr.
  destruct (p r) eqn:Ep.
  - destruct Hr as [-> ->]; [done|]. cbn. rewrite <- IH. lia.
  - destruct (e r); cbn; rewrite <- IH; done.
Qed.

Lemma count_where_pos p t : count_where p t <> 0%nat -> exists r, r ∈ t /\ p r = true.
Proof.
  unfold count_where. intros Hn. destruct (List.filter p t) as [|r l] eqn:E; [done|].
  assert (In r (List.filter p t)) as Hin by (rewrite E; by left).
  apply List.filter_In in Hin as [Hin Hr]. exists r. by rewrite list_elem_of_In.
Qed.

(** A unique key selects a unique row. *)
Lemma key_unique {K} (key : R -> K) t r1 r2 :
  NoDup (key <$> t) -> r1 ∈ t -> r2 ∈ t -> key r1 = key r2 -> r1 = r2.
Proof.
  intros Hnd H1 H2 Hk. apply list_elem_of_lookup in H1 as [i Hi].
  apply list_elem_of_lookup in H2 as [j Hj].
  assert (i = j) as ->; [|congruence].
  apply (NoDup_lookup (key <$> t) i j (key r1) Hnd).
  - by rewrite list_lookup_fmap, Hi.
  - rewrite list_lookup_fmap, Hj. cbn. by rewrite Hk.
Qed.
End tables.

(** ** Boolean filters and permutations *)

Lemma existsb_perm {A} (f : A -> bool) l l' : l ≡ₚ l' -> existsb f l = existsb f l'.
Proof.
  induction 1 as [|x l l' _ IH|x y l|l l' l'' _ IH1 _ IH2]; cbn; [done|congruence| |congruence].
  by destruct (f x), (f y).
Qed.

Lemma filter_bool_perm {A} (f : A -> bool) l l' : l ≡ₚ l' -> List.filter f l ≡ₚ List.filter f l'.
Proof.
  induction 1 as [|x l l' _ IH|x y l|l l' l'' _ IH1 _ IH2]; cbn; [done|..|by etrans].
  - destruct (f x); by rewrite IH.
  - destruct (f x), (f y); try done. constructor.
Qed.

Lemma filter_bool_split {A} (f : A -> bool) l :
  List.filter f l ++ List.filter (fun x => negb (f x)) l ≡ₚ l.
Proof.
  induction l as [|x l IH]; cbn; [done|]. destruct (f x); cbn; [by rewrite IH|].
  by rewrite <- Permutation_middle, IH.
Qed.

Lemma filter_bool_all {A} (f : A -> bool) l :
  Forall (fun x => f x = true) l -> List.filter f l = l.
Proof. induction 1 as [|x l Hx _ IH]; cbn; [done|]. by rewrite Hx, IH. Qed.

Lemma elem_of_filter_bool {A} (f : A -> bool) l x : x ∈ List.filter f l <-> x ∈ l /\ f x = true.
Proof. by rewrite !list_elem_of_In, List.filter_In. Qed.

Lemma elem_of_delete_where {R} (p : R -> bool) t r : r ∈ delete_where p t <-> r ∈ t /\ p r = false.
Proof. unfold delete_where. by rewrite elem_of_filter_bool, negb_true_iff. Qed.

Lemma NoDup_filter_bool {A} (f : A -> bool) l : NoDup l -> NoDup (List.filter f l).
Proof. rewrite !NoDup_ListNoDup. apply List.NoDup_filter. Qed.

Lemma NoDup_fmap_filter {A B} (key : A -> B) (f : A -> bool) l :
  NoDup (key <$> l) -> NoDup (key <$> List.filter f l).
Proof.
  intros Hnd. refine (sublist_NoDup _ _ Hnd _). apply fmap_sublist.
  clear Hnd. induction l as [|x l IH]; cbn; [constructor|]. destruct (f x); by constructor.
Qed.

Lemma NoDup_of_submseteq {A} (l k : list A) : l ⊆+ k -> NoDup k -> NoDup l.
Proof. intros [k' ->]%submseteq_Permutation H. by apply NoDup_app in H as [? _]. Qed.

(** A part of a list is replaced. *)
Lemma submseteq_frame {A} (l l' x y z : list A) : x ⊆+ y -> l ≡ₚ x ++ z -> l' ≡ₚ y ++ z -> l ⊆+ l'.
Proof. intros H -> ->. by apply submseteq_app. Qed.

Lemma Forall_submseteq_app {A} (P : A -> Prop) l new k : Forall P new -> Forall P k -> l ⊆+ new ++ k -> Forall P l.
Proof.
  intros Hn Hk Hs. apply Forall_forall. intros x Hx. rewrite Forall_forall in Hn. rewrite Forall_forall in Hk.
  assert (x ∈ new ++ k) as [?|?]%elem_of_app by by eapply elem_of_submseteq.
  all: auto.
Qed.

Lemma flat_map_singleton {A B} (f : A -> B) l : flat_map (fun x => [f x]) l = f <$> l.
Proof. induction l as [|x l IH]; [done|]. cbn. by rewrite IH. Qed.

Lemma flat_map_fmap {A B C} (f : A -> B) (g : B -> list C) l : flat_map g (f <$> l) = flat_map (fun x => g (f x)) l.
Proof. induction l as [|x l IH]; [done|]. cbn. by rewrite IH. Qed.

Lemma StronglySorted_app_inv {A} (R : relation A) l1 l2 :
  StronglySorted R (l1 ++ l2) <->
  StronglySorted R l1 /\ StronglySorted R l2 /\ (forall x y, x ∈ l1 -> y ∈ l2 -> R x y).
Proof.
  induction l1 as [|a l1 IH]; cbn.
  - split; [intros H; split_and!; [constructor|done|by intros ?? ?%not_elem_of_nil]|by intros (_ & ? & _)].
  - split.
    + intros [Hs Hf]%StronglySorted_inv. apply IH in Hs as (H1 & H2 & H3). apply Forall_app in Hf as [Hf1 Hf2].
      split_and!; [by constructor|done|]. intros x y [->|Hx]%elem_of_cons Hy; [|by apply H3]. rewrite Forall_forall in Hf2. auto.
    + intros ([Hs Hf]%StronglySorted_inv & H2 & H3). constructor; [apply IH; split_and!; [done..|]|].
      * intros x y Hx. apply H3. set_solver.
      * apply Forall_app_2; [done|]. apply Forall_forall. intros y. apply H3. set_solver.
Qed.

Lemma StronglySorted_take_drop {A} (R : relation A) l n x y :
  StronglySorted R l -> x ∈ take n l -> y ∈ drop n l -> R x y.
Proof.
  intros Hs. revert n. induction Hs as [|a l _ IH Ha]; intros n Hx Hy.
  - rewrite take_nil in Hx. by apply not_elem_of_nil in Hx.
  - destruct n as [|n]; cbn in Hx, Hy; [by apply not_elem_of_nil in Hx|].
    apply elem_of_cons in Hx as [->|Hx]; [|by eapply IH].
    rewrite Forall_forall in Ha. apply Ha. eapply elem_of_sublist; [exact Hy|apply sublist_drop].
Qed.

(** The least elements of a sorted list satisfy a downward closed predicate, as
    many of them as satisfy it at all. *)
Lemma StronglySorted_take_filter {A} (R : relation A) (f : A -> bool) l n :
  StronglySorted R l -> (forall x y, R x y -> f y = true -> f x = true) ->
  (n <= length (List.filter f l))%nat -> Forall (fun x => f x = true) (take n l).
Proof.
  intros Hs Hf. revert n. induction Hs as [|x l Hs IH Hx]; intros n Hn; [by rewrite take_nil|].
  destruct n as [|n]; [constructor|]. cbn [List.filter] in Hn. destruct (f x) eqn:Ef.
  - constructor; [done|]. apply IH. cbn in Hn. lia.
  - destruct (List.filter f l) as [|y k] eqn:El; [cbn in Hn; lia|].
    assert (y ∈ List.filter f l) as Hy by (rewrite El; apply elem_of_cons; by left).
    apply elem_of_filter_bool in Hy as [Hy Hfy]. rewrite Forall_forall in Hx.
    by rewrite (Hf x y (Hx y Hy) Hfy) in Ef.
Qed.

Lemma filter_bool_filter {A} (f g : A -> bool) l :
  List.filter f (List.filter g l) = List.filter (fun x => g x && f x) l.
Proof.
  induction l as [|x l IH]; [done|]. cbn. destruct (g x); cbn; [|done]. by rewrite IH.
Qed.

Lemma find_where_app {R} (p : R -> bool) l1 l2 :
  find_where p (l1 ++ l2) = match find_where p l1 with Some r => Some r | None => find_where p l2 end.
Proof. induction l1 as [|r l1 IH]; [done|]. cbn. by destruct (p r). Qed.

Lemma StronglySorted_filter {A} (R : relation A) (f : A -> bool) l :
  StronglySorted R l -> StronglySorted R (List.filter f l).
Proof.
  induction 1 as [|x l Hl IH Hx]; cbn; [constructor|]. destruct (f x); [|done].
  constructor; [done|]. rewrite Forall_forall in Hx |- *.
  intros y [Hy _]%list_elem_of_In%List.filter_In. by apply Hx, list_elem_of_In.
Qed.

Lemma StronglySorted_impl {A} (R R' : relation A) l :
  (forall x y, R x y -> R' x y) -> StronglySorted R l -> StronglySorted R' l.
Proof.
  intros Himp. induction 1 as [|x l _ IH Hx]; [constructor|]. constructor; [done|].
  eapply Forall_impl; [exact Hx|]. auto.
Qed.

Lemma Sorted_snoc {A} (R : relation A) l y :
  Sorted R l -> (forall x, last l = Some x -> R x y) -> Sorted R (l ++ [y]).
Proof.
  induction 1 as [|x l Hl IH Hx]; intros Hy; cbn; [by repeat constructor|].
  constructor.
  - apply IH. intros z Hz. apply Hy. rewrite last_cons. by rewrite Hz.
  - destruct l; cbn; constructor; [by apply Hy|by apply HdRel_inv in Hx].
Qed.

Lemma Sorted_snoc_inv {A} (R : relation A) l y :
  Sorted R (l ++ [y]) -> Sorted R l /\ forall x, last l = Some x -> R x y.
Proof.
  induction l as [|x l IH]; cbn; [by split|]. intros [Hs Hd]%Sorted_inv. destruct (IH Hs) as [Hl Hy]. split.
  - constructor; [done|]. destruct l; constructor. by apply HdRel_inv in Hd.
  - intros z. rewrite last_cons. destruct (last l) eqn:Hlast; [by intros [= <-]; auto|]. intros [= <-].
    apply last_None in Hlast as ->. by apply HdRel_inv in Hd.
Qed.

(** A greatest last element stays last. *)
Lemma js_sort_snoc {A} (le : A -> A -> bool) l y :
  Forall (fun x => le x y = true) l -> js_sort le (l ++ [y]) = js_sort le l ++ [y].
Proof.
  assert (forall x k, le x y = true -> insert_sorted le x (k ++ [y]) = insert_sorted le x k ++ [y]) as Hins.
  { intros x k Hx. induction k as [|z k IH]; cbn; [by rewrite Hx|]. destruct (le x z); [done|]. by rewrite IH. }
  induction 1 as [|x l Hx _ IH]; [done|].
  change (insert_sorted le x (js_sort le (l ++ [y])) = insert_sorted le x (js_sort le l) ++ [y]).
  by rewrite IH, Hins.
Qed.

(** Sorting and selecting commute when ties are equal. *)
Lemma js_sort_map {A B} (le : A -> A -> bool) (le' : B -> B -> bool) (f : A -> B) l :
  (forall x y, le' (f x) (f y) = le x y) -> js_sort le' (List.map f l) = List.map f (js_sort le l).
Proof.
  intros Hf. unfold js_sort. induction l as [|x l IH]; [done|]. cbn. rewrite IH. generalize (foldr (insert_sorted le) [] l) as k. clear IH.
  induction k as [|y k IH]; [done|]. cbn. rewrite Hf. destruct (le x y); [done|]. cbn. by rewrite IH.
Qed.

Lemma js_sort_filter {A} (le : A -> A -> bool) (f : A -> bool) l :
  (forall x y, le x y = true \/ le y x = true) ->
  (forall x y z, le x y = true -> le y z = true -> le x z = true) ->
  (forall x y, x ∈ l -> y ∈ l -> le x y = true -> le y x = true -> x = y) ->
  js_sort le (List.filter f l) = List.filter f (js_sort le l).
Proof.
  intros Htot Htrans Hanti.
  rewrite (js_sort_unique le (fun _ => True) (fun x y _ _ => Htot x y) (fun x y z _ _ _ => Htrans x y z)
    _ (List.filter f (js_sort le l))).
  - apply js_sort_sorted_id, StronglySorted_filter, (js_sort_sorted le (fun _ => True) (fun x y _ _ => Htot x y)
      (fun x y z _ _ _ => Htrans x y z)). by apply Forall_true.
  - by apply Forall_true.
  - intros x y [Hx _]%elem_of_filter_bool [Hy _]%elem_of_filter_bool. auto.
  - apply filter_bool_perm. by rewrite js_sort_perm.
Qed.

Lemma StronglySorted_strict {A} (k : A -> Z) l :
  StronglySorted (fun x y => k x <= k y)%Z l -> NoDup (k <$> l) -> StronglySorted (fun x y => k x < k y)%Z l.
Proof.
  induction 1 as [|x l _ IH Hx]; cbn; [constructor|]. rewrite NoDup_cons. intros [Hn Hd].
  constructor; [auto|]. rewrite Forall_forall in Hx |- *. intros y Hy. specialize (Hx y Hy).
  assert (k x <> k y); [|lia]. intros Heq. apply Hn, list_elem_of_fmap. by exists y.
Qed.

(** What lies beyond the last element of a prefix of an increasing list. *)
Lemma filter_beyond {A} (k : A -> Z) l1 l2 r :
  StronglySorted (fun x y => k x < k y)%Z (l1 ++ l2) -> last l1 = Some r ->
  List.filter (fun x => (k r <? k x)%Z) (l1 ++ l2) = l2.
Proof.
  intros Hs Hr. apply last_Some in Hr as [l ->]. rewrite <- app_assoc in *. cbn in *.
  induction l as [|x l IH]; cbn in *.
  - rewrite Z.ltb_irrefl. apply StronglySorted_inv in Hs as [_ Hr]. apply filter_bool_all.
    eapply Forall_impl; [exact Hr|]. intros x Hx. by apply Z.ltb_lt.
  - apply StronglySorted_inv in Hs as [Hs Hx]. rewrite Forall_app, Forall_cons in Hx.
    destruct Hx as (_ & Hx & _). replace (k r <? k x)%Z with false; [by apply IH|].
    symmetry. apply Z.ltb_ge. lia.
Qed.

Lemma NoDup_fmap_snoc {A B} (f : A -> B) l x :
  NoDup (f <$> l) -> f x ∉ (f <$> l) -> NoDup (f <$> (l ++ [x])).
Proof.
  intros Hl Hx. rewrite fmap_app. apply NoDup_app. split_and!; [done| |apply NoDup_singleton].
  cbn. set_solver.
Qed.

Lemma count_where_none {R} (f : R -> bool) t : (forall x, x ∈ t -> f x = false) -> count_where f t = 0%nat.
Proof.
  intros H. destruct (count_where f t) eqn:E; [done|].
  destruct (count_where_pos f t) as (x & Hx & Hf); [by rewrite E|]. by rewrite H in Hf.
Qed.

(** The one row a conditional update matched. *)
Lemma count_where_one {R} (w : R -> bool) t :
  count_where w t = 1%nat -> exists l1 r l2, t = l1 ++ r :: l2 /\ w r = true /\
    forall f, update_where w f t = l1 ++ f r :: l2.
Proof.
  induction t as [|r t IH]; [done|]. intros H. unfold count_where in *. cbn in H. destruct (w r) eqn:E; cbn in H.
  - injection H as H. exists [], r, t. split_and!; [done..|]. intros f.
    unfold update_where at 1. rewrite fmap_cons, E. cbn. f_equal. exact (update_where_id w f t H).
  - destruct (IH H) as (l1 & r' & l2 & -> & Hr' & Hu). exists (r :: l1), r', l2. split_and!; [done..|].
    intros f. rewrite <- app_comm_cons, <- Hu. unfold update_where at 1. by rewrite fmap_cons, E.
Qed.

Lemma jsmap_get_elem {K V} `{EqDecision K} (k : K) (m : list (K * V)) v : JsMap.get k m = Some v -> (k, v) ∈ m.
Proof.
  induction m as [|[k' v'] m IH]; [done|]. cbn. case_decide as H; [intros [= ->]; subst; by left|]. intros Hg. right. auto.
Qed.

Lemma jsmap_set_Forall {K V} `{EqDecision K} (P : K * V -> Prop) (k : K) v (m : list (K * V)) :
  Forall P m -> P (k, v) -> Forall P (JsMap.set k v m).
Proof.
  intros Hm Hp. induction Hm as [|[k' v'] m Hx Hm IH]; cbn; [by apply Forall_singleton|]. case_decide; by constructor.
Qed.

Lemma Forall_filter_bool {A} (P : A -> Prop) (f : A -> bool) l : Forall P l -> Forall P (List.filter f l).
Proof. rewrite !Forall_forall. intros H x [Hx _]%elem_of_filter_bool. auto. Qed.
