(* ===== verification/DecimalText.v ===== *)
(** * Decimal text

    [BigInt(text)] on digit strings, [BigInt.prototype.toString],
    [String.prototype.padStart]/[padEnd] and the digit classes of the regular
    expressions in the sources, with their round trips. *)

From S2P Require Import Prelude JsData.
From Stdlib Require Import Ascii.

Local Open Scope Z_scope.
#[local] Arguments String.append !_ _ : simpl nomatch.

(** [\d] *)
Definition is_digit (c : ascii) : bool :=
  let n := nat_of_ascii c in (48 <=? n)%nat && (n <=? 57)%nat.

Definition digit_val (c : ascii) : Z := Z.of_nat (nat_of_ascii c) - 48.

(** [^\d*$] *)
Fixpoint all_digits (s : string) : bool :=
  match s with
  | EmptyString => true
  | String c s => is_digit c && all_digits s
  end.

(** Longest prefix of digits and what follows it. *)
Fixpoint span_digits (s : string) : string * string :=
  match s with
  | EmptyString => (EmptyString, EmptyString)
  | String c r =>
      if is_digit c then let '(w, t) := span_digits r in (String c w, t)
      else (EmptyString, s)
  end.

(** [BigInt(s)] for a digit string [s]. *)
Fixpoint dec_value_acc (acc : Z) (s : string) : Z :=
  match s with
  | EmptyString => acc
  | String c s => dec_value_acc (10 * acc + digit_val c) s
  end.
Definition dec_value (s : string) : Z := dec_value_acc 0 s.

(** [n.toString()] for a non-negative [BigInt]. *)
Definition dec_string (n : Z) : string := pretty (Z.to_N n).

Fixpoint repeat_char (c : ascii) (n : nat) : string :=
  match n with O => EmptyString | S n => String c (repeat_char c n) end.

(** [s.padStart(n, c)] and [s.padEnd(n, c)]. *)
Definition pad_start (n : nat) (c : ascii) (s : string) : string :=
  String.append (repeat_char c (n - String.length s)) s.
Definition pad_end (n : nat) (c : ascii) (s : string) : string :=
  String.append s (repeat_char c (n - String.length s)).

(** ** Lemmas *)

Lemma append_length s1 s2 :
  String.length (String.append s1 s2) = (String.length s1 + String.length s2)%nat.
Proof. induction s1; cbn; auto. Qed.

Lemma append_nil_r s : String.append s EmptyString = s.
Proof. induction s; cbn; congruence. Qed.

Lemma all_digits_append s1 s2 :
  all_digits (String.append s1 s2) = all_digits s1 && all_digits s2.
Proof. induction s1 as [|c s1 IH]; cbn; [done|]. rewrite IH. by destruct (is_digit c). Qed.

Lemma dec_value_acc_append acc s1 s2 :
  dec_value_acc acc (String.append s1 s2) = dec_value_acc (dec_value_acc acc s1) s2.
Proof. revert acc. induction s1; cbn; auto. Qed.

Lemma dec_value_acc_shift acc s :
  dec_value_acc acc s = acc * 10 ^ Z.of_nat (String.length s) + dec_value s.
Proof.
  unfold dec_value. revert acc. induction s as [|c s IH]; intros acc; cbn [dec_value_acc String.length].
  { lia. }
  rewrite IH, (IH (10 * 0 + _)), Nat2Z.inj_succ, Z.pow_succ_r by lia. ring.
Qed.

Lemma is_digit_range c : is_digit c = true -> 0 <= digit_val c <= 9.
Proof.
  unfold is_digit, digit_val. intros [H1 H2]%andb_true_iff.
  apply Nat.leb_le in H1, H2. lia.
Qed.

Lemma dec_value_range s :
  all_digits s = true -> 0 <= dec_value s < 10 ^ Z.of_nat (String.length s).
Proof.
  induction s as [|c s IH]; cbn [all_digits String.length]; [cbn; lia|].
  intros [Hc Hs]%andb_true_iff. unfold dec_value. cbn [dec_value_acc].
  rewrite dec_value_acc_shift, Nat2Z.inj_succ, Z.pow_succ_r by lia.
  pose proof (is_digit_range c Hc). specialize (IH Hs). nia.
Qed.

Lemma repeat_char_length c n : String.length (repeat_char c n) = n.
Proof. induction n; cbn; auto. Qed.

Lemma all_digits_repeat n : all_digits (repeat_char "0"%char n) = true.
Proof. induction n; cbn; auto. Qed.

Lemma dec_value_zeros n : dec_value (repeat_char "0"%char n) = 0.
Proof. unfold dec_value. induction n; cbn; auto. Qed.

Lemma span_digits_spec s :
  s = String.append (fst (span_digits s)) (snd (span_digits s)) /\
  all_digits (fst (span_digits s)) = true.
Proof.
  induction s as [|c s [IH1 IH2]]; cbn; [done|].
  destruct (is_digit c) eqn:Ec; [|done].
  destruct (span_digits s) as [w t] eqn:Es; cbn in *.
  split; [by rewrite IH1 at 1|by rewrite Ec].
Qed.

Definition starts_nondigit (s : string) : bool :=
  match s with EmptyString => true | String c _ => negb (is_digit c) end.

Lemma span_digits_app w t :
  all_digits w = true -> starts_nondigit t = true ->
  span_digits (String.append w t) = (w, t).
Proof.
  intros Hw Ht. induction w as [|c w IH]; cbn in *.
  { destruct t as [|c t]; cbn in *; [done|]. by apply negb_true_iff in Ht as ->. }
  apply andb_true_iff in Hw as [-> Hw]. by rewrite (IH Hw).
Qed.

(** *** Printing *)

Lemma pretty_N_char_digit n :
  (n < 10)%N -> is_digit (pretty_N_char n) = true /\ digit_val (pretty_N_char n) = Z.of_N n.
Proof.
  intros Hn. destruct n as [|p]; [done|]. do 4 (try destruct p as [p|p|]); by (done || lia).
Qed.

Lemma pretty_N_go_digits n s :
  all_digits (pretty_N_go n s) = all_digits s /\
  dec_value_acc 0 (pretty_N_go n s) = dec_value_acc (Z.of_N n) s.
Proof.
  revert s. induction (N.lt_wf_0 n) as [n _ IH]; intros s.
  destruct (decide (n = 0)%N) as [->|Hn]; [by rewrite pretty_N_go_0|].
  rewrite pretty_N_go_step by lia.
  assert (n mod 10 < 10)%N as Hm by (apply N.mod_lt; lia).
  destruct (pretty_N_char_digit _ Hm) as [Hd Hv].
  destruct (IH (n / 10)%N ltac:(apply N.div_lt; lia)
              (String (pretty_N_char (n mod 10)) s)) as [IH1 IH2].
  rewrite IH1, IH2. cbn. rewrite Hd, Hv. split; [done|]. f_equal.
  pose proof (N.div_mod n 10 ltac:(lia)). lia.
Qed.

Lemma pretty_N_go_length n s k :
  (n < 10 ^ N.of_nat k)%N ->
  (String.length (pretty_N_go n s) <= k + String.length s)%nat.
Proof.
  revert n s. induction k as [|k IH]; intros n s Hn.
  { assert (n = 0)%N as -> by (cbn in Hn; lia). by rewrite pretty_N_go_0. }
  destruct (decide (n = 0)%N) as [->|Hn0]; [rewrite pretty_N_go_0; lia|].
  rewrite pretty_N_go_step by lia. etrans; [apply IH|cbn [String.length]; lia].
  rewrite Nat2N.inj_succ, N.pow_succ_r' in Hn. apply N.Div0.div_lt_upper_bound. exact Hn.
Qed.

Lemma pretty_N_go_nonempty n s :
  (0 < n)%N -> (String.length s < String.length (pretty_N_go n s))%nat.
Proof.
  revert s. induction (N.lt_wf_0 n) as [n _ IH]; intros s Hn.
  rewrite pretty_N_go_step by lia.
  destruct (decide (n / 10 = 0)%N) as [->|H0]; [rewrite pretty_N_go_0; cbn; lia|].
  assert (n / 10 < n)%N as Hlt by (apply N.div_lt; lia).
  specialize (IH _ Hlt (String (pretty_N_char (n mod 10)) s)).
  cbn [String.length] in IH. apply Nat.lt_trans with (2:=IH ltac:(apply N.neq_0_lt_0; exact H0)). lia.
Qed.

Lemma dec_string_digits n : all_digits (dec_string n) = true.
Proof.
  unfold dec_string, pretty, pretty_N. case_decide; [done|].
  by destruct (pretty_N_go_digits (Z.to_N n) EmptyString) as [-> _].
Qed.

Lemma dec_value_dec_string n : 0 <= n -> dec_value (dec_string n) = n.
Proof.
  intros Hn. unfold dec_string, pretty, pretty_N, dec_value. case_decide as H0.
  { change (0 = n). lia. }
  destruct (pretty_N_go_digits (Z.to_N n) EmptyString) as [_ ->]. cbn. lia.
Qed.

Lemma dec_string_length n k :
  (0 < k)%nat -> 0 <= n < 10 ^ Z.of_nat k -> (String.length (dec_string n) <= k)%nat.
Proof.
  intros Hk Hn. unfold dec_string, pretty, pretty_N. case_decide; [cbn; lia|].
  rewrite <- (Nat.add_0_r k).
  apply (pretty_N_go_length _ EmptyString). apply N2Z.inj_lt.
  rewrite N2Z.inj_pow, nat_N_Z, Z2N.id by lia. apply Hn.
Qed.

Lemma dec_string_nonempty n : (0 < String.length (dec_string n))%nat.
Proof.
  unfold dec_string, pretty, pretty_N. case_decide; [cbn; lia|].
  apply (pretty_N_go_nonempty _ EmptyString). lia.
Qed.

#[export] Hint Resolve dec_string_digits dec_string_nonempty all_digits_repeat : earn.

(** A padded field has the width asked for and the same value. *)
Lemma pad_start_digits n k :
  0 <= n < 10 ^ Z.of_nat k -> (0 < k)%nat ->
  let s := pad_start k "0"%char (dec_string n) in
  all_digits s = true /\ String.length s = k /\ dec_value s = n.
Proof.
  intros Hn Hk. cbn zeta. unfold pad_start. pose proof (dec_string_length n k Hk Hn).
  rewrite all_digits_append, all_digits_repeat, dec_string_digits, append_length, repeat_char_length.
  split_and!; [done|lia|]. unfold dec_value.
  rewrite dec_value_acc_append. fold (dec_value (repeat_char "0" (k - String.length (dec_string n)))).
  rewrite dec_value_zeros. apply dec_value_dec_string. lia.
Qed.

(** ** Separators *)

(** [s.includes(c)] for one character. *)
Fixpoint has_char (c : ascii) (s : string) : bool :=
  match s with EmptyString => false | String d s => Ascii.eqb c d || has_char c s end.

Lemma has_char_append c s t : has_char c (String.append s t) = has_char c s || has_char c t.
Proof. induction s as [|d s IH]; [done|]. cbn. by rewrite IH, orb_assoc. Qed.

Lemma digits_no_char c s : is_digit c = false -> all_digits s = true -> has_char c s = false.
Proof.
  intros Hc. induction s as [|d s IH]; [done|]. cbn [all_digits has_char].
  intros [Hd Hs]%andb_true_iff. rewrite (IH Hs), orb_false_r.
  apply Ascii.eqb_neq. intros ->. congruence.
Qed.

Lemma dec_string_no_char c n : is_digit c = false -> has_char c (dec_string n) = false.
Proof. intros Hc. apply digits_no_char; [done|apply dec_string_digits]. Qed.

Lemma pad_start_no_char c n v : is_digit c = false -> has_char c (pad_start n "0"%char (dec_string v)) = false.
Proof.
  intros Hc. apply digits_no_char; [done|]. unfold pad_start.
  by rewrite all_digits_append, all_digits_repeat, dec_string_digits.
Qed.

(** Two texts cut at the first separator of both, and at the last. *)
Lemma first_separator c x x' y y' :
  has_char c x = false -> has_char c x' = false ->
  String.append x (String c y) = String.append x' (String c y') -> x = x' /\ y = y'.
Proof.
  revert x'. induction x as [|d x IH]; intros [|d' x']; cbn; intros Hx Hx' H.
  - by injection H.
  - injection H as -> _. by rewrite Ascii.eqb_refl in Hx'.
  - injection H as <- _. by rewrite Ascii.eqb_refl in Hx.
  - apply orb_false_iff in Hx as [_ Hx], Hx' as [_ Hx']. injection H as <- H.
    by destruct (IH _ Hx Hx' H) as [<- <-].
Qed.

Lemma last_separator c x x' y y' :
  has_char c y = false -> has_char c y' = false ->
  String.append x (String c y) = String.append x' (String c y') -> x = x' /\ y = y'.
Proof.
  intros Hy Hy'. revert x'. induction x as [|d x IH]; intros [|d' x']; cbn; intros H.
  - by injection H.
  - injection H as _ H. rewrite H, has_char_append in Hy. cbn in Hy. by rewrite Ascii.eqb_refl, orb_true_r in Hy.
  - injection H as _ H. rewrite <- H, has_char_append in Hy'. cbn in Hy'. by rewrite Ascii.eqb_refl, orb_true_r in Hy'.
  - injection H as <- H. by destruct (IH _ H) as [<- <-].
Qed.
