(* ===== verification/Calendar.v ===== *)
(** * ECMAScript dates

    [Date] values as the language defines them: a time value is a number of
    milliseconds since the epoch or NaN ([None]), clipped to +-8.64e15, with
    the UTC accessors computed from it.  [Date.UTC], [getUTCFullYear],
    [getUTCMonth], [getUTCDate], the time-of-day accessors and
    [toISOString] are the ones the sources use. *)

From S2P Require Import Prelude JsData DecimalText.

Local Open Scope Z_scope.

Definition DAY_MS : Z := 86400000.

(** A time value; [None] is NaN. *)
Abbreviation JsDate := (option Z).

Definition MAX_TIME : Z := 8640000000000000.

(** TimeClip *)
Definition time_clip (t : Z) : JsDate :=
  if (Z.abs t <=? MAX_TIME) then Some t else None.

(** Numeric comparison of time values: every comparison with NaN is false. *)
Definition date_lt (a b : JsDate) : bool :=
  match a, b with Some x, Some y => x <? y | _, _ => false end.
Definition date_ge (a b : JsDate) : bool :=
  match a, b with Some x, Some y => y <=? x | _, _ => false end.
Definition date_gt (a b : JsDate) : bool := date_lt b a.
Definition is_nan (a : JsDate) : bool :=
  match a with Some _ => false | None => true end.

(** ** Years *)

(** DayFromYear: day number of the first day of a year. *)
Definition day_from_year (y : Z) : Z :=
  365 * (y - 1970) + (y - 1969) / 4 - (y - 1901) / 100 + (y - 1601) / 400.

Definition leap (y : Z) : bool :=
  (y mod 4 =? 0) && (negb (y mod 100 =? 0) || (y mod 400 =? 0)).

(** YearFromTime on day numbers: the estimate is off by at most one. *)
Definition year_from_day (d : Z) : Z :=
  let y := 1970 + (400 * d) / 146097 in
  if day_from_year y >? d then y - 1
  else if day_from_year (y + 1) <=? d then y + 1
  else y.

(** ** Months *)

(** Day of the year on which month [m] (0-based) starts; 12 gives the length. *)
Definition month_start (y m : Z) : Z :=
  let l := if leap y then 1 else 0 in
  if m <=? 0 then 0 else if m =? 1 then 31 else if m =? 2 then 59 + l
  else if m =? 3 then 90 + l else if m =? 4 then 120 + l else if m =? 5 then 151 + l
  else if m =? 6 then 181 + l else if m =? 7 then 212 + l else if m =? 8 then 243 + l
  else if m =? 9 then 273 + l else if m =? 10 then 304 + l else if m =? 11 then 334 + l
  else 365 + l.

(** MonthFromTime, from the year and the day within it. *)
Definition month_of_day (y yd : Z) : Z :=
  if yd <? month_start y 1 then 0 else if yd <? month_start y 2 then 1
  else if yd <? month_start y 3 then 2 else if yd <? month_start y 4 then 3
  else if yd <? month_start y 5 then 4 else if yd <? month_start y 6 then 5
  else if yd <? month_start y 7 then 6 else if yd <? month_start y 8 then 7
  else if yd <? month_start y 9 then 8 else if yd <? month_start y 10 then 9
  else if yd <? month_start y 11 then 10 else 11.

(** ** Accessors *)

Definition day_of (t : Z) : Z := t / DAY_MS.
Definition utc_full_year (t : Z) : Z := year_from_day (day_of t).
Definition day_within_year (t : Z) : Z := day_of t - day_from_year (utc_full_year t).
Definition utc_month (t : Z) : Z := month_of_day (utc_full_year t) (day_within_year t).
Definition utc_date (t : Z) : Z :=
  day_within_year t - month_start (utc_full_year t) (utc_month t) + 1.
Definition utc_hours (t : Z) : Z := (t / 3600000) mod 24.
Definition utc_minutes (t : Z) : Z := (t / 60000) mod 60.
Definition utc_seconds (t : Z) : Z := (t / 1000) mod 60.
Definition utc_milliseconds (t : Z) : Z := t mod 1000.

(** MakeDay for the first day of a month; the month may exceed 11. *)
Definition month_first_day (y m : Z) : Z :=
  let ym := y + m / 12 in day_from_year ym + month_start ym (m mod 12).

(** [Date.UTC(y, m, 1)]: a year from 0 to 99 means 1900 to 1999. *)
Definition date_utc_month (y m : Z) : JsDate :=
  let y' := if (0 <=? y) && (y <=? 99) then 1900 + y else y in
  time_clip (month_first_day y' m * DAY_MS).

(** ** Months as a linear order

    [month_index] numbers calendar months consecutively. *)

Definition month_index (t : Z) : Z := utc_full_year t * 12 + utc_month t.

(** First instant of the month with the given index. *)
Definition month_instant (i : Z) : Z := month_first_day 0 i * DAY_MS.

(** ** Lemmas *)

Lemma month_instant_eq i : month_first_day 0 i * DAY_MS = month_instant i.
Proof. done. Qed.

Ltac div_lia := Z.div_mod_to_equations; lia.

Lemma year_length y :
  day_from_year (y + 1) = day_from_year y + 365 + (if leap y then 1 else 0).
Proof.
  unfold day_from_year, leap.
  destruct (y mod 4 =? 0) eqn:E4, (y mod 100 =? 0) eqn:E100, (y mod 400 =? 0) eqn:E400;
    cbn; reflect_hyps; div_lia.
Qed.

Lemma leap_bit y : 0 <= (if leap y then 1 else 0) <= 1.
Proof. destruct (leap y); lia. Qed.

Lemma year_from_day_spec d :
  day_from_year (year_from_day d) <= d < day_from_year (year_from_day d + 1).
Proof.
  unfold year_from_day. set (y := 1970 + 400 * d / 146097).
  assert (day_from_year (y - 1) <= d /\ d < day_from_year (y + 2)) as [Hlo Hhi].
  { unfold day_from_year, y. div_lia. }
  destruct (day_from_year y >? d) eqn:E1; reflect_hyps.
  { replace (y - 1 + 1) with y by lia. lia. }
  destruct (day_from_year (y + 1) <=? d) eqn:E2; reflect_hyps; [|lia].
  replace (y + 1 + 1) with (y + 2) by lia. lia.
Qed.

Lemma day_from_year_mono y1 y2 : y1 <= y2 -> day_from_year y1 <= day_from_year y2.
Proof. intros. unfold day_from_year. div_lia. Qed.

Lemma year_from_day_unique d y :
  day_from_year y <= d < day_from_year (y + 1) -> year_from_day d = y.
Proof.
  intros H. pose proof (year_from_day_spec d) as Hs.
  destruct (Z.lt_trichotomy (year_from_day d) y) as [Hlt|[->|Hgt]]; [|done|].
  - pose proof (day_from_year_mono (year_from_day d + 1) y). lia.
  - pose proof (day_from_year_mono (y + 1) (year_from_day d)). lia.
Qed.

Lemma month_start_table y (l := if leap y then 1 else 0) :
  month_start y 0 = 0 /\ month_start y 1 = 31 /\ month_start y 2 = 59 + l /\
  month_start y 3 = 90 + l /\ month_start y 4 = 120 + l /\ month_start y 5 = 151 + l /\
  month_start y 6 = 181 + l /\ month_start y 7 = 212 + l /\ month_start y 8 = 243 + l /\
  month_start y 9 = 273 + l /\ month_start y 10 = 304 + l /\ month_start y 11 = 334 + l /\
  month_start y 12 = 365 + l.
Proof. by unfold month_start. Qed.

(** Expose the month table of year [y] to [lia]. *)
Ltac month_table y :=
  let H := fresh "Htab" in let Hl := fresh "Hleap" in
  pose proof (month_start_table y) as H; pose proof (leap_bit y) as Hl;
  generalize dependent (if leap y then 1 else 0); intros; cbv zeta in *.

Lemma month_of_day_spec y yd :
  0 <= yd < month_start y 12 ->
  0 <= month_of_day y yd <= 11 /\
  month_start y (month_of_day y yd) <= yd < month_start y (month_of_day y yd + 1).
Proof.
  intros H. unfold month_of_day. month_table y.
  repeat match goal with |- context [if (?a <? ?b) then _ else _] =>
    destruct (Z.ltb_spec a b) end;
  match goal with |- context [month_start y (?a + 1)] =>
    let v := eval vm_compute in (a + 1) in change (a + 1) with v end; lia.
Qed.

(** Case on a month number, with the successor month in the goal computed. *)
Ltac month_cases m :=
  destruct m as [|p|p]; [|do 4 (try destruct p as [p|p|])|]; try (exfalso; lia);
  match goal with |- context [month_start ?y (?a + 1)] =>
    let v := eval vm_compute in (a + 1) in change (a + 1) with v end.

Lemma month_start_succ y m :
  0 <= m <= 11 -> month_start y m + 28 <= month_start y (m + 1).
Proof.
  intros Hm. month_table y. month_cases m; lia.
Qed.

Lemma month_length_max y m :
  0 <= m <= 11 -> month_start y (m + 1) <= month_start y m + 31.
Proof.
  intros Hm. month_table y. month_cases m; lia.
Qed.

Lemma month_start_year y : month_start y 12 = day_from_year (y + 1) - day_from_year y.
Proof. rewrite year_length. pose proof (month_start_table y). cbv zeta in *. lia. Qed.

Lemma month_first_day_year y m : month_first_day y m = month_first_day 0 (12 * y + m).
Proof.
  unfold month_first_day.
  replace (0 + (12 * y + m) / 12) with (y + m / 12) by div_lia.
  by replace ((12 * y + m) mod 12) with (m mod 12) by div_lia.
Qed.

Lemma month_first_day_succ y m : month_first_day y m + 28 <= month_first_day y (m + 1).
Proof.
  unfold month_first_day.
  destruct (decide (m mod 12 = 11)) as [E|E].
  - replace ((m + 1) / 12) with (m / 12 + 1) by div_lia.
    replace ((m + 1) mod 12) with 0 by div_lia. rewrite E.
    replace (y + (m / 12 + 1)) with (y + m / 12 + 1) by lia.
    set (z := y + m / 12). pose proof (month_start_succ z 11).
    pose proof (month_start_year z). change (11 + 1) with 12 in *.
    change (month_start (z + 1) 0) with 0. lia.
  - replace ((m + 1) / 12) with (m / 12) by div_lia.
    replace ((m + 1) mod 12) with (m mod 12 + 1) by div_lia.
    pose proof (month_start_succ (y + m / 12) (m mod 12) ltac:(div_lia)). lia.
Qed.

Lemma month_instant_lt i j : i < j -> month_instant i < month_instant j.
Proof.
  intros Hij. unfold month_instant, DAY_MS.
  assert (forall n : nat, month_first_day 0 i < month_first_day 0 (i + Z.of_nat (S n))) as H.
  { induction n as [|n IH].
    - pose proof (month_first_day_succ 0 i). change (Z.of_nat 1) with 1. lia.
    - pose proof (month_first_day_succ 0 (i + Z.of_nat (S n))).
      replace (i + Z.of_nat (S (S n))) with (i + Z.of_nat (S n) + 1) by lia. lia. }
  specialize (H (Z.to_nat (j - i - 1))).
  replace (i + Z.of_nat (S (Z.to_nat (j - i - 1)))) with j in H by lia. lia.
Qed.

Lemma month_instant_lt_iff i j : month_instant i < month_instant j <-> i < j.
Proof.
  split; [|apply month_instant_lt]. intros H.
  destruct (Z.lt_trichotomy i j) as [?|[->|Hgt]]; [done|lia|].
  pose proof (month_instant_lt _ _ Hgt). lia.
Qed.

Lemma day_within_year_spec t :
  0 <= day_within_year t < month_start (utc_full_year t) 12.
Proof.
  rewrite month_start_year. unfold day_within_year, utc_full_year.
  pose proof (year_from_day_spec (day_of t)). lia.
Qed.

Lemma utc_month_range t : 0 <= utc_month t <= 11.
Proof. apply month_of_day_spec, day_within_year_spec. Qed.

Lemma month_instant_index t :
  month_instant (month_index t) =
  (day_from_year (utc_full_year t) + month_start (utc_full_year t) (utc_month t)) * DAY_MS.
Proof.
  unfold month_instant, month_index, month_first_day. pose proof (utc_month_range t).
  replace (0 + (utc_full_year t * 12 + utc_month t) / 12) with (utc_full_year t) by div_lia.
  by replace ((utc_full_year t * 12 + utc_month t) mod 12) with (utc_month t) by div_lia.
Qed.

Lemma month_instant_next t :
  month_instant (month_index t + 1) =
  (day_from_year (utc_full_year t) + month_start (utc_full_year t) (utc_month t + 1)) * DAY_MS.
Proof.
  unfold month_instant, month_index, month_first_day. pose proof (utc_month_range t).
  set (y := utc_full_year t) in *. set (m := utc_month t) in *. f_equal.
  destruct (decide (m = 11)) as [->|].
  - replace (0 + (y * 12 + 11 + 1) / 12) with (y + 1) by div_lia.
    replace ((y * 12 + 11 + 1) mod 12) with 0 by div_lia.
    change (11 + 1) with 12. rewrite month_start_year.
    change (month_start (y + 1) 0) with 0. lia.
  - replace (0 + (y * 12 + m + 1) / 12) with y by div_lia.
    by replace ((y * 12 + m + 1) mod 12) with (m + 1) by div_lia.
Qed.

(** Every instant lies in exactly one month. *)
Lemma month_index_spec t :
  month_instant (month_index t) <= t < month_instant (month_index t + 1).
Proof.
  rewrite month_instant_index, month_instant_next.
  destruct (month_of_day_spec _ _ (day_within_year_spec t)) as [_ Hr].
  fold (utc_month t) in Hr. unfold day_within_year, day_of, DAY_MS in *. div_lia.
Qed.

Lemma month_index_unique t i :
  month_instant i <= t < month_instant (i + 1) -> month_index t = i.
Proof.
  intros H. pose proof (month_index_spec t) as Hs.
  assert (i < month_index t + 1) by (apply month_instant_lt_iff; lia).
  assert (month_index t < i + 1) by (apply month_instant_lt_iff; lia). lia.
Qed.

Lemma month_index_instant i : month_index (month_instant i) = i.
Proof.
  apply month_index_unique. pose proof (month_instant_lt i (i + 1)). lia.
Qed.

Lemma month_index_lt_iff t i : month_index t < i <-> t < month_instant i.
Proof.
  pose proof (month_index_spec t) as Hs. split; intros H.
  - destruct (decide (month_index t + 1 = i)) as [<-|]; [lia|].
    pose proof (month_instant_lt (month_index t + 1) i). lia.
  - destruct (Z.lt_ge_cases (month_index t) i) as [?|Hge]; [done|].
    assert (~ month_instant (month_index t) < month_instant i); [|lia].
    rewrite month_instant_lt_iff. lia.
Qed.
