(* ===== verification/IsoDate.v ===== *)
(** * ISO 8601 timestamps

    [Date.prototype.toISOString] and the part of [Date.parse] that reads its
    output: [YYYY-MM-DDTHH:mm:ss.sssZ], or a sign and six year digits outside
    the years 0 to 9999.  [date_parse] rejects every other form. *)

From S2P Require Import Prelude JsData DecimalText Calendar.
From Stdlib Require Import Ascii.

Local Open Scope Z_scope.
#[local] Arguments String.append !_ _ : simpl nomatch.

(** ** Printing *)

Definition digits (n : nat) (v : Z) : string := pad_start n "0"%char (dec_string v).

Definition year_text (y : Z) : string :=
  if (0 <=? y) && (y <=? 9999) then digits 4 y
  else String (if y <? 0 then "-"%char else "+"%char) (digits 6 (Z.abs y)).

(** A field followed by a separator and the rest. *)
Definition field (n : nat) (v : Z) (sep : ascii) (rest : string) : string :=
  String.append (digits n v) (String sep rest).

Definition iso_text (t : Z) : string :=
  String.append (year_text (utc_full_year t)) (String "-"%char
    (field 2 (utc_month t + 1) "-" (field 2 (utc_date t) "T"
      (field 2 (utc_hours t) ":" (field 2 (utc_minutes t) ":"
        (field 2 (utc_seconds t) "." (field 3 (utc_milliseconds t) "Z" EmptyString))))))).

(** ** Parsing *)

(** Read exactly [n] digits. *)
Fixpoint take_digits (n : nat) (acc : Z) (s : string) : option (Z * string) :=
  match n with
  | O => Some (acc, s)
  | S n =>
      match s with
      | String c s => if is_digit c then take_digits n (10 * acc + digit_val c) s else None
      | EmptyString => None
      end
  end.

Definition expect (c : ascii) (s : string) : option string :=
  match s with
  | String d s => if Ascii.eqb c d then Some s else None
  | EmptyString => None
  end.

Definition take_field (n : nat) (sep : ascii) (s : string) : option (Z * string) :=
  '(v, s) ← take_digits n 0 s; s ← expect sep s; Some (v, s).

Definition take_year (s : string) : option (Z * string) :=
  match s with
  | String "+" s => take_digits 6 0 s
  | String "-" s => '(v, s) ← take_digits 6 0 s; if v =? 0 then None else Some (- v, s)
  | _ => take_digits 4 0 s
  end.

Definition make_time (y mo d h mi sec ms : Z) : Z :=
  (day_from_year y + month_start y (mo - 1) + (d - 1)) * DAY_MS
  + h * 3600000 + mi * 60000 + sec * 1000 + ms.

(** A field value within bounds. *)
Definition within (lo hi v : Z) : bool := (lo <=? v) && (v <=? hi).

Definition date_parse (s : string) : JsDate :=
  '(y, s) ← take_year s;
  s ← expect "-" s;
  '(mo, s) ← take_field 2 "-" s;
  '(d, s) ← take_field 2 "T" s;
  '(h, s) ← take_field 2 ":" s;
  '(mi, s) ← take_field 2 ":" s;
  '(sec, s) ← take_field 2 "." s;
  '(ms, s) ← take_field 3 "Z" s;
  if within 1 12 mo && within 1 31 d && within 0 59 mi && within 0 59 sec &&
     (within 0 23 h || (h =? 24) && (mi =? 0) && (sec =? 0) && (ms =? 0)) &&
     match s with EmptyString => true | _ => false end
  then time_clip (make_time y mo d h mi sec ms)
  else None.

(** ** Round trip *)

Lemma take_digits_app s n acc rest :
  all_digits s = true -> String.length s = n ->
  take_digits n acc (String.append s rest) = Some (dec_value_acc acc s, rest).
Proof.
  revert n acc. induction s as [|c s IH]; intros n acc Hd <-; cbn in *; [done|].
  apply andb_true_iff in Hd as [Hc Hd]. rewrite Hc. by apply IH.
Qed.

Lemma take_digits_field n v rest :
  0 <= v < 10 ^ Z.of_nat n -> (0 < n)%nat ->
  take_digits n 0 (String.append (digits n v) rest) = Some (v, rest).
Proof.
  intros Hv Hn. destruct (pad_start_digits v n Hv Hn) as (Hd & Hl & Hval).
  unfold digits. rewrite take_digits_app by done. do 2 f_equal. exact Hval.
Qed.

Lemma take_field_spec n v sep rest :
  0 <= v < 10 ^ Z.of_nat n -> (0 < n)%nat ->
  take_field n sep (field n v sep rest) = Some (v, rest).
Proof.
  intros Hv Hn. unfold take_field, field. rewrite take_digits_field by done. cbn.
  by rewrite Ascii.eqb_refl.
Qed.

Lemma digits_head n v rest :
  0 <= v < 10 ^ Z.of_nat n -> (0 < n)%nat ->
  exists c s, String.append (digits n v) rest = String c s /\ is_digit c = true.
Proof.
  intros Hv Hn. destruct (pad_start_digits v n Hv Hn) as (Hd & Hl & _).
  unfold digits. destruct (pad_start n "0" (dec_string v)) as [|c s]; [cbn in Hl; lia|].
  cbn in Hd. apply andb_true_iff in Hd as [Hc _]. by exists c, (String.append s rest).
Qed.

Lemma take_year_spec y rest :
  -999999 <= y <= 999999 ->
  take_year (String.append (year_text y) rest) = Some (y, rest).
Proof.
  intros Hy. unfold year_text. destruct (_ && _) eqn:E; reflect_hyps.
  - destruct (digits_head 4 y rest ltac:(cbn; lia) ltac:(lia)) as (c & s & Hs & Hc).
    pose proof (take_digits_field 4 y rest ltac:(cbn; lia) ltac:(lia)) as Ht.
    rewrite Hs in *. unfold take_year.
    assert (c <> "+"%char /\ c <> "-"%char) as [H1 H2] by (split; by intros ->).
    rewrite <- Ht. clear -H1 H2. by destruct c as [[] [] [] [] [] [] [] []].
  - destruct (Z.ltb_spec y 0); unfold take_year; cbn [String.append].
    + rewrite take_digits_field by (cbn; lia). cbn.
      destruct (Z.eqb_spec (Z.abs y) 0); [lia|]. by replace (- Z.abs y) with y by lia.
    + rewrite take_digits_field by (cbn; lia). by replace (Z.abs y) with y by lia.
Qed.

Lemma utc_date_range t : 1 <= utc_date t <= 31.
Proof.
  unfold utc_date. pose proof (day_within_year_spec t) as Hd.
  pose proof (month_of_day_spec (utc_full_year t) (day_within_year t) Hd) as [Hm Hs].
  fold (utc_month t) in Hm, Hs. pose proof (month_length_max (utc_full_year t) (utc_month t) Hm). lia.
Qed.

Lemma make_time_fields t :
  make_time (utc_full_year t) (utc_month t + 1) (utc_date t) (utc_hours t) (utc_minutes t)
    (utc_seconds t) (utc_milliseconds t) = t.
Proof.
  unfold make_time. replace (utc_month t + 1 - 1) with (utc_month t) by lia.
  unfold utc_date, day_within_year, utc_hours, utc_minutes, utc_seconds, utc_milliseconds.
  replace (day_from_year (utc_full_year t) + month_start (utc_full_year t) (utc_month t) +
    (day_of t - day_from_year (utc_full_year t) - month_start (utc_full_year t) (utc_month t) + 1 - 1))
    with (day_of t) by lia.
  unfold day_of, DAY_MS. div_lia.
Qed.

Lemma utc_full_year_bound t : Z.abs t <= MAX_TIME -> -999999 <= utc_full_year t <= 999999.
Proof.
  unfold MAX_TIME, utc_full_year, day_of, DAY_MS. intros Ht.
  pose proof (year_from_day_spec (t / 86400000)) as Hy. revert Hy.
  set (y := year_from_day _). unfold day_from_year. div_lia.
Qed.

(** A timestamp that is a time value reads back as itself. *)
Lemma date_parse_iso t : Z.abs t <= MAX_TIME -> date_parse (iso_text t) = Some t.
Proof.
  intros Ht. unfold date_parse, iso_text.
  rewrite take_year_spec by by apply utc_full_year_bound. cbn -[field take_field].
  pose proof (utc_month_range t). pose proof (utc_date_range t).
  assert (0 <= utc_hours t <= 23) as Hh by (unfold utc_hours; div_lia).
  assert (0 <= utc_minutes t <= 59) as Hmi by (unfold utc_minutes; div_lia).
  assert (0 <= utc_seconds t <= 59) as Hs by (unfold utc_seconds; div_lia).
  assert (0 <= utc_milliseconds t <= 999) as Hms by (unfold utc_milliseconds; div_lia).
  do 6 (rewrite take_field_spec by (cbn; lia); cbn -[field take_field]).
  assert (forall lo hi v, lo <= v <= hi -> within lo hi v = true) as Hw
    by (intros lo hi v Hv; unfold within; apply andb_true_iff; rewrite !Z.leb_le; lia).
  rewrite !Hw by lia. cbn -[make_time]. rewrite make_time_fields. unfold time_clip.
  by rewrite (proj2 (Z.leb_le _ _) Ht).
Qed.

Lemma iso_text_inj t t' :
  Z.abs t <= MAX_TIME -> Z.abs t' <= MAX_TIME -> iso_text t = iso_text t' -> t = t'.
Proof. intros H1 H2 H. apply date_parse_iso in H1, H2. congruence. Qed.

(** A character of no date. *)
Lemma iso_text_no_char c t :
  is_digit c = false -> has_char c "+-T:.Z" = false -> has_char c (iso_text t) = false.
Proof.
  intros Hd Hc. cbn [has_char] in Hc. repeat (apply orb_false_iff in Hc as [? Hc]).
  assert (has_char c (year_text (utc_full_year t)) = false) as Hy.
  { unfold year_text, digits. case_match; [by apply pad_start_no_char|]. cbn [has_char].
    rewrite pad_start_no_char by done. case_match; by rewrite orb_false_r. }
  unfold iso_text, field, digits. rewrite has_char_append, Hy. cbn [has_char].
  repeat (rewrite has_char_append, pad_start_no_char by done; cbn [has_char orb]).
  by repeat match goal with H : Ascii.eqb c _ = false |- _ => rewrite H; clear H end.
Qed.
