(* ===== verification/Encoding.v ===== *)
(** * Base64url

    [Buffer.from(s).toString("base64url")] and
    [Buffer.from(s, "base64url").toString()] on strings of one byte per
    character (the amounts the service encodes are ASCII, where UTF-8 is the
    identity).  Decoding skips characters outside the alphabet. *)

From S2P Require Import Prelude.
From Stdlib Require Import Ascii.

Local Open Scope Z_scope.

Definition byte_val (c : ascii) : Z := Z.of_N (N_of_ascii c).
Definition byte_of (v : Z) : ascii := ascii_of_N (Z.to_N v).

Definition b64_char (v : Z) : ascii :=
  byte_of (if v <? 26 then 65 + v else if v <? 52 then 71 + v else if v <? 62 then v - 4
           else if v =? 62 then 45 else 95).

(** Both alphabets are accepted on input. *)
Definition b64_val (c : ascii) : option Z :=
  let v := byte_val c in
  if (65 <=? v) && (v <=? 90) then Some (v - 65)
  else if (97 <=? v) && (v <=? 122) then Some (v - 71)
  else if (48 <=? v) && (v <=? 57) then Some (v + 4)
  else if (v =? 45) || (v =? 43) then Some 62
  else if (v =? 95) || (v =? 47) then Some 63
  else None.

(** The six-bit groups of a byte string, without padding. *)
Fixpoint sextets (s : string) : list Z :=
  match s with
  | EmptyString => []
  | String a EmptyString => let a := byte_val a in [a / 4; a mod 4 * 16]
  | String a (String b EmptyString) =>
      let a := byte_val a in let b := byte_val b in
      [a / 4; a mod 4 * 16 + b / 16; b mod 16 * 4]
  | String a (String b (String c s)) =>
      let a := byte_val a in let b := byte_val b in let c := byte_val c in
      [a / 4; a mod 4 * 16 + b / 16; b mod 16 * 4 + c / 64; c mod 64] ++ sextets s
  end.

Fixpoint bytes_of_sextets (l : list Z) : string :=
  match l with
  | i :: j :: k :: m :: l =>
      String (byte_of (i * 4 + j / 16)) (String (byte_of (j mod 16 * 16 + k / 4))
        (String (byte_of (k mod 4 * 64 + m)) (bytes_of_sextets l)))
  | [i; j; k] =>
      String (byte_of (i * 4 + j / 16)) (String (byte_of (j mod 16 * 16 + k / 4)) EmptyString)
  | [i; j] => String (byte_of (i * 4 + j / 16)) EmptyString
  | _ => EmptyString
  end.

Definition base64url_encode (s : string) : string :=
  String.string_of_list_ascii (b64_char <$> sextets s).
Definition base64url_decode (s : string) : string :=
  bytes_of_sextets (omap b64_val (String.list_ascii_of_string s)).

(** ** Characters and white space *)

(** [/^[class]*$/.test(s)] *)
Fixpoint all_chars (f : ascii -> bool) (s : string) : bool :=
  match s with EmptyString => true | String c s => f c && all_chars f s end.

(** [String.prototype.trim], on eight-bit code units. *)
Definition is_space (c : ascii) : bool :=
  let n := byte_val c in ((9 <=? n) && (n <=? 13)) || (n =? 32) || (n =? 160).

Fixpoint drop_space (s : string) : string :=
  match s with
  | String c r => if is_space c then drop_space r else s
  | EmptyString => EmptyString
  end.

Fixpoint rev_string (s acc : string) : string :=
  match s with EmptyString => acc | String c s => rev_string s (String c acc) end.

Definition trim (s : string) : string :=
  rev_string (drop_space (rev_string (drop_space s) EmptyString)) EmptyString.

(** [String.prototype.toUpperCase], on the ASCII letters. *)
Definition upper_char (c : ascii) : ascii :=
  let n := byte_val c in if (97 <=? n) && (n <=? 122) then byte_of (n - 32) else c.
Fixpoint toUpperCase (s : string) : string :=
  match s with EmptyString => EmptyString | String c r => String (upper_char c) (toUpperCase r) end.

Lemma substring_length n s : String.length (String.substring 0 n s) = Nat.min n (String.length s).
Proof. revert s. induction n as [|n IH]; intros [|c s]; cbn; [done..|]. by rewrite IH. Qed.

(** ** Round trip *)

Lemma byte_val_range c : 0 <= byte_val c < 256.
Proof.
  unfold byte_val. split; [lia|]. apply (N2Z.inj_lt _ 256). apply N_ascii_bounded.
Qed.

Lemma byte_of_val c v : v = byte_val c -> byte_of v = c.
Proof. intros ->. unfold byte_of, byte_val. rewrite N2Z.id. apply ascii_N_embedding. Qed.

Lemma b64_val_char v : 0 <= v < 64 -> b64_val (b64_char v) = Some v.
Proof.
  intros Hv. assert (forallb (fun n => bool_decide (b64_val (b64_char (Z.of_nat n)) = Some (Z.of_nat n)))
    (seq 0 64) = true) as H by by vm_compute.
  rewrite forallb_forall in H. specialize (H (Z.to_nat v)).
  rewrite Z2Nat.id in H by lia. apply bool_decide_eq_true in H; [done|]. apply in_seq. lia.
Qed.

(** Induction on strings three characters at a time. *)
Lemma string_ind3 (P : string -> Prop) :
  P EmptyString -> (forall a, P (String a EmptyString)) ->
  (forall a b, P (String a (String b EmptyString))) ->
  (forall a b c s, P s -> P (String a (String b (String c s)))) -> forall s, P s.
Proof.
  intros H0 H1 H2 H3. fix IH 1.
  intros [|a [|b [|c s]]]; [exact H0|apply H1|apply H2|apply H3, IH].
Qed.

Ltac byte_lia :=
  repeat match goal with c : ascii |- _ =>
    let H := fresh in pose proof (byte_val_range c) as H; generalize dependent (byte_val c); clear c; intros
  end; Z.div_mod_to_equations; lia.

Lemma sextets_range s : Forall (fun v => 0 <= v < 64) (sextets s).
Proof.
  induction s using string_ind3; cbn [sextets app]; repeat apply Forall_cons_2;
    try apply Forall_nil_2; try done; byte_lia.
Qed.

Lemma bytes_of_sextets_sextets s : bytes_of_sextets (sextets s) = s.
Proof.
  induction s using string_ind3; cbn [sextets app bytes_of_sextets]; [done|..];
    rewrite ?IHs; repeat f_equal; apply byte_of_val; byte_lia.
Qed.

Lemma base64url_round_trip s : base64url_decode (base64url_encode s) = s.
Proof.
  unfold base64url_decode, base64url_encode. rewrite String.list_ascii_of_string_of_list_ascii.
  rewrite <- (bytes_of_sextets_sextets s) at 2. f_equal.
  induction (sextets_range s) as [|v l Hv _ IH]; [done|].
  rewrite fmap_cons. cbn. by rewrite b64_val_char, IH by done.
Qed.
