(* ===== verification/Schema.v ===== *)
(** * Enumerations of the data model

    The enums of [prisma/schema.prisma] the modelled services read and write,
    each in a module of its own because their values share names. *)

From S2P Require Import Prelude.

Local Open Scope string_scope.

Module ResourceStatus.
Inductive t := ACTIVE | PENDING | SUSPENDED | REVOKED | DELETED | EXPIRED.
#[export] Instance t_eq_dec : EqDecision t.
Proof. solve_decision. Defined.
End ResourceStatus.

Module PaymentClassification.
Inductive t := INCOME | REIMBURSEMENT | PERSONAL_TRANSFER | UNKNOWN | EXCLUDED.
#[export] Instance t_eq_dec : EqDecision t.
Proof. solve_decision. Defined.
End PaymentClassification.

Module ProofStatus.
Inductive t := ACTIVE | EXPIRED | REVOKED | INVALID.
#[export] Instance t_eq_dec : EqDecision t.
Proof. solve_decision. Defined.
End ProofStatus.

Module ProofType.
Inductive t :=
| MINIMUM_INCOME | RECURRING_INCOME | PAYMENT_RECEIPT | INCOME_RANGE
| EMPLOYER_PAYMENT | EMPLOYMENT_CONTINUITY | INVOICE_SETTLEMENT | AGGREGATE_EARNINGS.
#[export] Instance t_eq_dec : EqDecision t.
Proof. solve_decision. Defined.
End ProofType.

Module AnchoringOperation.
Inductive t := REGISTER | REVOKE.
#[export] Instance t_eq_dec : EqDecision t.
Proof. solve_decision. Defined.
End AnchoringOperation.

Module AnchoringStatus.
Inductive t := PENDING | PROCESSING | CONFIRMED | FAILED | QUARANTINED.
#[export] Instance t_eq_dec : EqDecision t.
Proof. solve_decision. Defined.
End AnchoringStatus.

Module QuarantineReasonCode.
Inductive t := POISON_INPUT | CHAIN_REJECTED | MAX_ATTEMPTS_EXCEEDED | MANUAL_REVIEW.
#[export] Instance t_eq_dec : EqDecision t.
Proof. solve_decision. Defined.
End QuarantineReasonCode.

Module QuarantineDecision.
Inductive t := PENDING | REDRIVEN | ABANDONED.
#[export] Instance t_eq_dec : EqDecision t.
Proof. solve_decision. Defined.
End QuarantineDecision.

Module UserRole.
Inductive t := WORKER | ISSUER | ADMIN | DEVELOPER.
#[export] Instance t_eq_dec : EqDecision t.
Proof. solve_decision. Defined.
End UserRole.

Module RevocationActorType.
Inductive t := OWNER | ADMIN.
Definition text (a : t) : string := match a with OWNER => "OWNER" | ADMIN => "ADMIN" end.
#[export] Instance t_eq_dec : EqDecision t.
Proof. solve_decision. Defined.
End RevocationActorType.

Module RevocationReasonCode.
Inductive t :=
| OWNER_REQUESTED | DATA_CORRECTION | FRAUD_SUSPECTED | COMPLIANCE_HOLD | DUPLICATE_PROOF | OTHER.
Definition text (c : t) : string :=
  match c with
  | OWNER_REQUESTED => "OWNER_REQUESTED" | DATA_CORRECTION => "DATA_CORRECTION"
  | FRAUD_SUSPECTED => "FRAUD_SUSPECTED" | COMPLIANCE_HOLD => "COMPLIANCE_HOLD"
  | DUPLICATE_PROOF => "DUPLICATE_PROOF" | OTHER => "OTHER"
  end.
#[export] Instance t_eq_dec : EqDecision t.
Proof. solve_decision. Defined.
End RevocationReasonCode.

Module VerificationResult.
Inductive t := VALID | EXPIRED | REVOKED | INVALID_SIGNATURE | UNKNOWN_PROOF | UNVERIFIED_ISSUER.
#[export] Instance t_eq_dec : EqDecision t.
Proof. solve_decision. Defined.
End VerificationResult.

Module VerificationOutcome.
Inductive t := VALID | EXPIRED | REVOKED | UNKNOWN | INVALID_SIGNATURE | ISSUER_WARNING.
#[export] Instance t_eq_dec : EqDecision t.
Proof. solve_decision. Defined.
End VerificationOutcome.

Module IdempotencyStatus.
Inductive t := PENDING | COMPLETED | FAILED | CANCELLED.
#[export] Instance t_eq_dec : EqDecision t.
Proof. solve_decision. Defined.
End IdempotencyStatus.

(** The instances above, for files that require this one. *)
Export (hints) ResourceStatus PaymentClassification ProofStatus ProofType
  AnchoringOperation AnchoringStatus QuarantineReasonCode QuarantineDecision UserRole
  RevocationActorType RevocationReasonCode VerificationResult VerificationOutcome IdempotencyStatus.

(** Errors of the database client: a unique constraint violated, a row to update
    not found. *)
Inductive DbError := P2002 | P2025.
