(* ===== verification/Continuity.v ===== *)
(** * Employment-continuity proof policy

    Model of [src/proofs/employment-continuity.policy.ts]: the observation
    window of consecutive UTC months, the assignment of a payment to its month
    and the continuity rule.  Dates are [JsDate]s, so the NaN behaviour of each
    comparison is the language's. *)

From S2P Require Import Prelude JsData DecimalText Calendar.

Local Open Scope Z_scope.

Definition MIN_CONTINUITY_PERIODS : Z := 3.
Definition MAX_CONTINUITY_PERIODS : Z := 24.
Definition MAX_MISSING_CONTINUITY_PERIODS : Z := 1.

Inductive ContinuityWindowViolation :=
| invalid_date | not_period_aligned | invalid_period_count | window_not_complete.

Record ContinuityWindow := {
  cw_start : JsDate;
  cw_end : JsDate;      (* exclusive *)
  cw_periods : Z;
}.

Definition isUtcMonthStart (value : JsDate) : bool :=
  match value with
  | None => false
  | Some t =>
      (utc_date t =? 1) && (utc_hours t =? 0) && (utc_minutes t =? 0) &&
      (utc_seconds t =? 0) && (utc_milliseconds t =? 0)
  end.

Definition addUtcMonths (value : JsDate) (months : Z) : JsDate :=
  match value with
  | None => None
  | Some t => date_utc_month (utc_full_year t) (utc_month t + months)
  end.

(** [periods] is [None] for a number that is not an integer. *)
Definition buildContinuityWindow (start : JsDate) (periods : option Z) (now : JsDate) :
    result ContinuityWindowViolation ContinuityWindow :=
  if is_nan start then Err invalid_date
  else if negb (isUtcMonthStart start) then Err not_period_aligned
  else match periods with
  | None => Err invalid_period_count
  | Some p =>
      if (p <? MIN_CONTINUITY_PERIODS) || (p >? MAX_CONTINUITY_PERIODS)
      then Err invalid_period_count
      else
        let end_ := addUtcMonths start p in
        if date_gt end_ now then Err window_not_complete
        else Ok {| cw_start := start; cw_end := end_; cw_periods := p |}
  end.

Definition continuityPeriodIndex (occurredAt : JsDate) (w : ContinuityWindow) : option Z :=
  if is_nan occurredAt || date_lt occurredAt (cw_start w) || date_ge occurredAt (cw_end w)
  then None
  else match occurredAt, cw_start w with
  | Some at_, Some s =>
      let index := (utc_full_year at_ - utc_full_year s) * 12 + (utc_month at_ - utc_month s) in
      if (0 <=? index) && (index <? cw_periods w) then Some index else None
  | _, _ => None    (* a NaN index fails both comparisons *)
  end.

(** ** Evaluation *)

Record ContinuityEvaluation (T : Type) := {
  continuous : bool;
  coveredPeriods : Z;
  missingPeriods : Z;
  includedPayments : list T;
}.
Arguments continuous {T}. Arguments coveredPeriods {T}.
Arguments missingPeriods {T}. Arguments includedPayments {T}.

Section evaluate.
Context {T : Type} (operationId : T -> string) (occurredAt : T -> JsDate).

(** One iteration of the first loop: keep the earliest record per operation. *)
Definition keep_earliest (byOperation : list (string * T)) (payment : T) : list (string * T) :=
  match JsMap.get (operationId payment) byOperation with
  | None => JsMap.set (operationId payment) payment byOperation
  | Some existing =>
      if date_lt (occurredAt payment) (occurredAt existing)
      then JsMap.set (operationId payment) payment byOperation
      else byOperation
  end.

Definition by_operation (payments : list T) : list (string * T) :=
  foldl keep_earliest [] payments.

(** The second loop: mark the period and collect the payment. *)
Definition mark_period (w : ContinuityWindow) (acc : list bool * list T) (payment : T)
    : list bool * list T :=
  let '(covered, included) := acc in
  match continuityPeriodIndex (occurredAt payment) w with
  | None => (covered, included)
  | Some index => (<[Z.to_nat index := true]> covered, included ++ [payment])
  end.

(** Comparator of the included payments, as [compare(x, y) <= 0]. *)
Definition included_le (x y : T) : bool :=
  match occurredAt x, occurredAt y with
  | Some tx, Some ty =>
      if tx =? ty then str_le (operationId x) (operationId y) else tx <? ty
  | _, _ => true
  end.

Definition evaluateContinuity (payments : list T) (w : ContinuityWindow)
    : ContinuityEvaluation T :=
  let byOperation := by_operation payments in
  let '(covered, included) :=
    foldl (mark_period w) (replicate (Z.to_nat (cw_periods w)) false, []) byOperation.*2 in
  let coveredPeriods := Z.of_nat (length (List.filter (fun b => b) covered)) in
  let missingPeriods := cw_periods w - coveredPeriods in
  {| continuous :=
       (missingPeriods <=? MAX_MISSING_CONTINUITY_PERIODS) &&
       bool_decide (covered !! 0%nat = Some true) &&
       bool_decide (covered !! Z.to_nat (cw_periods w - 1) = Some true);
     coveredPeriods := coveredPeriods;
     missingPeriods := missingPeriods;
     includedPayments := js_sort included_le included |}.
End evaluate.

(** ** The window *)

(** A well-formed window: [p] whole months from a month start after year 99. *)
Definition window_ok (w : ContinuityWindow) : Prop :=
  exists i, cw_start w = Some (month_instant i) /\
            cw_end w = Some (month_instant (i + cw_periods w)) /\
            0 <= cw_periods w.

Lemma isUtcMonthStart_spec t :
  isUtcMonthStart (Some t) = true <-> t = month_instant (month_index t).
Proof.
  rewrite month_instant_index. unfold isUtcMonthStart, utc_date, day_within_year.
  set (f := day_from_year _). set (m := month_start _ _).
  rewrite !andb_true_iff, !Z.eqb_eq.
  unfold utc_hours, utc_minutes, utc_seconds, utc_milliseconds, day_of, DAY_MS.
  split; [intros ((((H1 & H2) & H3) & H4) & H5)|intros H; split_and!]; div_lia.
Qed.

Lemma addUtcMonths_spec s p :
  100 <= utc_full_year s -> Z.abs (month_instant (month_index s + p)) <= MAX_TIME ->
  addUtcMonths (Some s) p = Some (month_instant (month_index s + p)).
Proof.
  intros Hy Hclip. unfold addUtcMonths, date_utc_month.
  replace ((0 <=? utc_full_year s) && (utc_full_year s <=? 99)) with false
    by (symmetry; apply andb_false_iff; right; apply Z.leb_gt; lia).
  rewrite month_first_day_year.
  replace (12 * utc_full_year s + (utc_month s + p)) with (month_index s + p)
    by (unfold month_index; lia).
  rewrite month_instant_eq. unfold time_clip.
  by destruct (Z.leb_spec (Z.abs (month_instant (month_index s + p))) MAX_TIME); [|lia].
Qed.

(** The window is exactly [p] whole months, all of them over. *)
Lemma buildContinuityWindow_iff s periods n w :
  100 <= utc_full_year s ->
  Z.abs (month_instant (month_index s + MAX_CONTINUITY_PERIODS)) <= MAX_TIME ->
  Z.abs (month_instant (month_index s)) <= MAX_TIME ->
  buildContinuityWindow (Some s) periods (Some n) = Ok w <->
  exists p, periods = Some p /\ MIN_CONTINUITY_PERIODS <= p <= MAX_CONTINUITY_PERIODS /\
    s = month_instant (month_index s) /\ month_instant (month_index s + p) <= n /\
    w = {| cw_start := Some s; cw_end := Some (month_instant (month_index s + p));
           cw_periods := p |}.
Proof.
  intros Hy Hhi Hlo. unfold buildContinuityWindow. cbn [is_nan].
  destruct (isUtcMonthStart (Some s)) eqn:Es; cbn [negb].
  2:{ split; [done|]. intros (p & _ & _ & H & _). apply isUtcMonthStart_spec in H. congruence. }
  apply isUtcMonthStart_spec in Es.
  destruct periods as [p|]; [|split; [done|by intros (? & ? & _)]].
  destruct ((p <? _) || (p >? _)) eqn:Ep.
  { split; [done|]. intros (p' & [= ->] & Hp & _). apply orb_true_iff in Ep as [Ep|Ep];
      reflect_hyps; lia. }
  reflect_hyps. unfold MIN_CONTINUITY_PERIODS, MAX_CONTINUITY_PERIODS in *.
  rewrite addUtcMonths_spec; [|done|].
  2:{ pose proof (month_instant_lt (month_index s) (month_index s + p) ltac:(lia)).
      destruct (decide (p = 24)) as [->|]; [done|].
      pose proof (month_instant_lt (month_index s + p) (month_index s + 24) ltac:(lia)). lia. }
  cbn [date_gt date_lt]. destruct (Z.ltb_spec n (month_instant (month_index s + p))) as [Hn|Hn].
  - split; [done|]. intros (p' & [= <-] & _ & _ & Hle & _). lia.
  - split.
    + intros [= <-]. exists p. split_and!; try done; lia.
    + intros (p' & [= <-] & _ & _ & _ & ->). done.
Qed.

(** Inside the window every instant has an index, and it is its month. *)
Lemma continuityPeriodIndex_iff w i t k :
  cw_start w = Some (month_instant i) ->
  cw_end w = Some (month_instant (i + cw_periods w)) ->
  continuityPeriodIndex (Some t) w = Some k <->
  month_index t = i + k /\ 0 <= k < cw_periods w.
Proof.
  intros Hs He. unfold continuityPeriodIndex. rewrite Hs, He. cbn [is_nan date_lt date_ge orb].
  replace ((utc_full_year t - utc_full_year (month_instant i)) * 12 +
     (utc_month t - utc_month (month_instant i))) with (month_index t - i).
  2:{ pose proof (month_index_instant i) as Hi. unfold month_index in *. lia. }
  destruct (Z.ltb_spec t (month_instant i)) as [Hlt|Hge]; cbn [orb].
  { split; [done|]. apply month_index_lt_iff in Hlt. lia. }
  destruct (Z.leb_spec (month_instant (i + cw_periods w)) t) as [Hle|Hlt]; cbn [orb].
  { split; [done|]. assert (~ month_index t < i + cw_periods w); [|lia].
    rewrite month_index_lt_iff. lia. }
  apply month_index_lt_iff in Hlt.
  assert (~ month_index t < i) by (rewrite month_index_lt_iff; lia).
  rewrite (proj2 (Z.leb_le 0 _)), (proj2 (Z.ltb_lt (month_index t - i) _)) by lia. cbn.
  split; [intros [= <-]; lia|]. intros [-> ?]. f_equal. lia.
Qed.

(** ** The evaluation *)

Section evaluation.
Context {T : Type} (operationId : T -> string) (occurredAt : T -> JsDate).
Abbreviation by_op := (by_operation operationId occurredAt).

(** [p] is the record the first loop keeps for its operation. *)
Definition kept (payments : list T) (p : T) : Prop :=
  p ∈ payments /\
  forall q tp tq, q ∈ payments -> operationId q = operationId p ->
    occurredAt p = Some tp -> occurredAt q = Some tq -> tp <= tq.

Lemma keep_earliest_NoDup m p :
  NoDup m.*1 -> NoDup (keep_earliest operationId occurredAt m p).*1.
Proof.
  intros Hm. unfold keep_earliest.
  destruct (JsMap.get _ m) as [e|]; [destruct (date_lt _ _)|]; eauto using JsMap.NoDup_set.
Qed.

Lemma by_operation_NoDup ps : NoDup (by_op ps).*1.
Proof.
  unfold by_operation. induction ps as [|p ps IH] using rev_ind; [constructor|].
  rewrite foldl_app. by apply keep_earliest_NoDup.
Qed.

Lemma kept_snoc_ne ps p e :
  kept ps e -> operationId p <> operationId e -> kept (ps ++ [p]) e.
Proof.
  intros [Hin Hmin] Hne. split; [set_solver|].
  intros q tp tq [Hq| ->%list_elem_of_singleton]%elem_of_app; [by apply Hmin|congruence].
Qed.

Lemma kept_snoc_le ps p e te tp :
  kept ps e -> operationId p = operationId e ->
  occurredAt e = Some te -> occurredAt p = Some tp ->
  kept (ps ++ [p]) (if tp <? te then p else e).
Proof.
  intros [Hin Hmin] Hop Hte Htp. destruct (Z.ltb_spec tp te) as [Hlt|Hge].
  - split; [set_solver|]. intros q tp' tq Hq Hoq Hp' Htq.
    apply elem_of_app in Hq as [Hq| ->%list_elem_of_singleton]; [|simplify_eq; lia].
    assert (te <= tq) by (eapply Hmin; eauto; congruence). simplify_eq. lia.
  - split; [set_solver|]. intros q te' tq Hq Hoq He' Htq.
    apply elem_of_app in Hq as [Hq| ->%list_elem_of_singleton]; [by eapply Hmin|].
    simplify_eq. lia.
Qed.

Lemma kept_snoc_new ps p :
  (forall q, q ∈ ps -> operationId q <> operationId p) -> kept (ps ++ [p]) p.
Proof.
  intros Hnew. split; [set_solver|].
  intros q tp tq [Hq| ->%list_elem_of_singleton]%elem_of_app Ho ??.
  - by destruct (Hnew q Hq).
  - simplify_eq. lia.
Qed.

Lemma by_operation_get ps :
  Forall (fun p => is_Some (occurredAt p)) ps ->
  forall op, match JsMap.get op (by_op ps) with
  | None => forall p, p ∈ ps -> operationId p <> op
  | Some p => operationId p = op /\ kept ps p
  end.
Proof.
  unfold by_operation. induction ps as [|p ps IH] using rev_ind; [intros _ op p; set_solver|].
  rewrite foldl_app, Forall_app. cbn. intros [Hps [tp Htp]%Forall_singleton] op.
  specialize (IH Hps). set (m := foldl _ _ _) in *. unfold keep_earliest.
  pose proof (IH op) as IHop. pose proof (IH (operationId p)) as IHp.
  destruct (JsMap.get (operationId p) m) as [e|] eqn:Ee.
  - destruct IHp as [Hoe Hke]. destruct (occurredAt e) as [te|] eqn:Hte.
    2:{ destruct Hke as [Hin _]. rewrite Forall_forall in Hps.
        destruct (Hps _ Hin). congruence. }
    pose proof (kept_snoc_le ps p e te tp Hke (eq_sym Hoe) Hte Htp) as Hk.
    rewrite Htp. cbn [date_lt]. destruct (decide (op = operationId p)) as [->|Hne].
    + destruct (tp <? te); [rewrite JsMap.get_set_eq|rewrite Ee]; done.
    + assert (JsMap.get op (if tp <? te then JsMap.set (operationId p) p m else m)
              = JsMap.get op m) as ->.
      { destruct (tp <? te); [by apply JsMap.get_set_ne|done]. }
      destruct (JsMap.get op m) as [e'|].
      * destruct IHop. split; [done|]. apply kept_snoc_ne; congruence.
      * intros q [Hq| ->%list_elem_of_singleton]%elem_of_app; [by apply IHop|congruence].
  - rewrite JsMap.get_set. case_decide as Hop.
    + subst op. split; [done|]. by apply kept_snoc_new.
    + destruct (JsMap.get op m) as [e'|].
      * destruct IHop. split; [done|]. apply kept_snoc_ne; congruence.
      * intros q [Hq| ->%list_elem_of_singleton]%elem_of_app; [by apply IHop|congruence].
Qed.
Lemma by_operation_elem ps p :
  Forall (fun p => is_Some (occurredAt p)) ps ->
  p ∈ (by_op ps).*2 -> kept ps p.
Proof.
  intros Hps ([op q] & -> & Hin)%list_elem_of_fmap. cbn.
  apply JsMap.elem_of_get in Hin; [|apply by_operation_NoDup].
  pose proof (by_operation_get ps Hps op) as H. rewrite Hin in H. by destruct H.
Qed.

(** Some kept record of each operation survives, at the same instant. *)
Lemma kept_by_operation ps p t :
  Forall (fun p => is_Some (occurredAt p)) ps ->
  kept ps p -> occurredAt p = Some t ->
  exists q, q ∈ (by_op ps).*2 /\ occurredAt q = Some t /\ operationId q = operationId p.
Proof.
  intros Hps [Hin Hmin] Ht. pose proof (by_operation_get ps Hps (operationId p)) as H.
  destruct (JsMap.get _ _) as [q|] eqn:Eq; [|by destruct (H p Hin)].
  destruct H as [Hop [Hqin Hqmin]]. exists q. split_and!; [| |done].
  - apply list_elem_of_fmap. exists (operationId p, q). split; [done|].
    apply JsMap.elem_of_get; [apply by_operation_NoDup|done].
  - rewrite Forall_forall in Hps. destruct (Hps _ Hqin) as [tq Htq]. rewrite Htq. f_equal.
    assert (t <= tq) by eauto. assert (tq <= t) by (by apply (Hqmin p)). lia.
Qed.

Definition in_period (w : ContinuityWindow) (j : nat) (p : T) : bool :=
  bool_decide (continuityPeriodIndex (occurredAt p) w = Some (Z.of_nat j)).

Lemma continuityPeriodIndex_range d w k :
  continuityPeriodIndex d w = Some k -> 0 <= k < cw_periods w.
Proof.
  unfold continuityPeriodIndex. destruct (_ || _); [done|].
  destruct d as [t|]; [|done]. destruct (cw_start w) as [s|]; [|done].
  destruct (_ && _) eqn:E; [|done]. intros [= <-]. reflect_hyps. lia.
Qed.

(** The second loop marks exactly the periods that contain a kept payment. *)
Lemma mark_period_fold w ps :
  foldl (mark_period occurredAt w) (replicate (Z.to_nat (cw_periods w)) false, []) ps =
  ((fun j => existsb (in_period w j) ps) <$> seq 0 (Z.to_nat (cw_periods w)),
   List.filter (fun p => bool_decide (is_Some (continuityPeriodIndex (occurredAt p) w))) ps).
Proof.
  induction ps as [|p ps IH] using rev_ind.
  { cbn. f_equal. apply list_eq. intros j. rewrite list_lookup_fmap.
    destruct (decide (j < Z.to_nat (cw_periods w))%nat).
    - rewrite lookup_replicate_2, lookup_seq_lt by lia. done.
    - rewrite !lookup_ge_None_2; [done|rewrite length_seq; lia|rewrite length_replicate; lia]. }
  rewrite foldl_app, IH, List.filter_app. unfold mark_period at 1. cbn [foldl List.filter].
  destruct (continuityPeriodIndex (occurredAt p) w) as [k|] eqn:Ek; cbn.
  - apply continuityPeriodIndex_range in Ek as Hk. f_equal. apply list_eq. intros j.
    destruct (decide (j < Z.to_nat (cw_periods w))%nat) as [Hj|Hj].
    2:{ rewrite !lookup_ge_None_2; [done|..]; rewrite ?length_insert, length_fmap, length_seq; lia. }
    rewrite list_lookup_fmap, lookup_seq_lt by lia. cbn.
    rewrite existsb_app. cbn [existsb]. rewrite orb_false_r.
    assert (in_period w j p = bool_decide (Some k = Some (Z.of_nat j))) as ->
      by (unfold in_period; by rewrite Ek).
    destruct (decide (Z.to_nat k = j)) as [<-|Hne].
    + rewrite list_lookup_insert_eq by (rewrite length_fmap, length_seq; lia).
      rewrite bool_decide_eq_true_2 by (f_equal; lia). by rewrite orb_true_r.
    + rewrite list_lookup_insert_ne, list_lookup_fmap, lookup_seq_lt by done. cbn.
      rewrite bool_decide_eq_false_2 by (intros [= ->]; lia). by rewrite orb_false_r.
  - f_equal; [|by rewrite app_nil_r]. apply list_fmap_ext. intros _ j _.
    rewrite existsb_app. cbn [existsb].
    assert (in_period w j p = false) as -> by (unfold in_period; by rewrite Ek).
    by rewrite !orb_false_r.
Qed.
Lemma in_period_existsb w i j ps :
  cw_start w = Some (month_instant i) ->
  cw_end w = Some (month_instant (i + cw_periods w)) ->
  Forall (fun p => is_Some (occurredAt p)) ps -> (j < Z.to_nat (cw_periods w))%nat ->
  existsb (in_period w j) (by_op ps).*2 = true <->
  exists p t, kept ps p /\ occurredAt p = Some t /\ month_index t = i + Z.of_nat j.
Proof.
  intros Hs He Hps Hj. rewrite existsb_exists. split.
  - intros (p & Hin%list_elem_of_In & Hidx). apply by_operation_elem in Hin; [|done].
    unfold in_period in Hidx. reflect_hyps.
    destruct (occurredAt p) as [t|] eqn:Ht; [|done]. exists p, t.
    apply (continuityPeriodIndex_iff w i) in Hidx; naive_solver.
  - intros (p & t & Hk & Ht & Hm).
    destruct (kept_by_operation ps p t Hps Hk Ht) as (q & Hq & Hqt & _).
    exists q. split; [by apply list_elem_of_In|]. unfold in_period.
    apply bool_decide_eq_true. rewrite Hqt.
    apply (continuityPeriodIndex_iff w i); [done..|lia].
Qed.
End evaluation.

Section order.
Context {T : Type} (operationId : T -> string) (occurredAt : T -> JsDate).
Context (ps : list T).
Hypothesis Hps : Forall (fun p => is_Some (occurredAt p)) ps.
Hypothesis Huniq : forall p q, p ∈ ps -> q ∈ ps -> operationId p = operationId q ->
   occurredAt p = occurredAt q -> p = q.

Lemma kept_unique p q :
  kept operationId occurredAt ps p -> kept operationId occurredAt ps q ->
  operationId p = operationId q -> p = q.
Proof.
  intros [Hp Hpm] [Hq Hqm] Ho. apply Huniq; [done..|].
  rewrite Forall_forall in Hps. destruct (Hps p Hp) as [tp Htp], (Hps q Hq) as [tq Htq].
  rewrite Htp, Htq. f_equal. assert (tp <= tq) by (by apply (Hpm q)).
  assert (tq <= tp) by (by apply (Hqm p)). lia.
Qed.

Lemma kept_perm ps' p :
  ps ≡ₚ ps' -> kept operationId occurredAt ps' p -> kept operationId occurredAt ps p.
Proof. intros Hp [Hin Hmin]. split; [by rewrite Hp|]. intros q tp tq. rewrite Hp. eauto. Qed.

Lemma by_operation_perm ps' :
  ps ≡ₚ ps' ->
  by_operation operationId occurredAt ps ≡ₚ by_operation operationId occurredAt ps'.
Proof.
  intros Hp. apply JsMap.get_ext_perm; [apply by_operation_NoDup..|]. intros op.
  assert (Forall (fun p => is_Some (occurredAt p)) ps') as Hps' by (by rewrite <- Hp).
  pose proof (by_operation_get operationId occurredAt ps Hps op) as H.
  pose proof (by_operation_get operationId occurredAt ps' Hps' op) as H'.
  destruct (JsMap.get op (by_operation _ _ ps)) as [p|],
    (JsMap.get op (by_operation _ _ ps')) as [p'|]; [|..|done].
  - f_equal. destruct H as [Ho Hk], H' as [Ho' Hk'].
    apply kept_unique; [done|by eapply kept_perm|congruence].
  - destruct H as [Ho [Hin _]]. rewrite Hp in Hin. by destruct (H' p Hin).
  - destruct H' as [Ho [Hin _]]. rewrite <- Hp in Hin. by destruct (H p' Hin).
Qed.

Lemma included_le_total x y :
  is_Some (occurredAt x) -> is_Some (occurredAt y) ->
  included_le operationId occurredAt x y = true \/ included_le operationId occurredAt y x = true.
Proof.
  intros [tx Hx] [ty Hy]. unfold included_le. rewrite Hx, Hy.
  destruct (Z.eqb_spec tx ty) as [->|]; [rewrite Z.eqb_refl; apply str_le_total|].
  destruct (Z.eqb_spec ty tx); [lia|]. rewrite !Z.ltb_lt. lia.
Qed.

Lemma included_le_trans x y z :
  is_Some (occurredAt x) -> is_Some (occurredAt y) -> is_Some (occurredAt z) ->
  included_le operationId occurredAt x y = true ->
  included_le operationId occurredAt y z = true ->
  included_le operationId occurredAt x z = true.
Proof.
  intros [tx Hx] [ty Hy] [tz Hz]. unfold included_le. rewrite Hx, Hy, Hz.
  destruct (Z.eqb_spec tx ty), (Z.eqb_spec ty tz), (Z.eqb_spec tx tz);
    rewrite ?Z.ltb_lt; try lia. apply str_le_trans.
Qed.

Lemma included_sort_unique l l' :
  Forall (fun p => is_Some (occurredAt p)) l -> (forall p, p ∈ l -> p ∈ ps) -> l ≡ₚ l' ->
  js_sort (included_le operationId occurredAt) l = js_sort (included_le operationId occurredAt) l'.
Proof.
  intros Hl Hin. apply (js_sort_unique _ (fun p => is_Some (occurredAt p)));
    eauto using included_le_total, included_le_trans.
  intros x y Hx Hy. rewrite Forall_forall in Hl.
  destruct (Hl x Hx) as [tx Htx], (Hl y Hy) as [ty Hty].
  unfold included_le. rewrite Htx, Hty.
  destruct (Z.eqb_spec tx ty), (Z.eqb_spec ty tx); rewrite ?Z.ltb_lt; try lia.
  intros. apply Huniq; [by auto..|by apply str_le_antisymm|congruence].
Qed.
End order.

(** At most one [false] in a list of booleans. *)
Lemma at_most_one_false (l : list bool) :
  Z.of_nat (length l) - Z.of_nat (length (List.filter (fun b => b) l)) <= 1 <->
  forall j k, l !! j = Some false -> l !! k = Some false -> j = k.
Proof.
  assert (forall l : list bool, (length (List.filter (fun b => b) l) <= length l)%nat) as Hlen.
  { intros l'. apply List.filter_length_le. }
  assert (forall l : list bool, length (List.filter (fun b => b) l) = length l <->
    forall j, l !! j <> Some false) as Hall.
  { intros l'. induction l' as [|[] l' IH]; cbn.
    - split; [intros _ j; by rewrite lookup_nil|done].
    - rewrite Nat.succ_inj_wd, IH. split; [intros H [|j]; [done|apply H]|intros H j; apply (H (S j))].
    - split; [pose proof (Hlen l'); lia|intros H; by destruct (H 0%nat)]. }
  induction l as [|[] l IH]; cbn.
  - split; [intros _ j k H; by rewrite lookup_nil in H|lia].
  - etrans; [|etrans; [apply IH|]]; [lia|]. split.
    + intros H [|j] [|k]; cbn; try done. intros ??. f_equal. eauto.
    + intros H j k Hj Hk. by injection (H (S j) (S k) Hj Hk).
  - split.
    + intros H. assert (length (List.filter (fun b => b) l) = length l) as Hl
        by (pose proof (Hlen l); lia).
      rewrite Hall in Hl. intros [|j] [|k]; cbn; try done; intros; by exfalso; eapply Hl.
    + intros H. rewrite (proj2 (Hall l)); [lia|]. intros j Hj. by specialize (H 0%nat (S j) eq_refl Hj).
Qed.

(** ** Properties *)

(** when the dates are in the range of the product (year 100 or later, no
    overflow of the time value), [buildContinuityWindow] accepts exactly the
    windows of 3 to 24 whole UTC months that start on a month boundary and are
    already over. *)
Theorem continuity_window_exact s periods n w :
  100 <= utc_full_year s ->
  Z.abs (month_instant (month_index s + MAX_CONTINUITY_PERIODS)) <= MAX_TIME ->
  Z.abs (month_instant (month_index s)) <= MAX_TIME ->
  buildContinuityWindow (Some s) periods (Some n) = Ok w <->
  exists p, periods = Some p /\ MIN_CONTINUITY_PERIODS <= p <= MAX_CONTINUITY_PERIODS /\
    s = month_instant (month_index s) /\ month_instant (month_index s + p) <= n /\
    w = {| cw_start := Some s; cw_end := Some (month_instant (month_index s + p));
           cw_periods := p |}.
Proof. apply buildContinuityWindow_iff. Qed.

(** the continuity decision, read off the payments: the first and the last
    month of the window contain a kept payment (the earliest record of its
    operation) and any two months without one are the same month. *)
Theorem continuity_decision {T} (operationId : T -> string) (occurredAt : T -> JsDate)
    (ps : list T) (w : ContinuityWindow) (i : Z)
    (covered := fun j => exists p t, kept operationId occurredAt ps p /\
       occurredAt p = Some t /\ month_index t = i + j) :
  cw_start w = Some (month_instant i) ->
  cw_end w = Some (month_instant (i + cw_periods w)) ->
  1 <= cw_periods w ->
  Forall (fun p => is_Some (occurredAt p)) ps ->
  continuous (evaluateContinuity operationId occurredAt ps w) = true <->
  covered 0 /\ covered (cw_periods w - 1) /\
  forall j k, 0 <= j < cw_periods w -> 0 <= k < cw_periods w ->
    ~ covered j -> ~ covered k -> j = k.
Proof.
  intros Hs He Hp Hps. unfold evaluateContinuity.
  rewrite mark_period_fold. cbn [continuous].
  set (n := Z.to_nat (cw_periods w)). set (cov := _ <$> seq 0 n).
  assert (forall j b, cov !! j = Some b <-> (j < n)%nat /\
    existsb (in_period occurredAt w j) (by_operation operationId occurredAt ps).*2 = b) as Hcov.
  { intros j b. unfold cov. rewrite list_lookup_fmap. destruct (decide (j < n)%nat).
    - rewrite lookup_seq_lt by done. cbn. naive_solver.
    - rewrite lookup_ge_None_2 by (rewrite length_seq; lia). naive_solver. }
  assert (forall j, (j < n)%nat -> (cov !! j = Some true <-> covered (Z.of_nat j))) as Htrue.
  { intros j Hj. rewrite Hcov. unfold covered.
    rewrite <- (in_period_existsb operationId occurredAt w i j ps) by done. naive_solver. }
  assert (forall j, (j < n)%nat -> (cov !! j = Some false <-> ~ covered (Z.of_nat j))) as Hfalse.
  { intros j Hj. rewrite <- Htrue, !Hcov by done. destruct (existsb _ _); naive_solver. }
  assert (cw_periods w = Z.of_nat (length cov)) as Hlen.
  { unfold cov. rewrite length_fmap, length_seq. lia. }
  rewrite !andb_true_iff, !bool_decide_eq_true, Z.leb_le.
  rewrite Hlen at 1. unfold MAX_MISSING_CONTINUITY_PERIODS. rewrite at_most_one_false.
  rewrite !Htrue by lia.
  replace (Z.of_nat (Z.to_nat (cw_periods w - 1))) with (cw_periods w - 1) by lia.
  change (Z.of_nat 0) with 0. split.
  - intros [[Hmiss H0] Hl]. split_and!; [done..|]. intros j k Hj Hk Hnj Hnk.
    assert (Z.to_nat j = Z.to_nat k); [|lia].
    apply Hmiss; apply Hfalse; try lia; rewrite Z2Nat.id; by try lia.
  - intros (H0 & Hl & Hmiss). split_and!; [|done..]. intros j k Hj Hk.
    destruct (proj1 (Hcov _ _) Hj) as [? _], (proj1 (Hcov _ _) Hk) as [? _].
    apply Hfalse in Hj, Hk; [|done..]. assert (Z.of_nat j = Z.of_nat k); [|lia].
    apply Hmiss; by try lia.
Qed.

(** the whole evaluation (decision, counts and the sorted included
    payments) is independent of the order the payments arrive in, when two
    records of one operation at one instant are the same record. *)
Theorem continuity_order_independent {T} (operationId : T -> string) (occurredAt : T -> JsDate)
    (ps ps' : list T) (w : ContinuityWindow) :
  ps ≡ₚ ps' ->
  Forall (fun p => is_Some (occurredAt p)) ps ->
  (forall p q, p ∈ ps -> q ∈ ps -> operationId p = operationId q ->
     occurredAt p = occurredAt q -> p = q) ->
  evaluateContinuity operationId occurredAt ps w =
  evaluateContinuity operationId occurredAt ps' w.
Proof.
  intros Hperm Hps Huniq.
  pose proof (by_operation_perm operationId occurredAt ps Hps Huniq ps' Hperm) as Hm.
  unfold evaluateContinuity. rewrite !mark_period_fold.
  assert (forall j, existsb (in_period occurredAt w j) (by_operation operationId occurredAt ps).*2 =
    existsb (in_period occurredAt w j) (by_operation operationId occurredAt ps').*2) as Hex.
  { intros j. by apply existsb_perm, fmap_Permutation. }
  rewrite (list_fmap_ext _ _ _ (fun _ j _ => Hex j)).
  set (f := fun p => bool_decide (is_Some (continuityPeriodIndex (occurredAt p) w))).
  rewrite (included_sort_unique operationId occurredAt ps Huniq
    (List.filter f (by_operation operationId occurredAt ps).*2)
    (List.filter f (by_operation operationId occurredAt ps').*2)); [done|..].
  - apply Forall_forall. intros p [Hp _]%list_elem_of_In%List.filter_In.
    apply list_elem_of_In, by_operation_elem in Hp as [Hp _]; [|done].
    rewrite Forall_forall in Hps. auto.
  - intros p [Hp _]%list_elem_of_In%List.filter_In.
    by apply list_elem_of_In, by_operation_elem in Hp as [Hp _].
  - by apply filter_bool_perm, fmap_Permutation.
Qed.

(** *** Concrete instances *)

Definition demo_payment : Type := string * Z.
Definition demo_time (p : demo_payment) : JsDate := Some p.2.

(** January to March 2026; a payment in January and one in March. *)
Definition demo_window : ContinuityWindow :=
  {| cw_start := Some (month_instant (2026 * 12));
     cw_end := Some (month_instant (2026 * 12 + 3)); cw_periods := 3 |}.
Definition demo_payments : list demo_payment :=
  [ ("op-2"%string, month_instant (2026 * 12 + 2) + 5);
    ("op-1"%string, month_instant (2026 * 12)) ].

Lemma continuity_window_exact_witness :
  buildContinuityWindow (Some (month_instant (2026 * 12))) (Some 3)
    (Some (month_instant (2026 * 12 + 3))) = Ok demo_window.
Proof.
  apply (continuity_window_exact (month_instant (2026 * 12)) (Some 3)
    (month_instant (2026 * 12 + 3)) demo_window).
  - by vm_compute.
  - by vm_compute.
  - by vm_compute.
  - exists 3. split_and!; by vm_compute.
Defined.

Lemma continuity_decision_witness :
  exists p t, kept fst demo_time demo_payments p /\ demo_time p = Some t /\
    month_index t = 2026 * 12 + 0.
Proof.
  apply (continuity_decision fst demo_time demo_payments demo_window (2026 * 12)).
  - done.
  - done.
  - done.
  - apply Forall_forall. intros p _. by eexists.
  - by vm_compute.
Defined.

Lemma continuity_order_independent_witness :
  evaluateContinuity fst demo_time demo_payments demo_window =
  evaluateContinuity fst demo_time (reverse demo_payments) demo_window.
Proof.
  apply continuity_order_independent.
  - by rewrite reverse_Permutation.
  - apply Forall_forall. intros p _. by eexists.
  - intros [o1 t1] [o2 t2] _ _ ? ?. cbn in *. unfold demo_time in *. cbn in *. congruence.
Defined.

(** A start whose window runs past the largest time value is accepted with an
    invalid end, although no such window is over. *)
Theorem continuity_window_overflow_accepted n :
  buildContinuityWindow (Some (month_instant (275760 * 12 + 8))) (Some 3) (Some n) =
  Ok {| cw_start := Some (month_instant (275760 * 12 + 8)); cw_end := None; cw_periods := 3 |}.
Proof. by vm_compute. Qed.

