(* ===== verification/EmployerPayment.v ===== *)
(** * Employer-payment proof policy

    Model of [src/proofs/employer-payment.policy.ts]: the half-open period, the
    resolution of the employer behind a trusted source and the deterministic
    choice of the payment a proof is built on. *)

From S2P Require Import Prelude JsData Calendar Schema.

Local Open Scope Z_scope.

Definition MAX_EMPLOYER_PAYMENT_PERIOD_DAYS : Z := 366.

Inductive EmployerCorroboration := issuer_account | issuer_attestation.

Inductive EmployerPaymentPeriodViolation :=
| ep_invalid_date | empty_or_inverted | too_long | ends_in_future.

Definition validateEmployerPaymentPeriod (periodStart periodEnd now : JsDate)
    : option EmployerPaymentPeriodViolation :=
  match periodStart, periodEnd with
  | Some s, Some e =>
      if e <=? s then Some empty_or_inverted
      else if e - s >? MAX_EMPLOYER_PAYMENT_PERIOD_DAYS * DAY_MS then Some too_long
      else if date_gt (Some e) now then Some ends_in_future
      else None
  | _, _ => Some ep_invalid_date
  end.

Definition isWithinEmployerPaymentPeriod (occurredAt periodStart periodEnd : JsDate) : bool :=
  date_ge occurredAt periodStart && date_lt occurredAt periodEnd.

(** ** Employer identity *)

Record EmployerIssuer := {
  ei_id : string;
  ei_status : ResourceStatus.t;
  ei_stellarAddress : string;
  ei_organization : option ResourceStatus.t;    (* its status, when linked *)
}.

Record EmployerSourceRecord := {
  es_id : string;
  es_sourceAddress : string;
  es_status : ResourceStatus.t;
  es_issuerId : option string;
  es_issuer : option EmployerIssuer;
}.

Inductive EmployerSourceRefusal :=
| source_inactive | source_unlinked | issuer_inactive | organization_inactive
| ambiguous_issuer.

Record EmployerSource := {
  er_issuerId : string;
  er_sourceAddress : string;
  er_isIssuerAccount : bool;
}.

(** JavaScript truthiness of a nullable string. *)
Definition truthy (s : option string) : bool :=
  match s with None | Some EmptyString => false | Some _ => true end.

Definition resolveEmployerSource (source : EmployerSourceRecord)
    (conflictingIssuerId : option string) : result EmployerSourceRefusal EmployerSource :=
  if negb (bool_decide (es_status source = ResourceStatus.ACTIVE)) then Err source_inactive
  else match es_issuer source with
  | None => Err source_unlinked
  | Some issuer =>
      if negb (truthy (es_issuerId source)) then Err source_unlinked
      else if negb (bool_decide (ei_status issuer = ResourceStatus.ACTIVE))
      then Err issuer_inactive
      else if negb (bool_decide (ei_organization issuer = Some ResourceStatus.ACTIVE))
      then Err organization_inactive
      else if truthy conflictingIssuerId &&
              negb (bool_decide (conflictingIssuerId = Some (ei_id issuer)))
      then Err ambiguous_issuer
      else Ok {| er_issuerId := ei_id issuer;
                 er_sourceAddress := es_sourceAddress source;
                 er_isIssuerAccount :=
                   bool_decide (ei_stellarAddress issuer = es_sourceAddress source) |}
  end.

(** ** Choice of the payment *)

Section select.
Context {T : Type} (operationId : T -> string) (occurredAt : T -> Z).

(** [compare(left, right) <= 0] of the sort: most recent first, then by id. *)
Definition candidate_le (left right : T) : bool :=
  let byTime := occurredAt right - occurredAt left in
  if negb (byTime =? 0) then byTime <=? 0
  else str_le (operationId left) (operationId right).

Definition orderEmployerPaymentCandidates : list T -> list T := js_sort candidate_le.

(** The loop over the ordered candidates. *)
Fixpoint first_corroborated (isIssuerAccount : bool) (attested : string -> bool)
    (referenceOf : T -> string) (candidates : list T) : option (T * EmployerCorroboration) :=
  match candidates with
  | [] => None
  | c :: rest =>
      if isIssuerAccount then Some (c, issuer_account)
      else if attested (referenceOf c) then Some (c, issuer_attestation)
      else first_corroborated isIssuerAccount attested referenceOf rest
  end.

Definition selectEmployerPayment (candidates : list T) (isIssuerAccount : bool)
    (attested : string -> bool) (referenceOf : T -> string)
    : option (T * EmployerCorroboration) :=
  first_corroborated isIssuerAccount attested referenceOf
    (orderEmployerPaymentCandidates candidates).

Lemma candidate_le_total x y : candidate_le x y = true \/ candidate_le y x = true.
Proof.
  unfold candidate_le.
  destruct (Z.eqb_spec (occurredAt y - occurredAt x) 0),
    (Z.eqb_spec (occurredAt x - occurredAt y) 0); cbn; rewrite ?Z.leb_le; try lia.
  apply str_le_total.
Qed.

Lemma candidate_le_trans x y z :
  candidate_le x y = true -> candidate_le y z = true -> candidate_le x z = true.
Proof.
  unfold candidate_le.
  destruct (Z.eqb_spec (occurredAt y - occurredAt x) 0),
    (Z.eqb_spec (occurredAt z - occurredAt y) 0),
    (Z.eqb_spec (occurredAt z - occurredAt x) 0); cbn; rewrite ?Z.leb_le; try lia.
  apply str_le_trans.
Qed.

Lemma candidate_le_tie x y :
  candidate_le x y = true -> candidate_le y x = true -> operationId x = operationId y.
Proof.
  unfold candidate_le.
  destruct (Z.eqb_spec (occurredAt y - occurredAt x) 0),
    (Z.eqb_spec (occurredAt x - occurredAt y) 0); cbn; rewrite ?Z.leb_le; try lia.
  apply str_le_antisymm.
Qed.

Lemma first_corroborated_spec acct attested referenceOf l :
  StronglySorted (fun x y => candidate_le x y = true) l ->
  match first_corroborated acct attested referenceOf l with
  | None => forall c, c ∈ l -> acct = false /\ attested (referenceOf c) = false
  | Some (c, how) =>
      c ∈ l /\ (acct || attested (referenceOf c)) = true /\
      how = (if acct then issuer_account else issuer_attestation) /\
      forall d, d ∈ l -> (acct || attested (referenceOf d)) = true -> candidate_le c d = true
  end.
Proof.
  assert (forall x, candidate_le x x = true) as Hrefl
    by (intros x; by destruct (candidate_le_total x x)).
  induction 1 as [|c l Hl IH Hc]; cbn; [set_solver|]. rewrite Forall_forall in Hc.
  destruct acct; cbn in *.
  { split_and!; [set_solver|done..|]. intros d [->|Hd]%elem_of_cons; auto. }
  destruct (attested (referenceOf c)) eqn:Ea; cbn.
  { split_and!; [set_solver|done..|]. intros d [->|Hd]%elem_of_cons; auto. }
  destruct (first_corroborated _ _ _ l) as [[e how]|].
  - destruct IH as (He & Ha & Hh & Hmin). split_and!; [set_solver|done..|].
    intros d [->|Hd]%elem_of_cons; [congruence|auto].
  - intros d [->|Hd]%elem_of_cons; auto.
Qed.
End select.

(** ** Properties *)

(** [resolveEmployerSource] identifies an employer exactly when the source,
    its issuer and the issuer's organization are active and no other issuer
    claims the address; the identity is the linked issuer's. *)
Theorem employer_source_resolution source conflict r :
  resolveEmployerSource source conflict = Ok r <->
  exists issuer, es_issuer source = Some issuer /\
  es_status source = ResourceStatus.ACTIVE /\ truthy (es_issuerId source) = true /\
  ei_status issuer = ResourceStatus.ACTIVE /\
  ei_organization issuer = Some ResourceStatus.ACTIVE /\
  (truthy conflict = true -> conflict = Some (ei_id issuer)) /\
  r = {| er_issuerId := ei_id issuer; er_sourceAddress := es_sourceAddress source;
         er_isIssuerAccount := bool_decide (ei_stellarAddress issuer = es_sourceAddress source) |}.
Proof.
  unfold resolveEmployerSource. destruct (es_issuer source) as [issuer|] eqn:Hi.
  2: { case_bool_decide; naive_solver. }
  repeat (case_bool_decide; cbn; [|naive_solver]).
  destruct (truthy (es_issuerId source)); cbn; [|naive_solver].
  repeat (case_bool_decide; cbn; [|naive_solver]).
  destruct (truthy conflict); cbn; [|naive_solver].
  case_bool_decide; cbn; naive_solver.
Qed.

(** the selected payment is corroborated and is the first such candidate in
    the order "most recent, then smallest operation id"; [null] means that no
    candidate is corroborated. *)
Theorem employer_payment_selection {T} (operationId : T -> string) (occurredAt : T -> Z)
    candidates acct attested referenceOf :
  match selectEmployerPayment operationId occurredAt candidates acct attested referenceOf with
  | None => forall c, c ∈ candidates -> acct = false /\ attested (referenceOf c) = false
  | Some (c, how) =>
      c ∈ candidates /\ (acct || attested (referenceOf c)) = true /\
      how = (if acct then issuer_account else issuer_attestation) /\
      forall d, d ∈ candidates -> (acct || attested (referenceOf d)) = true ->
        occurredAt d < occurredAt c \/
        (occurredAt d = occurredAt c /\ str_le (operationId c) (operationId d) = true)
  end.
Proof.
  unfold selectEmployerPayment, orderEmployerPaymentCandidates.
  set (l := js_sort _ candidates). pose proof (js_sort_perm _ candidates : l ≡ₚ candidates) as Hp.
  pose proof (first_corroborated_spec operationId occurredAt acct attested referenceOf l) as H.
  destruct (first_corroborated _ _ _ l) as [[c how]|].
  - destruct H as (Hin & Ha & Hh & Hmin).
    { apply (js_sort_sorted _ (fun _ => True)); eauto using candidate_le_total, candidate_le_trans.
      by apply Forall_true. }
    setoid_rewrite Hp in Hmin. rewrite Hp in Hin. split_and!; [done..|].
    intros d Hd Hda. specialize (Hmin d Hd Hda). unfold candidate_le in Hmin.
    destruct (Z.eqb_spec (occurredAt d - occurredAt c) 0); cbn in *; [right|left];
      rewrite ?Z.leb_le in *; split || idtac; try done; lia.
  - intros c. rewrite <- Hp. apply H.
    apply (js_sort_sorted _ (fun _ => True)); eauto using candidate_le_total, candidate_le_trans.
    by apply Forall_true.
Qed.
