(* ===== verification/Canonical.v ===== *)
(** * Canonical JSON

    Model of [src/common/crypto/canonicalize.ts]: JavaScript values as the
    hashing code sees them, [sortObject], and [JSON.stringify] on its result.
    Numbers are integers or non-finite.  Objects are lists of own properties;
    [build_object] is the object obtained by assigning properties to [{}] one
    after the other: array-index keys enumerate first in ascending order, and
    assigning [__proto__] creates no own property. *)

From S2P Require Import Prelude JsData DecimalText Calendar IsoDate.
From Stdlib Require Import Ascii.

Local Open Scope Z_scope.
#[local] Arguments String.append !_ _ : simpl nomatch.

Unset Elimination Schemes.
Inductive json :=
| JNull
| JBool (b : bool)
| JNum (n : Z)
| JNonFinite                      (* NaN, Infinity, -Infinity *)
| JStr (s : string)
| JArr (l : list json)
| JObj (kvs : list (string * json))
| JUndef
| JDate (t : Z).
Set Elimination Schemes.

Definition jiso (t : Z) : json := JStr (iso_text t).
Definition jopt (o : option string) : json := match o with None => JNull | Some s => JStr s end.
Definition jundef (o : option string) : json := match o with None => JUndef | Some s => JStr s end.

(** Induction through the children of arrays and objects. *)
Lemma json_ind (P : json -> Prop) :
  P JNull -> (forall b, P (JBool b)) -> (forall n, P (JNum n)) -> P JNonFinite ->
  (forall s, P (JStr s)) ->
  (forall l, Forall P l -> P (JArr l)) ->
  (forall kvs, Forall (fun kv => P kv.2) kvs -> P (JObj kvs)) ->
  P JUndef -> (forall t, P (JDate t)) -> forall v, P v.
Proof.
  intros Hnull Hbool Hnum Hnf Hstr Harr Hobj Hundef Hdate.
  fix IH 1. intros [|b|n| |s|l|kvs| |t];
    [exact Hnull|apply Hbool|apply Hnum|exact Hnf|apply Hstr| | |exact Hundef|apply Hdate].
  - apply Harr. induction l as [|x l IHl]; constructor; [apply IH|exact IHl].
  - apply Hobj. induction kvs as [|[k v] kvs IHk]; constructor; [apply IH|exact IHk].
Qed.

(** ** Objects *)

(** An array index: the canonical decimal text of a number below 2^32 - 1. *)
Definition is_index (k : string) : bool :=
  match k with
  | EmptyString => false
  | String c r =>
      all_digits k && (String.length k <=? 10)%nat &&
      (negb (Ascii.eqb c "0"%char) || String.eqb r EmptyString) &&
      (dec_value k <? 4294967295)
  end.

Definition index_le (a b : string * json) : bool := dec_value a.1 <=? dec_value b.1.
Definition key_le (a b : string * json) : bool := str_le a.1 b.1.

Definition proto_key : string := "__proto__".

(** [for (const [k, v] of entries) o[k] = v] starting from [o = {}]. *)
Definition build_object (entries : list (string * json)) : list (string * json) :=
  let own := List.filter (fun kv => negb (String.eqb kv.1 proto_key)) entries in
  js_sort index_le (List.filter (fun kv => is_index kv.1) own) ++
  List.filter (fun kv => negb (is_index kv.1)) own.

(** [sortObject]; the non-finite case is [has_non_finite] below. *)
Fixpoint sortObject (value : json) : json :=
  match value with
  | JArr l => JArr (List.map sortObject l)
  | JObj kvs =>
      JObj (build_object (js_sort key_le (List.map (fun kv => (kv.1, sortObject kv.2)) kvs)))
  | JDate _ => JObj []            (* a Date has no own enumerable keys *)
  | _ => value
  end.

(** Whether the traversal of [sortObject] meets a non-finite number. *)
Fixpoint has_non_finite (value : json) : bool :=
  match value with
  | JNonFinite => true
  | JArr l => existsb has_non_finite l
  | JObj kvs => existsb (fun kv => has_non_finite kv.2) kvs
  | _ => false
  end.

(** ** [JSON.stringify] *)

Definition hex_digit (n : nat) : ascii :=
  if (n <? 10)%nat then ascii_of_nat (48 + n) else ascii_of_nat (87 + n).

(** Text of one code unit inside a JSON string. *)
Definition escape_char (c : ascii) : string :=
  let n := nat_of_ascii c in
  if (n =? 34)%nat then String "\"%char (String c EmptyString)
  else if (n =? 92)%nat then String "\"%char (String c EmptyString)
  else if (n =? 8)%nat then "\b"%string
  else if (n =? 9)%nat then "\t"%string
  else if (n =? 10)%nat then "\n"%string
  else if (n =? 12)%nat then "\f"%string
  else if (n =? 13)%nat then "\r"%string
  else if (n <? 32)%nat then
    String.append "\u00" (String (hex_digit (n / 16)) (String (hex_digit (n mod 16)) EmptyString))
  else String c EmptyString.

Fixpoint escape (s : string) : string :=
  match s with
  | EmptyString => EmptyString
  | String c s => String.append (escape_char c) (escape s)
  end.

Definition dquote : ascii := ascii_of_nat 34.

Definition quote (s : string) : string :=
  String dquote (String.append (escape s) (String dquote EmptyString)).

Definition num_text (n : Z) : string :=
  if n <? 0 then String "-"%char (dec_string (- n)) else dec_string n.

Definition is_undef (v : json) : bool := match v with JUndef => true | _ => false end.

Definition comma (first : bool) : string := if first then EmptyString else ",".

(** The text of a value; an undefined array element reads [null], an undefined
    property is skipped. *)
Fixpoint json_text (v : json) : string :=
  match v with
  | JNull | JNonFinite | JUndef => "null"
  | JBool true => "true"
  | JBool false => "false"
  | JNum n => num_text n
  | JStr s => quote s
  | JArr l =>
      String "["%char ((fix items (first : bool) (l : list json) : string :=
        match l with
        | [] => "]"
        | x :: r => String.append (comma first) (String.append (json_text x) (items false r))
        end) true l)
  | JObj kvs =>
      String "{"%char ((fix fields (first : bool) (kvs : list (string * json)) : string :=
        match kvs with
        | [] => "}"
        | (k, x) :: r =>
            if is_undef x then fields first r
            else String.append (comma first) (String.append (quote k)
                   (String ":"%char (String.append (json_text x) (fields false r))))
        end) true kvs)
  | JDate _ => "{}"               (* removed by sortObject *)
  end.

(** [JSON.stringify(v)]; [None] is [undefined]. *)
Definition stringify (v : json) : option string :=
  if is_undef v then None else Some (json_text v).

Inductive CanonicalError := UnsupportedCanonicalNumberError.

Definition canonicalize (value : json) : result CanonicalError (option string) :=
  if has_non_finite value then Err UnsupportedCanonicalNumberError
  else Ok (stringify (sortObject value)).

(** ** Reordering of properties *)

(** [reorder v w]: [w] is [v] with the properties of some objects, at any
    depth, listed in another order. *)
Inductive reorder : json -> json -> Prop :=
| reorder_refl v : reorder v v
| reorder_trans v1 v2 v3 : reorder v1 v2 -> reorder v2 v3 -> reorder v1 v3
| reorder_perm kvs kvs' :
    NoDup kvs.*1 -> kvs ≡ₚ kvs' -> reorder (JObj kvs) (JObj kvs')
| reorder_arr l1 v v' l2 :
    reorder v v' -> reorder (JArr (l1 ++ v :: l2)) (JArr (l1 ++ v' :: l2))
| reorder_obj l1 k v v' l2 :
    reorder v v' -> reorder (JObj (l1 ++ (k, v) :: l2)) (JObj (l1 ++ (k, v') :: l2)).

#[export] Instance reorder_equivalence : Equivalence reorder.
Proof.
  split.
  - intros v. constructor.
  - intros v w. induction 1; try (econstructor; eauto; fail).
    constructor; [by rewrite <- H0|done].
  - intros v1 v2 v3. apply reorder_trans.
Qed.

Lemma key_le_total (a b : string * json) : key_le a b = true \/ key_le b a = true.
Proof. apply str_le_total. Qed.

Lemma key_le_trans (a b c : string * json) :
  key_le a b = true -> key_le b c = true -> key_le a c = true.
Proof. apply str_le_trans. Qed.

Definition sort_entry (kv : string * json) : string * json := (kv.1, sortObject kv.2).

Lemma sort_entry_keys kvs : (List.map sort_entry kvs).*1 = kvs.*1.
Proof. induction kvs as [|[k v] kvs IH]; cbn; congruence. Qed.

Lemma js_sort_key_unique (e e' : list (string * json)) :
  NoDup e.*1 -> e ≡ₚ e' -> js_sort key_le e = js_sort key_le e'.
Proof.
  intros Hnd. apply (js_sort_unique _ (fun _ => True)); eauto using key_le_total, key_le_trans.
  - by apply Forall_true.
  - intros x y Hx Hy Hxy Hyx. eapply (key_unique fst); eauto. by apply str_le_antisymm.
Qed.

Lemma sortObject_reorder v w : reorder v w -> sortObject v = sortObject w.
Proof.
  induction 1 as [|v1 v2 v3 _ IH1 _ IH2|kvs kvs' Hnd Hp|l1 v v' l2 _ IH|l1 k v v' l2 _ IH]; cbn.
  - done.
  - congruence.
  - do 2 f_equal. apply js_sort_key_unique; [|by rewrite Hp].
    fold sort_entry. by rewrite sort_entry_keys.
  - rewrite !map_app. cbn. by rewrite IH.
  - rewrite !map_app. cbn. by rewrite IH.
Qed.

Lemma has_non_finite_reorder v w : reorder v w -> has_non_finite v = has_non_finite w.
Proof.
  induction 1 as [|v1 v2 v3 _ IH1 _ IH2|kvs kvs' Hnd Hp|l1 v v' l2 _ IH|l1 k v v' l2 _ IH]; cbn.
  - done.
  - congruence.
  - by apply existsb_perm.
  - rewrite !existsb_app. cbn. by rewrite IH.
  - rewrite !existsb_app. cbn. by rewrite IH.
Qed.

(** ** The text determines the value *)

(** Values [JSON.stringify] prints without dropping or coercing a part. *)
Fixpoint printable (v : json) : bool :=
  match v with
  | JUndef | JDate _ | JNonFinite => false
  | JArr l => forallb printable l
  | JObj kvs => forallb (fun kv => printable kv.2) kvs
  | _ => true
  end.

(** Plain JSON: printable, distinct keys in each object, no [__proto__]. *)
Fixpoint plain (v : json) : bool :=
  match v with
  | JUndef | JDate _ | JNonFinite => false
  | JArr l => forallb plain l
  | JObj kvs =>
      bool_decide (NoDup kvs.*1) && forallb (fun kv => negb (String.eqb kv.1 proto_key)) kvs &&
      forallb (fun kv => plain kv.2) kvs
  | _ => true
  end.

Definition items_text : bool -> list json -> string :=
  fix items first l :=
    match l with
    | [] => "]"%string
    | x :: r => String.append (comma first) (String.append (json_text x) (items false r))
    end.

Definition fields_text : bool -> list (string * json) -> string :=
  fix fields first kvs :=
    match kvs with
    | [] => "}"%string
    | (k, x) :: r =>
        if is_undef x then fields first r
        else String.append (comma first) (String.append (quote k)
               (String ":"%char (String.append (json_text x) (fields false r))))
    end.

Lemma json_text_arr l : json_text (JArr l) = String "["%char (items_text true l).
Proof. done. Qed.

Lemma json_text_obj kvs : json_text (JObj kvs) = String "{"%char (fields_text true kvs).
Proof. done. Qed.

Lemma append_cons c s r : String.append (String c s) r = String c (String.append s r).
Proof. done. Qed.

Lemma append_assoc s1 s2 s3 :
  String.append (String.append s1 s2) s3 = String.append s1 (String.append s2 s3).
Proof. induction s1; cbn; congruence. Qed.

(** *** Strings *)

Definition hex_val (c : ascii) : nat :=
  let n := nat_of_ascii c in if (n <? 58)%nat then (n - 48)%nat else (n - 87)%nat.

(** Reads back one escaped code unit; [None] at the closing quote. *)
Definition unescape (s : string) : option (ascii * string) :=
  match s with
  | EmptyString => None
  | String c r =>
      if (nat_of_ascii c =? 34)%nat then None
      else if negb (nat_of_ascii c =? 92)%nat then Some (c, r)
      else match r with
      | EmptyString => None
      | String d r' =>
          let n := nat_of_ascii d in
          if (n =? 34)%nat || (n =? 92)%nat then Some (d, r')
          else if (n =? 98)%nat then Some (ascii_of_nat 8, r')
          else if (n =? 116)%nat then Some (ascii_of_nat 9, r')
          else if (n =? 110)%nat then Some (ascii_of_nat 10, r')
          else if (n =? 102)%nat then Some (ascii_of_nat 12, r')
          else if (n =? 114)%nat then Some (ascii_of_nat 13, r')
          else match r' with
          | String _ (String _ (String h (String l r''))) =>
              Some (ascii_of_nat (16 * hex_val h + hex_val l), r'')
          | _ => None
          end
      end
  end.

Lemma unescape_escape c r : unescape (String.append (escape_char c) r) = Some (c, r).
Proof. destruct c as [[] [] [] [] [] [] [] []]; reflexivity. Qed.

Lemma escape_inj s1 s2 r1 r2 :
  String.append (escape s1) (String dquote r1) = String.append (escape s2) (String dquote r2) ->
  s1 = s2 /\ r1 = r2.
Proof.
  assert (forall r, unescape (String dquote r) = None) as Hq by done.
  revert s2. induction s1 as [|c1 s1 IH]; intros [|c2 s2]; cbn [escape]; intros H.
  - by injection H.
  - apply (f_equal unescape) in H. rewrite append_assoc, unescape_escape in H.
    change (unescape (String dquote r1) = Some (c2, String.append (escape s2) (String dquote r2))) in H.
    by rewrite Hq in H.
  - apply (f_equal unescape) in H. rewrite append_assoc, unescape_escape in H.
    change (Some (c1, String.append (escape s1) (String dquote r1)) = unescape (String dquote r2)) in H.
    by rewrite Hq in H.
  - apply (f_equal unescape) in H. rewrite !append_assoc, !unescape_escape in H.
    injection H as -> H. apply IH in H as [-> ->]. done.
Qed.

Lemma quote_inj s1 s2 r1 r2 :
  String.append (quote s1) r1 = String.append (quote s2) r2 -> s1 = s2 /\ r1 = r2.
Proof.
  unfold quote. cbn. rewrite !append_assoc. intros [= H]. by apply escape_inj in H.
Qed.

(** *** Numbers *)

Lemma dec_string_inj n1 n2 r1 r2 :
  0 <= n1 -> 0 <= n2 -> starts_nondigit r1 = true -> starts_nondigit r2 = true ->
  String.append (dec_string n1) r1 = String.append (dec_string n2) r2 -> n1 = n2 /\ r1 = r2.
Proof.
  intros H1 H2 Hr1 Hr2 H. apply (f_equal span_digits) in H.
  rewrite !span_digits_app in H by auto with earn. injection H as Hd ->. split; [|done].
  rewrite <- (dec_value_dec_string n1), <- (dec_value_dec_string n2) by done. by rewrite Hd.
Qed.

Lemma dec_string_head n : exists c r, dec_string n = String c r /\ is_digit c = true.
Proof.
  pose proof (dec_string_nonempty n) as Hl. pose proof (dec_string_digits n) as Hd.
  destruct (dec_string n) as [|c r]; cbn in *; [lia|]. exists c, r.
  by apply andb_true_iff in Hd as [? _].
Qed.

Lemma num_text_inj n1 n2 r1 r2 :
  starts_nondigit r1 = true -> starts_nondigit r2 = true ->
  String.append (num_text n1) r1 = String.append (num_text n2) r2 -> n1 = n2 /\ r1 = r2.
Proof.
  intros Hr1 Hr2. unfold num_text.
  destruct (Z.ltb_spec n1 0), (Z.ltb_spec n2 0); cbn; intros Heq.
  - injection Heq as Heq. apply dec_string_inj in Heq as [Hn ->]; [|lia..|done|done]. split; [lia|done].
  - destruct (dec_string_head n2) as (c & r & Hc & Hd). rewrite Hc in Heq. cbn in Heq.
    injection Heq as <- _. by vm_compute in Hd.
  - destruct (dec_string_head n1) as (c & r & Hc & Hd). rewrite Hc in Heq. cbn in Heq.
    injection Heq as -> _. by vm_compute in Hd.
  - by apply dec_string_inj in Heq.
Qed.

(** *** Values *)

(** What may follow a value in JSON text. *)
Definition delimited (r : string) : bool :=
  match r with
  | EmptyString => true
  | String c _ => Ascii.eqb c ","%char || Ascii.eqb c "]"%char || Ascii.eqb c "}"%char
  end.

Lemma delimited_nondigit r : delimited r = true -> starts_nondigit r = true.
Proof.
  destruct r as [|c r]; [done|]. cbn.
  destruct (Ascii.eqb_spec c ","%char) as [->|]; [done|].
  destruct (Ascii.eqb_spec c "]"%char) as [->|]; [done|].
  by destruct (Ascii.eqb_spec c "}"%char) as [->|].
Qed.

(** The kind of a value, and the kind its first character announces. *)
Definition kind_of (v : json) : nat :=
  match v with
  | JNull | JNonFinite | JUndef => 0 | JBool true => 1 | JBool false => 2 | JNum _ => 3
  | JStr _ => 4 | JArr _ => 5 | JObj _ | JDate _ => 6
  end%nat.

Definition kind_of_char (c : ascii) : nat :=
  if Ascii.eqb c "n"%char then 0 else if Ascii.eqb c "t"%char then 1
  else if Ascii.eqb c "f"%char then 2 else if Ascii.eqb c dquote then 4
  else if Ascii.eqb c "["%char then 5 else if Ascii.eqb c "{"%char then 6
  else if is_digit c || Ascii.eqb c "-"%char then 3 else 7.

Lemma is_digit_kind c : is_digit c = true -> kind_of_char c = 3%nat.
Proof. destruct c as [[] [] [] [] [] [] [] []]; intros H; by vm_compute in H |- *. Qed.

Lemma json_text_kind v : exists c r, json_text v = String c r /\ kind_of_char c = kind_of v.
Proof.
  destruct v as [|[]|n| |s|l|kvs| |t]; try (do 2 eexists; split; [reflexivity|reflexivity]).
  cbn [json_text]. unfold num_text. destruct (n <? 0); [do 2 eexists; split; reflexivity|].
  destruct (dec_string_head n) as (c & r & -> & Hd). exists c, r.
  split; [done|]. by apply is_digit_kind.
Qed.

Lemma json_text_same_kind v1 v2 r1 r2 :
  String.append (json_text v1) r1 = String.append (json_text v2) r2 -> kind_of v1 = kind_of v2.
Proof.
  destruct (json_text_kind v1) as (c1 & t1 & -> & <-), (json_text_kind v2) as (c2 & t2 & -> & <-).
  cbn. by intros [= -> _].
Qed.

(** The property proved by induction: [v] is read back from its text. *)
Definition readable (v1 : json) : Prop :=
  forall v2 r1 r2, printable v1 = true -> printable v2 = true ->
    delimited r1 = true -> delimited r2 = true ->
    String.append (json_text v1) r1 = String.append (json_text v2) r2 -> v1 = v2 /\ r1 = r2.

Lemma items_text_delimited l r : delimited (String.append (items_text false l) r) = true.
Proof. by destruct l. Qed.

Lemma fields_text_delimited kvs r :
  forallb (fun kv => printable kv.2) kvs = true ->
  delimited (String.append (fields_text false kvs) r) = true.
Proof. destruct kvs as [|[k []] kvs]; done. Qed.

Lemma append_inj s r1 r2 : String.append s r1 = String.append s r2 -> r1 = r2.
Proof. induction s; cbn; [done|]. intros [= ?]. auto. Qed.

Lemma items_text_cons first x l r :
  String.append (items_text first (x :: l)) r =
  String.append (comma first) (String.append (json_text x) (String.append (items_text false l) r)).
Proof. cbn. by rewrite !append_assoc. Qed.

Lemma fields_text_cons first k x l r :
  printable x = true ->
  String.append (fields_text first ((k, x) :: l)) r =
  String.append (comma first) (String.append (quote k)
    (String ":"%char (String.append (json_text x) (String.append (fields_text false l) r)))).
Proof.
  intros Hx. assert (is_undef x = false) as Hu by (by destruct x).
  change (fields_text first ((k, x) :: l)) with
    (if is_undef x then fields_text first l
     else String.append (comma first) (String.append (quote k)
            (String ":"%char (String.append (json_text x) (fields_text false l))))).
  by rewrite Hu, !append_assoc, append_cons, !append_assoc.
Qed.

Lemma closing_not_value v first r1 r2 :
  String.append (items_text first []) r1 <> String.append (comma first) (String.append (json_text v) r2).
Proof.
  destruct first; [|done]. destruct (json_text_kind v) as (c & t & -> & Hk). cbn.
  intros [= <- _]. change (7%nat = kind_of v) in Hk. by destruct v as [|[]| | | | | | |].
Qed.

Lemma items_text_inj l1 : Forall readable l1 -> forall first l2 r1 r2,
  forallb printable l1 = true -> forallb printable l2 = true ->
  String.append (items_text first l1) r1 = String.append (items_text first l2) r2 ->
  l1 = l2 /\ r1 = r2.
Proof.
  induction 1 as [|v1 l1 Hv _ IH]; intros first [|v2 l2] r1 r2; rewrite ?items_text_cons.
  - cbn. by intros _ _ [= ->].
  - intros _ _ H. by apply closing_not_value in H.
  - intros _ _ H. symmetry in H. by apply closing_not_value in H.
  - cbn [forallb]. intros [Hp1 Hp1']%andb_true_iff [Hp2 Hp2']%andb_true_iff H%append_inj.
    apply Hv in H as [-> H]; [|done|done|apply items_text_delimited..].
    by apply IH in H as [-> ->].
Qed.

Lemma fields_text_inj l1 : Forall (fun kv => readable kv.2) l1 -> forall first l2 r1 r2,
  forallb (fun kv => printable kv.2) l1 = true -> forallb (fun kv => printable kv.2) l2 = true ->
  String.append (fields_text first l1) r1 = String.append (fields_text first l2) r2 ->
  l1 = l2 /\ r1 = r2.
Proof.
  induction 1 as [|[k1 v1] l1 Hv _ IH]; intros first [|[k2 v2] l2] r1 r2; cbn [forallb snd].
  - cbn. by intros _ _ [= ->].
  - intros _ [Hp2 _]%andb_true_iff. rewrite fields_text_cons by done. by destruct first.
  - intros [Hp1 _]%andb_true_iff _. rewrite fields_text_cons by done. by destruct first.
  - intros [Hp1 Hp1']%andb_true_iff [Hp2 Hp2']%andb_true_iff.
    rewrite !fields_text_cons by done. intros H%append_inj.
    apply quote_inj in H as [-> H]. injection H as H.
    apply Hv in H as [Hx H]; [|done|done|by apply fields_text_delimited..]. cbn in Hx. subst v2.
    by apply IH in H as [-> ->].
Qed.

Lemma json_text_readable v : readable v.
Proof.
  induction v as [|b|n| |s|l IH|kvs IH| |t] using json_ind; intros v2 r1 r2 Hp1 Hp2 Hr1 Hr2 H;
    try done; pose proof (json_text_same_kind _ _ _ _ H) as Hk.
  - destruct v2 as [|[]| | | | | | |]; try done. by injection H.
  - destruct b, v2 as [|[]| | | | | | |]; try done; by injection H.
  - destruct v2 as [|[]|n2| | | | | |]; try done.
    apply num_text_inj in H as [-> ->]; auto using delimited_nondigit.
  - destruct v2 as [|[]| | |s2| | | |]; try done. by apply quote_inj in H as [-> ->].
  - destruct v2 as [|[]| | | |l2| | |]; try done.
    rewrite !json_text_arr in H. cbn in H. injection H as H.
    by apply items_text_inj in H as [-> ->].
  - destruct v2 as [|[]| | | | |kvs2| |]; try done.
    rewrite !json_text_obj in H. cbn in H. injection H as H.
    by apply fields_text_inj in H as [-> ->].
Qed.

(** [JSON.stringify] is injective on printable values. *)
Lemma json_text_inj v1 v2 :
  printable v1 = true -> printable v2 = true -> json_text v1 = json_text v2 -> v1 = v2.
Proof.
  intros H1 H2 H. apply (json_text_readable v1 v2 EmptyString EmptyString); try done.
  by rewrite !append_nil_r.
Qed.

(** *** Sorting is a reordering *)

Lemma reorder_arr_all l l' : Forall2 reorder l l' -> forall pre,
  reorder (JArr (pre ++ l)) (JArr (pre ++ l')).
Proof.
  induction 1 as [|v v' l l' Hv _ IH]; intros pre; [reflexivity|].
  etrans; [by apply reorder_arr|]. specialize (IH (pre ++ [v'])).
  by rewrite <- !app_assoc in IH.
Qed.

Lemma reorder_obj_all (f : json -> json) kvs : Forall (fun kv => reorder kv.2 (f kv.2)) kvs -> forall pre,
  reorder (JObj (pre ++ kvs)) (JObj (pre ++ List.map (fun kv => (kv.1, f kv.2)) kvs)).
Proof.
  induction 1 as [|[k v] kvs Hv _ IH]; intros pre; [reflexivity|].
  etrans; [by apply reorder_obj|]. specialize (IH (pre ++ [(k, f v)])).
  by rewrite <- !app_assoc in IH.
Qed.

Lemma build_object_elem kv l : kv ∈ build_object l -> kv ∈ l.
Proof. unfold build_object. rewrite elem_of_app, js_sort_perm, !elem_of_filter_bool. tauto. Qed.

Lemma build_object_perm entries :
  forallb (fun kv => negb (String.eqb kv.1 proto_key)) entries = true ->
  build_object entries ≡ₚ entries.
Proof.
  intros H. unfold build_object.
  rewrite (filter_bool_all (fun kv => negb (String.eqb kv.1 proto_key)) entries).
  - rewrite js_sort_perm. apply filter_bool_split.
  - apply Forall_forall. intros x Hx. rewrite forallb_forall in H.
    by apply H, list_elem_of_In.
Qed.

Lemma forallb_perm {A} (f : A -> bool) l l' : l ≡ₚ l' -> forallb f l = forallb f l'.
Proof.
  induction 1 as [|x l l' _ IH|x y l|l l' l'' _ IH1 _ IH2]; cbn; [done|congruence| |congruence].
  by destruct (f x), (f y).
Qed.

Lemma forallb_sort_entry (f : string -> bool) kvs :
  forallb (fun kv => f kv.1) (List.map sort_entry kvs) = forallb (fun kv => f kv.1) kvs.
Proof. induction kvs as [|[k v] kvs IH]; cbn; congruence. Qed.

Lemma sorted_entries_perm kvs :
  forallb (fun kv => negb (String.eqb kv.1 proto_key)) kvs = true ->
  build_object (js_sort key_le (List.map sort_entry kvs)) ≡ₚ List.map sort_entry kvs.
Proof.
  intros H. rewrite build_object_perm; [apply js_sort_perm|].
  rewrite (forallb_perm _ _ _ (js_sort_perm key_le _)).
  by rewrite (forallb_sort_entry (fun k => negb (String.eqb k proto_key))).
Qed.

Lemma sortObject_obj kvs :
  sortObject (JObj kvs) = JObj (build_object (js_sort key_le (List.map sort_entry kvs))).
Proof. done. Qed.

Lemma plain_obj kvs :
  plain (JObj kvs) = true ->
  NoDup kvs.*1 /\ forallb (fun kv => negb (String.eqb kv.1 proto_key)) kvs = true /\
  forallb (fun kv => plain kv.2) kvs = true.
Proof. cbn. intros H. reflect_hyps. done. Qed.

Lemma reorder_sortObject v : plain v = true -> reorder v (sortObject v).
Proof.
  induction v as [|b|n| |s|l IH|kvs IH| |t] using json_ind; try done; intros Hp.
  - apply (reorder_arr_all _ _) with (pre := []). cbn in Hp. rewrite forallb_forall in Hp.
    rewrite Forall_forall in IH. apply Forall2_fmap_r, Forall_Forall2_diag, Forall_forall.
    intros x Hx. apply IH; [done|]. by apply Hp, list_elem_of_In.
  - apply plain_obj in Hp as (Hnd & Hproto & Hp). rewrite sortObject_obj.
    etrans; [apply (reorder_obj_all sortObject kvs) with (pre := [])|].
    + rewrite forallb_forall in Hp. rewrite Forall_forall in IH |- *. intros kv Hkv.
      apply IH; [done|]. by apply Hp, list_elem_of_In.
    + apply reorder_perm; [cbn; by rewrite sort_entry_keys|]. cbn.
      by rewrite sorted_entries_perm.
Qed.

Lemma printable_sortObject v : plain v = true -> printable (sortObject v) = true.
Proof.
  induction v as [|b|n| |s|l IH|kvs IH| |t] using json_ind; try done; intros Hp.
  - cbn in *. rewrite forallb_forall in Hp. rewrite Forall_forall in IH.
    apply forallb_forall. intros x (y & <- & Hy)%in_map_iff.
    apply IH; [by apply list_elem_of_In|auto].
  - apply plain_obj in Hp as (Hnd & Hproto & Hp). rewrite sortObject_obj. cbn [printable].
    rewrite (forallb_perm _ _ _ (sorted_entries_perm kvs Hproto)).
    rewrite forallb_forall in Hp. rewrite Forall_forall in IH.
    apply forallb_forall. intros x (y & <- & Hy)%in_map_iff.
    apply IH; [by apply list_elem_of_In|auto].
Qed.

Lemma plain_finite v : plain v = true -> has_non_finite v = false.
Proof.
  induction v as [|b|n| |s|l IH|kvs IH| |t] using json_ind; try done; intros Hp.
  - cbn in *. rewrite forallb_forall in Hp. rewrite Forall_forall in IH.
    apply not_true_iff_false. intros (x & Hx & Hn)%existsb_exists.
    rewrite IH in Hn; [done|by apply list_elem_of_In|auto].
  - apply plain_obj in Hp as (_ & _ & Hp). cbn in *. rewrite forallb_forall in Hp.
    rewrite Forall_forall in IH. apply not_true_iff_false. intros (x & Hx & Hn)%existsb_exists.
    rewrite IH in Hn; [done|by apply list_elem_of_In|auto].
Qed.

Lemma canonicalize_plain v :
  plain v = true -> canonicalize v = Ok (Some (json_text (sortObject v))).
Proof.
  intros Hp. unfold canonicalize, stringify. rewrite (plain_finite v Hp).
  apply printable_sortObject in Hp. by destruct (sortObject v).
Qed.

Lemma jopt_plain o : plain (jopt o) = true.
Proof. by destruct o. Qed.

Lemma jopt_inj a b : jopt a = jopt b -> a = b.
Proof. destruct a, b; cbn; naive_solver. Qed.

(** Canonical text, up to the order of properties: equal exactly for equal data. *)
Lemma canonicalize_iff v w :
  plain v = true -> plain w = true -> canonicalize v = canonicalize w <-> reorder v w.
Proof.
  intros Hv Hw. split.
  - rewrite !canonicalize_plain by done. intros [= H].
    apply json_text_inj in H; auto using printable_sortObject.
    etrans; [by apply reorder_sortObject|]. rewrite H. symmetry. by apply reorder_sortObject.
  - intros H. unfold canonicalize.
    by rewrite (has_non_finite_reorder _ _ H), (sortObject_reorder _ _ H).
Qed.

#[export] Instance canonicalize_proper : Proper (reorder ==> eq) canonicalize.
Proof.
  intros v w H. unfold canonicalize.
  by rewrite (has_non_finite_reorder _ _ H), (sortObject_reorder _ _ H).
Qed.

(** ** Reading fields through a reordering *)

Definition atomic (v : json) : bool := match v with JArr _ | JObj _ => false | _ => true end.

Lemma reorder_atomic v w : reorder v w -> (atomic v = true -> w = v) /\ (atomic w = true -> v = w).
Proof. induction 1; cbn; try done; naive_solver. Qed.

Lemma get_app_ne {V} (k k' : string) (l1 l2 : list (string * V)) v v' :
  k <> k' -> JsMap.get k (l1 ++ (k', v) :: l2) = JsMap.get k (l1 ++ (k', v') :: l2).
Proof.
  intros H. induction l1 as [|[k1 v1] l1 IH]; cbn; [by rewrite !decide_False|]. by rewrite IH.
Qed.

Lemma get_app_eq {V} (k : string) (l1 l2 : list (string * V)) v :
  NoDup (l1 ++ (k, v) :: l2).*1 -> JsMap.get k (l1 ++ (k, v) :: l2) = Some v.
Proof. intros Hnd. apply JsMap.elem_of_get; [done|]. set_solver. Qed.

(** Two reorderings of an object have the same keys, with reordered values. *)
Definition same_fields (l l' : list (string * json)) : Prop :=
  NoDup l.*1 -> NoDup l'.*1 /\ forall k, option_Forall2 reorder (JsMap.get k l) (JsMap.get k l').

Lemma option_Forall2_reorder_refl o : option_Forall2 reorder o o.
Proof. destruct o; constructor; reflexivity. Qed.

Lemma reorder_fields v w :
  reorder v w ->
  match v, w with
  | JObj l, JObj l' => same_fields l l'
  | JObj _, _ | _, JObj _ => False
  | _, _ => True
  end.
Proof.
  induction 1 as [v|v1 v2 v3 _ IH1 _ IH2|kvs kvs' Hnd Hp|l1 v v' l2 H IH|l1 k v v' l2 H IH].
  - by destruct v.
  - destruct v1, v2, v3; try done. intros Hnd. destruct (IH1 Hnd) as [Hnd2 H12].
    destruct (IH2 Hnd2) as [Hnd3 H23]. split; [done|]. intros k. specialize (H12 k). specialize (H23 k).
    destruct H12; inversion H23; subst; constructor. by etrans.
  - intros _. assert (NoDup kvs'.*1) as Hnd' by by rewrite <- Hp. split; [done|]. intros k.
    replace (JsMap.get k kvs') with (JsMap.get k kvs); [apply option_Forall2_reorder_refl|].
    apply option_eq. intros x. rewrite <- !JsMap.elem_of_get by done. by rewrite Hp.
  - done.
  - intros Hnd. assert (NoDup (l1 ++ (k, v') :: l2).*1) as Hnd'
      by (rewrite fmap_app in *; exact Hnd). split; [done|].
    intros k'. destruct (decide (k' = k)) as [->|Hne].
    + rewrite !get_app_eq by done. by constructor.
    + rewrite (get_app_ne k' k l1 l2 v v' Hne). apply option_Forall2_reorder_refl.
Qed.

(** A field of plain objects with the same canonical text, when it is atomic. *)
Lemma canonical_field l l' k v :
  plain (JObj l) = true -> plain (JObj l') = true -> canonicalize (JObj l) = canonicalize (JObj l') ->
  JsMap.get k l = Some v -> atomic v = true -> JsMap.get k l' = Some v.
Proof.
  intros Hl Hl' Hc Hg Ha. apply canonicalize_iff in Hc; [|done..].
  apply reorder_fields in Hc. apply plain_obj in Hl as (Hnd & _ & _).
  destruct (Hc Hnd) as [_ Hk]. specialize (Hk k). rewrite Hg in Hk. inversion Hk as [? w Hr|]; subst.
  apply reorder_atomic in Hr as [Hr _]. by rewrite (Hr Ha).
Qed.

(** Reading along a path of keys. *)
Definition field (k : string) (v : json) : option json :=
  match v with JObj l => JsMap.get k l | _ => None end.
Fixpoint path (ks : list string) (v : json) : option json :=
  match ks with [] => Some v | k :: ks => field k v ≫= path ks end.

Lemma reorder_field k v w :
  plain v = true -> reorder v w -> option_Forall2 reorder (field k v) (field k w).
Proof.
  intros Hp Hr. apply reorder_fields in Hr. destruct v, w; try done; try constructor.
  apply plain_obj in Hp as (Hnd & _). by apply Hr.
Qed.

Lemma field_plain k v x : plain v = true -> field k v = Some x -> plain x = true.
Proof.
  destruct v; try done. cbn [field]. intros (Hnd & _ & Hp)%plain_obj Hg.
  apply JsMap.elem_of_get in Hg; [|done]. rewrite forallb_forall in Hp.
  by apply (Hp (k, x)), list_elem_of_In.
Qed.

Lemma reorder_path ks v w :
  plain v = true -> reorder v w -> option_Forall2 reorder (path ks v) (path ks w).
Proof.
  revert v w. induction ks as [|k ks IH]; intros v w Hp Hr; [by constructor|]. cbn [path].
  pose proof (reorder_field k v w Hp Hr) as Hf. pose proof (field_plain k v) as Hfp.
  destruct Hf; cbn; [|constructor]. apply IH; eauto.
Qed.

(** An atomic value found along a path is found in every reordering. *)
Lemma reorder_path_atomic ks v w x :
  plain v = true -> reorder v w -> path ks v = Some x -> atomic x = true -> path ks w = Some x.
Proof.
  intros Hp Hr Hx Ha. pose proof (reorder_path ks v w Hp Hr) as Hf. rewrite Hx in Hf.
  inversion Hf as [? y Hxy|]; subst. apply reorder_atomic in Hxy as [Hxy _]. by rewrite (Hxy Ha).
Qed.

(** ** Properties *)

(** C40: two plain JSON values (distinct keys, no undefined, no [__proto__] key)
    have the same canonical text exactly when one is the other with object
    properties reordered at some depth: the text is deterministic in the data
    and no two different data share it. *)
Theorem canonical_text_determines_value v w :
  plain v = true -> plain w = true -> canonicalize v = canonicalize w <-> reorder v w.
Proof. apply canonicalize_iff. Qed.

Definition demo_left : json :=
  JObj [("b"%string, JNum 2); ("a"%string, JArr [JStr "x"; JNull])].
Definition demo_right : json :=
  JObj [("a"%string, JArr [JStr "x"; JNull]); ("b"%string, JNum 2)].

Lemma canonical_text_determines_value_witness :
  canonicalize demo_left = canonicalize demo_right.
Proof.
  apply canonical_text_determines_value; [by vm_compute..|].
  apply reorder_perm; [|by constructor].
  cbn. apply NoDup_cons. split; [set_solver|apply NoDup_singleton].
Defined.

Definition not_proto (kv : string * json) : bool := negb (String.eqb kv.1 proto_key).

Lemma own_entries_proto v es :
  NoDup es.*1 ->
  List.filter not_proto (js_sort key_le ((proto_key, v) :: es)) =
  List.filter not_proto (js_sort key_le es).
Proof.
  intros Hnd.
  assert (forall l : list (string * json), Forall (fun _ => True) l) as HT
    by (intros l; by apply Forall_true).
  assert (List.filter not_proto (js_sort key_le ((proto_key, v) :: es)) ≡ₚ
    List.filter not_proto es) as Hp1.
  { rewrite (filter_bool_perm not_proto _ _ (js_sort_perm key_le ((proto_key, v) :: es))).
    done. }
  assert (List.filter not_proto (js_sort key_le es) ≡ₚ List.filter not_proto es) as Hp2
    by apply filter_bool_perm, js_sort_perm.
  apply (StronglySorted_unique_strong (fun x y => key_le x y = true)).
  - intros x y Hx Hy Hxy Hyx. rewrite Hp1 in Hx. rewrite Hp2 in Hy.
    apply list_elem_of_In, List.filter_In in Hx as [Hx%list_elem_of_In _].
    apply list_elem_of_In, List.filter_In in Hy as [Hy%list_elem_of_In _].
    apply (key_unique fst es); [done..|]. by apply str_le_antisymm.
  - apply StronglySorted_filter, (js_sort_sorted _ (fun _ => True));
      eauto using key_le_total, key_le_trans.
  - apply StronglySorted_filter, (js_sort_sorted _ (fun _ => True));
      eauto using key_le_total, key_le_trans.
  - by rewrite Hp1, Hp2.
Qed.

(** an own [__proto__] property does not reach the canonical text, so
    adding one, with any content, to a value does not change what is hashed. *)
Theorem canonicalize_drops_proto v kvs :
  has_non_finite v = false -> NoDup kvs.*1 ->
  canonicalize (JObj ((proto_key, v) :: kvs)) = canonicalize (JObj kvs).
Proof.
  intros Hv Hnd. unfold canonicalize. cbn [has_non_finite existsb snd]. rewrite Hv. cbn [orb].
  destruct (existsb _ kvs); [done|]. do 2 f_equal. rewrite !sortObject_obj. f_equal.
  unfold build_object. cbn [List.map]. fold not_proto.
  change (sort_entry (proto_key, v)) with (proto_key, sortObject v).
  by rewrite own_entries_proto by (by rewrite sort_entry_keys).
Qed.

Lemma canonicalize_drops_proto_witness :
  canonicalize (JObj [(proto_key, JObj [("admin"%string, JBool true)])]) = canonicalize (JObj []).
Proof. apply canonicalize_drops_proto; [done|constructor]. Defined.

(** Keys that are array indices enumerate numerically, before the others. *)
Example canonical_order_not_alphabetical :
  canonicalize (JObj [("10"%string, JNum 1); ("9"%string, JNum 2); ("a"%string, JNum 3)]) =
  canonicalize (JObj [("9"%string, JNum 2); ("10"%string, JNum 1); ("a"%string, JNum 3)]) /\
  (fun kv => kv.1) <$> build_object (js_sort key_le
     [("10"%string, JNum 1); ("9"%string, JNum 2); ("a"%string, JNum 3)]) =
  ["9"%string; "10"%string; "a"%string].
Proof. by vm_compute. Qed.
