(* ===== verification/AuditChain.v ===== *)
(** * The hash chain of the audit log

    Model of [src/audit/audit-chain.ts] (what a record's hash covers), of the
    chain writer of [src/database/prisma.service.ts], of the walk of
    [src/audit/audit-verification.service.ts], and of the plain insert that
    [tx.auditLog.create] performs inside a transaction, which bypasses the
    writer.  An append holds the lock of its chain's cursor until its transaction
    ends, so it is one step.  The client sends a value as JSON text, in which
    undefined properties are left out and a [Date] is its ISO text; a [jsonb]
    column keeps the data of what it is sent and not the order of its properties:
    what is read back is a parameter. *)

From S2P Require Import Prelude JsData DecimalText Calendar IsoDate Schema Canonical.
From Stdlib Require Import Ascii.

Local Open Scope string_scope.
Local Open Scope Z_scope.
#[local] Arguments String.append !_ _ : simpl nomatch.

Definition CURRENT_HASH_VERSION : Z := 1.
Definition SYSTEM_CHAIN_KEY := "SYSTEM".
Definition GENESIS_SENTINEL := "GENESIS".

Definition resolveChainKey (organizationId : option string) : string :=
  match organizationId with Some (String _ _ as id) => id | _ => SYSTEM_CHAIN_KEY end.

(** ** What a hash covers *)

Record AuditHashInput := {
  hi_chainKey : string;
  hi_sequence : Z;
  hi_actorType : string;
  hi_actorId : option string;
  hi_action : string;
  hi_resourceType : string;
  hi_resourceId : option string;
  hi_metadata : option json;
  hi_createdAt : Z;
}.

Fixpoint sortKeysDeep (value : json) : json :=
  match value with
  | JArr l => JArr (List.map sortKeysDeep l)
  | JObj kvs =>
      JObj (build_object (js_sort key_le
        (List.filter (fun kv => negb (is_undef kv.2)) (List.map (fun kv => (kv.1, sortKeysDeep kv.2)) kvs))))
  | JDate t => jiso t
  | _ => value
  end.

(** [JSON.stringify] of an object is a string. *)
Definition canonicalStringify (value : json) : string := json_text (sortKeysDeep value).

Definition record_value (input : AuditHashInput) (hashVersion : Z) : json :=
  JObj [("chainKey", JStr (hi_chainKey input)); ("sequence", JStr (num_text (hi_sequence input)));
        ("hashVersion", JNum hashVersion); ("actorType", JStr (hi_actorType input));
        ("actorId", jopt (hi_actorId input)); ("action", JStr (hi_action input));
        ("resourceType", JStr (hi_resourceType input)); ("resourceId", jopt (hi_resourceId input));
        ("metadata", default JNull (hi_metadata input)); ("createdAt", jiso (hi_createdAt input))].

Definition buildCanonicalRecord (input : AuditHashInput) (hashVersion : Z) : string :=
  canonicalStringify (record_value input hashVersion).

(** [JSON.parse(JSON.stringify(value))], the value that is sent to the database. *)
Fixpoint serialized (value : json) : json :=
  match value with
  | JUndef | JNonFinite => JNull
  | JArr l => JArr (List.map serialized l)
  | JObj kvs => JObj (List.flat_map (fun kv => if is_undef kv.2 then [] else [(kv.1, serialized kv.2)]) kvs)
  | JDate t => jiso t
  | _ => value
  end.

(** ** Tables *)

Record AuditRow := {
  ar_id : string;
  ar_content : AuditHashInput;
  ar_hashVersion : Z;
  ar_prevHash : option string;
  ar_hash : string;
}.
Abbreviation ar_chainKey r := (hi_chainKey (ar_content r)).
Abbreviation ar_sequence r := (hi_sequence (ar_content r)).

Record Cursor := { lastSequence : Z; lastHash : option string }.
Record AuditDb := { auditRows : list AuditRow; cursors : list (string * Cursor) }.

Definition row_key (r : AuditRow) : string * Z := (ar_chainKey r, ar_sequence r).

(** An insert into the table, with its two unique columns. *)
Definition insert_audit (r : AuditRow) (rows : list AuditRow) : result DbError (list AuditRow) :=
  _ ← throw_if (bool_decide (ar_id r ∈ ar_id <$> rows) || bool_decide (row_key r ∈ row_key <$> rows)) P2002;
  Ok (rows ++ [r])%list.

(** What a caller passes to [auditLog.create]. *)
Record AuditArgs := {
  aa_organizationId : option string;
  aa_actorType : string;
  aa_actorId : option string;
  aa_action : string;
  aa_resourceType : string;
  aa_resourceId : option string;
  aa_metadata : option json;
  aa_createdAt : option Z;
}.

Definition content_of (args : AuditArgs) (chainKey : string) (sequence now : Z) : AuditHashInput :=
  {| hi_chainKey := chainKey; hi_sequence := sequence; hi_actorType := aa_actorType args;
     hi_actorId := aa_actorId args; hi_action := aa_action args; hi_resourceType := aa_resourceType args;
     hi_resourceId := aa_resourceId args; hi_metadata := aa_metadata args;
     hi_createdAt := default now (aa_createdAt args) |}.

(** The delegate of a transaction writes the column defaults. *)
Definition unchained_row (id : string) (now : Z) (args : AuditArgs) : AuditRow :=
  {| ar_id := id; ar_content := content_of args SYSTEM_CHAIN_KEY 0 now; ar_hashVersion := 1;
     ar_prevHash := None; ar_hash := EmptyString |}.

Definition createUnchained (id : string) (now : Z) (args : AuditArgs) (rows : list AuditRow)
    : result DbError (list AuditRow) :=
  insert_audit (unchained_row id now args) rows.

Section chain.
Context (sha256 : string -> string).

Definition computeAuditHash (prevHash : option string) (input : AuditHashInput) (hashVersion : Z)
    : option string :=
  if hashVersion =? 1 then
    Some (sha256 (String.append (default GENESIS_SENTINEL prevHash)
                   (String "|" (buildCanonicalRecord input hashVersion))))
  else None.                                     (* unsupported version: throws *)

Definition appendAuditLog (id : string) (now : Z) (args : AuditArgs) (d : AuditDb) : result DbError AuditDb :=
  let chainKey := resolveChainKey (aa_organizationId args) in
  let cursor := default {| lastSequence := 0; lastHash := None |} (JsMap.get chainKey (cursors d)) in
  let sequence := lastSequence cursor + 1 in
  let input := content_of args chainKey sequence now in
  match computeAuditHash (lastHash cursor) input CURRENT_HASH_VERSION with
  | None => Ok d                                 (* not reached: the version is supported *)
  | Some hash =>
      rows ← insert_audit {| ar_id := id; ar_content := input; ar_hashVersion := CURRENT_HASH_VERSION;
                             ar_prevHash := lastHash cursor; ar_hash := hash |} (auditRows d);
      Ok {| auditRows := rows;
            cursors := JsMap.set chainKey {| lastSequence := sequence; lastHash := Some hash |} (cursors d) |}
  end.

(** ** Verification *)

Definition WALK_PAGE_SIZE : nat := 500.

Inductive ChainVerificationReason := HASH_MISMATCH | PREV_HASH_MISMATCH | SEQUENCE_GAP.

Record ChainBreak := { cb_recordId : string; cb_sequence : Z; cb_reason : ChainVerificationReason }.

Record ChainVerificationResult := {
  cv_chainKey : string;
  cv_ok : bool;
  cv_recordsChecked : Z;
  cv_firstSequenceChecked : option Z;
  cv_lastSequenceChecked : option Z;
  cv_retentionTruncated : bool;
  cv_break : option ChainBreak;
}.

(** The variables of the loop. *)
Record Walk := {
  previousHash : option string;
  previousSequence : option Z;
  recordsChecked : Z;
  firstSequenceChecked : option Z;
  lastSequenceChecked : option Z;
  retentionTruncated : bool;
}.
Definition walk_start : Walk :=
  {| previousHash := None; previousSequence := None; recordsChecked := 0; firstSequenceChecked := None;
     lastSequenceChecked := None; retentionTruncated := false |}.

Inductive AuditError := UnsupportedVersion (version : Z).

Definition broken (chainKey : string) (w : Walk) (r : AuditRow) (reason : ChainVerificationReason)
    : ChainVerificationResult :=
  {| cv_chainKey := chainKey; cv_ok := false; cv_recordsChecked := recordsChecked w + 1;
     cv_firstSequenceChecked := firstSequenceChecked w; cv_lastSequenceChecked := Some (ar_sequence r);
     cv_retentionTruncated := retentionTruncated w;
     cv_break := Some {| cb_recordId := ar_id r; cb_sequence := ar_sequence r; cb_reason := reason |} |}.

Definition intact (chainKey : string) (w : Walk) : ChainVerificationResult :=
  {| cv_chainKey := chainKey; cv_ok := true; cv_recordsChecked := recordsChecked w;
     cv_firstSequenceChecked := firstSequenceChecked w; cv_lastSequenceChecked := lastSequenceChecked w;
     cv_retentionTruncated := retentionTruncated w; cv_break := None |}.

(** The value of a [jsonb] column as it is read back. *)
Context (jsonb : json -> json).

Definition read_content (chainKey : string) (r : AuditRow) : AuditHashInput :=
  let c := ar_content r in
  {| hi_chainKey := chainKey; hi_sequence := hi_sequence c; hi_actorType := hi_actorType c;
     hi_actorId := hi_actorId c; hi_action := hi_action c; hi_resourceType := hi_resourceType c;
     hi_resourceId := hi_resourceId c; hi_metadata := (fun m => jsonb (serialized m)) <$> hi_metadata c;
     hi_createdAt := hi_createdAt c |}.

(** The first record sets where the walk starts. *)
Definition note_first (w : Walk) (r : AuditRow) : Walk :=
  match firstSequenceChecked w with
  | Some _ => w
  | None =>
      {| previousHash := previousHash w; previousSequence := previousSequence w;
         recordsChecked := recordsChecked w; firstSequenceChecked := Some (ar_sequence r);
         lastSequenceChecked := lastSequenceChecked w;
         retentionTruncated := retentionTruncated w || (1 <? ar_sequence r) |}
  end.

(** The link to the previous record, when there is one in hand. *)
Definition link_break (w : Walk) (r : AuditRow) : option ChainVerificationReason :=
  if bool_decide (is_Some (previousHash w)) || bool_decide (is_Some (previousSequence w)) then
    if negb (bool_decide (ar_prevHash r = previousHash w)) then Some PREV_HASH_MISMATCH
    else if negb (bool_decide (Some (ar_sequence r) = (fun s => s + 1) <$> previousSequence w))
    then Some SEQUENCE_GAP else None
  else None.

Definition advance (w : Walk) (r : AuditRow) : Walk :=
  {| previousHash := Some (ar_hash r); previousSequence := Some (ar_sequence r);
     recordsChecked := recordsChecked w + 1; firstSequenceChecked := firstSequenceChecked w;
     lastSequenceChecked := Some (ar_sequence r); retentionTruncated := retentionTruncated w |}.

Definition check_record (chainKey : string) (w : Walk) (r : AuditRow)
    : result AuditError (Walk + ChainVerificationResult) :=
  let w := note_first w r in
  match computeAuditHash (ar_prevHash r) (read_content chainKey r) (ar_hashVersion r) with
  | None => Err (UnsupportedVersion (ar_hashVersion r))
  | Some recomputedHash =>
      if negb (bool_decide (recomputedHash = ar_hash r)) then Ok (inr (broken chainKey w r HASH_MISMATCH))
      else match link_break w r with
           | Some reason => Ok (inr (broken chainKey w r reason))
           | None => Ok (inl (advance w r))
           end
  end.

Fixpoint walk_rows (chainKey : string) (w : Walk) (page : list AuditRow)
    : result AuditError (Walk + ChainVerificationResult) :=
  match page with
  | [] => Ok (inl w)
  | r :: page =>
      x ← check_record chainKey w r;
      match x with inl w => walk_rows chainKey w page | inr res => Ok (inr res) end
  end.

Definition sequence_le (r r' : AuditRow) : bool := ar_sequence r <=? ar_sequence r'.

Definition after (cursor : option Z) (r : AuditRow) : bool :=
  match cursor with None => true | Some c => c <? ar_sequence r end.

Definition page_after (chainKey : string) (cursor : option Z) (rows : list AuditRow) : list AuditRow :=
  take WALK_PAGE_SIZE (js_sort sequence_le
    (List.filter (fun r => String.eqb (ar_chainKey r) chainKey && after cursor r) rows)).

(** The loop; every page but the last moves the cursor past [WALK_PAGE_SIZE]
    records, so one round per record is enough. *)
Fixpoint walk_pages (fuel : nat) (chainKey : string) (cursor : option Z) (w : Walk) (rows : list AuditRow)
    : result AuditError ChainVerificationResult :=
  match fuel with
  | O => Ok (intact chainKey w)
  | S fuel =>
      let page := page_after chainKey cursor rows in
      x ← walk_rows chainKey w page;
      match x with
      | inr res => Ok res
      | inl w =>
          match last page with
          | None => Ok (intact chainKey w)
          | Some r =>
              if (length page <? WALK_PAGE_SIZE)%nat then Ok (intact chainKey w)
              else walk_pages fuel chainKey (Some (ar_sequence r)) w rows
          end
      end
  end.

Definition verifyChain (organizationId : option string) (rows : list AuditRow)
    : result AuditError ChainVerificationResult :=
  walk_pages (S (length rows)) (resolveChainKey organizationId) None walk_start rows.
End chain.
