(* ===== verification/AuditChainFacts.v ===== *)
(** * What the audit chain guarantees

    Chains written by the chain writer verify; the paged walk is one walk over
    the chain; a chain that verifies is bound to its last hash; and an insert
    that bypasses the writer spoils the system chain. *)

From S2P Require Import Prelude JsData DecimalText Calendar IsoDate Schema Canonical AuditChain.
From Stdlib Require Import Ascii.

Local Open Scope string_scope.
Local Open Scope Z_scope.
#[local] Arguments String.append !_ _ : simpl nomatch.

(** ** Canonical text *)

Lemma sortObject_defined v : plain v = true -> is_undef (sortObject v) = false.
Proof. by destruct v. Qed.

Lemma sortKeysDeep_plain v : plain v = true -> sortKeysDeep v = sortObject v.
Proof.
  induction v as [|b|n| |s|l IH|kvs IH| |t] using json_ind; try done; intros Hp.
  - cbn in *. f_equal. apply map_ext_in. intros x Hx%list_elem_of_In.
    rewrite Forall_forall in IH. apply IH; [done|]. rewrite forallb_forall in Hp. by apply Hp, list_elem_of_In.
  - apply plain_obj in Hp as (_ & _ & Hp). rewrite forallb_forall in Hp. rewrite Forall_forall in IH.
    assert (List.map (fun kv => (kv.1, sortKeysDeep kv.2)) kvs =
            List.map (fun kv => (kv.1, sortObject kv.2)) kvs) as Hmap.
    { apply map_ext_in. intros kv Hkv. f_equal. apply IH; [by apply list_elem_of_In|auto]. }
    cbn [sortKeysDeep sortObject]. rewrite Hmap, filter_bool_all; [done|].
    apply Forall_forall. intros kv Hkv. apply list_elem_of_In, in_map_iff in Hkv as (kv0 & <- & Hin). cbn.
    by rewrite sortObject_defined by auto.
Qed.

Lemma canonicalStringify_iff v w :
  plain v = true -> plain w = true -> canonicalStringify v = canonicalStringify w <-> reorder v w.
Proof.
  intros Hv Hw. rewrite <- canonicalize_iff by done. rewrite !canonicalize_plain by done.
  unfold canonicalStringify. rewrite !sortKeysDeep_plain by done. split; [by intros ->|by intros [= ->]].
Qed.

(** *** Values as callers pass them *)

Lemma filter_map_bool {A B} (f : A -> B) p l : List.filter p (List.map f l) = List.map f (List.filter (fun x => p (f x)) l).
Proof. induction l as [|x l IH]; [done|]. cbn. destruct (p (f x)); cbn; by rewrite IH. Qed.

Lemma build_object_map (g : json -> json) l :
  build_object (List.map (fun kv => (kv.1, g kv.2)) l) = List.map (fun kv => (kv.1, g kv.2)) (build_object l).
Proof.
  unfold build_object. rewrite !filter_map_bool, List.map_app. cbn [fst]. f_equal. by apply js_sort_map.
Qed.

Lemma is_undef_sortKeysDeep v : is_undef (sortKeysDeep v) = is_undef v.
Proof. by destruct v. Qed.

Lemma serialized_obj kvs :
  serialized (JObj kvs) =
  JObj (List.map (fun kv => (kv.1, serialized kv.2)) (List.filter (fun kv => negb (is_undef kv.2)) kvs)).
Proof.
  cbn. f_equal. induction kvs as [|kv kvs IH]; [done|]. cbn. rewrite IH. by destruct (is_undef kv.2).
Qed.

(** Serializing commutes with sorting. *)
Lemma sortKeysDeep_serialized v : sortKeysDeep (serialized v) = serialized (sortKeysDeep v).
Proof.
  induction v as [|b|n| |s|l IH|kvs IH| |t] using json_ind; try done.
  - cbn. f_equal. rewrite !List.map_map. apply map_ext_in. intros x Hx%list_elem_of_In.
    rewrite Forall_forall in IH. by apply IH.
  - rewrite serialized_obj. cbn [sortKeysDeep]. rewrite serialized_obj. f_equal. rewrite Forall_forall in IH.
    set (nu := fun kv : string * json => negb (is_undef kv.2)).
    assert (forall l, List.filter nu (List.map (fun kv => (kv.1, sortKeysDeep kv.2)) l) =
                      List.map (fun kv => (kv.1, sortKeysDeep kv.2)) (List.filter nu l)) as Hf.
    { intros l. rewrite filter_map_bool. f_equal. apply List.filter_ext. intros kv. unfold nu. cbn.
      by rewrite is_undef_sortKeysDeep. }
    rewrite !Hf. rewrite (filter_bool_all nu).
    2: { apply Forall_forall. intros kv Hkv. apply list_elem_of_In, in_map_iff in Hkv as (kv0 & <- & _). cbn.
         unfold nu. cbn. by destruct (kv0.2). }
    rewrite List.map_map. cbn [fst snd].
    rewrite (map_ext_in _ (fun kv => (kv.1, serialized (sortKeysDeep kv.2)))).
    2: { intros kv [Hkv _]%List.filter_In. f_equal. by apply IH, list_elem_of_In. }
    replace (List.map (fun kv => (kv.1, serialized (sortKeysDeep kv.2))) (List.filter nu kvs)) with
      (List.map (fun kv => (kv.1, serialized kv.2)) (List.map (fun kv => (kv.1, sortKeysDeep kv.2)) (List.filter nu kvs)))
      by (by rewrite List.map_map).
    rewrite (js_sort_map key_le key_le (fun kv => (kv.1, serialized kv.2))) by done.
    rewrite build_object_map. f_equal. symmetry. apply filter_bool_all, Forall_forall.
    intros kv Hkv%build_object_elem. rewrite js_sort_perm in Hkv. apply list_elem_of_In, in_map_iff in Hkv as (kv0 & <- & Hin).
    apply List.filter_In in Hin as [_ Hin]. unfold nu in *. cbn in *. by rewrite is_undef_sortKeysDeep.
Qed.

(** No [Date] is left. *)
Fixpoint dateless (v : json) : bool :=
  match v with
  | JDate _ => false
  | JArr l => forallb dateless l
  | JObj kvs => forallb (fun kv => dateless kv.2) kvs
  | _ => true
  end.

Lemma sortKeysDeep_dateless v : dateless (sortKeysDeep v) = true.
Proof.
  induction v as [|b|n| |s|l IH|kvs IH| |t] using json_ind; try done; rewrite Forall_forall in IH.
  - cbn. apply forallb_forall. intros x (y & <- & Hy)%in_map_iff. by apply IH, list_elem_of_In.
  - cbn. apply forallb_forall. intros x Hx%list_elem_of_In%build_object_elem. rewrite js_sort_perm in Hx.
    apply elem_of_filter_bool in Hx as [Hx _]. apply list_elem_of_In, in_map_iff in Hx as (y & <- & Hy). cbn.
    by apply IH, list_elem_of_In.
Qed.

Lemma json_text_serialized v : dateless v = true -> json_text (serialized v) = json_text v.
Proof.
  induction v as [|b|n| |s|l IH|kvs IH| |t] using json_ind; try done; intros Hd; cbn [dateless] in Hd;
    rewrite forallb_forall in Hd; rewrite Forall_forall in IH.
  - cbn [serialized]. rewrite !json_text_arr. f_equal. generalize true as first.
    induction l as [|x l IHl]; [done|]. intros first. cbn. rewrite IH; [|left|apply Hd; by left].
    f_equal. f_equal. apply IHl; [intros y Hy; apply IH; by right|intros y Hy; apply Hd; by right].
  - rewrite serialized_obj, !json_text_obj. f_equal. generalize true as first.
    induction kvs as [|[k x] kvs IHl]; [done|]. intros first.
    specialize (IHl ltac:(intros y Hy; apply IH; by right) ltac:(intros y Hy; apply Hd; by right)).
    cbn. destruct (is_undef x) eqn:E; cbn; [apply IHl|].
    replace (is_undef (serialized x)) with false by (by destruct x).
    pose proof (IH (k, x) ltac:(left) ltac:(apply (Hd (k, x)); by left)) as Hx. cbn in Hx. rewrite Hx, IHl. done.
Qed.

(** What is hashed before a value is stored is what is hashed after. *)
Lemma canonicalStringify_serialized v : canonicalStringify (serialized v) = canonicalStringify v.
Proof.
  unfold canonicalStringify. rewrite sortKeysDeep_serialized. apply json_text_serialized, sortKeysDeep_dateless.
Qed.

(** A value built from object literals, at any depth: distinct keys, none of them [__proto__]. *)
Fixpoint literal (v : json) : bool :=
  match v with
  | JArr l => forallb literal l
  | JObj kvs =>
      bool_decide (NoDup kvs.*1) && forallb (fun kv => negb (String.eqb kv.1 proto_key)) kvs &&
      forallb (fun kv => literal kv.2) kvs
  | _ => true
  end.

Lemma serialized_plain v : literal v = true -> plain (serialized v) = true.
Proof.
  induction v as [|b|n| |s|l IH|kvs IH| |t] using json_ind; try done; intros Hl; rewrite Forall_forall in IH.
  - cbn in *. rewrite forallb_forall in *. intros x (y & <- & Hy)%in_map_iff. apply IH; [by apply list_elem_of_In|auto].
  - cbn [literal] in Hl. apply andb_true_iff in Hl as [[Hnd Hp]%andb_true_iff Hl]. rewrite serialized_obj. cbn [plain].
    rewrite forallb_forall in Hp, Hl. set (sub := List.filter _ kvs).
    assert (forall kv, In kv sub -> In kv kvs) as Hsub by (intros kv [? _]%List.filter_In; done).
    apply andb_true_iff. split; [apply andb_true_iff; split|].
    + apply bool_decide_eq_true. apply bool_decide_eq_true in Hnd. change (NoDup (fst <$> List.map (fun kv => (kv.1, serialized kv.2)) sub)).
      change (List.map (fun kv => (kv.1, serialized kv.2)) sub) with ((fun kv => (kv.1, serialized kv.2)) <$> sub).
      rewrite <- list_fmap_compose. eapply sublist_NoDup; [exact Hnd|]. unfold sub.
      clear. induction kvs as [|kv kvs IH]; [done|]. cbn. destruct (negb _); cbn; [by apply sublist_skip|by apply sublist_cons].
    + apply forallb_forall. intros x (y & <- & Hy)%in_map_iff. cbn. by apply (Hp y), Hsub.
    + apply forallb_forall. intros x (y & <- & Hy)%in_map_iff. apply IH; [by apply list_elem_of_In, Hsub|by apply Hl, Hsub].
Qed.

Definition plain_content (c : AuditHashInput) : bool := plain (default JNull (hi_metadata c)).
(** Metadata as a caller passes it: undefined properties and dates included. *)
Definition literal_content (c : AuditHashInput) : bool :=
  literal (default JNull (hi_metadata c)) && negb (is_undef (default JNull (hi_metadata c))).

Lemma record_value_plain c v : plain_content c = true -> plain (record_value c v) = true.
Proof. intros Hm. unfold record_value, plain_content in *. cbn. by rewrite !jopt_plain, Hm. Qed.

(** Fields of the record bound by its text. *)
Lemma record_value_inj c c' v v' :
  plain_content c = true -> plain_content c' = true ->
  buildCanonicalRecord c v = buildCanonicalRecord c' v' ->
  v = v' /\ hi_chainKey c = hi_chainKey c' /\ num_text (hi_sequence c) = num_text (hi_sequence c') /\
  hi_actorType c = hi_actorType c' /\ hi_actorId c = hi_actorId c' /\ hi_action c = hi_action c' /\
  hi_resourceType c = hi_resourceType c' /\ hi_resourceId c = hi_resourceId c' /\
  reorder (default JNull (hi_metadata c)) (default JNull (hi_metadata c')) /\
  iso_text (hi_createdAt c) = iso_text (hi_createdAt c').
Proof.
  intros Hc Hc' H. apply canonicalStringify_iff in H; [|by apply record_value_plain..].
  assert (forall k x, JsMap.get k (match record_value c v with JObj l => l | _ => [] end) = Some x ->
    exists y, JsMap.get k (match record_value c' v' with JObj l => l | _ => [] end) = Some y /\ reorder x y) as Hf.
  { intros k x Hx. pose proof (reorder_field k _ _ (record_value_plain c v Hc) H) as Hr.
    cbn [record_value field] in Hr, Hx |- *. rewrite Hx in Hr. inversion Hr; subst. eauto. }
  assert (forall k x y, JsMap.get k (match record_value c v with JObj l => l | _ => [] end) = Some x ->
    JsMap.get k (match record_value c' v' with JObj l => l | _ => [] end) = Some y ->
    reorder x y /\ (atomic x = true -> y = x)) as Hg.
  { intros k x y Hx Hy. destruct (Hf k x Hx) as (y' & Hy' & Hr). rewrite Hy in Hy'. injection Hy' as <-.
    split; [done|]. by apply reorder_atomic. }
  assert (forall o, atomic (jopt o) = true) as Hopt by (by intros []).
  pose proof (proj2 (Hg "chainKey" _ _ eq_refl eq_refl) eq_refl) as [= E1].
  pose proof (proj2 (Hg "sequence" _ _ eq_refl eq_refl) eq_refl) as [= E2].
  pose proof (proj2 (Hg "hashVersion" _ _ eq_refl eq_refl) eq_refl) as [= E3].
  pose proof (proj2 (Hg "actorType" _ _ eq_refl eq_refl) eq_refl) as [= E4].
  pose proof (proj2 (Hg "actorId" _ _ eq_refl eq_refl) (Hopt _)) as E5%jopt_inj.
  pose proof (proj2 (Hg "action" _ _ eq_refl eq_refl) eq_refl) as [= E6].
  pose proof (proj2 (Hg "resourceType" _ _ eq_refl eq_refl) eq_refl) as [= E7].
  pose proof (proj2 (Hg "resourceId" _ _ eq_refl eq_refl) (Hopt _)) as E8%jopt_inj.
  pose proof (proj1 (Hg "metadata" _ _ eq_refl eq_refl)) as E9.
  pose proof (proj2 (Hg "createdAt" _ _ eq_refl eq_refl) eq_refl) as [= E10].
  by split_and!.
Qed.

(** ** The chain and its pages *)

Definition keys_unique (rows : list AuditRow) : Prop := NoDup (row_key <$> rows).

Definition chain_rows (chainKey : string) (rows : list AuditRow) : list AuditRow :=
  js_sort sequence_le (List.filter (fun r => String.eqb (ar_chainKey r) chainKey) rows).

Lemma insert_audit_unique r rows rows' :
  keys_unique rows -> insert_audit r rows = Ok rows' -> rows' = (rows ++ [r])%list /\ keys_unique rows'.
Proof.
  intros Hu. unfold insert_audit. destruct (_ || _) eqn:Hkey; cbn; [done|]. intros [= <-]. split; [done|].
  apply orb_false_iff in Hkey as [_ Hkey%bool_decide_eq_false].
  by apply NoDup_fmap_snoc.
Qed.

Lemma sequence_le_total r r' : sequence_le r r' = true \/ sequence_le r' r = true.
Proof. unfold sequence_le. rewrite !Z.leb_le. lia. Qed.
Lemma sequence_le_trans r r' r'' :
  sequence_le r r' = true -> sequence_le r' r'' = true -> sequence_le r r'' = true.
Proof. unfold sequence_le. rewrite !Z.leb_le. lia. Qed.

Lemma chain_rows_elem ck rows r : r ∈ chain_rows ck rows <-> r ∈ rows /\ ar_chainKey r = ck.
Proof.
  unfold chain_rows. rewrite js_sort_perm, elem_of_filter_bool. by rewrite String.eqb_eq.
Qed.

Lemma chain_key_unique ck rows r r' :
  keys_unique rows -> r ∈ rows -> r' ∈ rows -> ar_chainKey r = ck -> ar_chainKey r' = ck ->
  ar_sequence r = ar_sequence r' -> r = r'.
Proof.
  intros Hu Hr Hr' H1 H2 H3. apply (key_unique row_key rows); [done..|]. unfold row_key. congruence.
Qed.

Lemma chain_rows_increasing ck rows :
  keys_unique rows -> StronglySorted (fun r r' => ar_sequence r < ar_sequence r') (chain_rows ck rows).
Proof.
  intros Hu. apply (StronglySorted_strict (fun r => ar_sequence r)).
  - generalize (js_sort_sorted sequence_le (fun _ => True) (fun x y _ _ => sequence_le_total x y)
      (fun x y z _ _ _ => sequence_le_trans x y z) (List.filter (fun r => String.eqb (ar_chainKey r) ck) rows)
      ltac:(by apply Forall_true)).
    apply StronglySorted_impl. intros x y. apply Z.leb_le.
  - apply NoDup_fmap_2_strong.
    + intros x y [Hx Hxk]%chain_rows_elem [Hy Hyk]%chain_rows_elem. by apply (chain_key_unique ck rows).
    + unfold chain_rows. rewrite js_sort_perm. apply NoDup_filter_bool, (NoDup_fmap_1 row_key), Hu.
Qed.

Lemma page_after_chain ck cursor rows :
  keys_unique rows ->
  page_after ck cursor rows = take WALK_PAGE_SIZE (List.filter (after cursor) (chain_rows ck rows)).
Proof.
  intros Hu. unfold page_after, chain_rows.
  rewrite <- filter_bool_filter, js_sort_filter; [done| | |].
  - apply sequence_le_total.
  - apply sequence_le_trans.
  - intros x y [Hx Hxk]%elem_of_filter_bool [Hy Hyk]%elem_of_filter_bool H1%Z.leb_le H2%Z.leb_le.
    apply String.eqb_eq in Hxk, Hyk. apply (chain_key_unique ck rows); try done. lia.
Qed.

Section walk.
Context (sha256 : string -> string) (jsonb : json -> json).

Abbreviation walk_rows := (walk_rows sha256 jsonb).
Abbreviation verifyChain := (verifyChain sha256 jsonb).

Lemma walk_rows_app ck w l1 l2 :
  walk_rows ck w (l1 ++ l2) =
  (x ← walk_rows ck w l1; match x with inl w => walk_rows ck w l2 | inr res => Ok (inr res) end).
Proof.
  revert w. induction l1 as [|r l1 IH]; intros w; [done|]. cbn.
  destruct (check_record sha256 jsonb ck w r) as [[w1|res]|]; cbn; [apply IH|done|done].
Qed.

Definition conclude (ck : string) (x : Walk + ChainVerificationResult) : ChainVerificationResult :=
  match x with inl w => intact ck w | inr res => res end.

Lemma walk_pages_rows fuel ck cursor w rows :
  keys_unique rows -> (length (List.filter (after cursor) (chain_rows ck rows)) < fuel)%nat ->
  walk_pages sha256 jsonb fuel ck cursor w rows =
  (x ← walk_rows ck w (List.filter (after cursor) (chain_rows ck rows)); Ok (conclude ck x)).
Proof.
  intros Hu. revert cursor w. induction fuel as [|fuel IH]; intros cursor w Hlen; [lia|]. cbn [walk_pages].
  rewrite page_after_chain by done. set (rest := List.filter (after cursor) (chain_rows ck rows)) in *.
  rewrite <- (take_drop WALK_PAGE_SIZE rest) at 2. rewrite walk_rows_app.
  destruct (walk_rows ck w (take WALK_PAGE_SIZE rest)) as [[w1|res]|] eqn:Hw; cbn [mbind result_bind]; [|done..].
  destruct (last (take WALK_PAGE_SIZE rest)) as [r|] eqn:Hlast.
  2: { apply last_None in Hlast. destruct rest as [|x rest0]; [|discriminate Hlast]. by rewrite drop_nil. }
  destruct (Nat.ltb_spec (length (take WALK_PAGE_SIZE rest)) WALK_PAGE_SIZE) as [Hshort|Hfull].
  - rewrite length_take in Hshort. rewrite drop_ge by lia. done.
  - assert (List.filter (after (Some (ar_sequence r))) (chain_rows ck rows) = drop WALK_PAGE_SIZE rest) as Hnext.
    { rewrite <- (filter_beyond (fun r => ar_sequence r) (take WALK_PAGE_SIZE rest) (drop WALK_PAGE_SIZE rest) r).
      - rewrite take_drop. unfold rest. rewrite filter_bool_filter. apply filter_ext_in. intros x _.
        assert (r ∈ rest) as Hr.
        { rewrite <- (take_drop WALK_PAGE_SIZE rest), elem_of_app. left.
          apply last_Some in Hlast as [l ->]. set_solver. }
        unfold rest in Hr. rewrite elem_of_filter_bool in Hr. destruct Hr as [_ Hr].
        cbn. destruct cursor as [c|]; [|done]. cbn in *. apply Z.ltb_lt in Hr.
        destruct (Z.ltb_spec (ar_sequence r) (ar_sequence x)), (Z.ltb_spec c (ar_sequence x)); try done. lia.
      - rewrite take_drop. unfold rest. apply StronglySorted_filter. by apply chain_rows_increasing.
      - done. }
    rewrite IH, Hnext; [done|]. rewrite Hnext, length_drop.
    rewrite length_take in Hfull. unfold WALK_PAGE_SIZE in *. lia.
Qed.

(** The paged loop is one walk over the whole chain. *)
Lemma verifyChain_rows org rows :
  keys_unique rows ->
  verifyChain org rows =
  (x ← walk_rows (resolveChainKey org) walk_start (chain_rows (resolveChainKey org) rows);
   Ok (conclude (resolveChainKey org) x)).
Proof.
  intros Hu. unfold verifyChain.
  assert (List.filter (after None) (chain_rows (resolveChainKey org) rows) =
          chain_rows (resolveChainKey org) rows) as Hall.
  { apply filter_bool_all. by apply Forall_true. }
  rewrite walk_pages_rows, Hall; [done|done|]. rewrite Hall.
  unfold chain_rows. rewrite js_sort_perm.
  apply Nat.lt_succ_r, filter_length_le.
Qed.
End walk.

(** ** What the walk accepts *)

Section accept.
Context (sha256 : string -> string) (jsonb : json -> json).

Abbreviation walk_rows := (walk_rows sha256 jsonb).
Abbreviation verifyChain := (verifyChain sha256 jsonb).

(** The stored hash is the one its record recomputes to. *)
Definition sound (ck : string) (r : AuditRow) : Prop :=
  computeAuditHash sha256 (ar_prevHash r) (read_content jsonb ck r) (ar_hashVersion r) = Some (ar_hash r).

(** Consecutive records. *)
Definition follows (r r' : AuditRow) : Prop :=
  ar_prevHash r' = Some (ar_hash r) /\ ar_sequence r' = ar_sequence r + 1.

Definition unbroken (ck : string) (l : list AuditRow) : Prop := Forall (sound ck) l /\ Sorted follows l.

(** The record the walk last accepted. *)
Definition previous_is (w : Walk) (o : option AuditRow) : Prop :=
  previousHash w = (fun r => ar_hash r) <$> o /\ previousSequence w = (fun r => ar_sequence r) <$> o.

Lemma link_break_follows w o r :
  previous_is w o -> link_break w r = None <-> match o with None => True | Some p => follows p r end.
Proof.
  intros [H1 H2]. unfold link_break. rewrite H1, H2. destruct o as [p|]; cbn; [|done].
  unfold follows.
  repeat case_bool_decide; cbn; (split; [try done; intros _|intros [E1 E2]; try congruence]).
  all: try (split; congruence).
Qed.

Lemma note_first_previous w o r : previous_is (note_first w r) o <-> previous_is w o.
Proof. unfold note_first. by destruct (firstSequenceChecked w). Qed.

Lemma check_record_inl ck w o r w' :
  previous_is w o ->
  check_record sha256 jsonb ck w r = Ok (inl w') <->
  sound ck r /\ (match o with None => True | Some p => follows p r end) /\ w' = advance (note_first w r) r.
Proof.
  intros Hw%(note_first_previous w o r). unfold check_record, sound.
  destruct (computeAuditHash _ _ _ _) as [h|]; [|naive_solver].
  rewrite <- (link_break_follows _ _ r Hw). case_bool_decide as Hh; cbn; [|naive_solver].
  destruct (link_break _ _); naive_solver.
Qed.

Lemma check_record_inr ck w r res :
  check_record sha256 jsonb ck w r = Ok (inr res) ->
  cv_ok res = false /\ exists reason,
    cv_break res = Some {| cb_recordId := ar_id r; cb_sequence := ar_sequence r; cb_reason := reason |}.
Proof.
  unfold check_record. destruct (computeAuditHash _ _ _ _) as [h|]; [|done].
  case_bool_decide; cbn; [destruct (link_break _ _)|]; intros [= <-]; cbn; eauto.
Qed.

Lemma walk_rows_inr ck w l res : walk_rows ck w l = Ok (inr res) -> cv_ok res = false.
Proof.
  revert w. induction l as [|r l IH]; intros w; [done|]. cbn.
  destruct (check_record _ _ _ _ _) as [[w1|res1]|] eqn:Hc; cbn; [apply IH| |done].
  intros [= <-]. by eapply (check_record_inr _ _ _ _ Hc).
Qed.

(** The walk's variables after the records [l]. *)
Definition walked (w : Walk) (l : list AuditRow) : Walk := foldl (fun w r => advance (note_first w r) r) w l.

Lemma walk_rows_inl ck w o l w' :
  previous_is w o ->
  walk_rows ck w l = Ok (inl w') <->
  Forall (sound ck) l /\ Sorted follows (option_list o ++ l)%list /\ w' = walked w l.
Proof.
  revert w o. induction l as [|r l IH]; intros w o Hw; cbn.
  - rewrite app_nil_r. destruct o; cbn; (split; [intros [= <-]; split_and!; eauto|by intros (_ & _ & ->)]).
  - assert (previous_is (advance (note_first w r) r) (Some r)) as Hr by done.
    rewrite Forall_cons. transitivity (check_record sha256 jsonb ck w r = Ok (inl (advance (note_first w r) r)) /\
      walk_rows ck (advance (note_first w r) r) l = Ok (inl w')).
    { destruct (check_record _ _ _ _ _) as [[w1|res]|] eqn:Hc; cbn; [|naive_solver..].
      apply (check_record_inl ck w o r w1 Hw) in Hc as (_ & _ & ->). naive_solver. }
    rewrite (check_record_inl ck w o r _ Hw), (IH _ _ Hr). cbn.
    destruct o as [p|]; cbn.
    + split; [intros ((Hs & Hf & _) & Hl & Hsort & ->)|intros ((Hs & Hl) & Hsort & ->)].
      * split_and!; auto.
      * apply Sorted_inv in Hsort as [Hsort Hd]. apply HdRel_inv in Hd. by split_and!.
    + naive_solver.
Qed.

Lemma walked_cons r l w :
  firstSequenceChecked w = Some (ar_sequence r) ->
  walked w l =
  {| previousHash := default (previousHash w) ((fun r => Some (ar_hash r)) <$> last l);
     previousSequence := default (previousSequence w) ((fun r => Some (ar_sequence r)) <$> last l);
     recordsChecked := recordsChecked w + Z.of_nat (length l); firstSequenceChecked := Some (ar_sequence r);
     lastSequenceChecked := default (lastSequenceChecked w) ((fun r => Some (ar_sequence r)) <$> last l);
     retentionTruncated := retentionTruncated w |}.
Proof.
  revert w. induction l as [|r' l IH]; intros w Hw; cbn [walked foldl].
  - destruct w; cbn in *. subst. f_equal. lia.
  - fold (walked (advance (note_first w r') r') l). unfold note_first. rewrite Hw.
    rewrite IH by done. rewrite last_cons. destruct (last l); cbn; f_equal; lia.
Qed.

(** The report on an unbroken chain. *)
Definition clean_report (ck : string) (l : list AuditRow) : ChainVerificationResult :=
  {| cv_chainKey := ck; cv_ok := true; cv_recordsChecked := Z.of_nat (length l);
     cv_firstSequenceChecked := (fun r => ar_sequence r) <$> head l;
     cv_lastSequenceChecked := (fun r => ar_sequence r) <$> last l;
     cv_retentionTruncated := match head l with None => false | Some r => 1 <? ar_sequence r end;
     cv_break := None |}.

Lemma intact_walked ck l : intact ck (walked walk_start l) = clean_report ck l.
Proof.
  destruct l as [|r l]; [done|]. cbn [walked foldl]. fold (walked (advance (note_first walk_start r) r) l).
  rewrite (walked_cons r) by done. unfold intact, clean_report. rewrite last_cons.
  destruct (last l); cbn; f_equal; lia.
Qed.

Lemma verifyChain_ok org rows res :
  keys_unique rows ->
  (verifyChain org rows = Ok res /\ cv_ok res = true) <->
  unbroken (resolveChainKey org) (chain_rows (resolveChainKey org) rows) /\
  res = clean_report (resolveChainKey org) (chain_rows (resolveChainKey org) rows).
Proof.
  intros Hu. rewrite verifyChain_rows by done. set (ck := resolveChainKey org). set (l := chain_rows ck rows).
  pose proof (fun w' => walk_rows_inl ck walk_start None l w' ltac:(done)) as Hiff. unfold unbroken.
  rewrite <- intact_walked. destruct (walk_rows ck walk_start l) as [[w1|r1]|e] eqn:Hw; cbn.
  - destruct (proj1 (Hiff w1) eq_refl) as (? & ? & ->). naive_solver.
  - pose proof (walk_rows_inr _ _ _ _ Hw) as Hno. split; [naive_solver congruence|]. intros [[Hs Hf] _].
    pose proof (proj2 (Hiff _) (conj Hs (conj Hf eq_refl))). congruence.
  - split; [naive_solver|]. intros [[Hs Hf] _].
    pose proof (proj2 (Hiff _) (conj Hs (conj Hf eq_refl))). congruence.
Qed.
(** A report of a break names the first record that does not continue the
    chain. *)
Lemma walk_rows_break ck w l res :
  walk_rows ck w l = Ok (inr res) ->
  exists l1 r l2 w1 reason, l = (l1 ++ r :: l2)%list /\ walk_rows ck w l1 = Ok (inl w1) /\
    check_record sha256 jsonb ck w1 r = Ok (inr res) /\
    cv_break res = Some {| cb_recordId := ar_id r; cb_sequence := ar_sequence r; cb_reason := reason |}.
Proof.
  revert w. induction l as [|r l IH]; intros w; [done|]. cbn.
  destruct (check_record _ _ _ _ _) as [[w1|res1]|] eqn:Hc; cbn; [| |done].
  - intros (l1 & r1 & l2 & w2 & reason & -> & Hw & Hb)%IH. exists (r :: l1), r1, l2, w2, reason.
    cbn. by rewrite Hc.
  - intros [= <-]. destruct (check_record_inr _ _ _ _ Hc) as (_ & reason & Hb). by exists [], r, l, w, reason.
Qed.

Lemma verifyChain_broken org rows res :
  keys_unique rows -> verifyChain org rows = Ok res -> cv_ok res = false ->
  exists l1 r l2 reason, chain_rows (resolveChainKey org) rows = (l1 ++ r :: l2)%list /\
    unbroken (resolveChainKey org) l1 /\ ~ unbroken (resolveChainKey org) (l1 ++ [r])%list /\
    cv_break res = Some {| cb_recordId := ar_id r; cb_sequence := ar_sequence r; cb_reason := reason |}.
Proof.
  intros Hu. rewrite verifyChain_rows by done. set (ck := resolveChainKey org).
  destruct (walk_rows ck walk_start _) as [[w1|res1]|] eqn:Hw; cbn; [by intros [= <-]| |done].
  intros [= <-] _. apply walk_rows_break in Hw as (l1 & r & l2 & w1 & reason & -> & Hw & Hc & Hb).
  exists l1, r, l2, reason. split; [done|]. split_and!; [|  |done].
  - by apply (walk_rows_inl ck walk_start None l1) in Hw as (? & ? & _).
  - intros [Hs Hf]. pose proof (proj2 (walk_rows_inl ck walk_start None (l1 ++ [r])%list _ ltac:(done))
      (conj Hs (conj Hf eq_refl))) as Hok.
    rewrite walk_rows_app, Hw in Hok. cbn in Hok. rewrite Hc in Hok. done.
Qed.

End accept.

(** ** Chains the writer appends to *)

Section append.
Context (sha256 : string -> string) (jsonb : json -> json).
Context (Hjsonb : forall v, plain v = true -> reorder v (jsonb v) /\ plain (jsonb v) = true).

Abbreviation sound := (sound sha256 jsonb).

(** One chain, its rows and the position its cursor records. *)
Definition chain_state (ck : string) (d : AuditDb) : Prop :=
  Forall (sound ck) (chain_rows ck (auditRows d)) /\ Sorted follows (chain_rows ck (auditRows d)) /\
  match last (chain_rows ck (auditRows d)) with
  | None => JsMap.get ck (cursors d) = None
  | Some r => JsMap.get ck (cursors d) = Some {| lastSequence := ar_sequence r; lastHash := Some (ar_hash r) |}
  end /\
  match head (chain_rows ck (auditRows d)) with None => True | Some r => ar_sequence r = 1 end.

Definition audit_inv (d : AuditDb) : Prop := keys_unique (auditRows d) /\ forall ck, chain_state ck d.

(** Reading a record back does not change its canonical text. *)
Lemma read_content_text r :
  literal_content (ar_content r) = true ->
  buildCanonicalRecord (read_content jsonb (ar_chainKey r) r) 1 = buildCanonicalRecord (ar_content r) 1.
Proof.
  intros Hl. unfold buildCanonicalRecord. rewrite <- (canonicalStringify_serialized (record_value (ar_content r) 1)).
  unfold literal_content in Hl. apply andb_true_iff in Hl as [Hl Hu%negb_true_iff].
  assert (forall m, literal (default JNull m) = true -> is_undef (default JNull m) = false ->
    let w := default JNull ((fun v => jsonb (serialized v)) <$> m) in
    reorder w (serialized (default JNull m)) /\ plain w = true /\ plain (serialized (default JNull m)) = true) as Hm.
  { intros [m|]; cbn; [|by split]. intros Hm _. apply serialized_plain in Hm. destruct (Hjsonb _ Hm). by split. }
  destruct (Hm _ Hl Hu) as (Hr & Hp & Hp'). clear Hm.
  assert (serialized (record_value (ar_content r) 1) =
    record_value {| hi_chainKey := hi_chainKey (ar_content r); hi_sequence := hi_sequence (ar_content r);
      hi_actorType := hi_actorType (ar_content r); hi_actorId := hi_actorId (ar_content r); hi_action := hi_action (ar_content r);
      hi_resourceType := hi_resourceType (ar_content r); hi_resourceId := hi_resourceId (ar_content r);
      hi_metadata := Some (serialized (default JNull (hi_metadata (ar_content r)))); hi_createdAt := hi_createdAt (ar_content r) |} 1) as ->.
  { unfold record_value. rewrite serialized_obj. cbn. rewrite Hu. by destruct (hi_actorId _), (hi_resourceId _). }
  apply canonicalStringify_iff; [by apply record_value_plain..|].
  by apply (reorder_obj [_; _; _; _; _; _; _; _] "metadata" _ _ [_]).
Qed.

Lemma chain_rows_snoc ck rows r :
  (forall r', r' ∈ rows -> ar_chainKey r' = ar_chainKey r -> ar_sequence r' < ar_sequence r) ->
  chain_rows ck (rows ++ [r])%list =
  (chain_rows ck rows ++ if String.eqb (ar_chainKey r) ck then [r] else [])%list.
Proof.
  intros Hlast. unfold chain_rows. rewrite List.filter_app. cbn.
  destruct (String.eqb_spec (ar_chainKey r) ck) as [<-|]; [|by rewrite !app_nil_r].
  apply js_sort_snoc, Forall_forall. intros r' [Hr' Hk]%elem_of_filter_bool. apply Z.leb_le.
  apply String.eqb_eq in Hk. specialize (Hlast r' Hr' Hk). lia.
Qed.

(** The last record of an unbroken chain has the greatest sequence. *)
Lemma chain_last_greatest ck rows r r' :
  keys_unique rows -> last (chain_rows ck rows) = Some r -> r' ∈ rows -> ar_chainKey r' = ck ->
  ar_sequence r' <= ar_sequence r.
Proof.
  intros Hu Hlast Hr' Hk. pose proof (chain_rows_increasing ck rows Hu) as Hs.
  assert (r' ∈ chain_rows ck rows) as Hin by (by apply chain_rows_elem).
  apply last_Some in Hlast as [l Hl]. rewrite Hl in Hs, Hin.
  apply elem_of_app in Hin as [Hin|Hin%list_elem_of_singleton]; [|by subst].
  apply list_elem_of_split in Hin as (l1 & l2 & ->). rewrite <- app_assoc in Hs. cbn in Hs.
  clear Hl. induction l1 as [|x l1 IH]; cbn in Hs; apply StronglySorted_inv in Hs as [Hs Hx]; [|auto].
  rewrite Forall_app, Forall_cons in Hx. lia.
Qed.

(** The row an append writes. *)
Definition appended (id : string) (now : Z) (args : AuditArgs) (d : AuditDb) : AuditRow :=
  let ck := resolveChainKey (aa_organizationId args) in
  let c := default {| lastSequence := 0; lastHash := None |} (JsMap.get ck (cursors d)) in
  let input := content_of args ck (lastSequence c + 1) now in
  {| ar_id := id; ar_content := input; ar_hashVersion := 1; ar_prevHash := lastHash c;
     ar_hash := sha256 (String.append (default GENESIS_SENTINEL (lastHash c))
                          (String "|" (buildCanonicalRecord input 1))) |}.

Definition after_append (r : AuditRow) (d : AuditDb) : AuditDb :=
  {| auditRows := (auditRows d ++ [r])%list;
     cursors := JsMap.set (ar_chainKey r) {| lastSequence := ar_sequence r; lastHash := Some (ar_hash r) |}
                  (cursors d) |}.

Lemma appendAuditLog_spec id now args d :
  appendAuditLog sha256 id now args d =
  (rows ← insert_audit (appended id now args d) (auditRows d); Ok (after_append (appended id now args d) d)).
Proof.
  unfold appendAuditLog, insert_audit, after_append. cbn.
  by destruct (_ || _); cbn.
Qed.

Lemma appended_last id now args d r' :
  audit_inv d -> r' ∈ auditRows d -> ar_chainKey r' = ar_chainKey (appended id now args d) ->
  ar_sequence r' < ar_sequence (appended id now args d).
Proof.
  intros [Hu Hc] Hr' Hk. cbn in Hk. destruct (Hc (ar_chainKey r')) as (_ & _ & Hcur & _).
  destruct (last _) as [r|] eqn:Hlast.
  - pose proof (chain_last_greatest _ _ _ _ Hu Hlast Hr' eq_refl). cbn. rewrite <- Hk, Hcur. cbn. lia.
  - apply last_None in Hlast. assert (r' ∈ chain_rows (ar_chainKey r') (auditRows d)) as Hin
      by (by apply chain_rows_elem). rewrite Hlast in Hin. set_solver.
Qed.

Definition literal_args (args : AuditArgs) : bool :=
  literal (default JNull (aa_metadata args)) && negb (is_undef (default JNull (aa_metadata args))).

Lemma append_inv id now args d d' :
  literal_args args = true -> audit_inv d ->
  appendAuditLog sha256 id now args d = Ok d' -> audit_inv d'.
Proof.
  intros Hp Hinv. rewrite appendAuditLog_spec. set (r := appended id now args d).
  pose proof (fun r' => appended_last id now args d r' Hinv) as Hlast. fold r in Hlast.
  destruct Hinv as [Hu Hc]. intros (rows & Hrows & [= <-])%bind_Ok.
  destruct (insert_audit_unique _ _ _ Hu Hrows) as [-> Hu']. split; [done|].
  intros ck. unfold chain_state. cbn [after_append auditRows cursors]. rewrite chain_rows_snoc by done.
  destruct (Hc ck) as (Hs & Hf & Hcur & Hhd).
  destruct (String.eqb_spec (ar_chainKey r) ck) as [<-|Hne].
  2: { rewrite app_nil_r, JsMap.get_set_ne by done. done. }
  rewrite last_snoc, JsMap.get_set_eq. change (resolveChainKey (aa_organizationId args)) with (ar_chainKey r) in *.
  split_and!; [|  |done|].
  - apply Forall_app. split; [done|]. apply Forall_singleton. unfold sound, AuditChainFacts.sound, computeAuditHash.
    cbn [ar_hashVersion r appended]. cbn [Z.eqb Pos.eqb]. by rewrite read_content_text.
  - apply Sorted_snoc; [done|]. intros x Hx. rewrite Hx in Hcur. split; unfold r, appended; cbn.
    all: change (resolveChainKey (aa_organizationId args)) with (ar_chainKey r); by rewrite Hcur.
  - destruct (chain_rows (ar_chainKey r) (auditRows d)) as [|x l]; [|done]. cbn in Hcur |- *.
    unfold r, appended. cbn. by rewrite Hcur.
Qed.
(** A call outside any transaction; a refused one is rolled back. *)
Record AppendCall := { ac_id : string; ac_now : Z; ac_args : AuditArgs }.

Definition append_call (d : AuditDb) (c : AppendCall) : AuditDb :=
  match appendAuditLog sha256 (ac_id c) (ac_now c) (ac_args c) d with Ok d' => d' | Err _ => d end.

Definition empty_db : AuditDb := {| auditRows := []; cursors := [] |}.

Lemma append_calls_inv calls d :
  Forall (fun c => literal_args (ac_args c) = true) calls -> audit_inv d -> audit_inv (foldl append_call d calls).
Proof.
  intros Hp. revert d. induction Hp as [|c calls Hc _ IH]; intros d Hinv; [done|]. cbn. apply IH.
  unfold append_call. destruct (appendAuditLog _ _ _ _ _) eqn:Ha; [|done]. by eapply append_inv.
Qed.

Lemma empty_db_inv : audit_inv empty_db.
Proof. split; [apply NoDup_nil_2|]. intros ck. by repeat split; constructor. Qed.

Lemma append_fresh id now args d :
  audit_inv d -> id ∉ ar_id <$> auditRows d -> exists d', appendAuditLog sha256 id now args d = Ok d'.
Proof.
  intros Hinv Hid. rewrite appendAuditLog_spec. unfold insert_audit. rewrite bool_decide_false by done.
  rewrite bool_decide_false; [by eexists|]. intros (r' & Hk & Hr')%list_elem_of_fmap.
  injection Hk as Hk Hs. pose proof (appended_last id now args d r' Hinv Hr' (eq_sym Hk)) as Hlt.
  cbn in Hlt. lia.
Qed.

(** C18: however the calls that append audit records are ordered across
    organizations, every chain of the table verifies, from its first record and
    with nothing missing, and no call that brings a fresh identifier is
    refused.  The metadata of a call is any value written as object and array
    literals, which may have undefined properties and hold dates, but no property
    named [__proto__]; a [jsonb] column reads back what it was sent, up to the order
    of properties. *)
Theorem appended_chains_verify calls org id now args :
  Forall (fun c => literal_args (ac_args c) = true) calls ->
  let d := foldl append_call empty_db calls in
  let l := chain_rows (resolveChainKey org) (auditRows d) in
  verifyChain sha256 jsonb org (auditRows d) = Ok (clean_report (resolveChainKey org) l) /\
  cv_retentionTruncated (clean_report (resolveChainKey org) l) = false /\
  (id ∉ ar_id <$> auditRows d -> exists d', appendAuditLog sha256 id now args d = Ok d').
Proof.
  intros Hp d l. assert (audit_inv d) as Hinv by (apply append_calls_inv; [done|apply empty_db_inv]).
  split_and!; [| |by apply append_fresh].
  - destruct Hinv as [Hu Hc]. destruct (Hc (resolveChainKey org)) as (Hs & Hf & _ & _).
    by apply (verifyChain_ok sha256 jsonb org (auditRows d) _ Hu).
  - destruct Hinv as [_ Hc]. destruct (Hc (resolveChainKey org)) as (_ & _ & _ & Hhd). fold l in Hhd. cbn.
    destruct (head l); [by rewrite Hhd|done].
Qed.
End append.

(** ** What a verified chain is bound to *)

Section binding.
Context (sha256 : string -> string) (jsonb : json -> json).

Abbreviation unbroken := (unbroken sha256 jsonb).

(** C38: verification accepts a chain exactly when every stored hash recomputes
    and every record follows the one before it, and its report then gives the
    chain's extent; a report of a break names the first record that does not
    continue the chain. *)
Theorem verification_accepts_exactly_unbroken org rows res :
  keys_unique rows -> verifyChain sha256 jsonb org rows = Ok res ->
  let ck := resolveChainKey org in
  let l := chain_rows ck rows in
  (cv_ok res = true <-> unbroken ck l /\ res = clean_report ck l) /\
  (cv_ok res = false -> exists l1 r l2 reason, l = (l1 ++ r :: l2)%list /\ unbroken ck l1 /\
     ~ unbroken ck (l1 ++ [r])%list /\
     cv_break res = Some {| cb_recordId := ar_id r; cb_sequence := ar_sequence r; cb_reason := reason |}).
Proof.
  intros Hu Hv ck l. split; [|by apply verifyChain_broken].
  unfold l, ck. rewrite <- (verifyChain_ok sha256 jsonb org rows res Hu). naive_solver.
Qed.

Fixpoint bar_free (s : string) : bool :=
  match s with EmptyString => true | String c s => negb (Ascii.eqb c "|") && bar_free s end.

Lemma bar_split s1 s2 r1 r2 :
  bar_free s1 = true -> bar_free s2 = true ->
  String.append s1 (String "|" r1) = String.append s2 (String "|" r2) -> s1 = s2 /\ r1 = r2.
Proof.
  revert s2. induction s1 as [|c1 s1 IH]; intros [|c2 s2]; cbn; [by intros _ _ [= ->]|..].
  - intros _ [H _]%andb_true_iff [= <- _]. by rewrite Ascii.eqb_refl in H.
  - intros [H _]%andb_true_iff _ [= -> _]. by rewrite Ascii.eqb_refl in H.
  - intros [_ H1]%andb_true_iff [_ H2]%andb_true_iff [= -> H]. by destruct (IH _ H1 H2 H) as [-> ->].
Qed.

(** The metadata of a record as it is read back. *)
Definition stored_metadata (r : AuditRow) : option json := (fun m => jsonb (serialized m)) <$> hi_metadata (ar_content r).

(** The content of a record as verification reads it, up to the order of the
    properties of its metadata. *)
Definition same_record (r r' : AuditRow) : Prop :=
  ar_sequence r = ar_sequence r' /\ hi_actorType (ar_content r) = hi_actorType (ar_content r') /\
  hi_actorId (ar_content r) = hi_actorId (ar_content r') /\ hi_action (ar_content r) = hi_action (ar_content r') /\
  hi_resourceType (ar_content r) = hi_resourceType (ar_content r') /\
  hi_resourceId (ar_content r) = hi_resourceId (ar_content r') /\
  reorder (default JNull (stored_metadata r)) (default JNull (stored_metadata r')) /\
  hi_createdAt (ar_content r) = hi_createdAt (ar_content r') /\ ar_hash r = ar_hash r'.

(** Column values the statement is about: metadata without properties named [__proto__], which
    the hash does not cover, dates a [Date] can hold, and a previous hash without a bar. *)
Definition storable (r : AuditRow) : bool :=
  plain (default JNull (stored_metadata r)) &&
  (Z.abs (hi_createdAt (ar_content r)) <=? MAX_TIME) && bar_free (default GENESIS_SENTINEL (ar_prevHash r)).

(** The text that was hashed for a record. *)
Definition hashed_text (ck : string) (r : AuditRow) : string :=
  String.append (default GENESIS_SENTINEL (ar_prevHash r)) (String "|" (buildCanonicalRecord (read_content jsonb ck r) 1)).

(** The digest collides on two records of the same place. *)
Definition collision (ck : string) (l l' : list AuditRow) : Prop :=
  exists i r r', l !! i = Some r /\ l' !! i = Some r' /\ hashed_text ck r <> hashed_text ck r' /\
    sha256 (hashed_text ck r) = sha256 (hashed_text ck r').

Lemma collision_app ck l l' k k' : length l = length l' -> collision ck l l' -> collision ck (l ++ k) (l' ++ k').
Proof.
  intros _ (i & r & r' & Hr & Hr' & H). exists i, r, r'. split_and!; [by apply lookup_app_l_Some..|apply H|apply H].
Qed.

Lemma same_hash_same_record ck r r' :
  storable r = true -> storable r' = true -> sound sha256 jsonb ck r -> sound sha256 jsonb ck r' ->
  ar_hash r = ar_hash r' ->
  (hashed_text ck r <> hashed_text ck r' /\ sha256 (hashed_text ck r) = sha256 (hashed_text ck r')) \/
  same_record r r' /\ default GENESIS_SENTINEL (ar_prevHash r) = default GENESIS_SENTINEL (ar_prevHash r').
Proof.
  intros [[Hp Ht%Z.leb_le]%andb_true_iff Hb]%andb_true_iff [[Hp' Ht'%Z.leb_le]%andb_true_iff Hb']%andb_true_iff Hs Hs' Hh.
  unfold sound, computeAuditHash in Hs, Hs'.
  destruct (Z.eqb_spec (ar_hashVersion r) 1) as [E|]; [|done].
  destruct (Z.eqb_spec (ar_hashVersion r') 1) as [E'|]; [|done]. rewrite E in Hs. rewrite E' in Hs'.
  injection Hs as Hs. injection Hs' as Hs'. pose proof Hh as Hsame. rewrite <- Hs, <- Hs' in Hh.
  change (sha256 (hashed_text ck r) = sha256 (hashed_text ck r')) in Hh.
  destruct (decide (hashed_text ck r = hashed_text ck r')) as [Heq|Hne]; [|by left]. unfold hashed_text in Heq.
  right. apply bar_split in Heq as [Hprev Htext]; [|done..].
  apply record_value_inj in Htext as (_ & _ & Hseq & H1 & H2 & H3 & H4 & H5 & Hm & Hc); [|done..].
  cbn in *. split; [|done]. unfold same_record. split_and!; try done.
  - apply (num_text_inj _ _ EmptyString EmptyString); [done..|]. by rewrite Hseq.
  - by apply iso_text_inj in Hc.
Qed.

Lemma unbroken_bound ck l l' :
  Forall (fun r => storable r = true) l -> Forall (fun r => storable r = true) l' ->
  unbroken ck l -> unbroken ck l' -> length l = length l' ->
  (fun r => ar_hash r) <$> last l = (fun r => ar_hash r) <$> last l' ->
  collision ck l l' \/ Forall2 same_record l l'.
Proof.
  revert l'. induction l as [|r l IH] using rev_ind; intros l' Hst Hst' [Hs Hf] [Hs' Hf'] Hlen Hh.
  { right. destruct l'; [constructor|done]. }
  destruct l' as [|r' l' _] using rev_ind; [rewrite length_app in Hlen; cbn in Hlen; lia|].
  rewrite !last_snoc in Hh. injection Hh as Hh. rewrite !length_app in Hlen. cbn in Hlen.
  rewrite Forall_app, Forall_singleton in Hst, Hst', Hs, Hs'.
  destruct Hst as [Hst Hr], Hst' as [Hst' Hr'], Hs as [Hs Hsr], Hs' as [Hs' Hsr'].
  assert (length l = length l') as Hlen' by lia.
  destruct (same_hash_same_record ck r r') as [Hcol|[Hsame Hprev]]; [done..| |].
  { left. exists (length l), r, r'. split_and!; [| |apply Hcol..]; [|rewrite Hlen']; by rewrite list_lookup_middle. }
  apply Sorted_snoc_inv in Hf as [Hf Hlast], Hf' as [Hf' Hlast'].
  destruct (IH l') as [|Hall]; [done..| |left; by apply collision_app|].
  - destruct (last l) as [x|] eqn:Hx, (last l') as [x'|] eqn:Hx'; cbn; [| | |done].
    + destruct (Hlast x eq_refl) as [Hp _], (Hlast' x' eq_refl) as [Hp' _]. rewrite Hp, Hp' in Hprev.
      cbn in Hprev. by rewrite Hprev.
    + apply last_None in Hx' as ->. destruct l; cbn in *; [done|lia].
    + apply last_None in Hx as ->. destruct l'; cbn in *; [done|lia].
  - right. apply Forall2_app; [done|]. by constructor.
Qed.

(** C11: the last hash of a chain determines its history.  Two tables in which
    the chain verifies over the same number of records and ends in the same
    hash hold the same records, up to the order of metadata properties, unless
    the digest collides on the texts hashed for two records in the same place of the
    two chains.  The records are those whose metadata has no property named
    [__proto__] (the hash does not cover such a property), whose dates a [Date] can
    hold and whose previous hash contains no bar. *)
Theorem last_hash_determines_chain org rows rows' res res' :
  keys_unique rows -> keys_unique rows' ->
  Forall (fun r => storable r = true) rows -> Forall (fun r => storable r = true) rows' ->
  verifyChain sha256 jsonb org rows = Ok res -> cv_ok res = true ->
  verifyChain sha256 jsonb org rows' = Ok res' -> cv_ok res' = true ->
  cv_recordsChecked res = cv_recordsChecked res' ->
  let ck := resolveChainKey org in
  (fun r => ar_hash r) <$> last (chain_rows ck rows) = (fun r => ar_hash r) <$> last (chain_rows ck rows') ->
  collision ck (chain_rows ck rows) (chain_rows ck rows') \/
  Forall2 same_record (chain_rows ck rows) (chain_rows ck rows').
Proof.
  intros Hu Hu' Hst Hst' Hv Hok Hv' Hok' Hn ck Hlast.
  destruct (proj1 (verifyChain_ok sha256 jsonb org rows res Hu) (conj Hv Hok)) as [Hb ->].
  destruct (proj1 (verifyChain_ok sha256 jsonb org rows' res' Hu') (conj Hv' Hok')) as [Hb' ->].
  cbn in Hn. fold ck in Hb, Hb', Hn.
  assert (forall rows, Forall (fun r => storable r = true) rows ->
    Forall (fun r => storable r = true) (chain_rows ck rows)) as Hsub.
  { intros k Hk. rewrite Forall_forall in Hk |- *. intros r [Hr _]%chain_rows_elem. auto. }
  apply (unbroken_bound ck); auto. lia.
Qed.

Lemma chain_rows_head ck rows r :
  keys_unique rows -> r ∈ rows -> ar_chainKey r = ck ->
  (forall r', r' ∈ rows -> ar_chainKey r' = ck -> r' = r \/ ar_sequence r < ar_sequence r') ->
  exists l, chain_rows ck rows = r :: l.
Proof.
  intros Hu Hr Hk Hmin. pose proof (chain_rows_increasing ck rows Hu) as Hs.
  assert (r ∈ chain_rows ck rows) as Hin by (by apply chain_rows_elem).
  destruct (chain_rows ck rows) as [|x l] eqn:Hl; [by apply not_elem_of_nil in Hin|].
  assert (x ∈ chain_rows ck rows) as [Hx Hxk]%chain_rows_elem by (rewrite Hl; left).
  destruct (Hmin x Hx Hxk) as [->|Hlt]; [by exists l|].
  apply elem_of_cons in Hin as [->|Hin]; [by exists l|].
  apply StronglySorted_inv in Hs as [_ Hall]. rewrite Forall_forall in Hall. specialize (Hall r Hin). lia.
Qed.

(** an insert through a transaction's own delegate takes the first free
    place below the system chain: once it commits, verification of the system
    chain reports that record as a hash mismatch, and every further such insert
    is refused. *)
Theorem unchained_insert_spoils_system_chain id id' now now' args args' rows rows' :
  keys_unique rows -> Forall (fun r => ar_chainKey r = SYSTEM_CHAIN_KEY -> 0 < ar_sequence r) rows ->
  (forall x, sha256 x <> EmptyString) ->
  createUnchained id now args rows = Ok rows' ->
  (exists res, verifyChain sha256 jsonb None rows' = Ok res /\
     cv_break res = Some {| cb_recordId := id; cb_sequence := 0; cb_reason := HASH_MISMATCH |}) /\
  createUnchained id' now' args' rows' = Err P2002.
Proof.
  intros Hu Hpos Hsha Hc. destruct (insert_audit_unique _ _ _ Hu Hc) as [-> Hu'].
  set (r0 := unchained_row id now args) in *. split.
  - destruct (chain_rows_head SYSTEM_CHAIN_KEY (rows ++ [r0])%list r0) as [l Hl]; [done|set_solver|done| |].
    { intros r' [Hr'|Hr'%list_elem_of_singleton]%elem_of_app Hk; [|by left]. right.
      rewrite Forall_forall in Hpos. by apply Hpos. }
    eexists. rewrite verifyChain_rows by done. change (resolveChainKey None) with SYSTEM_CHAIN_KEY.
    rewrite Hl. cbn [walk_rows]. unfold check_record. cbn.
    rewrite bool_decide_false by done. done.
  - unfold createUnchained, insert_audit. rewrite (bool_decide_true (row_key _ ∈ _)), orb_true_r; [done|].
    rewrite fmap_app. set_solver.
Qed.
End binding.

(** ** Concrete chains *)

(** A toy digest. *)
Definition demo_digest (s : string) : string := num_text (Z.of_nat (String.length s)).

Definition demo_args (org : option string) (metadata : json) : AuditArgs :=
  {| aa_organizationId := org; aa_actorType := "USER"; aa_actorId := Some "user-1"; aa_action := "PROOF_CREATED";
     aa_resourceType := "Proof"; aa_resourceId := Some "proof-1"; aa_metadata := Some metadata;
     aa_createdAt := Some 0 |}.

Definition demo_calls (metadata : json) : list AppendCall :=
  [{| ac_id := "a1"; ac_now := 0; ac_args := demo_args (Some "org-1") metadata |};
   {| ac_id := "a2"; ac_now := 0; ac_args := demo_args None JNull |};
   {| ac_id := "a3"; ac_now := 0; ac_args := demo_args (Some "org-1") JNull |}].

Definition demo_metadata : json := JObj [("asset", JStr "USDC"); ("scope", JNum 2)].
Definition demo_metadata' : json := JObj [("scope", JNum 2); ("asset", JStr "USDC")].

Definition demo_rows (metadata : json) : list AuditRow :=
  auditRows (foldl (append_call demo_digest) empty_db (demo_calls metadata)).

(** As [revokeKey] passes it without a reason, and with a date. *)
Definition caller_metadata : json := JObj [("reason", JUndef); ("at", JDate 1000); ("scope", JNum 2)].

Lemma appended_chains_verify_witness :
  let l := chain_rows "org-1" (demo_rows caller_metadata) in
  verifyChain demo_digest (fun v => v) (Some "org-1") (demo_rows caller_metadata) =
    Ok (clean_report "org-1" l) /\ length l = 2%nat.
Proof.
  split; [|by vm_compute].
  apply (appended_chains_verify demo_digest (fun v => v) ltac:(intros v Hv; by split)
           (demo_calls caller_metadata) (Some "org-1") "a4" 0 (demo_args None JNull)).
  by repeat constructor.
Defined.

Lemma verification_accepts_exactly_unbroken_witness :
  cv_ok (clean_report "org-1" (chain_rows "org-1" (demo_rows demo_metadata))) = true <->
  unbroken demo_digest (fun v => v) "org-1" (chain_rows "org-1" (demo_rows demo_metadata)) /\
  clean_report "org-1" (chain_rows "org-1" (demo_rows demo_metadata)) =
  clean_report "org-1" (chain_rows "org-1" (demo_rows demo_metadata)).
Proof.
  apply (verification_accepts_exactly_unbroken demo_digest (fun v => v) (Some "org-1") (demo_rows demo_metadata)).
  - apply (bool_decide_unpack _). by vm_compute.
  - by vm_compute.
Defined.

(** A digest without bars that tells the records of the demonstration apart. *)
Fixpoint unbarred (s : string) : string :=
  match s with EmptyString => EmptyString | String c s => String (if Ascii.eqb c "|" then "!" else c)%char (unbarred s) end.
Definition barless_rows (metadata : json) : list AuditRow :=
  auditRows (foldl (append_call unbarred) empty_db (demo_calls metadata)).

Lemma last_hash_determines_chain_witness :
  Forall2 (same_record (fun v => v)) (chain_rows "org-1" (barless_rows demo_metadata))
    (chain_rows "org-1" (barless_rows demo_metadata')).
Proof.
  destruct (last_hash_determines_chain unbarred (fun v => v) (Some "org-1") (barless_rows demo_metadata)
    (barless_rows demo_metadata') _ _ ltac:(apply (bool_decide_unpack _); by vm_compute)
    ltac:(apply (bool_decide_unpack _); by vm_compute) ltac:(apply (bool_decide_unpack _); by vm_compute)
    ltac:(apply (bool_decide_unpack _); by vm_compute) ltac:(by vm_compute) ltac:(by vm_compute)
    ltac:(by vm_compute) ltac:(by vm_compute) ltac:(by vm_compute) ltac:(by vm_compute))
    as [(i & r & r' & Hr & Hr' & Hne & _)|H]; [|exact H].
  exfalso. apply Hne. clear Hne.
  destruct i as [|[|i]]; vm_compute in Hr, Hr'; [| |done]; injection Hr as <-; injection Hr' as <-; by vm_compute.
Defined.

Lemma unchained_insert_spoils_system_chain_witness :
  createUnchained "b2" 5 (demo_args None JNull) (demo_rows demo_metadata ++
    [unchained_row "b1" 5 (demo_args None JNull)])%list = Err P2002.
Proof.
  eapply (unchained_insert_spoils_system_chain (fun _ => "digest") (fun v => v) "b1" "b2" 5 5
    (demo_args None JNull) (demo_args None JNull) (demo_rows demo_metadata)).
  - apply (bool_decide_unpack _). by vm_compute.
  - by repeat constructor.
  - done.
  - by vm_compute.
Defined.
