(* ===== verification/Lease.v ===== *)
(** * Leases of scheduled jobs

    Model of [src/jobs/distributed-lease.service.ts] and of the cleanup job of
    [src/auth/cleanup.job.ts] that runs under such a lease.  Each call is one
    statement on the [JobLease] table.  Two clocks appear: the database's
    ([CURRENT_TIMESTAMP]), which never goes back, and the one of the process
    that calls ([new Date()]), which is arbitrary. *)

From S2P Require Import Prelude JsData.

Local Open Scope string_scope.
Local Open Scope Z_scope.

(** ** The service *)

Record JobLease := {
  jl_id : string;
  jl_jobName : string;
  jl_owner : string;
  jl_expiresAt : Z;
  jl_lastHeartbeatAt : Z;
  jl_createdAt : Z;
  jl_updatedAt : Z;
}.

Record LeaseAcquisitionResult := {
  la_acquired : bool;
  la_owner : string;
  la_expiresAt : Z;
  la_isExpired : bool;
}.

Record LeaseRenewalResult := { lr_renewed : bool; lr_newExpiresAt : Z }.

Definition for_job (jobName : string) (l : JobLease) : bool := String.eqb (jl_jobName l) jobName.
Definition find_lease (jobName : string) (t : list JobLease) : option JobLease :=
  find_where (for_job jobName) t.

(** The columns [ON CONFLICT] writes. *)
Definition take_over (processId : string) (expiresAt dbNow : Z) (l : JobLease) : JobLease :=
  let expired := jl_expiresAt l <? dbNow in
  {| jl_id := jl_id l; jl_jobName := jl_jobName l;
     jl_owner := if expired then processId else jl_owner l;
     jl_expiresAt := if expired then expiresAt else jl_expiresAt l;
     jl_lastHeartbeatAt := if expired then dbNow else jl_lastHeartbeatAt l;
     jl_createdAt := jl_createdAt l;
     jl_updatedAt := if expired then dbNow else jl_updatedAt l |}.

Definition new_lease (id jobName processId : string) (expiresAt dbNow : Z) : JobLease :=
  {| jl_id := id; jl_jobName := jobName; jl_owner := processId; jl_expiresAt := expiresAt;
     jl_lastHeartbeatAt := dbNow; jl_createdAt := dbNow; jl_updatedAt := dbNow |}.

(** The upsert: the table after it, and the row it returns. *)
Definition upsert_lease (id jobName processId : string) (expiresAt dbNow : Z) (t : list JobLease)
    : list JobLease * JobLease :=
  match find_lease jobName t with
  | None => let l := new_lease id jobName processId expiresAt dbNow in ((t ++ [l])%list, l)
  | Some l => (update_where (for_job jobName) (take_over processId expiresAt dbNow) t,
               take_over processId expiresAt dbNow l)
  end.

Definition acquireLease (processId jobName : string) (leaseDurationMs clientNow dbNow : Z) (id : string)
    (t : list JobLease) : list JobLease * LeaseAcquisitionResult :=
  let '(t, lease) := upsert_lease id jobName processId (clientNow + leaseDurationMs) dbNow t in
  (t, {| la_acquired := String.eqb (jl_owner lease) processId; la_owner := jl_owner lease;
         la_expiresAt := jl_expiresAt lease; la_isExpired := jl_expiresAt lease <? dbNow |}).

Definition owned_by (processId jobName : string) (l : JobLease) : bool :=
  for_job jobName l && String.eqb (jl_owner l) processId.

Definition extend (expiresAt clientNow : Z) (l : JobLease) : JobLease :=
  {| jl_id := jl_id l; jl_jobName := jl_jobName l; jl_owner := jl_owner l; jl_expiresAt := expiresAt;
     jl_lastHeartbeatAt := clientNow; jl_createdAt := jl_createdAt l; jl_updatedAt := clientNow |}.

Definition renewLease (processId jobName : string) (newLeaseDurationMs clientNow : Z) (t : list JobLease)
    : list JobLease * LeaseRenewalResult :=
  let expiresAt := clientNow + newLeaseDurationMs in
  (update_where (owned_by processId jobName) (extend expiresAt clientNow) t,
   {| lr_renewed := (0 <? count_where (owned_by processId jobName) t)%nat; lr_newExpiresAt := expiresAt |}).

Definition releaseLease (processId jobName : string) (t : list JobLease) : list JobLease * bool :=
  (List.filter (fun l => negb (owned_by processId jobName l)) t,
   (0 <? count_where (owned_by processId jobName) t)%nat).

Record LeaseInfo := {
  li_jobName : string;
  li_owner : string;
  li_expiresAt : Z;
  li_lastHeartbeatAt : Z;
  li_isExpired : bool;
}.

Definition queryLease (jobName : string) (dbNow : Z) (t : list JobLease) : option LeaseInfo :=
  (fun l => {| li_jobName := jl_jobName l; li_owner := jl_owner l; li_expiresAt := jl_expiresAt l;
               li_lastHeartbeatAt := jl_lastHeartbeatAt l; li_isExpired := jl_expiresAt l <? dbNow |})
  <$> find_lease jobName t.

(** ** The cleanup job *)

Definition AUTH_CLEANUP_LEASE_DURATION_MS : Z := 24 * 60 * 60 * 1000.
Definition AUTH_CLEANUP_JOB_NAME := "auth_cleanup".

Record Challenge := { ch_id : string; ch_expiresAt : Z; ch_usedAt : option Z }.

Definition challenge_expired (now : Z) (c : Challenge) : bool := ch_expiresAt c <? now.
Definition challenge_old (cutoff : Z) (c : Challenge) : bool :=
  match ch_usedAt c with None => false | Some t => t <? cutoff end.

(** [deleteMany]: the rows left, and the count of the rows gone. *)
Definition delete_many {A} (p : A -> bool) (t : list A) : list A * nat :=
  (List.filter (fun x => negb (p x)) t, count_where p t).

Definition cleanupChallenges (challengeRetentionDays now : Z) (t : list Challenge) : list Challenge * nat :=
  let retentionCutoff := now - challengeRetentionDays * 24 * 60 * 60 * 1000 in
  let '(t, expired) := delete_many (challenge_expired now) t in
  let '(t, used) := delete_many (challenge_old retentionCutoff) t in
  (t, (expired + used)%nat).

(** ** Calls in the order the database executes them *)

Inductive Call :=
| CAcquire (processId jobName : string) (duration clientNow : Z) (id : string)
| CRenew (processId jobName : string) (duration clientNow : Z)
| CRelease (processId jobName : string).

(** What a call answers. *)
Inductive Answer :=
| Acquisition (r : LeaseAcquisitionResult)
| RenewalAnswer (r : LeaseRenewalResult)
| ReleaseAnswer (released : bool).

(** A call at a time of the database. *)
Definition execute (dbNow : Z) (c : Call) (t : list JobLease) : list JobLease * Answer :=
  match c with
  | CAcquire p job d now id => let r := acquireLease p job d now dbNow id t in (r.1, Acquisition r.2)
  | CRenew p job d now => let r := renewLease p job d now t in (r.1, RenewalAnswer r.2)
  | CRelease p job => let r := releaseLease p job t in (r.1, ReleaseAnswer r.2)
  end.

(** Until when each process was last told it has the lease of each job: by an
    acquisition or a renewal that succeeded; one that did not, and a release, end
    the process's tenure. *)
Abbreviation Tenures := (gmap (string * string) Z).
Definition told (c : Call) (a : Answer) (b : Tenures) : Tenures :=
  match c, a with
  | CAcquire p job _ _ _, Acquisition r =>
      if la_acquired r then <[(p, job) := la_expiresAt r]> b else delete (p, job) b
  | CRenew p job _ _, RenewalAnswer r =>
      if lr_renewed r then <[(p, job) := lr_newExpiresAt r]> b else delete (p, job) b
  | CRelease p job, _ => delete (p, job) b
  | _, _ => b
  end.

Fixpoint run_calls (cs : list (Z * Call)) (t : list JobLease) (b : Tenures) : list JobLease * Tenures :=
  match cs with
  | [] => (t, b)
  | (dbNow, c) :: cs => let '(t, a) := execute dbNow c t in run_calls cs t (told c a b)
  end.

(** ** Tenure *)

Definition held (p job : string) (e : Z) (t : list JobLease) : Prop :=
  exists l, find_lease job t = Some l /\ jl_owner l = p /\ jl_expiresAt l = e.

(** The calls by which an owner changes its own lease. *)
Definition touches (p job : string) (c : Call) : bool :=
  match c with
  | CAcquire _ _ _ _ _ => false
  | CRenew p' job' _ _ | CRelease p' job' => String.eqb p p' && String.eqb job job'
  end.

Lemma find_lease_update job w f t :
  (forall l, jl_jobName (f l) = jl_jobName l) ->
  find_lease job (update_where w f t) = (fun l => if w l then f l else l) <$> find_lease job t.
Proof. intros Hf. apply find_where_update. intros l. unfold for_job. by rewrite Hf. Qed.

Lemma find_lease_job job t l : find_lease job t = Some l -> jl_jobName l = job.
Proof. intros [_ H]%find_where_Some. by apply String.eqb_eq. Qed.

Lemma take_over_unexpired p x now l : now <= jl_expiresAt l -> take_over p x now l = l.
Proof. intros H. unfold take_over. rewrite (proj2 (Z.ltb_ge _ _)) by lia. by destruct l. Qed.

(** The upsert acts on the row of its job. *)
Lemma find_lease_upsert id job p x now t job' :
  find_lease job' (upsert_lease id job p x now t).1 =
  if decide (job' = job) then
    Some (match find_lease job t with None => new_lease id job p x now | Some l => take_over p x now l end)
  else find_lease job' t.
Proof.
  unfold upsert_lease. destruct (find_lease job t) as [l|] eqn:Hl; cbn [fst].
  - rewrite find_lease_update by done. case_decide as Hj; subst.
    + rewrite Hl. cbn. unfold for_job. by rewrite (find_lease_job _ _ _ Hl), String.eqb_refl.
    + destruct (find_lease job' t) as [l'|] eqn:Hl'; [|done]. cbn. unfold for_job.
      rewrite (find_lease_job _ _ _ Hl'). by rewrite (proj2 (String.eqb_neq _ _) Hj).
  - unfold find_lease in *. rewrite find_where_app. case_decide as Hj; subst.
    + rewrite Hl. cbn. unfold for_job. cbn. by rewrite String.eqb_refl.
    + destruct (find_where (for_job job') t); [done|]. cbn. unfold for_job. cbn.
      by rewrite (proj2 (String.eqb_neq job job')) by congruence.
Qed.

Lemma find_lease_release p job t job' l :
  find_lease job' t = Some l -> owned_by p job l = false -> find_lease job' (releaseLease p job t).1 = Some l.
Proof.
  cbn. intros Hl Ho. induction t as [|x t IH]; [done|]. unfold find_lease in *. cbn in *.
  destruct (for_job job' x) eqn:Hx.
  - injection Hl as ->. by rewrite Ho; cbn; rewrite Hx.
  - destruct (owned_by p job x); cbn; [auto|]. rewrite Hx. auto.
Qed.

(** A call leaves a lease as it is, until the lease has run out or its owner
    changes it. *)
Lemma execute_held p job e now c t :
  held p job e t -> touches p job c = false -> e < now \/ held p job e (execute now c t).1.
Proof.
  intros (l & Hl & <- & <-) Ht. destruct (Z.lt_ge_cases (jl_expiresAt l) now) as [|Hnow]; [by left|right].
  exists l. split; [|done]. pose proof (find_lease_job _ _ _ Hl) as Hj.
  assert (forall q job', String.eqb (jl_owner l) q && String.eqb job job' = false -> owned_by q job' l = false)
    as Hown by (intros q job' <-; unfold owned_by, for_job; by rewrite Hj, andb_comm).
  destruct c as [q job' d cn i|q job' d cn|q job']; cbn [execute fst].
  - unfold acquireLease. pose proof (find_lease_upsert i job' q (cn + d) now t job) as Hu.
    destruct (upsert_lease _ _ _ _ _ _) as [t' l']. cbn [fst] in *. rewrite Hu.
    case_decide as Heq; [|done]. subst job'. rewrite Hl. by rewrite take_over_unexpired.
  - unfold renewLease. cbn [fst]. rewrite find_lease_update, Hl by done. cbn. by rewrite Hown.
  - apply find_lease_release; [done|]. by apply Hown.
Qed.

Lemma acquire_row p job d cn now id t :
  exists l, find_lease job (acquireLease p job d cn now id t).1 = Some l /\
    (acquireLease p job d cn now id t).2 =
      {| la_acquired := String.eqb (jl_owner l) p; la_owner := jl_owner l; la_expiresAt := jl_expiresAt l;
         la_isExpired := jl_expiresAt l <? now |} /\
    l = match find_lease job t with None => new_lease id job p (cn + d) now | Some l => take_over p (cn + d) now l end.
Proof.
  unfold acquireLease. pose proof (find_lease_upsert id job p (cn + d) now t job) as Hu.
  rewrite decide_True in Hu by done. unfold upsert_lease in *.
  destruct (find_lease job t) as [l|]; cbn [fst snd] in *; eexists; split_and!; [exact Hu|done|done|exact Hu|done|done].
Qed.

(** No other process is granted a lease that has not run out. *)
Lemma held_refuses p job e now t q d cn id :
  held p job e t -> now <= e -> la_acquired (acquireLease q job d cn now id t).2 = true -> q = p.
Proof.
  intros (l & Hl & <- & <-) Hnow Hq. destruct (acquire_row q job d cn now id t) as (l' & _ & Hres & Hl').
  rewrite Hres in Hq. cbn in Hq. rewrite Hl, take_over_unexpired in Hl' by done. subst l'. by apply String.eqb_eq in Hq.
Qed.

Lemma held_unique p q job e e' t : held p job e t -> held q job e' t -> p = q.
Proof. intros (l & Hl & <- & _) (l' & Hl' & <- & _). congruence. Qed.

(** What a call tells its own caller is what the table says. *)
Lemma acquire_held p job d cn now id t :
  let r := acquireLease p job d cn now id t in
  la_acquired r.2 = true -> held p job (la_expiresAt r.2) r.1.
Proof.
  intros r Hr. destruct (acquire_row p job d cn now id t) as (l & Hl & Hres & _). fold r in Hl, Hres.
  rewrite Hres in Hr |- *. cbn in Hr |- *. exists l. split; [done|]. split; [by apply String.eqb_eq|done].
Qed.

Lemma renew_held p job d cn t :
  NoDup (jl_jobName <$> t) -> lr_renewed (renewLease p job d cn t).2 = true ->
  held p job (cn + d) (renewLease p job d cn t).1.
Proof.
  intros Hnd Hr. apply Nat.ltb_lt in Hr.
  destruct (count_where_pos (owned_by p job) t) as (l & Hl & Ho); [lia|].
  assert (find_lease job t = Some l) as Hf.
  { apply andb_true_iff in Ho as [Ho _]. apply String.eqb_eq in Ho. destruct (find_lease job t) as [l'|] eqn:E.
    - f_equal. apply (key_unique jl_jobName t); [done|by apply find_where_Some in E as [? _]|done|].
      by rewrite (find_lease_job _ _ _ E), Ho.
    - unfold find_lease in E. rewrite find_where_None, Forall_forall in E. specialize (E l Hl).
      unfold for_job in E. by rewrite Ho, String.eqb_refl in E. }
  exists (extend (cn + d) cn l). unfold renewLease. cbn [fst]. rewrite find_lease_update, Hf by done. cbn. rewrite Ho.
  split; [done|]. split; [|done]. cbn. apply andb_true_iff in Ho as [_ Ho]. by apply String.eqb_eq.
Qed.

Lemma execute_jobs now c t : NoDup (jl_jobName <$> t) -> NoDup (jl_jobName <$> (execute now c t).1).
Proof.
  intros Hnd. destruct c as [p job d cn id|p job d cn|p job]; cbn.
  - unfold acquireLease, upsert_lease. destruct (find_lease job t) as [l|] eqn:E; cbn.
    + by rewrite update_where_keys.
    + apply NoDup_fmap_snoc; [done|]. cbn. intros (l & Hl & Hin)%list_elem_of_fmap.
      unfold find_lease in E. rewrite find_where_None, Forall_forall in E. specialize (E l Hin).
      unfold for_job in E. by rewrite <- Hl, String.eqb_refl in E.
  - by rewrite update_where_keys.
  - by apply NoDup_fmap_filter.
Qed.

(** What processes were told holds of the table, or has run out. *)
Definition tenures_ok (now : Z) (t : list JobLease) (b : Tenures) : Prop :=
  NoDup (jl_jobName <$> t) /\ forall p job e, b !! (p, job) = Some e -> e < now \/ held p job e t.

Lemma told_other c a b p job :
  touches p job c = false -> (forall d cn id, c <> CAcquire p job d cn id) -> told c a b !! (p, job) = b !! (p, job).
Proof.
  intros Ht Hc.
  assert (forall p' job', (String.eqb p p' && String.eqb job job' = false) -> (p', job') <> (p, job)) as Hne.
  { intros p' job' Hf [= -> ->]. by rewrite !String.eqb_refl in Hf. }
  destruct c as [p' job' d cn id|p' job' d cn|p' job']; cbn in Ht.
  - assert ((p', job') <> (p, job)) as Hk by (intros [= -> ->]; by apply (Hc d cn id)).
    destruct a; cbn; try case_match; by rewrite ?lookup_insert_ne, ?lookup_delete_ne.
  - apply Hne in Ht. destruct a; cbn; try case_match; by rewrite ?lookup_insert_ne, ?lookup_delete_ne.
  - apply Hne in Ht. by apply lookup_delete_ne.
Qed.

(** What the caller is told of its own lease. *)
Lemma told_caller now c t b p job e :
  NoDup (jl_jobName <$> t) -> touches p job c = true \/ (exists d cn id, c = CAcquire p job d cn id) ->
  told c (execute now c t).2 b !! (p, job) = Some e -> held p job e (execute now c t).1.
Proof.
  intros Hnd [Ht|(d & cn & id & ->)] Hb.
  - destruct c as [|p' job' d cn|p' job']; [done|..]; cbn [touches] in Ht; apply andb_true_iff in Ht as [E1 E2];
      apply String.eqb_eq in E1, E2; subst p' job'; cbn [execute told fst snd] in *.
    + destruct (lr_renewed (renewLease p job d cn t).2) eqn:E; [|by rewrite lookup_delete_eq in Hb].
      rewrite lookup_insert_eq in Hb. injection Hb as <-. by apply renew_held.
    + by rewrite lookup_delete_eq in Hb.
  - cbn [execute told fst snd] in *. destruct (la_acquired _) eqn:E; [|by rewrite lookup_delete_eq in Hb].
    rewrite lookup_insert_eq in Hb. injection Hb as <-. by apply acquire_held.
Qed.

Lemma execute_tenures now0 now c t b :
  now0 <= now -> tenures_ok now0 t b -> tenures_ok now (execute now c t).1 (told c (execute now c t).2 b).
Proof.
  intros Hle [Hnd Hb]. split; [by apply execute_jobs|]. intros p job e He.
  destruct (touches p job c) eqn:Ht; [right; eapply told_caller; eauto|].
  assert ((exists d cn id, c = CAcquire p job d cn id) \/ forall d cn id, c <> CAcquire p job d cn id) as [Hc|Hc].
  { destruct c as [p' job' d cn id|p' job' d cn|p' job']; [|by right..].
    destruct (decide ((p', job') = (p, job))) as [[= -> ->]|Hne]; [left; eauto|right; naive_solver]. }
  - right. eapply told_caller; eauto.
  - rewrite told_other in He by done. destruct (Hb _ _ _ He) as [|Hh]; [left; lia|]. by apply execute_held.
Qed.

Lemma run_calls_tenures cs now0 now t b t' b' :
  StronglySorted Z.le cs.*1 -> Forall (fun x => now0 <= x <= now) cs.*1 -> now0 <= now -> tenures_ok now0 t b ->
  run_calls cs t b = (t', b') -> tenures_ok now t' b'.
Proof.
  revert now0 t b. induction cs as [|[x c] cs IH]; intros now0 t b Hs Hx Hle Hok Hr; cbn in *.
  - injection Hr as <- <-. destruct Hok as [Hnd Hb]. split; [done|]. intros p job e He.
    destruct (Hb _ _ _ He); [left; lia|by right].
  - apply Forall_cons in Hx as [[Hx1 Hx2] Hx]. apply StronglySorted_inv in Hs as [Hs Hall].
    pose proof (execute_tenures now0 x c t b Hx1 Hok) as Hok'. destruct (execute x c t) as [t1 a]. cbn in Hok'.
    apply (IH x t1 (told c a b)); [done| |done..]. rewrite Forall_forall in Hx, Hall |- *. intros y Hy.
    split; [by apply Hall|by apply Hx].
Qed.

(** C17: whatever acquisitions, renewals and releases processes make, with whatever
    clocks of their own, as long as the database's clock does not go back: while a
    process's tenure of a job lasts - it was last told, by an acquisition or a
    renewal, that the lease is its own until a database time not yet passed, and has
    not released it since -, no other process has a tenure that lasts, and none that
    asks is granted the lease. *)
Theorem lease_tenure_exclusive cs t t' b p job e now0 now :
  NoDup (jl_jobName <$> t) -> StronglySorted Z.le cs.*1 -> Forall (fun x => now0 <= x <= now) cs.*1 ->
  run_calls cs t ∅ = (t', b) -> b !! (p, job) = Some e -> now <= e ->
  (forall q e', b !! (q, job) = Some e' -> now <= e' -> q = p) /\
  (forall q d cn id, la_acquired (acquireLease q job d cn now id t').2 = true -> q = p).
Proof.
  intros Hnd Hs Hx Hr Hb He.
  assert (now0 <= now) as Hle.
  { destruct cs as [|[x c] cs]; [by injection Hr as <- <-|]. apply Forall_cons in Hx as [? _]. cbn in *. lia. }
  destruct (run_calls_tenures cs now0 now t ∅ t' b) as [_ Hok]; [done..| |done|].
  { split; [done|]. intros ??? H. by rewrite lookup_empty in H. }
  destruct (Hok _ _ _ Hb) as [|Hh]; [lia|]. split.
  - intros q e' Hq He'. destruct (Hok _ _ _ Hq) as [|Hh']; [lia|]. by eapply held_unique.
  - intros q d cn id. by eapply held_refuses.
Qed.

(** a lease that has run out is granted to the next process that asks, for
    the time it asked; the former owner's renewal and release then do nothing
    and say so. *)
Theorem expired_lease_taken_over p q job e d cn now id t :
  NoDup (jl_jobName <$> t) -> held p job e t -> e < now -> p <> q ->
  let t1 := (acquireLease q job d cn now id t).1 in
  let res := (acquireLease q job d cn now id t).2 in
  la_acquired res = true /\ la_expiresAt res = cn + d /\ held q job (cn + d) t1 /\
  (forall d' cn', (renewLease p job d' cn' t1).1 = t1 /\ lr_renewed (renewLease p job d' cn' t1).2 = false) /\
  releaseLease p job t1 = (t1, false).
Proof.
  intros Hnd (l & Hl & <- & <-) Hlt Hne t1 res. subst t1 res.
  destruct (acquire_row q job d cn now id t) as (l1 & Hl1 & -> & ->). rewrite Hl in *.
  unfold take_over in Hl1 |- *. rewrite (proj2 (Z.ltb_lt _ _) Hlt) in *. cbn [jl_owner jl_expiresAt la_acquired la_expiresAt].
  set (t1 := (acquireLease q job d cn now id t).1) in *.
  assert (forall x, x ∈ t1 -> owned_by (jl_owner l) job x = false) as Hno.
  { intros x Hx. unfold owned_by. destruct (for_job job x) eqn:Hj; [|done]. cbn. apply String.eqb_neq.
    unfold t1, acquireLease, upsert_lease in Hx. rewrite Hl in Hx. cbn in Hx.
    apply elem_of_update_where in Hx as (y & Hy & ->).
    assert (for_job job y = true) as Hjy by (by destruct (for_job job y) eqn:E; [|rewrite E in Hj]).
    rewrite Hjy in *. assert (y = l) as ->.
    { pose proof (find_where_Some _ _ _ Hl) as [Hin Hjl]. apply String.eqb_eq in Hjl, Hjy.
      apply (key_unique jl_jobName t); [done..|]. congruence. }
    unfold take_over. rewrite (proj2 (Z.ltb_lt _ _) Hlt). cbn. congruence. }
  assert (count_where (owned_by (jl_owner l) job) t1 = 0%nat) as Hz by (by apply count_where_none).
  split_and!; [by apply String.eqb_eq|done| | |].
  - eexists. by split.
  - intros d' cn'. unfold renewLease. rewrite Hz. by rewrite update_where_id.
  - unfold releaseLease. rewrite Hz. f_equal. apply filter_bool_all, Forall_forall. intros x Hx. by rewrite Hno.
Qed.

(** a process whose clock is behind the database's by more than the lease's
    duration is granted a lease that has already run out, and another process is
    granted it at the same time. *)
Theorem slow_clock_grants_twice p q job d cn cn' now id id' t :
  find_lease job t = None -> cn + d < now ->
  let t1 := (acquireLease p job d cn now id t).1 in
  la_acquired (acquireLease p job d cn now id t).2 = true /\
  la_acquired (acquireLease q job d cn' now id' t1).2 = true.
Proof.
  intros Hn Hlt t1. destruct (acquire_row p job d cn now id t) as (l & Hl & -> & ->). rewrite Hn in *. cbn.
  split; [apply String.eqb_refl|]. fold t1 in Hl.
  destruct (acquire_row q job d cn' now id' t1) as (l' & _ & -> & ->). rewrite Hl. unfold take_over. cbn.
  rewrite (proj2 (Z.ltb_lt _ _) Hlt). apply String.eqb_refl.
Qed.

(** a process that asks again for a lease it holds is told it was acquired, and
    keeps the old expiry whatever duration it asked for. *)
Theorem reacquisition_keeps_expiry p job e d cn now id t :
  held p job e t -> now <= e ->
  la_acquired (acquireLease p job d cn now id t).2 = true /\
  la_expiresAt (acquireLease p job d cn now id t).2 = e.
Proof.
  intros (l & Hl & <- & <-) Hnow. destruct (acquire_row (jl_owner l) job d cn now id t) as (l' & _ & -> & ->).
  rewrite Hl, take_over_unexpired by done. by rewrite String.eqb_refl.
Qed.

(** the challenge cleanup deletes exactly the challenges that have expired
    or were used before the retention window, and reports how many. *)
Theorem challenge_cleanup_exact days now t :
  let cutoff := now - days * 24 * 60 * 60 * 1000 in
  let keep c := negb (challenge_expired now c) && negb (challenge_old cutoff c) in
  (cleanupChallenges days now t).1 = List.filter keep t /\
  ((cleanupChallenges days now t).2 + length (List.filter keep t) = length t)%nat.
Proof.
  intros cutoff keep. unfold cleanupChallenges, delete_many. cbn. fold cutoff.
  rewrite filter_bool_filter. split; [done|]. unfold count_where, keep. clear keep.
  induction t as [|c t IH]; [done|]. cbn. destruct (challenge_expired now c), (challenge_old cutoff c) eqn:E; cbn;
    rewrite ?E; cbn; lia.
Qed.

(** ** Witnesses *)

Definition demo_leases : list JobLease := [new_lease "l1" "auth_cleanup" "host-1" 1000 0].

(** A process takes the lease, another asks in vain, the first renews it, lets it
    run out, and the second gets it. *)
Definition demo_lease_calls : list (Z * Call) :=
  [(100, CAcquire "host-1" "auth_cleanup" 500 110 "l1"); (200, CAcquire "host-2" "auth_cleanup" 500 210 "l2");
   (300, CRenew "host-1" "auth_cleanup" 500 290); (800, CAcquire "host-2" "auth_cleanup" 500 790 "l4")].

Lemma lease_tenure_exclusive_witness :
  let s := run_calls demo_lease_calls [] ∅ in
  s.2 !! ("host-1", "auth_cleanup") = Some 790 /\ s.2 !! ("host-2", "auth_cleanup") = Some 1290 /\
  la_acquired (acquireLease "host-1" "auth_cleanup" 500 800 800 "l5" s.1).2 = false.
Proof.
  split; [vm_compute; reflexivity|]. split; [vm_compute; reflexivity|].
  destruct (la_acquired _) eqn:E; [|reflexivity].
  assert ("host-1" = "host-2"); [|discriminate].
  refine (proj2 (lease_tenure_exclusive demo_lease_calls [] _ _ "host-2" "auth_cleanup" 1290 100 800
    _ _ _ (surjective_pairing _) _ _) "host-1" 500 800 "l5" E).
  - apply NoDup_nil_2.
  - vm_compute. repeat constructor; discriminate.
  - vm_compute. repeat constructor; discriminate.
  - vm_compute. reflexivity.
  - lia.
Defined.

Lemma expired_lease_taken_over_witness :
  la_acquired (acquireLease "host-2" "auth_cleanup" 500 1190 1200 "l4" demo_leases).2 = true.
Proof.
  apply (expired_lease_taken_over "host-1" "host-2" "auth_cleanup" 1000); [apply NoDup_singleton| |lia|done].
  eexists. split; [reflexivity|]. by split.
Defined.
