(* ===== verification/Idempotency.v ===== *)
(** * Idempotent requests

    Model of [src/common/services/idempotency.service.ts] and of the
    interceptor [src/common/interceptors/idempotent.interceptor.ts] that puts it
    around the decorated handlers.  A request runs in phases, one per statement
    on the [IdempotencyRecord] table, so that the phases of several requests
    interleave; the handler itself is a parameter: its outcome.  Handlers answer
    with an object. *)

From S2P Require Import Prelude JsData Encoding Schema Canonical.
From Stdlib Require Import Ascii.

Local Open Scope string_scope.
Local Open Scope Z_scope.
#[local] Arguments String.append !_ _ : simpl nomatch.

(** ** Records *)

Record IdempotencyRecord := {
  ir_id : string;
  ir_organizationId : string;
  ir_idempotencyKey : string;
  ir_requestFingerprint : string;
  ir_status : IdempotencyStatus.t;
  ir_responseBody : option json;
  ir_responseStatusCode : option Z;
  ir_expiresAt : Z;
  ir_attemptCount : Z;
  ir_cancellationReason : option string;
  ir_updatedAt : Z;
}.

(** The table, and the organizations its foreign key refers to. *)
Record IdemDb := { records : list IdempotencyRecord; organizations : list string }.

Inductive IdemError :=
| KeyRequired | KeyTooLong | KeyCharacters         (* 400 *)
| PayloadConflict | AlreadyCompleted               (* 409 *)
| OperationNotFound                                (* 404 *)
| OrganizationUndefined                            (* the client refuses an undefined key column *)
| UniqueViolation | ForeignKeyViolation | RecordMissing.   (* P2002, P2003, P2025 *)

Definition record_key (r : IdempotencyRecord) : string * string :=
  (ir_organizationId r, ir_idempotencyKey r).
Definition has_key (organizationId key : string) (r : IdempotencyRecord) : bool :=
  String.eqb (ir_organizationId r) organizationId && String.eqb (ir_idempotencyKey r) key.
Definition find_record (organizationId key : string) (db : IdemDb) : option IdempotencyRecord :=
  find_where (has_key organizationId key) (records db).

Definition with_records (rs : list IdempotencyRecord) (db : IdemDb) : IdemDb :=
  {| records := rs; organizations := organizations db |}.

(** ** Keys and fingerprints *)

Definition maxKeyLength : nat := 255.

Definition key_char (c : ascii) : bool :=
  let n := nat_of_ascii c in
  ((97 <=? n) && (n <=? 122) || (65 <=? n) && (n <=? 90) || (48 <=? n) && (n <=? 57))%nat
  || Ascii.eqb c "_" || Ascii.eqb c "-".

Definition validateKey (key : string) : result IdemError unit :=
  _ ← throw_if (String.eqb key EmptyString) KeyRequired;
  _ ← throw_if (maxKeyLength <? String.length key)%nat KeyTooLong;
  throw_if (negb (all_chars key_char key)) KeyCharacters.

Definition fingerprint_value (method path : string) (body : json) : json :=
  JObj [("method", JStr method); ("path", JStr path); ("body", body)].

(** ** What a stored response keeps *)

Definition lower (c : ascii) : ascii :=
  let n := nat_of_ascii c in if ((65 <=? n) && (n <=? 90))%nat then ascii_of_nat (n + 32) else c.

Fixpoint lowercase (s : string) : string :=
  match s with EmptyString => EmptyString | String c s => String (lower c) (lowercase s) end.

Definition sensitive_prefixes : list string :=
  ["secret"; "token"; "password"; "apikey"; "private"; "signature"; "amountencrypted"; "hash"].

(** The patterns, matched without regard to case. *)
Definition isSensitive (key : string) : bool :=
  existsb (fun p => String.prefix p (lowercase key)) sensitive_prefixes || String.eqb (lowercase key) "key".

Fixpoint stripSensitiveFields (obj : json) : json :=
  match obj with
  | JArr l => JArr (List.map stripSensitiveFields l)
  | JObj kvs =>
      JObj (build_object (List.filter (fun kv => negb (isSensitive kv.1))
                            (List.map (fun kv => (kv.1, stripSensitiveFields kv.2)) kvs)))
  | JDate _ => JObj []              (* an object without own properties *)
  | _ => obj
  end.

Section service.
Context (sha256 : string -> string).
(** The value of a [jsonb] column as it is read back. *)
Context (jsonb : json -> json).
Context (defaultTtlMs : Z).

Definition computeFingerprint (method path : string) (body : json) : string :=
  sha256 (json_text (fingerprint_value method path body)).

(** ** The service *)

Record CheckedRecord := {
  ck_status : IdempotencyStatus.t;
  ck_responseBody : option json;
  ck_responseStatusCode : option Z;
}.

(** [None]: a new key. *)
Definition check (organizationId key fingerprint : string) (db : IdemDb)
    : result IdemError (option CheckedRecord) :=
  _ ← validateKey key;
  match find_record organizationId key db with
  | None => Ok None
  | Some r =>
      _ ← throw_if (negb (String.eqb (ir_requestFingerprint r) fingerprint)) PayloadConflict;
      Ok (Some {| ck_status := ir_status r; ck_responseBody := jsonb <$> ir_responseBody r;
                  ck_responseStatusCode := ir_responseStatusCode r |})
  end.

(** [reserve], its insert. *)
Definition reserve_create (organizationId key fingerprint id : string) (now : Z) (db : IdemDb)
    : result IdemError IdemDb :=
  _ ← throw_if (bool_decide (id ∈ ir_id <$> records db) ||
                bool_decide ((organizationId, key) ∈ record_key <$> records db)) UniqueViolation;
  _ ← throw_if (negb (bool_decide (organizationId ∈ organizations db))) ForeignKeyViolation;
  Ok (with_records (records db ++
        [{| ir_id := id; ir_organizationId := organizationId; ir_idempotencyKey := key;
            ir_requestFingerprint := fingerprint; ir_status := IdempotencyStatus.PENDING;
            ir_responseBody := None; ir_responseStatusCode := None; ir_expiresAt := now + defaultTtlMs;
            ir_attemptCount := 1; ir_cancellationReason := None; ir_updatedAt := now |}])%list db).

(** The look-up after the insert was refused: the row to count an attempt on. *)
Definition reserve_read (organizationId key fingerprint : string) (db : IdemDb)
    : result IdemError (option IdempotencyRecord) :=
  match find_record organizationId key db with
  | None => Ok None
  | Some r =>
      _ ← throw_if (negb (String.eqb (ir_requestFingerprint r) fingerprint)) PayloadConflict;
      Ok (Some r)
  end.

Definition set_attempts (n now : Z) (r : IdempotencyRecord) : IdempotencyRecord :=
  {| ir_id := ir_id r; ir_organizationId := ir_organizationId r; ir_idempotencyKey := ir_idempotencyKey r;
     ir_requestFingerprint := ir_requestFingerprint r; ir_status := ir_status r;
     ir_responseBody := ir_responseBody r; ir_responseStatusCode := ir_responseStatusCode r;
     ir_expiresAt := ir_expiresAt r; ir_attemptCount := n; ir_cancellationReason := ir_cancellationReason r;
     ir_updatedAt := now |}.

Definition reserve_update (existing : IdempotencyRecord) (now : Z) (db : IdemDb) : result IdemError IdemDb :=
  let with_id r := String.eqb (ir_id r) (ir_id existing) in
  _ ← throw_if (count_where with_id (records db) =? 0)%nat RecordMissing;
  Ok (with_records (update_where with_id (set_attempts (ir_attemptCount existing + 1) now) (records db)) db).

Definition set_completed (body : json) (code now : Z) (r : IdempotencyRecord) : IdempotencyRecord :=
  {| ir_id := ir_id r; ir_organizationId := ir_organizationId r; ir_idempotencyKey := ir_idempotencyKey r;
     ir_requestFingerprint := ir_requestFingerprint r; ir_status := IdempotencyStatus.COMPLETED;
     ir_responseBody := Some body; ir_responseStatusCode := Some code;
     ir_expiresAt := ir_expiresAt r; ir_attemptCount := ir_attemptCount r;
     ir_cancellationReason := ir_cancellationReason r; ir_updatedAt := now |}.

Definition success (organizationId key : string) (responseBody : json) (code now : Z) (db : IdemDb) : IdemDb :=
  with_records (update_where (has_key organizationId key)
    (set_completed (stripSensitiveFields responseBody) code now) (records db)) db.

Definition set_idem_status (st : IdempotencyStatus.t) (reason : option string) (now : Z) (r : IdempotencyRecord)
    : IdempotencyRecord :=
  {| ir_id := ir_id r; ir_organizationId := ir_organizationId r; ir_idempotencyKey := ir_idempotencyKey r;
     ir_requestFingerprint := ir_requestFingerprint r; ir_status := st;
     ir_responseBody := ir_responseBody r; ir_responseStatusCode := ir_responseStatusCode r;
     ir_expiresAt := ir_expiresAt r; ir_attemptCount := ir_attemptCount r;
     ir_cancellationReason := match reason with Some _ => reason | None => ir_cancellationReason r end;
     ir_updatedAt := now |}.

Definition failure (organizationId key : string) (now : Z) (db : IdemDb) : IdemDb :=
  with_records (update_where (has_key organizationId key)
    (set_idem_status IdempotencyStatus.FAILED None now) (records db)) db.

(** [cancel]: its look-up, and its update of the row it found. *)
Definition cancel_read (organizationId key : string) (db : IdemDb) : result IdemError IdempotencyRecord :=
  match find_record organizationId key db with
  | None => Err OperationNotFound
  | Some r =>
      _ ← throw_if (bool_decide (ir_status r = IdempotencyStatus.COMPLETED)) AlreadyCompleted;
      Ok r
  end.

Definition cancel_update (existing : IdempotencyRecord) (reason : option string) (now : Z) (db : IdemDb)
    : result IdemError IdemDb :=
  let with_id r := String.eqb (ir_id r) (ir_id existing) in
  _ ← throw_if (count_where with_id (records db) =? 0)%nat RecordMissing;
  Ok (with_records (update_where with_id (set_idem_status IdempotencyStatus.CANCELLED
        (Some (default "Operation cancelled by client" reason)) now) (records db)) db).

(** ** Removal *)

(** The retention policy of the class: a record is eligible once it has been
    expired for longer than the configured number of days. *)
Definition cutoffFor (days now : Z) : Z := now - days * 24 * 60 * 60 * 1000.
Definition eligible (cutoff : Z) (r : IdempotencyRecord) : bool := ir_expiresAt r <? cutoff.

(** The delete of one batch of the sweep: the rows selected, by identifier. *)
Definition with_id_in (ids : list string) (r : IdempotencyRecord) : bool := bool_decide (ir_id r ∈ ids).
Definition sweep_batch (ids : list string) (db : IdemDb) : IdemDb :=
  with_records (delete_where (with_id_in ids) (records db)) db.

(** The records that go with a deleted organization, whose own row stays. *)
Definition idempotency_of (id : string) (r : IdempotencyRecord) : bool := bool_decide (ir_organizationId r = id).
Definition delete_with_organization (id : string) (db : IdemDb) : IdemDb :=
  with_records (delete_where (idempotency_of id) (records db)) db.

Inductive OperationStatus := OpPending | OpCompleted | OpFailed | OpCancelled | OpExpired.
#[export] Instance OperationStatus_eq_dec : EqDecision OperationStatus.
Proof. solve_decision. Defined.

Record OperationStatusOutput := {
  os_record : IdempotencyRecord;
  os_status : OperationStatus;
  os_retryable : bool;
  os_terminal : bool;
}.

Definition operation_status (r : IdempotencyRecord) (now : Z) : OperationStatus :=
  if ir_expiresAt r <? now then OpExpired
  else match ir_status r with
       | IdempotencyStatus.PENDING => OpPending
       | IdempotencyStatus.COMPLETED => OpCompleted
       | IdempotencyStatus.FAILED => OpFailed
       | IdempotencyStatus.CANCELLED => OpCancelled
       end.

Definition getOperationStatus (organizationId key : string) (now : Z) (db : IdemDb)
    : result IdemError OperationStatusOutput :=
  _ ← validateKey key;
  match find_record organizationId key db with
  | None => Err OperationNotFound
  | Some r =>
      let status := operation_status r now in
      Ok {| os_record := r; os_status := status;
            os_retryable := bool_decide (status ∈ [OpFailed; OpCancelled; OpExpired]);
            os_terminal := bool_decide (status ∈ [OpCompleted; OpFailed; OpCancelled; OpExpired]) |}
  end.

(** ** The interceptor *)

Record Request := {
  rq_method : string;
  rq_path : string;
  rq_body : json;
  rq_key : option string;               (* the header *)
  rq_required : bool;                   (* of the decorator *)
  rq_organizationId : option string;    (* set by a middleware, if any *)
  rq_user : option string;              (* the authenticated user *)
}.

(** What a request works with after its first lines. *)
Record Ctx := { cx_organizationId : string; cx_key : string; cx_fingerprint : string }.

Definition PLACEHOLDER := "org-placeholder".

(** Up to the look-up; [None] is a request that skips the logic. *)
Definition begin_request (rq : Request) : result IdemError (option Ctx) :=
  match rq_key rq with
  | None | Some EmptyString => if rq_required rq then Err KeyRequired else Ok None
  | Some key =>
      _ ← validateKey key;
      let fingerprint := computeFingerprint (rq_method rq) (rq_path rq) (rq_body rq) in
      match rq_organizationId rq, rq_user rq with
      | Some (String _ _ as org), _ =>
          Ok (Some {| cx_organizationId := org; cx_key := key; cx_fingerprint := fingerprint |})
      | _, Some _ =>
          Ok (Some {| cx_organizationId := PLACEHOLDER; cx_key := key; cx_fingerprint := fingerprint |})
      | _, None => Err OrganizationUndefined
      end
  end.

(** What the handler does: an object and the status of the response, or an error. *)
Definition Outcome := option (list (string * json) * Z).

Inductive Response :=
| Answered (code : Z) (body : json)
| Replayed (code : Z) (body : option json)
| StillProcessing                       (* 408 *)
| Rejected (e : IdemError)
| ErrorAsValue.                         (* the handler's error, emitted as a value *)

Inductive Phase :=
| PCheck
| PReserve
| PReserveRead
| PReserveUpdate (existing : IdempotencyRecord)
| PHandler
| PStore (body : json) (code : Z)       (* answered; the record is not written yet *)
| PFailed                               (* the handler threw *)
| PDone (r : Response).

Definition replay (r : CheckedRecord) : Response :=
  match ck_status r with
  | IdempotencyStatus.PENDING => StillProcessing
  | _ => Replayed (match ck_responseStatusCode r with Some (0) | None => 200 | Some c => c end) (ck_responseBody r)
  end.

(** One statement of a request. *)
Definition step_request (id : string) (now : Z) (out : Outcome) (c : Ctx) (ph : Phase) (db : IdemDb)
    : Phase * IdemDb :=
  let org := cx_organizationId c in
  let key := cx_key c in
  match ph with
  | PCheck =>
      match check org key (cx_fingerprint c) db with
      | Err e => (PDone (Rejected e), db)
      | Ok None => (PReserve, db)
      | Ok (Some r) => (PDone (replay r), db)
      end
  | PReserve =>
      match reserve_create org key (cx_fingerprint c) id now db with
      | Ok db => (PHandler, db)
      | Err UniqueViolation => (PReserveRead, db)
      | Err e => (PDone (Rejected e), db)
      end
  | PReserveRead =>
      match reserve_read org key (cx_fingerprint c) db with
      | Err e => (PDone (Rejected e), db)
      | Ok None => (PHandler, db)
      | Ok (Some r) => (PReserveUpdate r, db)
      end
  | PReserveUpdate r =>
      match reserve_update r now db with
      | Err e => (PDone (Rejected e), db)
      | Ok db => (PHandler, db)
      end
  | PHandler =>
      match out with
      | Some (body, code) => (PStore (JObj body) (if code =? 0 then 201 else code), db)
      | None => (PFailed, db)
      end
  | PStore body code => (PDone (Answered code body), success org key body code now db)
  | PFailed => (PDone ErrorAsValue, failure org key now db)
  | PDone r => (ph, db)
  end.
End service.
