(* ===== verification/IdempotencyFacts.v ===== *)
(** * What idempotent requests guarantee

    A key is bound to one request; a completed request is replayed; what is
    stored holds no sensitive property; and where the guarantee stops: requests
    that check before either reserves, failed and cancelled operations, and
    requests without an organization. *)

From S2P Require Import Prelude JsData Schema Canonical Idempotency.
From Stdlib Require Import Ascii.

Local Open Scope string_scope.
Local Open Scope Z_scope.
#[local] Arguments String.append !_ _ : simpl nomatch.

(** ** Interleaved requests *)

(** Why a record was removed: the sweep at an instant, or its organization. *)
Inductive Removal := Swept (now : Z) | WithOrganization (id : string).

(** The rows, the requests under way, the requests whose handler ran, and the
    records removed so far, as they were read when they were deleted. *)
Record IdemSys := {
  db : IdemDb;
  requests : list (Ctx * Phase);
  ran : list Ctx;
  removed : list (IdempotencyRecord * Removal);
}.

Section facts.
Context (sha256 : string -> string) (jsonb : json -> json) (ttl : Z).

Abbreviation step_request := (step_request jsonb ttl).

(** The handler runs between its phase and the next. *)
Definition runs (c : Ctx) (ph : Phase) : list Ctx := match ph with PHandler => [c] | _ => [] end.

Definition removing (p : IdempotencyRecord -> bool) (why : Removal) (d : IdemDb)
    : list (IdempotencyRecord * Removal) :=
  (fun r => (r, why)) <$> List.filter p (records d).

(** A request arrives; one of them takes a step, with a fresh row identifier; an
    operation is cancelled; an organization is added; the sweep deletes a batch
    of rows it selected, whose expiry no statement changes; an organization is
    deleted with its records. *)
Inductive idem_step (days : Z) : IdemSys -> IdemSys -> Prop :=
| idem_arrive d rs l g rq c :
    begin_request sha256 rq = Ok (Some c) ->
    idem_step days {| db := d; requests := rs; ran := l; removed := g |}
                   {| db := d; requests := (c, PCheck) :: rs; ran := l; removed := g |}
| idem_advance d rs1 c ph rs2 l g id now out ph' d' :
    id ∉ ir_id <$> records d -> step_request id now out c ph d = (ph', d') ->
    idem_step days {| db := d; requests := rs1 ++ (c, ph) :: rs2; ran := l; removed := g |}
                   {| db := d'; requests := rs1 ++ (c, ph') :: rs2; ran := runs c ph ++ l; removed := g |}
| idem_cancel d rs l g existing reason now d' :
    cancel_update existing reason now d = Ok d' ->
    idem_step days {| db := d; requests := rs; ran := l; removed := g |}
                   {| db := d'; requests := rs; ran := l; removed := g |}
| idem_organization d rs l g org :
    idem_step days {| db := d; requests := rs; ran := l; removed := g |}
              {| db := {| records := records d; organizations := org :: organizations d |};
                 requests := rs; ran := l; removed := g |}
| idem_sweep d rs l g now ids :
    Forall (fun r => eligible (cutoffFor days now) r = true) (List.filter (with_id_in ids) (records d)) ->
    idem_step days {| db := d; requests := rs; ran := l; removed := g |}
              {| db := sweep_batch ids d; requests := rs; ran := l;
                 removed := removing (with_id_in ids) (Swept now) d ++ g |}
| idem_delete d rs l g org :
    idem_step days {| db := d; requests := rs; ran := l; removed := g |}
              {| db := delete_with_organization org d; requests := rs; ran := l;
                 removed := removing (idempotency_of org) (WithOrganization org) d ++ g |}.

Definition idem_init (orgs : list string) : IdemSys :=
  {| db := {| records := []; organizations := orgs |}; requests := []; ran := []; removed := [] |}.

(** A record reserves a request. *)
Definition reserves (r : IdempotencyRecord) (c : Ctx) : Prop :=
  record_key r = (cx_organizationId c, cx_key c) /\ ir_requestFingerprint r = cx_fingerprint c.

(** A record of the request's key was removed. *)
Definition lost (g : list (IdempotencyRecord * Removal)) (c : Ctx) : Prop :=
  exists rw, rw ∈ g /\ record_key rw.1 = (cx_organizationId c, cx_key c).

Definition reserved (d : IdemDb) g (c : Ctx) : Prop := (exists r, r ∈ records d /\ reserves r c) \/ lost g c.
Definition key_taken (d : IdemDb) g (c : Ctx) : Prop :=
  (cx_organizationId c, cx_key c) ∈ record_key <$> records d \/ lost g c.

(** Why a record may be removed. *)
Definition justified (days : Z) (rw : IdempotencyRecord * Removal) : Prop :=
  match rw.2 with
  | Swept now => ir_expiresAt rw.1 < cutoffFor days now
  | WithOrganization id => ir_organizationId rw.1 = id
  end.

(** What the phase of a request says about the table. *)
Definition phase_ok (d : IdemDb) g (c : Ctx) (ph : Phase) : Prop :=
  match ph with
  | PCheck | PReserve | PDone _ => True
  | PReserveRead => key_taken d g c
  | PReserveUpdate _ | PHandler | PStore _ _ | PFailed => reserved d g c
  end.

Record idem_inv (days : Z) (s : IdemSys) : Prop := {
  ii_keys : NoDup (record_key <$> records (db s));
  ii_requests : Forall (fun cp => phase_ok (db s) (removed s) cp.1 cp.2) (requests s);
  ii_ran : Forall (reserved (db s) (removed s)) (ran s);
  ii_removed : Forall (justified days) (removed s);
}.

(** No update changes what a record reserves, and a record that goes is noted. *)
Definition keeps_reservations (d : IdemDb) g (d' : IdemDb) g' : Prop :=
  (forall c, reserved d g c -> reserved d' g' c) /\ (forall c, key_taken d g c -> key_taken d' g' c) /\
  (NoDup (record_key <$> records d) -> NoDup (record_key <$> records d')).

Lemma keeps_refl d g : keeps_reservations d g d g.
Proof. by repeat split. Qed.
#[local] Hint Resolve keeps_refl : core.

Lemma keeps_update w f d g :
  (forall r, record_key (f r) = record_key r /\ ir_requestFingerprint (f r) = ir_requestFingerprint r) ->
  keeps_reservations d g (with_records (update_where w f (records d)) d) g.
Proof.
  intros Hf. assert (record_key <$> update_where w f (records d) = record_key <$> records d) as Hk
    by (apply update_where_keys; intros r; apply Hf).
  split; [|split; unfold key_taken; cbn; by rewrite Hk]. intros c [(r & Hr & Hk1 & Hf1)|Hl]; [left|by right].
  exists (if w r then f r else r). split; [apply elem_of_update_where; by exists r|].
  unfold reserves. destruct (w r); [|done]. destruct (Hf r) as [-> ->]. done.
Qed.

Lemma lost_app g g' c : lost (g ++ g') c <-> lost g c \/ lost g' c.
Proof. unfold lost. setoid_rewrite elem_of_app. naive_solver. Qed.

Lemma keeps_removing p why d g :
  keeps_reservations d g (with_records (delete_where p (records d)) d) (removing p why d ++ g).
Proof.
  assert (forall r c, r ∈ records d -> record_key r = (cx_organizationId c, cx_key c) ->
    r ∈ delete_where p (records d) \/ lost (removing p why d) c) as Hgo.
  { intros r c Hr Hk. rewrite elem_of_delete_where. destruct (p r) eqn:Hp; [right|by left].
    exists (r, why). split; [|done]. apply list_elem_of_fmap. exists r. by rewrite elem_of_filter_bool. }
  split; [|split].
  - intros c [(r & Hr & Hk & Hf)|Hl]; [|right; apply lost_app; by right].
    destruct (Hgo r c Hr Hk); [left; by exists r|right; apply lost_app; by left].
  - intros c [(r & Hk & Hr)%list_elem_of_fmap|Hl]; [|right; apply lost_app; by right].
    destruct (Hgo r c Hr (eq_sym Hk)); [left; apply list_elem_of_fmap; by exists r|right; apply lost_app; by left].
  - apply NoDup_fmap_filter.
Qed.

Lemma reserve_create_keeps c id now d d' g :
  reserve_create ttl (cx_organizationId c) (cx_key c) (cx_fingerprint c) id now d = Ok d' ->
  keeps_reservations d g d' g /\ reserved d' g c.
Proof.
  unfold reserve_create. intros H. run_result. reflect_hyps.
  match goal with |- context [ (_ ++ [?x])%list ] => set (r := x) in * end. split.
  - split; [|split; cbn].
    + intros c0 [(r0 & Hr0 & Hres)|Hl]; [left|by right]. exists r0. split; [|done]. cbn. set_solver.
    + intros c0. unfold key_taken. cbn. rewrite fmap_app. set_solver.
    + intros Hnd. by apply NoDup_fmap_snoc.
  - left. exists r. split; [cbn; set_solver|done].
Qed.

Lemma find_record_elem org key d r :
  find_record org key d = Some r -> r ∈ records d /\ record_key r = (org, key).
Proof.
  intros [Hr [H1%String.eqb_eq H2%String.eqb_eq]%andb_true_iff]%find_where_Some. unfold record_key. by subst.
Qed.

Lemma find_record_None org key d :
  find_record org key d = None <-> (org, key) ∉ record_key <$> records d.
Proof.
  unfold find_record. rewrite find_where_None, Forall_forall, list_elem_of_fmap. unfold has_key. split.
  - intros H (r & [= -> ->] & Hr). specialize (H r Hr). by rewrite !String.eqb_refl in H.
  - intros H r Hr. apply andb_false_iff. destruct (String.eqb_spec (ir_organizationId r) org) as [<-|]; [right|by left].
    apply String.eqb_neq. intros <-. apply H. by exists r.
Qed.

Lemma step_request_keeps id now out c ph d g ph' d' :
  id ∉ ir_id <$> records d -> phase_ok d g c ph -> step_request id now out c ph d = (ph', d') ->
  keeps_reservations d g d' g /\ phase_ok d' g c ph'.
Proof.
  intros Hid Hok H. destruct ph as [| | |r| |body code| |r]; cbn in H.
  - destruct (check _ _ _ _ _) as [[r|]|e]; by injection H as <- <-.
  - destruct (reserve_create _ _ _ _ _ _ _) as [d1|e] eqn:Hr.
    + injection H as <- <-. by apply (reserve_create_keeps _ id now).
    + destruct e; injection H as <- <-; try done. split; [done|]. cbn. left.
      unfold reserve_create in Hr. rewrite (bool_decide_eq_false_2 (id ∈ ir_id <$> records d)) in Hr by exact Hid.
      destruct (bool_decide_reflect ((cx_organizationId c, cx_key c) ∈ record_key <$> records d)); [done|].
      cbn in Hr. by destruct (negb _).
  - unfold reserve_read in H. destruct (find_record _ _ _) as [r|] eqn:Hf; cbn in H.
    + destruct (String.eqb_spec (ir_requestFingerprint r) (cx_fingerprint c)); cbn in H; injection H as <- <-; [|done].
      split; [done|]. left. exists r. by apply find_record_elem in Hf as [Hr Hk].
    + apply find_record_None in Hf. injection H as <- <-. split; [done|]. right. by destruct Hok.
  - unfold reserve_update in H. destruct (_ =? _)%nat; cbn in H; injection H as <- <-; [done|].
    assert (keeps_reservations d g (with_records (update_where (fun x => String.eqb (ir_id x) (ir_id r))
      (set_attempts (ir_attemptCount r + 1) now) (records d)) d) g) as Hk by (by apply keeps_update).
    split; [done|]. by apply Hk.
  - destruct out as [[b code]|]; by injection H as <- <-.
  - injection H as <- <-. split; [by apply keeps_update|done].
  - injection H as <- <-. split; [by apply keeps_update|done].
  - by injection H as <- <-.
Qed.

Lemma phase_ok_keeps d g d' g' c ph : keeps_reservations d g d' g' -> phase_ok d g c ph -> phase_ok d' g' c ph.
Proof. intros (H1 & H2 & _). destruct ph; cbn; auto. Qed.

Lemma idem_inv_keeps days d g d' g' rs l :
  keeps_reservations d g d' g' -> Forall (justified days) g' ->
  idem_inv days {| db := d; requests := rs; ran := l; removed := g |} ->
  idem_inv days {| db := d'; requests := rs; ran := l; removed := g' |}.
Proof.
  intros Hk Hg [H1 H2 H3 H4]. split; cbn in *; [by apply Hk| | |done].
  - eapply Forall_impl; [exact H2|]. intros cp. by apply phase_ok_keeps.
  - eapply Forall_impl; [exact H3|]. apply Hk.
Qed.

Lemma removing_justified days p why d g :
  Forall (fun r => justified days (r, why)) (List.filter p (records d)) -> Forall (justified days) g ->
  Forall (justified days) (removing p why d ++ g).
Proof. intros H Hg. apply Forall_app. split; [|done]. by apply Forall_fmap. Qed.

Lemma idem_advance_inv days d rs1 c ph rs2 l g id now out ph' d' :
  id ∉ ir_id <$> records d -> step_request id now out c ph d = (ph', d') ->
  idem_inv days {| db := d; requests := rs1 ++ (c, ph) :: rs2; ran := l; removed := g |} ->
  idem_inv days {| db := d'; requests := rs1 ++ (c, ph') :: rs2; ran := runs c ph ++ l; removed := g |}.
Proof.
  intros Hid Hst [H1 H2 H3 H4]. cbn in *. rewrite Forall_app, Forall_cons in H2. destruct H2 as (Ha & Hph & Hb).
  destruct (step_request_keeps _ _ _ _ _ _ _ _ _ Hid Hph Hst) as [Hk Hph'].
  assert (Forall (reserved d g) (runs c ph ++ l)%list) as Hran
    by (apply Forall_app; split; [destruct ph; try apply Forall_nil_2; by apply Forall_singleton|done]).
  split; cbn; [by apply Hk| |eapply Forall_impl; [exact Hran|apply Hk]|done].
  rewrite Forall_app, Forall_cons. split_and!; [|done|]; (eapply Forall_impl; [eassumption|]);
    intros cp; by apply phase_ok_keeps.
Qed.

Lemma idem_step_inv days s s' : idem_step days s s' -> idem_inv days s -> idem_inv days s'.
Proof.
  intros Hs Hinv. pose proof (ii_removed _ _ Hinv) as Hg. destruct Hs as [| |? ? ? ? ? ? ? ? Hc|? ? ? ? org|? ? ? ? now ids He|? ? ? ? org].
  - destruct Hinv as [H1 H2 H3 H4]. split; cbn in *; [done| |done..]. by constructor.
  - eauto using idem_advance_inv.
  - eapply idem_inv_keeps; [|done..]. unfold cancel_update in Hc. run_result. by apply keeps_update.
  - eapply idem_inv_keeps; [|done..]. by repeat split.
  - eapply idem_inv_keeps; [apply keeps_removing|apply removing_justified; [|done]|done].
    eapply Forall_impl; [exact He|]. intros r Hr. by apply Z.ltb_lt.
  - eapply idem_inv_keeps; [apply keeps_removing|apply removing_justified; [|done]|done].
    apply Forall_forall. intros r [_ Hr]%elem_of_filter_bool. by apply bool_decide_eq_true in Hr.
Qed.

Lemma idem_reachable_inv days orgs s : rtc (idem_step days) (idem_init orgs) s -> idem_inv days s.
Proof.
  intros H. eapply (rtc_invariant (idem_step days) (idem_inv days)); [|exact H|]; [eauto using idem_step_inv|].
  split; cbn; [apply NoDup_nil_2|constructor..].
Qed.

Definition fingerprint_text (rq : Request) : string :=
  json_text (fingerprint_value (rq_method rq) (rq_path rq) (rq_body rq)).

Lemma begin_request_fingerprint rq c :
  begin_request sha256 rq = Ok (Some c) -> cx_fingerprint c = sha256 (fingerprint_text rq).
Proof.
  unfold begin_request. destruct (rq_key rq) as [[|a key]|]; [by destruct (rq_required rq)| |by destruct (rq_required rq)].
  intros (u & _ & H)%bind_Ok. destruct (rq_organizationId rq) as [[|x org]|], (rq_user rq); by simplify_eq/=.
Qed.

Lemma fingerprint_text_inj rq rq' :
  printable (rq_body rq) = true -> printable (rq_body rq') = true -> fingerprint_text rq = fingerprint_text rq' ->
  rq_method rq = rq_method rq' /\ rq_path rq = rq_path rq' /\ rq_body rq = rq_body rq'.
Proof.
  intros Hb Hb' E. apply json_text_inj in E as [= H1 H2 H3]; [done|cbn; by rewrite ?Hb, ?Hb'..].
Qed.

Lemma reserved_once d g c c' :
  NoDup (record_key <$> records d) -> reserved d g c -> reserved d g c' ->
  cx_organizationId c = cx_organizationId c' -> cx_key c = cx_key c' ->
  cx_fingerprint c = cx_fingerprint c' \/ lost g c.
Proof.
  intros Hnd [(r & Hr & Hk & Hf)|] Hc' Ho Hkey; [|by right].
  destruct Hc' as [(r' & Hr' & Hk' & Hf')|Hl]; [left|right; unfold lost in *; by rewrite Ho, Hkey].
  rewrite <- Hf, <- Hf'. f_equal. apply (key_unique record_key (records d)); [done..|]. congruence.
Qed.

(** C12: however requests, cancellations, retention sweeps and deletions of
    organizations interleave, a key runs one request for as long as its record
    is kept: if the handler ran for two requests of an organization under the
    same key, they have the same method, path and body, or the digest collides
    on the texts of these two requests, or a record of that very key was removed
    in the run, which happens only once it has been expired for longer than the
    retention period or with its organization. *)
Theorem idempotency_key_binds_request days orgs s rq rq' c c' :
  rtc (idem_step days) (idem_init orgs) s -> c ∈ ran s -> c' ∈ ran s ->
  begin_request sha256 rq = Ok (Some c) -> begin_request sha256 rq' = Ok (Some c') ->
  printable (rq_body rq) = true -> printable (rq_body rq') = true ->
  cx_organizationId c = cx_organizationId c' -> cx_key c = cx_key c' ->
  (rq_method rq = rq_method rq' /\ rq_path rq = rq_path rq' /\ rq_body rq = rq_body rq') \/
  (fingerprint_text rq <> fingerprint_text rq' /\ sha256 (fingerprint_text rq) = sha256 (fingerprint_text rq')) \/
  (exists rw, rw ∈ removed s /\ record_key rw.1 = (cx_organizationId c, cx_key c) /\ justified days rw).
Proof.
  intros [H1 _ H3 H4]%idem_reachable_inv Hc Hc' Hb Hb' Hp Hp' Ho Hk. rewrite Forall_forall in H3. rewrite Forall_forall in H4.
  destruct (reserved_once _ _ _ _ H1 (H3 c Hc) (H3 c' Hc') Ho Hk) as [Hf|(rw & Hrw & Hkey)]; [|right; right; exists rw; eauto].
  rewrite (begin_request_fingerprint _ _ Hb), (begin_request_fingerprint _ _ Hb') in Hf.
  destruct (decide (fingerprint_text rq = fingerprint_text rq')); [left; by apply fingerprint_text_inj|by right; left].
Qed.

(** ** Replays *)

Lemma find_record_update w f org key d :
  (forall r, record_key (f r) = record_key r) ->
  find_record org key (with_records (update_where w f (records d)) d) =
  (fun r => if w r then f r else r) <$> find_record org key d.
Proof.
  intros Hf. apply find_where_update. intros r. specialize (Hf r). unfold has_key. by injection Hf as -> ->.
Qed.

Lemma find_record_key org key d r : find_record org key d = Some r -> has_key org key r = true.
Proof. by intros [_ H]%find_where_Some. Qed.

(** once a handler's response is stored, a repetition of the request gets
    the stored response, without its sensitive properties and with its status,
    and neither runs the handler nor changes the table; a different request
    under the key is refused with a conflict. *)
Theorem completed_request_replays c c' d body code now now' r out out' id id' :
  validateKey (cx_key c) = Ok tt -> find_record (cx_organizationId c) (cx_key c) d = Some r ->
  ir_requestFingerprint r = cx_fingerprint c -> 0 < code ->
  cx_organizationId c' = cx_organizationId c -> cx_key c' = cx_key c ->
  let d' := (step_request id now out c (PStore body code) d).2 in
  step_request id' now' out' c' PCheck d' =
  (if decide (cx_fingerprint c' = cx_fingerprint c)
   then PDone (Replayed code (Some (jsonb (stripSensitiveFields body))))
   else PDone (Rejected PayloadConflict), d').
Proof.
  intros Hv Hf Hfp Hcode Ho Hk d'. cbn -[success]. unfold check. rewrite Ho, Hk, Hv. cbn -[success].
  unfold d'. cbn -[success]. unfold success. rewrite find_record_update, Hf by done. cbn.
  rewrite (find_record_key _ _ _ _ Hf). cbn. rewrite Hfp.
  destruct (String.eqb_spec (cx_fingerprint c) (cx_fingerprint c')) as [E|E]; case_decide; try congruence; cbn; [|done].
  unfold replay. cbn. by destruct code.
Qed.

(** ** Where the guarantee stops *)

(** two requests with the same key that both look the key up before either
    reserves it both run their handler, one after its insert was refused. *)
Theorem concurrent_requests_run_twice c d id id' now now' out :
  validateKey (cx_key c) = Ok tt -> find_record (cx_organizationId c) (cx_key c) d = None ->
  cx_organizationId c ∈ organizations d -> id ∉ ir_id <$> records d ->
  exists d1 d2 r,
    step_request id now out c PCheck d = (PReserve, d) /\
    step_request id now out c PReserve d = (PHandler, d1) /\
    step_request id' now' out c PReserve d1 = (PReserveRead, d1) /\
    step_request id' now' out c PReserveRead d1 = (PReserveUpdate r, d1) /\
    step_request id' now' out c (PReserveUpdate r) d1 = (PHandler, d2).
Proof.
  clear sha256. intros Hv Hf Ho Hid. unfold step_request. cbn. unfold check. rewrite Hv. cbn. rewrite Hf.
  pose proof (proj1 (find_record_None _ _ _) Hf) as Hk. unfold reserve_create.
  rewrite (bool_decide_eq_false_2 _ Hid), (bool_decide_eq_false_2 _ Hk), (bool_decide_eq_true_2 _ Ho). cbn.
  set (r := {| ir_id := id; ir_organizationId := cx_organizationId c |}).
  set (d1 := with_records (records d ++ [r])%list d).
  assert (find_record (cx_organizationId c) (cx_key c) d1 = Some r) as Hr.
  { unfold find_record, d1. cbn. rewrite find_where_app. fold (find_record (cx_organizationId c) (cx_key c) d).
    rewrite Hf. cbn. unfold has_key. cbn. by rewrite !String.eqb_refl. }
  assert ((cx_organizationId c, cx_key c) ∈ record_key <$> records d1) as Hin
    by (cbn; rewrite fmap_app; set_solver).
  exists d1. eexists. exists r. split; [done|]. split; [done|].
  rewrite (bool_decide_eq_true_2 _ Hin), orb_true_r. cbn. split; [done|].
  unfold reserve_read. rewrite Hr. cbn. rewrite String.eqb_refl. cbn. split; [done|].
  unfold reserve_update. destruct (Nat.eqb_spec (count_where (fun x => String.eqb (ir_id x) (ir_id r)) (records d1)) 0)
    as [Hz|]; cbn; [|done]. exfalso. revert Hz. cbn. unfold count_where. rewrite List.filter_app, length_app. cbn.
  rewrite String.eqb_refl. cbn. lia.
Qed.

(** the error of a handler is not raised to the client but emitted as a
    value, and every repetition of the request is answered with status 200 and
    an empty body, without running the handler. *)
Theorem failed_request_replays_as_success c d r out id now id' now' out' :
  validateKey (cx_key c) = Ok tt -> find_record (cx_organizationId c) (cx_key c) d = Some r ->
  ir_requestFingerprint r = cx_fingerprint c -> ir_responseBody r = None -> ir_responseStatusCode r = None ->
  out = None ->
  exists d1,
    step_request id now out c PHandler d = (PFailed, d) /\
    step_request id now out c PFailed d = (PDone ErrorAsValue, d1) /\
    step_request id' now' out' c PCheck d1 = (PDone (Replayed 200 None), d1).
Proof.
  intros Hv Hf Hfp Hb Hc ->. eexists. split; [done|]. split; [done|]. cbn -[failure]. unfold check. rewrite Hv.
  cbn -[failure]. unfold failure. rewrite find_record_update, Hf by done. cbn.
  rewrite (find_record_key _ _ _ _ Hf). cbn. rewrite Hfp, String.eqb_refl. cbn. unfold replay. cbn.
  by rewrite Hb, Hc.
Qed.

(** a cancellation does not stop a request that holds the key: its response is
    stored over it. *)
Theorem cancelled_request_completes c d r reason now d1 body code id now' out :
  find_record (cx_organizationId c) (cx_key c) d = Some r ->
  cancel_read (cx_organizationId c) (cx_key c) d = Ok r -> cancel_update r reason now d = Ok d1 ->
  exists q, find_record (cx_organizationId c) (cx_key c) (step_request id now' out c (PStore body code) d1).2 = Some q /\
    ir_status q = IdempotencyStatus.COMPLETED.
Proof.
  intros Hf _ Hc. unfold cancel_update in Hc. run_result. cbn -[success]. unfold success.
  rewrite find_record_update by done. rewrite find_record_update, Hf by done. cbn. rewrite String.eqb_refl.
  eexists. split; [done|]. cbn. unfold has_key. cbn. pose proof (find_record_key _ _ _ _ Hf) as Hk.
  unfold has_key in Hk. by rewrite Hk.
Qed.

(** ** Requests without an organization *)

Definition no_organization (rq : Request) : bool :=
  match rq_organizationId rq with Some (String _ _) => false | _ => true end.

Lemma begin_placeholder rq c :
  no_organization rq = true -> begin_request sha256 rq = Ok (Some c) ->
  cx_organizationId c = PLACEHOLDER /\ rq_key rq = Some (cx_key c) /\ validateKey (cx_key c) = Ok tt.
Proof.
  unfold no_organization, begin_request. destruct (rq_key rq) as [[|a key]|];
    [by destruct (rq_required rq)| |by destruct (rq_required rq)].
  intros Hn ([] & Hv & H)%bind_Ok. destruct (rq_organizationId rq) as [[|x org]|], (rq_user rq); by simplify_eq/=.
Qed.

(** nothing sets the organization of a request, and requests without one
    share a placeholder.  If it names no organization, a request with a new key
    is refused by the foreign key before its handler runs; if it names one, the
    stored response of a request is the answer to any other user's request with
    the same key, method, path and body. *)
Theorem placeholder_organization_shared rq rq' c c' d id now out r :
  no_organization rq = true -> no_organization rq' = true ->
  begin_request sha256 rq = Ok (Some c) -> begin_request sha256 rq' = Ok (Some c') ->
  (PLACEHOLDER ∉ organizations d -> find_record PLACEHOLDER (cx_key c) d = None -> id ∉ ir_id <$> records d ->
   step_request id now out c PCheck d = (PReserve, d) /\
   step_request id now out c PReserve d = (PDone (Rejected ForeignKeyViolation), d)) /\
  (find_record PLACEHOLDER (cx_key c) d = Some r -> reserves r c -> ir_status r = IdempotencyStatus.COMPLETED ->
   rq_key rq' = rq_key rq -> rq_method rq' = rq_method rq -> rq_path rq' = rq_path rq -> rq_body rq' = rq_body rq ->
   exists code, step_request id now out c' PCheck d = (PDone (Replayed code (jsonb <$> ir_responseBody r)), d)).
Proof.
  intros Hn Hn' Hb Hb'. destruct (begin_placeholder _ _ Hn Hb) as (Ho & Hk & Hv).
  destruct (begin_placeholder _ _ Hn' Hb') as (Ho' & Hk' & Hv'). split.
  - intros Horg Hf Hid. cbn. unfold check. rewrite Hv, Ho. cbn. rewrite Hf. split; [done|].
    unfold reserve_create. apply find_record_None in Hf.
    by rewrite (bool_decide_eq_false_2 _ Hid), (bool_decide_eq_false_2 _ Hf), (bool_decide_eq_false_2 _ Horg).
  - intros Hf [_ Hfp] Hst Ek Em Ep Eb. assert (cx_key c' = cx_key c) as Hkk by congruence.
    assert (cx_fingerprint c' = cx_fingerprint c) as Hff.
    { rewrite (begin_request_fingerprint _ _ Hb), (begin_request_fingerprint _ _ Hb'). unfold fingerprint_text; congruence. }
    cbn. unfold check. rewrite Hkk, Hff, Ho', Hv. cbn. rewrite Hf, Hfp, String.eqb_refl. cbn.
    unfold replay. cbn. rewrite Hst. by eexists.
Qed.
End facts.

(** ** Stored responses *)

(** No property at any depth has a sensitive name. *)
Fixpoint clean (v : json) : bool :=
  match v with
  | JArr l => forallb clean l
  | JObj kvs => forallb (fun kv => negb (isSensitive kv.1) && clean kv.2) kvs
  | _ => true
  end.

Lemma map_keys (f : json -> json) (kvs : list (string * json)) : (List.map (fun kv => (kv.1, f kv.2)) kvs).*1 = kvs.*1.
Proof. induction kvs as [|kv kvs IH]; [done|]. cbn. by rewrite IH. Qed.

(** what is stored of a response holds no property with a sensitive name at
    any depth, and a response of plain data without such names is stored as it
    is, up to the order of properties. *)
Theorem stored_response_clean v :
  clean (stripSensitiveFields v) = true /\
  (plain v = true -> clean v = true -> reorder v (stripSensitiveFields v)).
Proof.
  induction v as [|b|n| |s|l IH|kvs IH| |t] using json_ind; try (by split); cbn [stripSensitiveFields].
  - rewrite Forall_forall in IH. split.
    + cbn. apply forallb_forall. intros x (y & <- & Hy)%in_map_iff. by apply IH, list_elem_of_In.
    + cbn. intros Hp Hc. rewrite forallb_forall in Hp, Hc. apply (reorder_arr_all l _) with (pre := []).
      apply Forall2_fmap_r, Forall_Forall2_diag, Forall_forall. intros x Hx.
      apply IH; [done|apply Hp|apply Hc]; by apply list_elem_of_In.
  - rewrite Forall_forall in IH. split.
    + cbn. apply forallb_forall. intros kv Hkv%list_elem_of_In%build_object_elem.
      apply elem_of_filter_bool in Hkv as [Hkv ->]. cbn.
      apply list_elem_of_In, in_map_iff in Hkv as (kv0 & <- & Hin). cbn. by apply IH, list_elem_of_In.
    + intros (Hnd & Hproto & Hp)%plain_obj Hc. cbn in Hc. rewrite forallb_forall in Hp, Hc.
      etrans; [apply (reorder_obj_all stripSensitiveFields kvs) with (pre := [])|].
      * apply Forall_forall. intros kv Hkv. pose proof Hkv as Hin%list_elem_of_In.
        destruct (proj1 (andb_true_iff _ _) (Hc kv Hin)) as [_ Hkc]. apply IH; auto.
      * cbn. rewrite filter_bool_all.
        -- apply reorder_perm; [by rewrite map_keys|]. symmetry. apply build_object_perm.
           apply forallb_forall. intros kv (kv0 & <- & Hin)%in_map_iff. cbn.
           rewrite forallb_forall in Hproto. by apply Hproto.
        -- apply Forall_forall. intros kv Hkv%list_elem_of_In%in_map_iff. destruct Hkv as (kv0 & <- & Hin). cbn.
           by destruct (proj1 (andb_true_iff _ _) (Hc kv0 Hin)).
Qed.

(** the reported status of an operation: found only under its own
    organization; expired exactly when its record has outlived its term, and
    otherwise the record's status; retryable exactly when terminal and not
    completed. *)
Theorem operation_status_report org key now d o :
  getOperationStatus org key now d = Ok o ->
  os_record o ∈ records d /\ record_key (os_record o) = (org, key) /\
  (os_status o = OpExpired <-> ir_expiresAt (os_record o) < now) /\
  (os_terminal o = false <-> os_status o = OpPending) /\
  (os_retryable o = true <-> os_terminal o = true /\ os_status o <> OpCompleted).
Proof.
  unfold getOperationStatus. intros (u & _ & H)%bind_Ok.
  destruct (find_record org key d) as [r|] eqn:Hf; [|done]. injection H as <-. cbn.
  apply find_record_elem in Hf as [Hr Hk]. split; [done|]. split; [done|].
  unfold operation_status. destruct (Z.ltb_spec (ir_expiresAt r) now) as [|Hle]; cbn.
  - by split_and!.
  - split; [destruct (ir_status r); (split; [done|lia])|].
    destruct (ir_status r); vm_compute; naive_solver.
Qed.

(** ** Witnesses *)

Definition demo_request (org user : option string) : Request :=
  {| rq_method := "POST"; rq_path := "/proofs/minimum-income"; rq_body := JObj [("thresholdAmount", JStr "10")];
     rq_key := Some "key-1"; rq_required := true; rq_organizationId := org; rq_user := user |}.
Definition demo_ctx (org : string) : Ctx :=
  {| cx_organizationId := org; cx_key := "key-1";
     cx_fingerprint := computeFingerprint id "POST" "/proofs/minimum-income" (JObj [("thresholdAmount", JStr "10")]) |}.
Definition demo_db (orgs : list string) : IdemDb := {| records := []; organizations := orgs |}.
Definition demo_outcome : Outcome := Some ([("id", JStr "p1"); ("token", JStr "t")], 201).

(** The table after the request's reservation, and after it is answered. *)
Definition demo_reserved (org : string) : IdemDb :=
  (step_request id 1000 "r1" 0 demo_outcome (demo_ctx org) PReserve (demo_db [org])).2.
Definition demo_body : json := JObj [("id", JStr "p1"); ("token", JStr "t")].
Definition demo_answered (org : string) : IdemDb :=
  (step_request id 1000 "r9" 5 demo_outcome (demo_ctx org) (PStore demo_body 201) (demo_reserved org)).2.
Definition demo_record (d : IdemDb) : IdempotencyRecord :=
  default {| ir_id := "none"; ir_organizationId := "none"; ir_idempotencyKey := "none"; ir_requestFingerprint := "none";
             ir_status := IdempotencyStatus.PENDING; ir_responseBody := None; ir_responseStatusCode := None;
             ir_expiresAt := 0; ir_attemptCount := 0; ir_cancellationReason := None; ir_updatedAt := 0 |}
    (head (records d)).

Lemma demo_idem_run :
  rtc (idem_step id id 1000 1) (idem_init ["org-1"])
    {| db := demo_reserved "org-1"; requests := [(demo_ctx "org-1", PStore demo_body 201)]; ran := [demo_ctx "org-1"];
       removed := [] |}.
Proof.
  apply (rtc_l _ _ {| db := demo_db ["org-1"]; requests := [(demo_ctx "org-1", PCheck)]; ran := []; removed := [] |}).
  { apply (idem_arrive _ _ _ _ _ _ _ _ (demo_request (Some "org-1") None)). by vm_compute. }
  apply (rtc_l _ _ {| db := demo_db ["org-1"]; requests := [(demo_ctx "org-1", PReserve)]; ran := []; removed := [] |}).
  { apply (idem_advance id id 1000 1 (demo_db ["org-1"]) [] _ PCheck [] [] [] "r0" 0 demo_outcome);
      [by intros ?%not_elem_of_nil|by vm_compute]. }
  apply (rtc_l _ _ {| db := demo_reserved "org-1"; requests := [(demo_ctx "org-1", PHandler)]; ran := []; removed := [] |}).
  { apply (idem_advance id id 1000 1 (demo_db ["org-1"]) [] _ PReserve [] [] [] "r1" 0 demo_outcome);
      [by intros ?%not_elem_of_nil|by vm_compute]. }
  apply rtc_once, (idem_advance id id 1000 1 (demo_reserved "org-1") [] _ PHandler [] [] [] "r2" 0 demo_outcome); [|by vm_compute].
  by apply (bool_decide_unpack _); vm_compute.
Qed.

Lemma idempotency_key_binds_request_witness :
  let rq := demo_request (Some "org-1") None in
  let rq' := demo_request (Some "org-1") (Some "bob") in
  (rq_method rq = rq_method rq' /\ rq_path rq = rq_path rq' /\ rq_body rq = rq_body rq') \/
  (fingerprint_text rq <> fingerprint_text rq' /\ id (fingerprint_text rq) = id (fingerprint_text rq')) \/
  (exists rw, rw ∈ [] /\ record_key rw.1 = ("org-1", "key-1") /\ justified 1 rw).
Proof.
  apply (idempotency_key_binds_request id id 1000 1 ["org-1"] _ _ _ (demo_ctx "org-1") (demo_ctx "org-1") demo_idem_run);
    [by left|by left|by vm_compute|by vm_compute|done..].
Defined.

Lemma completed_request_replays_witness :
  step_request id 1000 "r9" 9 None (demo_ctx "org-1") PCheck (demo_answered "org-1") =
    (PDone (Replayed 201 (Some (JObj [("id", JStr "p1")]))), demo_answered "org-1").
Proof.
  assert (find_record "org-1" "key-1" (demo_reserved "org-1") = Some (demo_record (demo_reserved "org-1"))) as Hf
    by (by vm_compute).
  exact (completed_request_replays id 1000 (demo_ctx "org-1") (demo_ctx "org-1") (demo_reserved "org-1") demo_body 201 5 9
    _ demo_outcome None "r9" "r9" eq_refl Hf eq_refl ltac:(lia) eq_refl eq_refl).
Defined.

Lemma concurrent_requests_run_twice_witness :
  exists d1 d2 r,
    step_request id 1000 "r2" 1 demo_outcome (demo_ctx "org-1") PReserveRead d1 = (PReserveUpdate r, d1) /\
    step_request id 1000 "r2" 1 demo_outcome (demo_ctx "org-1") (PReserveUpdate r) d1 = (PHandler, d2).
Proof.
  destruct (concurrent_requests_run_twice id 1000 (demo_ctx "org-1") (demo_db ["org-1"]) "r1" "r2" 0 1 demo_outcome)
    as (d1 & d2 & r & _ & _ & _ & H1 & H2);
    [reflexivity|reflexivity|by left|by intros ?%not_elem_of_nil|exists d1, d2, r; by split].
Defined.

Lemma failed_request_replays_as_success_witness :
  exists d1, step_request id 1000 "r9" 9 demo_outcome (demo_ctx "org-1") PCheck d1 = (PDone (Replayed 200 None), d1).
Proof.
  destruct (failed_request_replays_as_success id 1000 (demo_ctx "org-1") (demo_reserved "org-1")
    (demo_record (demo_reserved "org-1")) None "r9" 8 "r9" 9 demo_outcome) as (d1 & _ & _ & H);
    [by vm_compute..|exists d1; exact H].
Defined.

Lemma placeholder_organization_shared_witness :
  exists code, step_request id 1000 "r9" 9 None (demo_ctx PLACEHOLDER) PCheck (demo_answered PLACEHOLDER) =
    (PDone (Replayed code (Some (JObj [("id", JStr "p1")]))), demo_answered PLACEHOLDER).
Proof.
  apply (placeholder_organization_shared id id 1000 (demo_request None (Some "alice")) (demo_request None (Some "bob"))
    (demo_ctx PLACEHOLDER) (demo_ctx PLACEHOLDER) (demo_answered PLACEHOLDER) "r9" 9 None
    (demo_record (demo_answered PLACEHOLDER))); by vm_compute.
Defined.

Lemma operation_status_report_witness :
  exists o, getOperationStatus "org-1" "key-1" 500 (demo_answered "org-1") = Ok o /\
    (os_retryable o = true <-> os_terminal o = true /\ os_status o <> OpCompleted).
Proof.
  eexists. split; [vm_compute; reflexivity|].
  refine (proj2 (proj2 (proj2 (proj2 (operation_status_report "org-1" "key-1" 500 (demo_answered "org-1") _ _))))).
  vm_compute. reflexivity.
Defined.
