(* ===== verification/PaymentStore.v ===== *)
(** * Payment, source, issuer and asset tables

    The rows proof issuance reads: [Payment], [TrustedSource], [Issuer] with
    its organization's status, [SupportedAsset], [Attestation] and
    [ProofInvoiceSettlement] of [prisma/schema.prisma]. *)

From S2P Require Import Prelude JsData Schema.

Local Open Scope Z_scope.

Record Payment := {
  pay_id : string;
  pay_userId : string;
  pay_operationId : string;
  pay_sourceAddress : option string;            (* null once the address is encrypted *)
  pay_sourceAddressEncrypted : option string;
  pay_assetCode : string;
  pay_assetIssuer : option string;
  pay_amountEncrypted : option string;
  pay_classification : PaymentClassification.t;
  pay_isEligible : bool;
  pay_finalityHoldAt : option Z;
  pay_occurredAt : Z;
}.

Record TrustedSource := {
  ts_id : string;
  ts_userId : string;
  ts_sourceAddress : string;
  ts_status : ResourceStatus.t;
  ts_issuerId : option string;
}.

Record Issuer := {
  is_id : string;
  is_status : ResourceStatus.t;
  is_stellarAddress : string;
  is_organization : option ResourceStatus.t;    (* status of its organization *)
}.

Record SupportedAsset := {
  sa_id : string;
  sa_code : string;
  sa_issuer : option string;
  sa_network : string;
  sa_status : ResourceStatus.t;
}.

Record Attestation := {
  at_id : string;
  at_issuerId : string;
  at_subjectWalletHash : string;
  at_isPayment : bool;                          (* type = PAYMENT *)
  at_status : ResourceStatus.t;
  at_revokedAt : option Z;
  at_expiresAt : option Z;
  at_paymentReferenceHash : option string;
}.

Record Settlement := {
  st_proofId : string;
  st_paymentId : string;
  st_issuerId : string;
  st_invoiceReferenceHash : string;
}.

Record Db := {
  payments : list Payment;
  trustedSources : list TrustedSource;
  issuers : list Issuer;
  supportedAssets : list SupportedAsset;
  attestations : list Attestation;
  settlements : list Settlement;
}.

(** [new Set(l)], in insertion order. *)
Definition js_set (l : list string) : list string :=
  foldl (fun acc x => if bool_decide (x ∈ acc) then acc else acc ++ [x]) [] l.

Lemma js_set_spec l : NoDup (js_set l) /\ forall x, x ∈ js_set l <-> x ∈ l.
Proof.
  induction l as [|y l [Hnd Hin]] using rev_ind; [split; [constructor|done]|].
  unfold js_set in *. rewrite foldl_snoc. case_bool_decide as Hy; split; try done.
  - set_solver.
  - apply NoDup_app. split_and!; [done| |apply NoDup_singleton]. set_solver.
  - set_solver.
Qed.

Lemma js_set_perm l l' : l ≡ₚ l' -> js_set l ≡ₚ js_set l'.
Proof.
  intros Hp. destruct (js_set_spec l) as [N1 H1], (js_set_spec l') as [N2 H2].
  apply NoDup_Permutation; [done..|]. intros x. by rewrite H1, H2, Hp.
Qed.
