(* ===== verification/AggregateEarnings.v ===== *)
(** * Aggregate-earnings policy and calculator

    Model of [src/proofs/aggregate-earnings.policy.ts] and
    [src/proofs/aggregate-earnings.calculator.ts]: stroop amounts, the asset and
    period rules, the aggregation itself and the selection of a user's rows. *)

From S2P Require Import Prelude JsData DecimalText Calendar Schema Canonical PaymentStore.
From Stdlib Require Import Ascii.

Local Open Scope Z_scope.
#[local] Arguments String.append !_ _ : simpl nomatch.

Definition AGGREGATE_EARNINGS_POLICY_VERSION : string := "earnproof.aggregate-earnings.policy.v1".

Inductive SourceScope := income | trusted_sources | verified_issuers.

Inductive RoundingIncrement := inc_0_0000001 | inc_0_01 | inc_1 | inc_10 | inc_100 | inc_1000.

Definition increment_text (i : RoundingIncrement) : string :=
  match i with
  | inc_0_0000001 => "0.0000001" | inc_0_01 => "0.01" | inc_1 => "1" | inc_10 => "10"
  | inc_100 => "100" | inc_1000 => "1000"
  end.

Definition MIN_COMPONENT_PAYMENTS : Z := 2.
Definition MAX_COMPONENT_PAYMENTS : Z := 500.
Definition MAX_PERIOD_DAYS : Z := 366.
Definition STROOPS_PER_UNIT : Z := 10000000.

Inductive AggregationRejection :=
| invalid_period | future_period | period_too_long | cross_asset_unsupported
| invalid_source | insufficient_payments | limit_exceeded | amount_unavailable
| below_rounding_increment.

Record AssetRef := { code : string; issuer : option string }.
#[export] Instance AssetRef_eq_dec : EqDecision AssetRef.
Proof. solve_decision. Defined.

Record AggregationPeriod := { p_start : Z; p_end : Z }.

Record AggregationComponent := {
  operationId : string;
  amount : option string;
  occurredAt : Z;
  assetCode : string;
  assetIssuer : option string;
}.

Record AggregationResult := {
  disclosedAmount : string;
  paymentCount : Z;
  canonicalComponents : list (string * string);
}.

(** ** Asset *)

Definition asset_key (a : AssetRef) : string :=
  String.append (code a) (String ":"%char (default "native"%string (issuer a))).

(** The loop over the requested assets. *)
Definition distinct_assets (assets : list AssetRef) : list (string * AssetRef) :=
  foldl (fun m a => JsMap.set (asset_key a) a m) [] assets.

(** [CONVERSION_POLICIES] is the empty set, so no policy unlocks several assets. *)
Definition resolveAsset (assets : list AssetRef) (conversionPolicy : option string)
    : result AggregationRejection AssetRef :=
  let distinct := distinct_assets assets in
  match distinct with
  | [] => Err cross_asset_unsupported
  | (_, a) :: rest =>
      if (1 <? length distinct)%nat then Err cross_asset_unsupported else Ok a
  end.

(** ** Period *)

(** The arguments are [new Date(periodStart)] and [new Date(periodEnd)]. *)
Definition resolvePeriod (start end_ : JsDate) (now : Z)
    : result AggregationRejection AggregationPeriod :=
  match start, end_ with
  | Some s, Some e =>
      if e <=? s then Err invalid_period
      else if e >? now then Err future_period
      else if e - s >? MAX_PERIOD_DAYS * DAY_MS then Err period_too_long
      else Ok {| p_start := s; p_end := e |}
  | _, _ => Err invalid_period
  end.

(** ** Amounts *)

(** [/^(\d{1,19})(?:\.(\d{1,7}))?$/] *)
Definition parseStroops (text : string) : option Z :=
  let '(whole, rest) := span_digits text in
  if (1 <=? String.length whole)%nat && (String.length whole <=? 19)%nat then
    match rest with
    | EmptyString =>
        Some (dec_value whole * STROOPS_PER_UNIT + dec_value (pad_end 7 "0"%char EmptyString))
    | String c fraction =>
        if Ascii.eqb c "."%char && all_digits fraction &&
           (1 <=? String.length fraction)%nat && (String.length fraction <=? 7)%nat
        then Some (dec_value whole * STROOPS_PER_UNIT + dec_value (pad_end 7 "0"%char fraction))
        else None
    end
  else None.

Definition formatStroops (stroops : Z) : string :=
  let whole := stroops / STROOPS_PER_UNIT in
  let fraction := pad_start 7 "0"%char (dec_string (stroops mod STROOPS_PER_UNIT)) in
  String.append (dec_string whole) (String "."%char fraction).

Definition increment_step (i : RoundingIncrement) : Z :=
  default 0 (parseStroops (increment_text i)).

Definition floorToIncrement (total : Z) (increment : RoundingIncrement) : Z :=
  (total / increment_step increment) * increment_step increment.

(** ** Aggregation *)

Record rules := {
  r_asset : AssetRef;
  r_period : AggregationPeriod;
  r_increment : RoundingIncrement;
}.

(** The [continue] tests of the first loop. *)
Definition in_scope (r : rules) (c : AggregationComponent) : bool :=
  bool_decide (assetCode c = code (r_asset r)) &&
  bool_decide (assetIssuer c = issuer (r_asset r)) &&
  negb ((occurredAt c <? p_start (r_period r)) || (occurredAt c >=? p_end (r_period r))).

(** One iteration of the first loop. *)
Definition collect_one (r : rules) (byOperation : list (string * AggregationComponent))
    (candidate : AggregationComponent)
    : result AggregationRejection (list (string * AggregationComponent)) :=
  if negb (in_scope r candidate) then Ok byOperation
  else match JsMap.get (operationId candidate) byOperation with
  | Some existing =>
      if negb (bool_decide (amount existing = amount candidate)) then Err amount_unavailable
      else Ok (JsMap.set (operationId candidate) candidate byOperation)
  | None => Ok (JsMap.set (operationId candidate) candidate byOperation)
  end.

Fixpoint collect (r : rules) (m : list (string * AggregationComponent))
    (candidates : list AggregationComponent)
    : result AggregationRejection (list (string * AggregationComponent)) :=
  match candidates with
  | [] => Ok m
  | c :: rest => m' ← collect_one r m c; collect r m' rest
  end.

Definition component_stroops (c : AggregationComponent) : option Z :=
  match amount c with None => None | Some a => parseStroops a end.

(** The second loop, over the sorted operation ids. *)
Fixpoint sum_components (m : list (string * AggregationComponent)) (ids : list string)
    (total : Z) (acc : list (string * string))
    : result AggregationRejection (Z * list (string * string)) :=
  match ids with
  | [] => Ok (total, acc)
  | id :: rest =>
      match JsMap.get id m ≫= component_stroops with
      | None => Err amount_unavailable
      | Some stroops =>
          sum_components m rest (total + stroops) (acc ++ [(id, dec_string stroops)])
      end
  end.

Definition aggregateEarnings (candidates : list AggregationComponent) (r : rules)
    : result AggregationRejection AggregationResult :=
  byOperation ← collect r [] candidates;
  let size := Z.of_nat (length byOperation) in
  _ ← throw_if (size <? MIN_COMPONENT_PAYMENTS) insufficient_payments;
  _ ← throw_if (size >? MAX_COMPONENT_PAYMENTS) limit_exceeded;
  '(total, components) ← sum_components byOperation (sort_strings byOperation.*1) 0 [];
  let disclosed := floorToIncrement total (r_increment r) in
  _ ← throw_if (disclosed =? 0) below_rounding_increment;
  Ok {| disclosedAmount := formatStroops disclosed;
        paymentCount := size;
        canonicalComponents := components |}.

(** ** The calculator *)

Module Calculator.

Record AggregateEarningsRequest := {
  rq_assets : list AssetRef;
  rq_periodStart : JsDate;
  rq_periodEnd : JsDate;
  rq_sourceScope : SourceScope;
  rq_issuerIds : option (list string);
  rq_roundingIncrement : RoundingIncrement;
}.

Record AggregateEarningsComputation := {
  c_asset : AssetRef;
  c_period : AggregationPeriod;
  c_sourceScope : SourceScope;
  c_roundingIncrement : RoundingIncrement;
  c_disclosedAmount : string;
  c_paymentCount : Z;
  c_inputsDigest : string;
}.

Section calculator.
(** [decryptAmount] may throw; [hmac] is the keyed digest of Node's crypto. *)
Context (decryptAmount : string -> option string) (hmac : string -> string -> string).
Context (digestSecret : string).

Definition sourceAddresses (db : Db) (userId : string) (request : AggregateEarningsRequest)
    : result AggregationRejection (option (list string)) :=
  match rq_sourceScope request with
  | income => Ok None
  | trusted_sources =>
      let sources := List.filter (fun s => bool_decide (ts_userId s = userId) &&
        bool_decide (ts_status s = ResourceStatus.ACTIVE)) (trustedSources db) in
      Ok (Some (sort_strings (js_set (ts_sourceAddress <$> sources))))
  | verified_issuers =>
      let issuerIds := js_set <$> rq_issuerIds request in
      let found := List.filter (fun i => bool_decide (is_status i = ResourceStatus.ACTIVE) &&
        match issuerIds with None => true | Some ids => bool_decide (is_id i ∈ ids) end)
        (issuers db) in
      _ ← throw_if (match issuerIds with
                    | None => false
                    | Some ids => negb (length found =? length ids)%nat end) invalid_source;
      Ok (Some (sort_strings (js_set (is_stellarAddress <$> found))))
  end.

(** [readAmount]: an absent (or empty) or undecryptable amount is null. *)
Definition readAmount (amountEncrypted : option string) : option string :=
  match amountEncrypted with
  | None | Some EmptyString => None
  | Some a => decryptAmount a
  end.

(** The [where] clause of the payment query. *)
Definition payment_where (userId : string) (asset : AssetRef) (period : AggregationPeriod)
    (addresses : option (list string)) (p : Payment) : bool :=
  bool_decide (pay_userId p = userId) &&
  bool_decide (pay_classification p = PaymentClassification.INCOME) &&
  pay_isEligible p &&
  bool_decide (pay_assetCode p = code asset) &&
  bool_decide (pay_assetIssuer p = issuer asset) &&
  (p_start period <=? pay_occurredAt p) && (pay_occurredAt p <? p_end period) &&
  match addresses with
  | None => true
  | Some l => match pay_sourceAddress p with None => false | Some a => bool_decide (a ∈ l) end
  end.

(** [orderBy: [{ occurredAt: "asc" }, { operationId: "asc" }]] *)
Definition payment_le (p q : Payment) : bool :=
  if pay_occurredAt p =? pay_occurredAt q then str_le (pay_operationId p) (pay_operationId q)
  else pay_occurredAt p <? pay_occurredAt q.

Definition to_component (p : Payment) : AggregationComponent :=
  {| operationId := pay_operationId p;
     amount := readAmount (pay_amountEncrypted p);
     occurredAt := pay_occurredAt p;
     assetCode := pay_assetCode p;
     assetIssuer := pay_assetIssuer p |}.

Definition inputs_digest (components : list (string * string)) : string :=
  let payload := JObj [("policyVersion"%string, JStr AGGREGATE_EARNINGS_POLICY_VERSION);
    ("components"%string,
     JArr ((fun c : string * string => JArr [JStr c.1; JStr c.2]) <$> components))] in
  match canonicalize payload with
  | Ok (Some text) => String.append "hmac-sha256:" (hmac digestSecret text)
  | _ => EmptyString            (* not reached: the payload is plain *)
  end.

Definition compute (db : Db) (userId : string) (request : AggregateEarningsRequest) (now : Z)
    : result AggregationRejection AggregateEarningsComputation :=
  asset ← resolveAsset (rq_assets request) None;
  period ← resolvePeriod (rq_periodStart request) (rq_periodEnd request) now;
  addresses ← sourceAddresses db userId request;
  _ ← throw_if (bool_decide (addresses = Some [])) insufficient_payments;
  let rows := take (Z.to_nat (MAX_COMPONENT_PAYMENTS + 1))
    (js_sort payment_le (List.filter (payment_where userId asset period addresses)
      (payments db))) in
  res ← aggregateEarnings (to_component <$> rows)
    {| r_asset := asset; r_period := period; r_increment := rq_roundingIncrement request |};
  Ok {| c_asset := asset; c_period := period; c_sourceScope := rq_sourceScope request;
        c_roundingIncrement := rq_roundingIncrement request;
        c_disclosedAmount := disclosedAmount res;
        c_paymentCount := paymentCount res;
        c_inputsDigest := inputs_digest (canonicalComponents res) |}.
End calculator.
End Calculator.

(** ** Lemmas on amounts *)

Lemma parseStroops_nonneg text n : parseStroops text = Some n -> 0 <= n.
Proof.
  unfold parseStroops. destruct (span_digits_spec text) as [_ Hw].
  destruct (span_digits text) as [whole rest]; cbn in Hw. pose proof (dec_value_range _ Hw).
  destruct (_ && _); [|done]. unfold STROOPS_PER_UNIT. destruct rest as [|c f].
  - intros [= <-]. change (dec_value (pad_end 7 _ EmptyString)) with 0. lia.
  - destruct (_ && _) eqn:E; [|done]. intros [= <-]. reflect_hyps. unfold pad_end.
    assert (all_digits (String.append f (repeat_char "0" (7 - String.length f))) = true) as Hd
      by (rewrite all_digits_append, all_digits_repeat; by rewrite andb_true_r).
    pose proof (dec_value_range _ Hd). lia.
Qed.

Lemma formatStroops_parse n : 0 <= n < 10 ^ 26 -> parseStroops (formatStroops n) = Some n.
Proof.
  intros Hn. unfold parseStroops, formatStroops, STROOPS_PER_UNIT.
  rewrite span_digits_app by auto with earn.
  pose proof (dec_string_nonempty (n / 10000000)).
  pose proof (dec_string_length (n / 10000000) 19 ltac:(lia)
    ltac:(change (10 ^ Z.of_nat 19) with (10 ^ 19); div_lia)).
  rewrite (proj2 (Nat.leb_le 1 _)), (proj2 (Nat.leb_le _ 19)) by lia. cbn [andb].
  destruct (pad_start_digits (n mod 10000000) 7 ltac:(cbn; div_lia) ltac:(lia)) as (Hd & Hl & Hv).
  set (f := pad_start 7 _ _) in *. rewrite Hd, Hl. cbn [Ascii.eqb Bool.eqb andb Nat.leb].
  f_equal. unfold pad_end. rewrite Hl. cbn [Nat.sub repeat_char].
  rewrite append_nil_r, Hv, dec_value_dec_string by div_lia. div_lia.
Qed.

Lemma increment_step_pos i : 0 < increment_step i.
Proof. by destruct i; vm_compute. Qed.

Lemma floorToIncrement_spec total i :
  floorToIncrement total i <= total < floorToIncrement total i + increment_step i.
Proof.
  unfold floorToIncrement. pose proof (increment_step_pos i).
  pose proof (Z.div_mod total (increment_step i) ltac:(lia)).
  pose proof (Z.mod_pos_bound total (increment_step i) ltac:(lia)). lia.
Qed.

Lemma floorToIncrement_nonneg total i : 0 <= total -> 0 <= floorToIncrement total i.
Proof.
  intros. unfold floorToIncrement. pose proof (increment_step_pos i).
  apply Z.mul_nonneg_nonneg; [apply Z.div_pos|]; lia.
Qed.

(** ** Lemmas on the collection *)

Lemma collect_app r m l1 l2 :
  collect r m (l1 ++ l2) = collect r m l1 ≫= fun m' => collect r m' l2.
Proof.
  revert m. induction l1 as [|c l1 IH]; intros m; cbn; [done|].
  destruct (collect_one r m c) as [m'|e]; cbn; [apply IH|done].
Qed.

(** Scope and conflict freedom of a candidate list, independent of its order. *)
Definition scoped (r : rules) (l : list AggregationComponent) (c : AggregationComponent) : Prop :=
  c ∈ l /\ in_scope r c = true.
Definition consistent (r : rules) (l : list AggregationComponent) : Prop :=
  forall c d, scoped r l c -> scoped r l d -> operationId c = operationId d -> amount c = amount d.

Definition collected (r : rules) (l : list AggregationComponent)
    (m : list (string * AggregationComponent)) : Prop :=
  NoDup m.*1 /\ consistent r l /\
  (forall id c, JsMap.get id m = Some c -> scoped r l c /\ operationId c = id) /\
  (forall c, scoped r l c -> is_Some (JsMap.get (operationId c) m)).

Lemma scoped_snoc r l d c :
  scoped r (l ++ [d]) c <-> scoped r l c \/ (c = d /\ in_scope r d = true).
Proof. unfold scoped. rewrite elem_of_app, list_elem_of_singleton. naive_solver. Qed.

Lemma collected_skip r l m d :
  in_scope r d = false -> collected r l m -> collected r (l ++ [d]) m.
Proof.
  intros Hd (Hnd & Hc & Hg & Hs).
  assert (forall c, scoped r (l ++ [d]) c <-> scoped r l c) as Heq.
  { intros c. rewrite scoped_snoc. split; [intros [?|[-> ?]]; [done|congruence]|by left]. }
  split_and!; [done|..].
  - intros c e. rewrite !Heq. apply Hc.
  - intros id c Hid. rewrite Heq. by apply Hg.
  - intros c. rewrite Heq. apply Hs.
Qed.

Lemma collected_add r l m d :
  in_scope r d = true ->
  (forall e, JsMap.get (operationId d) m = Some e -> amount e = amount d) ->
  collected r l m -> collected r (l ++ [d]) (JsMap.set (operationId d) d m).
Proof.
  intros Hd Hex (Hnd & Hc & Hg & Hs). split_and!.
  - by apply JsMap.NoDup_set.
  - assert (forall c, scoped r l c -> operationId c = operationId d -> amount c = amount d) as Hcd.
    { intros c Hin Ho. destruct (Hs c Hin) as [e He]. destruct (Hg _ _ He) as [He' Hoe].
      rewrite <- (Hex e) by congruence. by apply Hc. }
    intros c e [Hsc|[-> _]]%scoped_snoc [Hse|[-> _]]%scoped_snoc Ho; auto.
    symmetry. auto.
  - intros id c. rewrite JsMap.get_set, scoped_snoc. case_decide as Hid.
    + intros [= <-]. split; [by right|done].
    + intros [? ?]%Hg. split; [by left|done].
  - intros c Hsc%scoped_snoc. rewrite JsMap.get_set. case_decide as Hid; [by eexists|].
    destruct Hsc as [Hsc|[-> _]]; [by apply Hs|done].
Qed.

Lemma collect_spec r l :
  match collect r [] l with
  | Ok m => collected r l m
  | Err e => e = amount_unavailable /\ ~ consistent r l
  end.
Proof.
  induction l as [|d l IH] using rev_ind.
  { cbn. split_and!; [constructor|intros c ? [? _]; set_solver|done|intros c [? _]; set_solver]. }
  rewrite collect_app. destruct (collect r [] l) as [m|e]; cbn.
  2:{ destruct IH as [-> Hc]. split; [done|]. intros Hc'. apply Hc. intros c e Hsc Hse.
      apply Hc'; apply scoped_snoc; by left. }
  unfold collect_one. destruct (in_scope r d) eqn:Hd; cbn; [|by apply collected_skip].
  destruct (JsMap.get (operationId d) m) as [e|] eqn:He; cbn.
  2:{ apply collected_add; [done|congruence|done]. }
  case_bool_decide as Ha; cbn.
  { apply collected_add; [done|congruence|done]. }
  split; [done|]. intros Hc. apply Ha. destruct IH as (_ & _ & Hg & _).
  destruct (Hg _ _ He) as [Hse Ho]. apply Hc; [| |done]; apply scoped_snoc; [by left|by right].
Qed.

(** *** Order of the candidates *)

Lemma scoped_perm r l l' c : l ≡ₚ l' -> scoped r l c <-> scoped r l' c.
Proof. intros Hp. unfold scoped. by rewrite Hp. Qed.

Lemma consistent_perm r l l' : l ≡ₚ l' -> consistent r l -> consistent r l'.
Proof. intros Hp Hc c d. rewrite <- !(scoped_perm r l l') by done. apply Hc. Qed.

Lemma collected_perm r l l' m m' :
  l ≡ₚ l' -> collected r l m -> collected r l' m' ->
  m.*1 ≡ₚ m'.*1 /\
  forall id, (JsMap.get id m ≫= component_stroops) = (JsMap.get id m' ≫= component_stroops).
Proof.
  intros Hp (Hnd & Hc & Hg & Hs) (Hnd' & Hc' & Hg' & Hs').
  assert (forall id, match JsMap.get id m, JsMap.get id m' with
    | Some c, Some d => amount c = amount d | None, None => True | _, _ => False end) as Hget.
  { intros id. destruct (JsMap.get id m) as [c|] eqn:E, (JsMap.get id m') as [d|] eqn:E'; [|..|done].
    - destruct (Hg _ _ E) as [Hsc Ho], (Hg' _ _ E') as [Hsd Ho'].
      apply Hc; [done|by rewrite (scoped_perm r l l')|congruence].
    - destruct (Hg _ _ E) as [Hsc Ho]. rewrite (scoped_perm r l l') in Hsc by done.
      destruct (Hs' c Hsc). congruence.
    - destruct (Hg' _ _ E') as [Hsc Ho]. rewrite <- (scoped_perm r l l') in Hsc by done.
      destruct (Hs d Hsc). congruence. }
  split.
  - apply NoDup_Permutation; [done..|]. intros id. rewrite !JsMap.elem_of_keys.
    specialize (Hget id). unfold is_Some. destruct (JsMap.get id m), (JsMap.get id m'); naive_solver.
  - intros id. specialize (Hget id). destruct (JsMap.get id m), (JsMap.get id m'); try done.
    cbn. unfold component_stroops. by rewrite Hget.
Qed.

Lemma sum_components_ext m m' ids t acc :
  (forall id, (JsMap.get id m ≫= component_stroops) = (JsMap.get id m' ≫= component_stroops)) ->
  sum_components m ids t acc = sum_components m' ids t acc.
Proof.
  intros Heq. revert t acc. induction ids as [|id ids IH]; intros t acc; cbn [sum_components]; [done|].
  rewrite <- Heq. by destruct (JsMap.get id m ≫= component_stroops).
Qed.

Lemma aggregateEarnings_perm l l' r :
  l ≡ₚ l' -> aggregateEarnings l r = aggregateEarnings l' r.
Proof.
  intros Hp. unfold aggregateEarnings.
  pose proof (collect_spec r l) as H. pose proof (collect_spec r l') as H'.
  destruct (collect r [] l) as [m|e], (collect r [] l') as [m'|e']; cbn.
  - destruct (collected_perm r l l' m m' Hp H H') as [Hk Hget].
    assert (length m = length m') as ->
      by (rewrite <- (length_fmap fst m), <- (length_fmap fst m'); by rewrite Hk).
    by rewrite (sort_strings_unique _ _ Hk), (sum_components_ext m m').
  - destruct H as (_ & Hc & _), H' as [_ Hn]. destruct Hn. by eapply consistent_perm.
  - destruct H' as (_ & Hc & _), H as [_ Hn]. destruct Hn. by eapply consistent_perm.
  - by destruct H as [-> _], H' as [-> _].
Qed.

(** *** The sum *)

Definition sumZ : list Z -> Z := foldr Z.add 0.

Definition component_text (c : string * Z) : string * string := (c.1, dec_string c.2).

Lemma sum_components_Ok m ids t acc t' acc' :
  sum_components m ids t acc = Ok (t', acc') ->
  exists comps, comps.*1 = ids /\
    Forall (fun c => (JsMap.get c.1 m ≫= component_stroops) = Some c.2) comps /\
    t' = t + sumZ comps.*2 /\ acc' = acc ++ (component_text <$> comps).
Proof.
  revert t acc. induction ids as [|id ids IH]; intros t acc; cbn [sum_components].
  { intros [= <- <-]. exists []. split_and!; [done|constructor|cbn; lia|by rewrite app_nil_r]. }
  destruct (JsMap.get id m ≫= component_stroops) as [s|] eqn:E; [|done].
  intros (comps & <- & Hf & -> & ->)%IH. exists ((id, s) :: comps).
  split_and!; [done|by constructor|cbn; lia|]. by rewrite <- app_assoc.
Qed.

Lemma component_stroops_nonneg c s : component_stroops c = Some s -> 0 <= s.
Proof. unfold component_stroops. destruct (amount c); [apply parseStroops_nonneg|done]. Qed.

Lemma sumZ_nonneg l : Forall (fun x => 0 <= x) l -> 0 <= sumZ l.
Proof. induction 1; cbn; lia. Qed.

(** The components of a consistent candidate list, one per operation. *)
Lemma collected_components r l m comps :
  collected r l m -> comps.*1 ≡ₚ m.*1 ->
  Forall (fun c => (JsMap.get c.1 m ≫= component_stroops) = Some c.2) comps ->
  NoDup comps.*1 /\
  forall id s, (id, s) ∈ comps <->
    exists c, scoped r l c /\ operationId c = id /\ component_stroops c = Some s.
Proof.
  intros (Hnd & Hc & Hg & Hs) Hk Hf. rewrite Forall_forall in Hf.
  assert (NoDup comps.*1) as Hnd' by (by rewrite Hk). split; [done|]. intros id s. split.
  - intros Hin. specialize (Hf _ Hin). cbn in Hf.
    destruct (JsMap.get id m) as [c|] eqn:E; [|done]. cbn in Hf. exists c.
    destruct (Hg _ _ E). done.
  - intros (c & Hsc & <- & Hst). destruct (Hs c Hsc) as [d Hd].
    assert (operationId c ∈ comps.*1) as ([id' s'] & Hid & Hin)%list_elem_of_fmap.
    { rewrite Hk. apply JsMap.elem_of_keys. by eexists. }
    cbn in Hid. subst id'. pose proof (Hf _ Hin) as Hs'. cbn in Hs'. rewrite Hd in Hs'. cbn in Hs'.
    destruct (Hg _ _ Hd) as [Hsd Ho]. unfold component_stroops in *.
    rewrite (Hc c d) in Hst by done. congruence.
Qed.

(** ** Properties *)

(** C39: an accepted aggregate is built from exactly one component per distinct
    in-scope operation, at least two and at most 500 of them, all amounts read;
    the disclosed figure is a multiple of the increment, positive, never above
    the exact total and within one increment of it. *)
Theorem aggregate_sound l r res :
  aggregateEarnings l r = Ok res ->
  exists comps : list (string * Z),
    NoDup comps.*1 /\
    (forall id s, (id, s) ∈ comps <->
       exists c, scoped r l c /\ operationId c = id /\ component_stroops c = Some s) /\
    (forall c, scoped r l c -> is_Some (component_stroops c)) /\
    MIN_COMPONENT_PAYMENTS <= Z.of_nat (length comps) <= MAX_COMPONENT_PAYMENTS /\
    paymentCount res = Z.of_nat (length comps) /\
    canonicalComponents res = component_text <$> comps /\
    exists d, disclosedAmount res = formatStroops d /\
      (increment_step (r_increment r) | d) /\
      0 < d <= sumZ comps.*2 /\ sumZ comps.*2 < d + increment_step (r_increment r).
Proof.
  unfold aggregateEarnings. pose proof (collect_spec r l) as Hcol.
  destruct (collect r [] l) as [m|e]; cbn; [|done]. intros H. run_result. destruct x1 as [total comps'].
  run_result. reflect_hyps. apply sum_components_Ok in H2 as (comps & Hk & Hf & -> & ->).
  pose proof (sort_strings_perm m.*1) as Hp. rewrite <- Hk in Hp.
  destruct (collected_components r l m comps Hcol Hp Hf) as [Hnd Hiff].
  assert (length comps = length m) as Hlen
    by (rewrite <- (length_fmap fst comps), <- (length_fmap fst m); by rewrite Hp).
  exists comps. rewrite Hlen. split_and!; try done; try lia.
  - intros c Hsc. destruct Hcol as (_ & Hc & Hg & Hs). destruct (Hs c Hsc) as [d Hd].
    assert (operationId c ∈ comps.*1) as ([id s] & Hid & Hin)%list_elem_of_fmap.
    { rewrite Hp. apply JsMap.elem_of_keys. by eexists. }
    apply Hiff in Hin as (e & Hse & Ho & Hst). cbn in *. exists s.
    unfold component_stroops in *. by rewrite (Hc c e) by congruence.
  - eexists. split; [reflexivity|]. set (total := 0 + sumZ comps.*2) in *.
    assert (0 <= sumZ comps.*2) as Hnn.
    { apply sumZ_nonneg, Forall_forall. intros s ([id s'] & -> & Hin)%list_elem_of_fmap.
      apply Hiff in Hin as (c & _ & _ & Hst). by apply component_stroops_nonneg in Hst. }
    pose proof (floorToIncrement_spec total (r_increment r)).
    pose proof (floorToIncrement_nonneg total (r_increment r) ltac:(lia)).
    split; [by apply Z.divide_factor_r|]. lia.
Qed.

(** the outcome, refusals included, does not depend on the order of the rows. *)
Theorem aggregate_order_independent l l' r :
  l ≡ₚ l' -> aggregateEarnings l r = aggregateEarnings l' r.
Proof. apply aggregateEarnings_perm. Qed.

(** a printed amount reads back as the same number of stroops, up to the
    nineteen integer digits the parser accepts. *)
Theorem stroops_round_trip n : 0 <= n < 10 ^ 26 -> parseStroops (formatStroops n) = Some n.
Proof. apply formatStroops_parse. Qed.

(** *** Concrete instances *)

Definition demo_rules : rules :=
  {| r_asset := {| code := "XLM"; issuer := None |};
     r_period := {| p_start := 0; p_end := 1000 |}; r_increment := inc_1 |}.
Definition demo_component (op a : string) (t : Z) : AggregationComponent :=
  {| operationId := op; amount := Some a; occurredAt := t; assetCode := "XLM"; assetIssuer := None |}.
Definition demo_candidates : list AggregationComponent :=
  [demo_component "op2" "2.5" 10; demo_component "op1" "1.25" 999; demo_component "op3" "9" 1000].

Lemma aggregate_sound_witness :
  exists comps : list (string * Z), NoDup comps.*1 /\ Z.of_nat (length comps) = 2.
Proof.
  destruct (aggregate_sound demo_candidates demo_rules
    {| disclosedAmount := "3.0000000"; paymentCount := 2;
       canonicalComponents := [("op1"%string, "12500000"%string); ("op2"%string, "25000000"%string)] |})
    as (comps & Hnd & _ & _ & _ & Hc & _); [by vm_compute|].
  exists comps. split; [exact Hnd|]. symmetry. exact Hc.
Defined.

Lemma aggregate_order_independent_witness :
  aggregateEarnings demo_candidates demo_rules =
  aggregateEarnings (reverse demo_candidates) demo_rules.
Proof. apply aggregate_order_independent. by rewrite reverse_Permutation. Defined.

Lemma stroops_round_trip_witness : parseStroops (formatStroops 12345678901) = Some 12345678901.
Proof. apply stroops_round_trip. split; by vm_compute. Defined.

(** ** The calculator reads only the caller's rows *)

Module CalculatorFacts.
Import Calculator.

Lemma payment_le_total p q : payment_le p q = true \/ payment_le q p = true.
Proof.
  unfold payment_le. rewrite (Z.eqb_sym (pay_occurredAt q)).
  destruct (_ =? _) eqn:E; [apply str_le_total|]. rewrite !Z.ltb_lt. apply Z.eqb_neq in E. lia.
Qed.

Lemma payment_le_trans p q r :
  payment_le p q = true -> payment_le q r = true -> payment_le p r = true.
Proof.
  unfold payment_le. intros H1 H2. destruct (pay_occurredAt p =? pay_occurredAt r) eqn:E;
  destruct (pay_occurredAt p =? pay_occurredAt q) eqn:E1;
  destruct (pay_occurredAt q =? pay_occurredAt r) eqn:E2; reflect_hyps;
  try (apply Z.ltb_lt); try lia. by eapply str_le_trans.
Qed.

Lemma payment_le_tie p q :
  payment_le p q = true -> payment_le q p = true -> pay_operationId p = pay_operationId q.
Proof.
  unfold payment_le. rewrite (Z.eqb_sym (pay_occurredAt q)).
  destruct (_ =? _) eqn:E; [apply str_le_antisymm|]. intros; reflect_hyps; lia.
Qed.

(** What [compute] may see of a database: the caller's own payments and trusted
    sources, and the issuer registry. *)
Definition own_payments (userId : string) (db : Db) : list Payment :=
  List.filter (fun p => bool_decide (pay_userId p = userId)) (payments db).
Definition own_sources (userId : string) (db : Db) : list TrustedSource :=
  List.filter (fun s => bool_decide (ts_userId s = userId)) (trustedSources db).

Lemma filter_filter_bool {A} (f g : A -> bool) l :
  List.filter f (List.filter g l) = List.filter (fun x => g x && f x) l.
Proof. induction l as [|x l IH]; cbn; [done|]. destruct (g x); cbn; by rewrite IH. Qed.

Lemma filter_bool_ext {A} (f g : A -> bool) l :
  (forall x, f x = g x) -> List.filter f l = List.filter g l.
Proof. intros H. induction l as [|x l IH]; cbn; [done|]. by rewrite H, IH. Qed.

Lemma payments_scan userId asset period addresses db :
  List.filter (payment_where userId asset period addresses) (payments db) =
  List.filter (payment_where userId asset period addresses) (own_payments userId db).
Proof.
  unfold own_payments. rewrite filter_filter_bool. apply filter_bool_ext. intros p.
  unfold payment_where. by destruct (bool_decide (pay_userId p = userId)).
Qed.

Lemma sourceAddresses_own db db' userId request :
  own_sources userId db ≡ₚ own_sources userId db' -> issuers db ≡ₚ issuers db' ->
  sourceAddresses db userId request = sourceAddresses db' userId request.
Proof.
  intros Hs Hi. unfold sourceAddresses. destruct (rq_sourceScope request); [done| |].
  - do 2 f_equal. rewrite <- !(filter_filter_bool
      (fun s => bool_decide (ts_status s = ResourceStatus.ACTIVE))
      (fun s => bool_decide (ts_userId s = userId))).
    apply sort_strings_unique, js_set_perm. by rewrite (filter_bool_perm _ _ _ Hs).
  - pose proof (filter_bool_perm (fun i => bool_decide (is_status i = ResourceStatus.ACTIVE) &&
      match js_set <$> rq_issuerIds request with
      | None => true | Some ids => bool_decide (is_id i ∈ ids) end) _ _ Hi) as Hf.
    cbn zeta. rewrite (Permutation_length Hf). destruct (throw_if _ _); cbn; [|done].
    do 2 f_equal. by apply sort_strings_unique, js_set_perm, fmap_Permutation.
Qed.

Lemma payment_sort_unique l l' :
  NoDup (pay_operationId <$> l) -> l ≡ₚ l' -> js_sort payment_le l = js_sort payment_le l'.
Proof.
  intros Hnd Hp. apply (js_sort_unique payment_le (fun p => p ∈ l)).
  - intros x y _ _. apply payment_le_total.
  - intros x y z _ _ _. apply payment_le_trans.
  - by apply Forall_forall.
  - intros x y Hx Hy H1 H2. apply (key_unique pay_operationId l); try done. by apply payment_le_tie.
  - done.
Qed.

(** the computation is isolated to its caller and independent of storage
    order: two databases that agree, up to row order, on the caller's payments,
    the caller's trusted sources and the issuer registry give the same result,
    inputs digest and refusals included, whatever they hold for other users. *)
Theorem aggregate_isolated decryptAmount hmac secret db db' userId request now :
  NoDup (pay_operationId <$> own_payments userId db) ->
  own_payments userId db ≡ₚ own_payments userId db' ->
  own_sources userId db ≡ₚ own_sources userId db' ->
  issuers db ≡ₚ issuers db' ->
  compute decryptAmount hmac secret db userId request now =
  compute decryptAmount hmac secret db' userId request now.
Proof.
  intros Hnd Hp Hs Hi. unfold compute. rewrite (sourceAddresses_own db db') by done.
  destruct (resolveAsset _ _) as [asset|]; cbn; [|done].
  destruct (resolvePeriod _ _ _) as [period|]; cbn; [|done].
  destruct (sourceAddresses _ _ _) as [addrs|]; cbn; [|done].
  rewrite !payments_scan. rewrite (payment_sort_unique _ (List.filter
    (payment_where userId asset period addrs) (own_payments userId db'))).
  - done.
  - by apply NoDup_fmap_filter.
  - by apply filter_bool_perm.
Qed.

(** A row whose plaintext source address has been cleared is invisible to the
    two address-scoped queries. *)
Definition without_address (p : Payment) : bool :=
  match pay_sourceAddress p with None => true | Some _ => false end.

(** a payment whose plaintext source address has been cleared by the address
    encryption never counts towards a [trusted_sources] or [verified_issuers]
    aggregate: removing every such row of the payments table changes nothing. *)
Theorem aggregate_scoped_skips_encrypted decryptAmount hmac secret db userId request now :
  rq_sourceScope request <> income ->
  compute decryptAmount hmac secret db userId request now =
  compute decryptAmount hmac secret
    {| payments := List.filter (fun p => negb (without_address p)) (payments db);
       trustedSources := trustedSources db; issuers := issuers db;
       supportedAssets := supportedAssets db; attestations := attestations db;
       settlements := settlements db |} userId request now.
Proof.
  intros Hscope. unfold compute.
  change (sourceAddresses {| payments := _; trustedSources := _; issuers := _;
      supportedAssets := _; attestations := _; settlements := _ |} userId request)
    with (sourceAddresses db userId request).
  destruct (resolveAsset _ _) as [asset|]; cbn; [|done].
  destruct (resolvePeriod _ _ _) as [period|]; cbn; [|done].
  destruct (sourceAddresses _ _ _) as [addrs|] eqn:Ha; cbn; [|done].
  assert (exists l, addrs = Some l) as [l ->].
  { unfold sourceAddresses in Ha. destruct (rq_sourceScope request); [done|..]; run_result; eauto. }
  rewrite filter_filter_bool. erewrite (filter_bool_ext (payment_where _ _ _ _)); [reflexivity|].
  intros p. unfold without_address, payment_where.
  destruct (pay_sourceAddress p); cbn; [done|]. by rewrite andb_false_r.
Qed.

Definition demo_payment (user op : string) (t : Z) (from : option string) : Payment :=
  {| pay_id := op; pay_userId := user; pay_operationId := op; pay_sourceAddress := from;
     pay_sourceAddressEncrypted := None; pay_assetCode := "XLM"; pay_assetIssuer := None;
     pay_amountEncrypted := Some "1.5"%string;
     pay_classification := PaymentClassification.INCOME; pay_isEligible := true;
     pay_finalityHoldAt := None; pay_occurredAt := t |}.
Definition demo_db (others : list Payment) : Db :=
  {| payments := demo_payment "alice" "op2" 20 None :: others ++
       [demo_payment "alice" "op1" 20 (Some "GA"%string)];
     trustedSources := [{| ts_id := "s"; ts_userId := "alice"; ts_sourceAddress := "GA";
                           ts_status := ResourceStatus.ACTIVE; ts_issuerId := None |}];
     issuers := []; supportedAssets := []; attestations := []; settlements := [] |}.
Definition demo_request (scope : SourceScope) : AggregateEarningsRequest :=
  {| rq_assets := [{| code := "XLM"; issuer := None |}]; rq_periodStart := Some 0;
     rq_periodEnd := Some 1000; rq_sourceScope := scope; rq_issuerIds := None;
     rq_roundingIncrement := inc_1 |}.

Lemma aggregate_isolated_witness :
  compute Some (fun _ m => m) "k" (demo_db []) "alice" (demo_request income) 2000 =
  compute Some (fun _ m => m) "k" (demo_db [demo_payment "bob" "op9" 20 None]) "alice"
    (demo_request income) 2000.
Proof.
  apply aggregate_isolated; [|reflexivity..]. apply (bool_decide_unpack _). by vm_compute.
Defined.

(** Two eligible payments of one user, one of them with an encrypted address:
    enough for an income aggregate, refused once scoped to trusted sources. *)
Lemma aggregate_scoped_skips_encrypted_witness :
  is_Some (match compute Some (fun _ m => m) "k" (demo_db []) "alice" (demo_request income) 2000
           with Ok c => Some (c_paymentCount c) | Err _ => None end) /\
  compute Some (fun _ m => m) "k" (demo_db []) "alice" (demo_request trusted_sources) 2000 =
  Err insufficient_payments.
Proof.
  split; [by vm_compute; eexists|]. rewrite aggregate_scoped_skips_encrypted; [|done].
  by vm_compute.
Defined.
End CalculatorFacts.
