(* ===== verification/ProofStore.v ===== *)
(** * Proof and anchoring-intent tables

    Rows of the [Proof], [ProofClaim] and [AnchoringIntent] models of
    [prisma/schema.prisma] beside the audit log, and the Prisma calls the services make on them:
    [update] (an error when the row is missing), conditional [updateMany] with
    its count, and [create] under the unique constraints.  Columns no service
    changes after creation are grouped in a core record.  [store_wf] is what
    the schema's constraints guarantee; [store_evolves] is what every writer of
    the system preserves of a row. *)

From S2P Require Import Prelude JsData Canonical Schema AuditChain.

Local Open Scope Z_scope.

(** ** Rows *)

Record Claim := {
  cl_operator : string;
  cl_thresholdEncrypted : option string;
  cl_frequency : option string;
  cl_result : bool;
  cl_disclosurePolicy : json;
}.

Record ProofCore := {
  pc_id : string;
  pc_userId : string;
  pc_proofType : ProofType.t;
  pc_schemaVersion : string;
  pc_network : string;
  pc_assetCode : string;
  pc_assetIssuer : option string;
  pc_periodStart : option Z;
  pc_periodEnd : option Z;
  pc_expiresAt : Z;
  pc_commitment : option string;
  pc_credentialHash : string;
  pc_createdAt : Z;
  pc_claim : option Claim;
}.

Record Revocation := {
  rv_at : option Z;
  rv_byType : option RevocationActorType.t;
  rv_byId : option string;
  rv_reasonCode : option RevocationReasonCode.t;
  rv_reasonPrivate : option string;
  rv_evidenceHash : option string;
}.

Definition not_revoked : Revocation :=
  {| rv_at := None; rv_byType := None; rv_byId := None; rv_reasonCode := None;
     rv_reasonPrivate := None; rv_evidenceHash := None |}.

Record Proof := {
  p_core : ProofCore;
  p_status : ProofStatus.t;
  p_contractTransactionHash : option string;
  p_revocation : Revocation;
  p_supersedesId : option string;
  p_supersededAt : option Z;
  p_renewalRequestHash : option string;
  p_propagationConfirmedAt : option Z;
  p_updatedAt : Z;
}.

Abbreviation p_id p := (pc_id (p_core p)).
Abbreviation p_userId p := (pc_userId (p_core p)).
Abbreviation p_expiresAt p := (pc_expiresAt (p_core p)).
Abbreviation p_claim p := (pc_claim (p_core p)).

Record IntentCore := {
  ic_id : string;
  ic_proofId : string;
  ic_operation : AnchoringOperation.t;
  ic_createdAt : Z;
}.

Record Intent := {
  i_core : IntentCore;
  i_status : AnchoringStatus.t;
  i_attemptCount : Z;
  i_lastAttemptAt : option Z;
  i_nextRetryAt : option Z;
  i_transactionHash : option string;
  i_ledger : option string;
  i_lastErrorSafe : option string;
  i_permanentError : bool;
  i_quarantinedAt : option Z;
  i_quarantineReasonCode : option QuarantineReasonCode.t;
  i_quarantineDecision : QuarantineDecision.t;
  i_decidedById : option string;
  i_decidedAt : option Z;
}.

Abbreviation i_id i := (ic_id (i_core i)).
Abbreviation i_proofId i := (ic_proofId (i_core i)).
Abbreviation i_operation i := (ic_operation (i_core i)).
Definition intent_key (i : Intent) : string * AnchoringOperation.t := (i_proofId i, i_operation i).

(** A new row: the defaults of the schema. *)
Definition new_intent (core : IntentCore) (status : AnchoringStatus.t) : Intent :=
  {| i_core := core; i_status := status; i_attemptCount := 0; i_lastAttemptAt := None;
     i_nextRetryAt := None; i_transactionHash := None; i_ledger := None;
     i_lastErrorSafe := None; i_permanentError := false; i_quarantinedAt := None;
     i_quarantineReasonCode := None; i_quarantineDecision := QuarantineDecision.PENDING;
     i_decidedById := None; i_decidedAt := None |}.

Record Store := {
  proofs : list Proof;
  intents : list Intent;
  audit : list AuditRow;
}.

(** ** Prisma calls *)

Definition has_id (id : string) (p : Proof) : bool := String.eqb (p_id p) id.
Definition has_intent_id (id : string) (i : Intent) : bool := String.eqb (i_id i) id.

Definition find_proof (id : string) (s : Store) : option Proof := find_where (has_id id) (proofs s).
Definition find_intent (id : string) (s : Store) : option Intent :=
  find_where (has_intent_id id) (intents s).

Definition find_intent_for (proofId : string) (op : AnchoringOperation.t) (s : Store) : option Intent :=
  find_where (fun i => bool_decide (intent_key i = (proofId, op))) (intents s).

(** The relation [supersededBy]: the row whose [supersedesId] is this id. *)
Definition superseded_by (id : string) (s : Store) : option Proof :=
  find_where (fun p => bool_decide (p_supersedesId p = Some id)) (proofs s).

Definition map_proofs (p : Proof -> bool) (f : Proof -> Proof) (s : Store) : Store :=
  {| proofs := update_where p f (proofs s); intents := intents s; audit := audit s |}.
Definition map_intents (p : Intent -> bool) (f : Intent -> Intent) (s : Store) : Store :=
  {| proofs := proofs s; intents := update_where p f (intents s); audit := audit s |}.

Definition update_proof (id : string) (f : Proof -> Proof) (s : Store) : result DbError Store :=
  match find_proof id s with
  | None => Err P2025
  | Some _ => Ok (map_proofs (has_id id) f s)
  end.

Definition update_intent (id : string) (f : Intent -> Intent) (s : Store) : result DbError Store :=
  match find_intent id s with
  | None => Err P2025
  | Some _ => Ok (map_intents (has_intent_id id) f s)
  end.

Definition create_intent (i : Intent) (s : Store) : result DbError Store :=
  _ ← throw_if (bool_decide (i_id i ∈ (fun j => i_id j) <$> intents s)
                || bool_decide (intent_key i ∈ intent_key <$> intents s)) P2002;
  Ok {| proofs := proofs s; intents := intents s ++ [i]; audit := audit s |}.

Definition create_proof (p : Proof) (s : Store) : result DbError Store :=
  _ ← throw_if (bool_decide (p_id p ∈ (fun q => p_id q) <$> proofs s)
                || bool_decide (pc_credentialHash (p_core p) ∈
                     (fun q => pc_credentialHash (p_core q)) <$> proofs s)
                || match p_supersedesId p with
                   | None => false
                   | Some x => bool_decide (Some x ∈ p_supersedesId <$> proofs s)
                   end) P2002;
  Ok {| proofs := proofs s ++ [p]; intents := intents s; audit := audit s |}.

Definition set_audit (rows : list AuditRow) (s : Store) : Store :=
  {| proofs := proofs s; intents := intents s; audit := rows |}.

(** [tx.auditLog.create] inside a transaction. *)
Definition create_audit (id : string) (now : Z) (args : AuditArgs) (s : Store) : result DbError Store :=
  rows ← createUnchained id now args (audit s); Ok (set_audit rows s).

(** ** Row updates *)

Definition set_status (st : ProofStatus.t) (now : Z) (p : Proof) : Proof :=
  {| p_core := p_core p; p_status := st; p_contractTransactionHash := p_contractTransactionHash p;
     p_revocation := p_revocation p; p_supersedesId := p_supersedesId p;
     p_supersededAt := p_supersededAt p; p_renewalRequestHash := p_renewalRequestHash p;
     p_propagationConfirmedAt := p_propagationConfirmedAt p; p_updatedAt := now |}.

Definition set_revocation (st : ProofStatus.t) (rv : Revocation) (now : Z) (p : Proof) : Proof :=
  {| p_core := p_core p; p_status := st; p_contractTransactionHash := p_contractTransactionHash p;
     p_revocation := rv; p_supersedesId := p_supersedesId p;
     p_supersededAt := p_supersededAt p; p_renewalRequestHash := p_renewalRequestHash p;
     p_propagationConfirmedAt := p_propagationConfirmedAt p; p_updatedAt := now |}.

(** [data: { status: REVOKED, revokedAt }] *)
Definition mark_revoked (at_ now : Z) (p : Proof) : Proof :=
  set_revocation ProofStatus.REVOKED
    {| rv_at := Some at_; rv_byType := rv_byType (p_revocation p);
       rv_byId := rv_byId (p_revocation p); rv_reasonCode := rv_reasonCode (p_revocation p);
       rv_reasonPrivate := rv_reasonPrivate (p_revocation p);
       rv_evidenceHash := rv_evidenceHash (p_revocation p) |} now p.

Definition set_superseded (at_ now : Z) (p : Proof) : Proof :=
  {| p_core := p_core p; p_status := p_status p;
     p_contractTransactionHash := p_contractTransactionHash p;
     p_revocation := p_revocation p; p_supersedesId := p_supersedesId p;
     p_supersededAt := Some at_; p_renewalRequestHash := p_renewalRequestHash p;
     p_propagationConfirmedAt := p_propagationConfirmedAt p; p_updatedAt := now |}.

Definition set_link (predecessor hash : string) (now : Z) (p : Proof) : Proof :=
  {| p_core := p_core p; p_status := p_status p;
     p_contractTransactionHash := p_contractTransactionHash p;
     p_revocation := p_revocation p; p_supersedesId := Some predecessor;
     p_supersededAt := p_supersededAt p; p_renewalRequestHash := Some hash;
     p_propagationConfirmedAt := p_propagationConfirmedAt p; p_updatedAt := now |}.

Definition set_transaction (tx : string) (now : Z) (p : Proof) : Proof :=
  {| p_core := p_core p; p_status := p_status p; p_contractTransactionHash := Some tx;
     p_revocation := p_revocation p; p_supersedesId := p_supersedesId p;
     p_supersededAt := p_supersededAt p; p_renewalRequestHash := p_renewalRequestHash p;
     p_propagationConfirmedAt := p_propagationConfirmedAt p; p_updatedAt := now |}.

Definition set_propagated (at_ now : Z) (p : Proof) : Proof :=
  {| p_core := p_core p; p_status := p_status p;
     p_contractTransactionHash := p_contractTransactionHash p;
     p_revocation := p_revocation p; p_supersedesId := p_supersedesId p;
     p_supersededAt := p_supersededAt p; p_renewalRequestHash := p_renewalRequestHash p;
     p_propagationConfirmedAt := Some at_; p_updatedAt := now |}.

(** ** Constraints of the schema *)

Record store_wf (s : Store) : Prop := {
  wf_proof_ids : NoDup ((fun p => p_id p) <$> proofs s);
  wf_intent_ids : NoDup ((fun i => i_id i) <$> intents s);
  wf_intent_keys : NoDup (intent_key <$> intents s);
  wf_supersedes : forall p q x, p ∈ proofs s -> q ∈ proofs s ->
    p_supersedesId p = Some x -> p_supersedesId q = Some x -> p = q;
}.

(** ** Evolution of a row *)

(** Status changes the writers make: expiry of an active proof, and revocation. *)
Definition status_le (a b : ProofStatus.t) : Prop :=
  a = b \/ b = ProofStatus.REVOKED \/ (a = ProofStatus.ACTIVE /\ b = ProofStatus.EXPIRED).

Record proof_evolves (p q : Proof) : Prop := {
  ev_core : p_core q = p_core p;
  ev_status : status_le (p_status p) (p_status q);
  ev_superseded : is_Some (p_supersededAt p) -> p_supersededAt q = p_supersededAt p;
  ev_link : is_Some (p_supersedesId p) ->
    p_supersedesId q = p_supersedesId p /\ p_renewalRequestHash q = p_renewalRequestHash p;
  ev_anchored : is_Some (p_contractTransactionHash p) -> is_Some (p_contractTransactionHash q);
}.

#[export] Instance proof_evolves_preorder : PreOrder proof_evolves.
Proof.
  split.
  - intros p. split; unfold status_le; auto.
  - intros p q r [c1 s1 a1 l1 t1] [c2 s2 a2 l2 t2]. split.
    + congruence.
    + unfold status_le in *. intuition congruence.
    + intros Hp. rewrite a2; rewrite a1; done.
    + intros Hp. destruct (l1 Hp) as [e1 e1']. destruct l2 as [e2 e2']; [by rewrite e1|]. split; congruence.
    + auto.
Qed.

(** Every row of the first store is still there, evolved. *)
Definition store_evolves (s s' : Store) : Prop :=
  forall p, p ∈ proofs s -> exists q, q ∈ proofs s' /\ proof_evolves p q.

#[export] Instance store_evolves_preorder : PreOrder store_evolves.
Proof.
  split.
  - intros s p Hp. by exists p.
  - intros s1 s2 s3 H12 H23 p Hp. destruct (H12 p Hp) as (q & Hq & Hpq).
    destruct (H23 q Hq) as (r & Hr & Hqr). exists r. split; [done|]. by etrans.
Qed.

Lemma store_evolves_same s s' : proofs s' = proofs s -> store_evolves s s'.
Proof. intros H p Hp. exists p. by rewrite H. Qed.

Lemma map_proofs_evolves w f s :
  (forall p, p ∈ proofs s -> w p = true -> proof_evolves p (f p)) ->
  store_evolves s (map_proofs w f s).
Proof.
  intros Hf p Hp. destruct (w p) eqn:E.
  - exists (f p). split; [|auto]. apply elem_of_update_where. exists p. by rewrite E.
  - exists p. split; [|done]. apply elem_of_update_where. exists p. by rewrite E.
Qed.

Lemma create_proof_evolves p s s' : create_proof p s = Ok s' -> store_evolves s s'.
Proof.
  unfold create_proof. intros H. run_result. intros q Hq. exists q. cbn. set_solver.
Qed.

Lemma create_intent_proofs i s s' : create_intent i s = Ok s' -> proofs s' = proofs s.
Proof. unfold create_intent. intros H. by run_result. Qed.

Lemma update_proof_evolves id f s s' :
  (forall p, proof_evolves p (f p)) -> update_proof id f s = Ok s' -> store_evolves s s'.
Proof.
  intros Hf. unfold update_proof. destruct (find_proof id s); [|done]. intros [= <-].
  by apply map_proofs_evolves.
Qed.

Lemma update_intent_proofs id f s s' : update_intent id f s = Ok s' -> proofs s' = proofs s.
Proof. unfold update_intent. destruct (find_intent id s); [|done]. by intros [= <-]. Qed.

(** ** Preservation of the constraints *)

Lemma proof_unique s p q : store_wf s -> p ∈ proofs s -> q ∈ proofs s -> p_id p = p_id q -> p = q.
Proof. intros Hwf. apply (key_unique (fun p => p_id p)), Hwf. Qed.

Lemma intent_unique s i j :
  store_wf s -> i ∈ intents s -> j ∈ intents s -> i_id i = i_id j -> i = j.
Proof. intros Hwf. apply (key_unique (fun i => i_id i)), Hwf. Qed.

Lemma find_proof_Some id s p : find_proof id s = Some p -> p ∈ proofs s /\ p_id p = id.
Proof. intros [Hp Hi]%find_where_Some. split; [done|]. by apply String.eqb_eq. Qed.

Lemma find_proof_elem s p : store_wf s -> p ∈ proofs s -> find_proof (p_id p) s = Some p.
Proof.
  intros Hwf Hp. destruct (find_proof (p_id p) s) as [q|] eqn:E.
  - apply find_proof_Some in E as [Hq Hi]. f_equal. by apply (proof_unique s).
  - unfold find_proof in E. rewrite find_where_None, Forall_forall in E. specialize (E p Hp).
    unfold has_id in E. by rewrite String.eqb_refl in E.
Qed.

Lemma find_intent_Some id s i : find_intent id s = Some i -> i ∈ intents s /\ i_id i = id.
Proof. intros [Hp Hi]%find_where_Some. split; [done|]. by apply String.eqb_eq. Qed.

Lemma superseded_by_Some id s p :
  superseded_by id s = Some p -> p ∈ proofs s /\ p_supersedesId p = Some id.
Proof. intros [Hp Hi]%find_where_Some. split; [done|]. by apply bool_decide_eq_true in Hi. Qed.

Lemma superseded_by_None id s :
  superseded_by id s = None <-> forall p, p ∈ proofs s -> p_supersedesId p <> Some id.
Proof.
  unfold superseded_by. rewrite find_where_None, Forall_forall.
  split; intros H p Hp; specialize (H p Hp); [by apply bool_decide_eq_false in H|].
  by apply bool_decide_eq_false.
Qed.

(** An update that leaves the core and the link of a row alone. *)
Definition keeps_link (f : Proof -> Proof) : Prop :=
  forall p, p_core (f p) = p_core p /\ p_supersedesId (f p) = p_supersedesId p.

Lemma map_proofs_wf w f s : keeps_link f -> store_wf s -> store_wf (map_proofs w f s).
Proof.
  intros Hf [H1 H2 H3 H4]. split; cbn; try done.
  - rewrite update_where_keys; [done|]. intros p. by rewrite (proj1 (Hf p)).
  - intros p q x Hp Hq Hpx Hqx. apply elem_of_update_where in Hp as (p0 & Hp0 & ->).
    apply elem_of_update_where in Hq as (q0 & Hq0 & ->).
    assert (p0 = q0) as ->; [|done]. apply (H4 p0 q0 x); try done.
    + destruct (w p0); [|done]. by rewrite <- (proj2 (Hf p0)).
    + destruct (w q0); [|done]. by rewrite <- (proj2 (Hf q0)).
Qed.

Lemma map_intents_wf w f s :
  (forall i, i_core (f i) = i_core i) -> store_wf s -> store_wf (map_intents w f s).
Proof.
  intros Hf [H1 H2 H3 H4]. split; cbn; try done.
  - rewrite update_where_keys; [done|]. intros i. by rewrite Hf.
  - rewrite update_where_keys; [done|]. intros i. unfold intent_key. by rewrite Hf.
Qed.

Lemma update_proof_wf id f s s' :
  keeps_link f -> update_proof id f s = Ok s' -> store_wf s -> store_wf s'.
Proof.
  intros Hf. unfold update_proof. destruct (find_proof id s); [|done]. intros [= <-].
  by apply map_proofs_wf.
Qed.

Lemma update_intent_wf id f s s' :
  (forall i, i_core (f i) = i_core i) -> update_intent id f s = Ok s' -> store_wf s -> store_wf s'.
Proof.
  intros Hf. unfold update_intent. destruct (find_intent id s); [|done]. intros [= <-].
  by apply map_intents_wf.
Qed.

Lemma create_intent_wf i s s' : create_intent i s = Ok s' -> store_wf s -> store_wf s'.
Proof.
  unfold create_intent. intros H [H1 H2 H3 H4]. run_result. reflect_hyps.
  split; cbn; try done; by apply NoDup_fmap_snoc.
Qed.

Lemma create_proof_wf p s s' : create_proof p s = Ok s' -> store_wf s -> store_wf s'.
Proof.
  unfold create_proof. intros H [H1 H2 H3 H4]. run_result. reflect_hyps.
  split; cbn; try done; [by apply NoDup_fmap_snoc|].
  assert (forall q x, q ∈ proofs s -> p_supersedesId p = Some x -> p_supersedesId q <> Some x) as Hnew.
  { intros q y Hq Hy Hqy. rewrite Hy in *. reflect_hyps.
    match goal with H : Some y ∉ _ |- _ => apply H end. apply list_elem_of_fmap. by exists q. }
  intros q r y Hq Hr Hqx Hrx. rewrite elem_of_app, list_elem_of_singleton in Hq, Hr.
  destruct Hq as [Hq| ->], Hr as [Hr| ->]; [by eapply H4|exfalso; by eapply Hnew..|done].
Qed.

Lemma set_audit_wf rows s : store_wf s -> store_wf (set_audit rows s).
Proof. by intros []. Qed.

Lemma create_audit_Ok id now args s s' :
  create_audit id now args s = Ok s' ->
  exists rows, createUnchained id now args (audit s) = Ok rows /\ s' = set_audit rows s.
Proof. unfold create_audit. intros (rows & Hr & [= <-])%bind_Ok. eauto. Qed.

(** The place every insert by a transaction's delegate takes. *)
Definition slot_taken (s : Store) : Prop := (SYSTEM_CHAIN_KEY, 0) ∈ row_key <$> audit s.

Lemma create_audit_takes id now args s s' : create_audit id now args s = Ok s' -> slot_taken s'.
Proof.
  intros (rows & Hr & ->)%create_audit_Ok. unfold createUnchained, insert_audit in Hr. run_result.
  unfold slot_taken. cbn. rewrite fmap_app. set_solver.
Qed.

Lemma create_audit_refused id now args s : slot_taken s -> create_audit id now args s = Err P2002.
Proof.
  intros Hs. unfold create_audit, createUnchained, insert_audit.
  rewrite (bool_decide_true (row_key _ ∈ _)) by exact Hs. by rewrite orb_true_r.
Qed.

#[export] Hint Resolve set_audit_wf map_proofs_wf map_intents_wf update_proof_wf update_intent_wf
  create_intent_wf create_proof_wf : earn.
