(* ===== verification/Credentials.v ===== *)
(** * Credential bodies

    The credential builders of [ProofsService] ([src/proofs/proofs.service.ts]),
    one per proof type, and [rebuildCredential], which reconstructs the body of
    an issued proof from its row and claim.  A body is a [json] value; its hash
    is the digest of its canonical text.  The payment keyring's [decrypt] and
    the digest [sha256] are arguments. *)

From S2P Require Import Prelude JsData DecimalText Calendar IsoDate Encoding Schema Canonical.
From S2P Require Import AggregateEarnings ProofStore.
From Stdlib Require Import Ascii.

Local Open Scope string_scope.
Local Open Scope Z_scope.
#[local] Arguments String.append !_ _ : simpl nomatch.

Definition SCHEMA_VERSION := "earnproof.minimum-income.v1".
Definition PAYMENT_RECEIPT_SCHEMA_VERSION := "earnproof.payment-receipt.v1".
Definition RECURRING_INCOME_SCHEMA_VERSION := "earnproof.recurring-income.v1".
Definition INVOICE_SETTLEMENT_SCHEMA_VERSION := "earnproof.invoice-settlement.v1".
Definition INCOME_RANGE_SCHEMA_VERSION := "earnproof.income-range.v1".
Definition AGGREGATE_EARNINGS_SCHEMA_VERSION := "earnproof.aggregate-earnings.v1".
Definition EMPLOYER_PAYMENT_SCHEMA_VERSION := "earnproof.employer-payment.v1".
Definition EMPLOYMENT_CONTINUITY_SCHEMA_VERSION := "earnproof.employment-continuity.v1".
Definition DEFAULT_EXPIRY_DAYS : Z := 30.

Inductive IntervalUnit := day | week | month.
Definition unit_text (u : IntervalUnit) : string :=
  match u with day => "day" | week => "week" | month => "month" end.

(** ** The envelope *)

(** The part every credential shares around its claim and privacy sections. *)
Definition envelope (id type schemaVersion walletHash : string) (claim privacy : json)
    (issuedAt expiresAt : Z) : json :=
  JObj [("id", JStr id); ("type", JStr type); ("schemaVersion", JStr schemaVersion);
        ("issuer", JStr "earnproof-backend");
        ("subject", JObj [("walletHash", JStr walletHash)]);
        ("claim", claim); ("privacy", privacy);
        ("issuedAt", jiso issuedAt); ("expiresAt", jiso expiresAt)].

(** ** Builders *)

Definition buildCredential (id walletHash thresholdAmount assetCode : string)
    (assetIssuer : option string) (periodStart periodEnd qualifyingPaymentCount : Z)
    (issuedAt expiresAt : Z) : json :=
  envelope id "EarnProofMinimumIncomeCredential" SCHEMA_VERSION walletHash
    (JObj [("operator", JStr "gte"); ("thresholdAmount", JStr thresholdAmount);
           ("assetCode", JStr assetCode); ("assetIssuer", jopt assetIssuer);
           ("periodStart", jiso periodStart); ("periodEnd", jiso periodEnd);
           ("qualifyingPaymentCount", JNum qualifyingPaymentCount)])
    (JObj [("exactIncomeHidden", JBool true); ("sourceTransactionsHidden", JBool true)])
    issuedAt expiresAt.

Definition buildAggregateEarningsCredential (id walletHash aggregateAmount roundingIncrement
    assetCode : string) (assetIssuer : option string) (periodStart periodEnd : Z)
    (sourceScope : string) (qualifyingPaymentCount : Z) (policyVersion : string)
    (issuedAt expiresAt : Z) : json :=
  envelope id "EarnProofAggregateEarningsCredential" AGGREGATE_EARNINGS_SCHEMA_VERSION walletHash
    (JObj [("operator", JStr "sum"); ("aggregateAmount", JStr aggregateAmount);
           ("rounding", JObj [("mode", JStr "floor"); ("increment", JStr roundingIncrement)]);
           ("assetCode", JStr assetCode); ("assetIssuer", jopt assetIssuer);
           ("periodStart", jiso periodStart); ("periodEnd", jiso periodEnd);
           ("periodBoundary", JStr "start-inclusive-end-exclusive");
           ("sourceScope", JStr sourceScope);
           ("qualifyingPaymentCount", JNum qualifyingPaymentCount);
           ("policyVersion", JStr policyVersion)])
    (JObj [("exactIncomeHidden", JBool true); ("sourceTransactionsHidden", JBool true);
           ("sourceIdentitiesHidden", JBool true)])
    issuedAt expiresAt.

Definition buildPaymentReceiptCredential (id walletHash assetCode : string)
    (assetIssuer : option string) (occurredAt : Z) (paymentReferenceHash : string)
    (senderHidden amountHidden : bool) (sourceAddress amount : option string)
    (issuedAt expiresAt : Z) : json :=
  envelope id "EarnProofPaymentReceiptCredential" PAYMENT_RECEIPT_SCHEMA_VERSION walletHash
    (JObj ([("assetCode", JStr assetCode); ("assetIssuer", jopt assetIssuer);
            ("occurredAt", jiso occurredAt); ("paymentReferenceHash", JStr paymentReferenceHash)]
           ++ (if senderHidden then [] else [("sourceAddress", jundef sourceAddress)])
           ++ (if amountHidden then [] else [("amount", jundef amount)]))%list)
    (JObj [("senderHidden", JBool senderHidden); ("amountHidden", JBool amountHidden)])
    issuedAt expiresAt.

Definition buildInvoiceSettlementCredential (id walletHash issuerId assetCode : string)
    (assetIssuer : option string) (occurredAt : Z) (invoiceReferenceHash : string)
    (amountHidden : bool) (amount : option string) (issuedAt expiresAt : Z) : json :=
  envelope id "EarnProofInvoiceSettlementCredential" INVOICE_SETTLEMENT_SCHEMA_VERSION walletHash
    (JObj ([("issuerId", JStr issuerId); ("assetCode", JStr assetCode);
            ("assetIssuer", jopt assetIssuer); ("occurredAt", jiso occurredAt);
            ("invoiceReferenceHash", JStr invoiceReferenceHash)]
           ++ (if amountHidden then [] else [("amount", jundef amount)]))%list)
    (JObj [("amountHidden", JBool amountHidden)])
    issuedAt expiresAt.

Definition buildRecurringIncomeCredential (id walletHash cadence : string) (intervalUnit : IntervalUnit)
    (intervalCount : Z) (assetCode : string) (assetIssuer : option string)
    (periodStart periodEnd qualifyingPaymentCount : Z) (issuedAt expiresAt : Z) : json :=
  envelope id "EarnProofRecurringIncomeCredential" RECURRING_INCOME_SCHEMA_VERSION walletHash
    (JObj [("cadence", JStr cadence); ("intervalUnit", JStr (unit_text intervalUnit));
           ("intervalCount", JNum intervalCount);
           ("assetCode", JStr assetCode); ("assetIssuer", jopt assetIssuer);
           ("periodStart", jiso periodStart); ("periodEnd", jiso periodEnd);
           ("qualifyingPaymentCount", JNum qualifyingPaymentCount)])
    (JObj [("exactIncomeHidden", JBool true); ("sourceTransactionsHidden", JBool true)])
    issuedAt expiresAt.

Definition buildIncomeRangeCredential (id walletHash lowerBound upperBound assetCode : string)
    (assetIssuer : option string) (periodStart periodEnd qualifyingPaymentCount : Z)
    (issuedAt expiresAt : Z) : json :=
  envelope id "EarnProofIncomeRangeCredential" INCOME_RANGE_SCHEMA_VERSION walletHash
    (JObj [("operator", JStr "range"); ("lowerBound", JStr lowerBound);
           ("upperBound", JStr upperBound);
           ("assetCode", JStr assetCode); ("assetIssuer", jopt assetIssuer);
           ("periodStart", jiso periodStart); ("periodEnd", jiso periodEnd);
           ("qualifyingPaymentCount", JNum qualifyingPaymentCount)])
    (JObj [("exactIncomeHidden", JBool true); ("sourceTransactionsHidden", JBool true)])
    issuedAt expiresAt.

Definition buildEmploymentContinuityCredential (id walletHash employerIssuerId assetCode : string)
    (assetIssuer : option string) (periodStart periodEnd : Z) (periodUnit : string)
    (observedPeriods toleratedMissingPeriods : Z) (policyVersion : string)
    (issuedAt expiresAt : Z) : json :=
  envelope id "EarnProofEmploymentContinuityCredential" EMPLOYMENT_CONTINUITY_SCHEMA_VERSION
    walletHash
    (JObj [("employerIssuerId", JStr employerIssuerId);
           ("assetCode", JStr assetCode); ("assetIssuer", jopt assetIssuer);
           ("periodStart", jiso periodStart); ("periodEnd", jiso periodEnd);
           ("periodUnit", JStr periodUnit); ("observedPeriods", JNum observedPeriods);
           ("toleratedMissingPeriods", JNum toleratedMissingPeriods);
           ("continuous", JBool true); ("policyVersion", JStr policyVersion)])
    (JObj [("amountHidden", JBool true); ("senderHidden", JBool true); ("memoHidden", JBool true);
           ("sourceTransactionsHidden", JBool true); ("paymentDatesHidden", JBool true)])
    issuedAt expiresAt.

Definition buildEmployerPaymentCredential (id walletHash employerIssuerId corroboration
    assetCode : string) (assetIssuer : option string) (periodStart periodEnd : Z)
    (policyVersion : string) (issuedAt expiresAt : Z) : json :=
  envelope id "EarnProofEmployerPaymentCredential" EMPLOYER_PAYMENT_SCHEMA_VERSION walletHash
    (JObj [("employerIssuerId", JStr employerIssuerId); ("corroboration", JStr corroboration);
           ("assetCode", JStr assetCode); ("assetIssuer", jopt assetIssuer);
           ("periodStart", jiso periodStart); ("periodEnd", jiso periodEnd);
           ("periodBoundary", JStr "start-inclusive-end-exclusive");
           ("paymentObserved", JBool true); ("policyVersion", JStr policyVersion)])
    (JObj [("amountHidden", JBool true); ("senderHidden", JBool true); ("memoHidden", JBool true);
           ("sourceTransactionsHidden", JBool true)])
    issuedAt expiresAt.

(** ** Stored values *)

Definition jsonPolicy (value : json) : list (string * json) :=
  match value with JObj kvs => kvs | _ => [] end.

(** [policy[key]] *)
Definition policy_get (policy : list (string * json)) (key : string) : json :=
  default JUndef (JsMap.get key policy).

(** [typeof policy[key] === "string" ? policy[key] : fallback], and for numbers. *)
Definition text_or (policy : list (string * json)) (key fallback : string) : string :=
  match policy_get policy key with JStr s => s | _ => fallback end.
Definition num_or (policy : list (string * json)) (key : string) (fallback : Z) : Z :=
  match policy_get policy key with JNum n => n | _ => fallback end.

(** [policy[key] !== false] *)
Definition not_false (policy : list (string * json)) (key : string) : bool :=
  match policy_get policy key with JBool false => false | _ => true end.

Fixpoint strip_prefix (p s : string) : option string :=
  match p, s with
  | EmptyString, _ => Some s
  | String a p, String b s => if Ascii.eqb a b then strip_prefix p s else None
  | String _ _, EmptyString => None
  end.

(** The digits after the unit: no leading zero, at most 120. *)
Definition cadence_count (s : string) : option Z :=
  match s with
  | EmptyString | String "0" _ => None
  | _ => if all_digits s && (dec_value s <=? 120) then Some (dec_value s) else None
  end.

Definition revealCadence (frequency : option string) : option (IntervalUnit * Z) :=
  let s := default EmptyString frequency in
  let reading u := strip_prefix (String.append (unit_text u) ":") s in
  match reading day, reading week, reading month with
  | Some r, _, _ => n ← cadence_count r; Some (day, n)
  | _, Some r, _ => n ← cadence_count r; Some (week, n)
  | _, _, Some r => n ← cadence_count r; Some (month, n)
  | _, _, _ => None
  end.

Definition protectAmount (amount : string) : string :=
  String.append "redacted:" (base64url_encode amount).

Definition revealThreshold (thresholdEncrypted : option string) : string :=
  match thresholdEncrypted ≫= strip_prefix "redacted:" with
  | None => "0"
  | Some b => base64url_decode b
  end.

Definition qualifyingPaymentCount (disclosurePolicy : json) : Z :=
  match JsMap.get "qualifyingPaymentCount" (jsonPolicy disclosurePolicy) with
  | Some (JNum count) => count
  | _ => 1
  end.

(** ** Rebuilding *)

Section rebuild.
(** [paymentEncryptionKeyring.decrypt], which may throw, and the digest. *)
Context (decrypt : string -> option string) (sha256 : string -> string).

Definition revealPaymentAmountForVerification (amountEncrypted : option string) : string :=
  match amountEncrypted with
  | None | Some EmptyString => EmptyString
  | Some a => default EmptyString (decrypt a)
  end.

Definition rebuildAggregateEarningsCredential (proof : ProofCore) (walletHash : string)
    (claim : Claim) : json :=
  let policy := jsonPolicy (cl_disclosurePolicy claim) in
  let rounding := policy_get policy "roundingIncrement" in
  let scope := policy_get policy "sourceScope" in
  buildAggregateEarningsCredential (pc_id proof) walletHash
    (revealThreshold (cl_thresholdEncrypted claim))
    (match rounding with
     | JStr r => if bool_decide (r ∈ ["0.0000001"; "0.01"; "1"; "10"; "100"; "1000"])
                 then r else "invalid"
     | _ => "invalid"
     end)
    (pc_assetCode proof) (pc_assetIssuer proof)
    (default (pc_createdAt proof) (pc_periodStart proof))
    (default (pc_createdAt proof) (pc_periodEnd proof))
    (match scope with
     | JStr s => if bool_decide (s ∈ ["income"; "trusted_sources"; "verified_issuers"])
                 then s else "invalid"
     | _ => "invalid"
     end)
    (num_or policy "qualifyingPaymentCount" 0)
    (text_or policy "policyVersion" AGGREGATE_EARNINGS_POLICY_VERSION)
    (pc_createdAt proof) (pc_expiresAt proof).

(** The instant a receipt or settlement was stored with, if it still parses. *)
Definition stored_instant (proof : ProofCore) (policy : list (string * json)) : Z :=
  match policy_get policy "occurredAt" with
  | JStr s =>
      match date_parse s with
      | Some t => t
      | None => default (pc_createdAt proof) (pc_periodStart proof)
      end
  | _ => default (pc_createdAt proof) (pc_periodStart proof)
  end.

Definition rebuildPaymentReceiptCredential (proof : ProofCore) (walletHash : string)
    (claim : Claim) : json :=
  let policy := jsonPolicy (cl_disclosurePolicy claim) in
  let senderHidden := not_false policy "senderHidden" in
  let amountHidden := not_false policy "amountHidden" in
  buildPaymentReceiptCredential (pc_id proof) walletHash (pc_assetCode proof) (pc_assetIssuer proof)
    (stored_instant proof policy) (text_or policy "paymentReferenceHash" EmptyString)
    senderHidden amountHidden
    (match policy_get policy "sourceAddress" with JStr s => Some s | _ => None end)
    (if amountHidden then None
     else Some (revealPaymentAmountForVerification (cl_thresholdEncrypted claim)))
    (pc_createdAt proof) (pc_expiresAt proof).

Definition rebuildInvoiceSettlementCredential (proof : ProofCore) (walletHash : string)
    (claim : Claim) : json :=
  let policy := jsonPolicy (cl_disclosurePolicy claim) in
  let amountHidden := not_false policy "amountHidden" in
  buildInvoiceSettlementCredential (pc_id proof) walletHash (text_or policy "issuerId" EmptyString)
    (pc_assetCode proof) (pc_assetIssuer proof) (stored_instant proof policy)
    (text_or policy "invoiceReferenceHash" EmptyString) amountHidden
    (if amountHidden then None
     else Some (revealPaymentAmountForVerification (cl_thresholdEncrypted claim)))
    (pc_createdAt proof) (pc_expiresAt proof).

Definition stored_corroboration (policy : list (string * json)) : string :=
  match policy_get policy "corroboration" with
  | JStr c => if bool_decide (c ∈ ["issuer_account"; "issuer_attestation"]) then c else "issuer_account"
  | _ => "issuer_account"
  end.

Definition rebuildEmployerPaymentCredential (proof : ProofCore) (walletHash : string)
    (claim : Claim) : json :=
  let policy := jsonPolicy (cl_disclosurePolicy claim) in
  buildEmployerPaymentCredential (pc_id proof) walletHash
    (text_or policy "employerIssuerId" EmptyString)
    (stored_corroboration policy)
    (pc_assetCode proof) (pc_assetIssuer proof)
    (default (pc_createdAt proof) (pc_periodStart proof))
    (default (pc_createdAt proof) (pc_periodEnd proof))
    (text_or policy "policyVersion" EmptyString)
    (pc_createdAt proof) (pc_expiresAt proof).

Definition rebuildEmploymentContinuityCredential (proof : ProofCore) (walletHash : string)
    (claim : Claim) : json :=
  let policy := jsonPolicy (cl_disclosurePolicy claim) in
  buildEmploymentContinuityCredential (pc_id proof) walletHash
    (text_or policy "employerIssuerId" EmptyString) (pc_assetCode proof) (pc_assetIssuer proof)
    (default (pc_createdAt proof) (pc_periodStart proof))
    (default (pc_createdAt proof) (pc_periodEnd proof))
    (text_or policy "periodUnit" EmptyString)
    (num_or policy "observedPeriods" (-1)) (num_or policy "toleratedMissingPeriods" (-1))
    (text_or policy "policyVersion" EmptyString)
    (pc_createdAt proof) (pc_expiresAt proof).

Definition rebuildCredential (proof : ProofCore) (walletHash : string) (claim : Claim) : json :=
  let policy := jsonPolicy (cl_disclosurePolicy claim) in
  let cadence := revealCadence (cl_frequency claim) in
  let periodStart := default (pc_createdAt proof) (pc_periodStart proof) in
  let periodEnd := default (pc_createdAt proof) (pc_periodEnd proof) in
  match pc_proofType proof with
  | ProofType.AGGREGATE_EARNINGS => rebuildAggregateEarningsCredential proof walletHash claim
  | ProofType.RECURRING_INCOME =>
      buildRecurringIncomeCredential (pc_id proof) walletHash
        (default "invalid" (cl_frequency claim))
        (match cadence with Some (u, _) => u | None => month end)
        (match cadence with Some (_, n) => n | None => 0 end)
        (pc_assetCode proof) (pc_assetIssuer proof) periodStart periodEnd
        (num_or policy "qualifyingPaymentCount" 0) (pc_createdAt proof) (pc_expiresAt proof)
  | ProofType.PAYMENT_RECEIPT => rebuildPaymentReceiptCredential proof walletHash claim
  | ProofType.INVOICE_SETTLEMENT => rebuildInvoiceSettlementCredential proof walletHash claim
  | ProofType.INCOME_RANGE =>
      buildIncomeRangeCredential (pc_id proof) walletHash
        (text_or policy "lowerBound" "0") (text_or policy "upperBound" "0")
        (pc_assetCode proof) (pc_assetIssuer proof) periodStart periodEnd
        (qualifyingPaymentCount (cl_disclosurePolicy claim))
        (pc_createdAt proof) (pc_expiresAt proof)
  | ProofType.EMPLOYER_PAYMENT => rebuildEmployerPaymentCredential proof walletHash claim
  | ProofType.EMPLOYMENT_CONTINUITY => rebuildEmploymentContinuityCredential proof walletHash claim
  | ProofType.MINIMUM_INCOME =>
      buildCredential (pc_id proof) walletHash (revealThreshold (cl_thresholdEncrypted claim))
        (pc_assetCode proof) (pc_assetIssuer proof) periodStart periodEnd
        (qualifyingPaymentCount (cl_disclosurePolicy claim))
        (pc_createdAt proof) (pc_expiresAt proof)
  end.

(** [`sha256:${sha256(canonicalize(v))}`] *)
Definition content_hash (v : json) : string :=
  match canonicalize v with
  | Ok (Some text) => String.append "sha256:" (sha256 text)
  | _ => EmptyString          (* not reached for a credential: see [rebuild_text] *)
  end.

(** The check of [verifyProof]: the committed hash is that of the rebuilt body. *)
Definition hash_matches (proof : ProofCore) (walletHash : string) (claim : Claim) : bool :=
  String.eqb (pc_credentialHash proof) (content_hash (rebuildCredential proof walletHash claim)).
End rebuild.

(** ** Every credential has a canonical text *)

Lemma jopt_finite o : has_non_finite (jopt o) = false.
Proof. by destruct o. Qed.
Lemma jundef_finite o : has_non_finite (jundef o) = false.
Proof. by destruct o. Qed.

Lemma envelope_text id type sv w claim privacy t1 t2 :
  has_non_finite claim = false -> has_non_finite privacy = false ->
  exists text, canonicalize (envelope id type sv w claim privacy t1 t2) = Ok (Some text).
Proof.
  intros Hc Hp. unfold canonicalize, envelope. cbn [has_non_finite existsb snd jiso].
  rewrite Hc, Hp. by eexists.
Qed.

Lemma rebuild_text decrypt proof w claim :
  exists text, canonicalize (rebuildCredential decrypt proof w claim) = Ok (Some text).
Proof.
  unfold rebuildCredential. destruct (pc_proofType proof); apply envelope_text;
    try destruct (not_false _ "senderHidden"); try destruct (not_false _ "amountHidden");
    cbn [app has_non_finite existsb snd jiso]; by rewrite ?jopt_finite, ?jundef_finite.
Qed.

Lemma append_left_inj p s1 s2 : String.append p s1 = String.append p s2 -> s1 = s2.
Proof. induction p; cbn; [done|]. intros [= H]. auto. Qed.

Lemma strip_prefix_append p s : strip_prefix p (String.append p s) = Some s.
Proof. induction p; cbn; [done|]. by rewrite Ascii.eqb_refl. Qed.

Lemma revealThreshold_protect amount : revealThreshold (Some (protectAmount amount)) = amount.
Proof.
  unfold revealThreshold, protectAmount. cbn [mbind option_bind].
  rewrite strip_prefix_append. apply base64url_round_trip.
Qed.
