(* ===== verification/Issuance.v ===== *)
(** * Proof issuance

    The eight [create...Proof] methods of [ProofsService]
    ([src/proofs/proofs.service.ts]).  Each takes the tables as they are when
    the request reads them ([db]) and as they are inside the issuing
    transaction ([txdb]), checks in the order of the source, and returns the row
    the transaction writes.  [issue] is the transaction's writes on the proof
    store.  Request dates are already parsed; an invalid date is [None].  The
    keyring, the digests and the quota charge are arguments. *)

From S2P Require Import Prelude JsData DecimalText Calendar IsoDate Encoding Schema Canonical.
From S2P Require Import PaymentStore AggregateEarnings EmployerPayment Continuity ProofStore.
From S2P Require Import Credentials.
From Stdlib Require Import Ascii.

Local Open Scope string_scope.
Local Open Scope Z_scope.
#[local] Arguments String.append !_ _ : simpl nomatch.

Record User := { u_id : string; u_walletHash : string; u_role : UserRole.t }.

Record Config := {
  cfg_network : string;
  cfg_anchoringEnabled : bool;
  cfg_anchoringRequired : bool;
}.

Inductive IssueError :=
| PeriodInverted | InvalidDate | InvalidPayments | NotEligibleIncome | PaymentNotFound
| PaymentNotEligible | FinalityHold | PaymentExcluded | WrongAsset | OutsidePeriod
| AmountUnavailable | ThresholdNotMet | BoundsInverted | OutsideRange | InvalidAmount
| CadenceMismatch | IntervalsMissing (n : nat) | EmptyReference | InactiveIssuer
| ReferenceSettled | PaymentSettled | AmbiguousMatch | AssetNotSupported | QuotaExceeded
| IssuerIdsNotAllowed | Aggregation (r : AggregationRejection)
| EmployerPeriod (v : EmployerPaymentPeriodViolation) | SourceNotFound
| EmployerSourceError (r : EmployerSourceRefusal) | EmployerPaymentNotFound | NotCorroborated
| ContinuityWindowError (v : ContinuityWindowViolation) | ContinuityLimitExceeded
| ContinuityNotSatisfied.

(** ** Amounts *)

(** [s.split(".")]: the part before the first dot and the part before the next. *)
Fixpoint before_dot (s : string) : string * option string :=
  match s with
  | EmptyString => (EmptyString, None)
  | String c s =>
      if Ascii.eqb c "." then (EmptyString, Some s)
      else let '(w, r) := before_dot s in (String c w, r)
  end.

(** [BigInt(s)] on decimal text; anything else throws. *)
Definition big_int (s : string) : option Z :=
  match s with
  | EmptyString => Some 0
  | String "-" (String _ _ as d) => if all_digits d then Some (- dec_value d) else None
  | String "+" (String _ _ as d) => if all_digits d then Some (dec_value d) else None
  | _ => if all_digits s then Some (dec_value s) else None
  end.

Definition parseAmount (amount : string) : option Z :=
  let '(whole, rest) := before_dot amount in
  let decimal := match rest with None => EmptyString | Some r => (before_dot r).1 end in
  w ← big_int whole;
  d ← big_int (pad_end 7 "0"%char decimal);
  Some (w * 10000000 + d).

(** ** Invoice references *)

(** Replace each run of white space by one blank. *)
Fixpoint collapse (in_space : bool) (s : string) : string :=
  match s with
  | EmptyString => EmptyString
  | String c s =>
      if is_space c then (if in_space then collapse true s else String " " (collapse true s))
      else String c (collapse false s)
  end.

Definition lower_char (c : ascii) : ascii :=
  let n := byte_val c in
  if ((65 <=? n) && (n <=? 90)) || ((192 <=? n) && (n <=? 222) && negb (n =? 215))
  then byte_of (n + 32) else c.
Fixpoint lower (s : string) : string :=
  match s with EmptyString => EmptyString | String c s => String (lower_char c) (lower s) end.

Definition normalizeInvoiceReference (raw : string) : string := lower (collapse false (trim raw)).

(** ** Intervals of a recurring income *)

Definition addIntervalUnit (date : JsDate) (u : IntervalUnit) (amount : Z) : JsDate :=
  t ← date;
  match u with
  | day => time_clip (t + amount * DAY_MS)
  | week => time_clip (t + amount * 7 * DAY_MS)
  | month =>
      time_clip ((month_first_day (utc_full_year t) (utc_month t + amount) + (utc_date t - 1)) * DAY_MS
                 + t mod DAY_MS)
  end.

Definition date_min (a b : JsDate) : JsDate := if date_lt a b then a else b.

Definition buildRecurringIntervals (periodStart periodEnd : JsDate) (u : IntervalUnit) (count : Z)
    : result IssueError (list (JsDate * JsDate)) :=
  let finalIntervalStart := addIntervalUnit periodStart u (count - 1) in
  let cadenceEnd := addIntervalUnit periodStart u count in
  _ ← throw_if (date_lt periodEnd finalIntervalStart || date_ge periodEnd cadenceEnd) CadenceMismatch;
  Ok ((fun index : nat =>
         let i := Z.of_nat index in
         let start := addIntervalUnit periodStart u i in
         let nextStart := addIntervalUnit periodStart u (i + 1) in
         let naturalEnd := t ← nextStart; time_clip (t - 1) in
         (start, date_min naturalEnd periodEnd)) <$> seq 0 (Z.to_nat count)).

(** ** Shared steps *)

(** Check rows one after the other; the first failure is thrown. *)
Fixpoint check_each {E A} (f : A -> result E unit) (l : list A) : result E unit :=
  match l with
  | [] => Ok tt
  | x :: l => _ ← f x; check_each f l
  end.

Definition valid_date (d : JsDate) : result IssueError Z :=
  match d with Some t => Ok t | None => Err InvalidDate end.

Definition require {A} (o : option A) (e : IssueError) : result IssueError A :=
  match o with Some a => Ok a | None => Err e end.

Definition expiry (now : Z) (expiresInDays : option Z) : Z :=
  now + default DEFAULT_EXPIRY_DAYS expiresInDays * 24 * 60 * 60 * 1000.

(** The selected payments of the caller; ids are de-duplicated first. *)
Definition selected (db : Db) (user : User) (ids : list string) : list Payment :=
  List.filter (fun p => bool_decide (pay_id p ∈ js_set ids) && bool_decide (pay_userId p = u_id user))
    (payments db).

Definition load_selected (db : Db) (user : User) (ids : list string)
    : result IssueError (list Payment) :=
  let rows := selected db user ids in
  _ ← throw_if (negb (length rows =? length (js_set ids))%nat) InvalidPayments;
  Ok rows.

Definition check_income (p : Payment) : result IssueError unit :=
  throw_if (negb (bool_decide (pay_classification p = PaymentClassification.INCOME))
            || negb (pay_isEligible p)) NotEligibleIncome.
Definition check_hold (p : Payment) : result IssueError unit :=
  throw_if (bool_decide (is_Some (pay_finalityHoldAt p))) FinalityHold.
Definition check_asset (code : string) (issuer : option string) (p : Payment) : result IssueError unit :=
  throw_if (negb (bool_decide (pay_assetCode p = code)) || negb (bool_decide (pay_assetIssuer p = issuer)))
    WrongAsset.
Definition check_period (s e : JsDate) (p : Payment) : result IssueError unit :=
  throw_if (date_lt (Some (pay_occurredAt p)) s || date_gt (Some (pay_occurredAt p)) e) OutsidePeriod.

Section create.
(** The payment keyring, the digest, the keyed digest and the address cipher. *)
Context (decrypt : string -> option string) (sha256 : string -> string).
Context (keyedDigest : string -> string).
Context (revealAddress : option string -> option string -> option string).
Context (hmac : string -> string -> string) (activeSecret : string).
Context (cfg : Config).

(** [quotas.consumeForUser] inside the transaction: whether the charge is accepted. *)
Context (consumeForUser : string -> bool).

Definition charge (user : User) : result IssueError unit :=
  throw_if (negb (consumeForUser (u_id user))) QuotaExceeded.

Definition requireActiveAssetPolicy (txdb : Db) (code : string) (issuer : option string)
    : result IssueError unit :=
  match find_where (fun a => bool_decide (sa_code a = code) && bool_decide (sa_issuer a = issuer) &&
                             bool_decide (sa_network a = cfg_network cfg) &&
                             bool_decide (sa_status a = ResourceStatus.ACTIVE)) (supportedAssets txdb) with
  | Some _ => Ok tt
  | None => Err AssetNotSupported
  end.

(** The row and claim a transaction creates, around the credential it commits to. *)
Definition make_core (id : string) (user : User) (type : ProofType.t) (schemaVersion code : string)
    (issuer : option string) (periodStart periodEnd expiresAt now : Z) (credential : json)
    (claim : Claim) : ProofCore :=
  let credentialHash := content_hash sha256 credential in
  {| pc_id := id; pc_userId := u_id user; pc_proofType := type; pc_schemaVersion := schemaVersion;
     pc_network := cfg_network cfg; pc_assetCode := code; pc_assetIssuer := issuer;
     pc_periodStart := Some periodStart; pc_periodEnd := Some periodEnd; pc_expiresAt := expiresAt;
     pc_commitment := Some (String.append "sha256:" (sha256 credentialHash));
     pc_credentialHash := credentialHash; pc_createdAt := now; pc_claim := Some claim |}.

(** [revealProtectedAmount] / [tryRevealProtectedAmount]: [None] is the throw. *)
Definition revealProtectedAmount (amountEncrypted : option string) : option Z :=
  match amountEncrypted with
  | None | Some EmptyString => None
  | Some a => decrypt a ≫= parseAmount
  end.

Definition revealPaymentAmount (amountEncrypted : option string) : option string :=
  match amountEncrypted with
  | None | Some EmptyString => None
  | Some a => decrypt a
  end.

(** [payments.reduce((sum, p) => sum + revealProtectedAmount(p), 0n)] *)
Fixpoint total_amount (l : list Payment) (sum : Z) : result IssueError Z :=
  match l with
  | [] => Ok sum
  | p :: l =>
      match revealProtectedAmount (pay_amountEncrypted p) with
      | None => Err AmountUnavailable
      | Some a => total_amount l (sum + a)
      end
  end.

(** *** Minimum income *)

Record MinimumIncomeInput := {
  mi_selectedPaymentIds : list string;
  mi_thresholdAmount : string;
  mi_assetCode : string;
  mi_assetIssuer : option string;
  mi_periodStart : JsDate;
  mi_periodEnd : JsDate;
  mi_expiresInDays : option Z;
}.

Definition check_minimum_income (input : MinimumIncomeInput) (p : Payment) : result IssueError unit :=
  _ ← check_income p;
  _ ← check_hold p;
  _ ← check_asset (mi_assetCode input) (mi_assetIssuer input) p;
  check_period (mi_periodStart input) (mi_periodEnd input) p.

Definition createMinimumIncomeProof (db txdb : Db) (user : User) (input : MinimumIncomeInput)
    (now : Z) (proofId : string) : result IssueError ProofCore :=
  _ ← throw_if (date_gt (mi_periodStart input) (mi_periodEnd input)) PeriodInverted;
  rows ← load_selected db user (mi_selectedPaymentIds input);
  _ ← check_each (check_minimum_income input) rows;
  total ← total_amount rows 0;
  threshold ← require (parseAmount (mi_thresholdAmount input)) InvalidAmount;
  _ ← throw_if (total <? threshold) ThresholdNotMet;
  let expiresAt := expiry now (mi_expiresInDays input) in
  periodStart ← valid_date (mi_periodStart input);
  periodEnd ← valid_date (mi_periodEnd input);
  let count := Z.of_nat (length rows) in
  let credential := buildCredential proofId (u_walletHash user) (mi_thresholdAmount input)
    (mi_assetCode input) (mi_assetIssuer input) periodStart periodEnd count now expiresAt in
  _ ← charge user;
  _ ← requireActiveAssetPolicy txdb (mi_assetCode input) (mi_assetIssuer input);
  Ok (make_core proofId user ProofType.MINIMUM_INCOME SCHEMA_VERSION (mi_assetCode input)
        (mi_assetIssuer input) periodStart periodEnd expiresAt now credential
        {| cl_operator := "gte";
           cl_thresholdEncrypted := Some (protectAmount (mi_thresholdAmount input));
           cl_frequency := None; cl_result := true;
           cl_disclosurePolicy := JObj [("exactIncomeHidden", JBool true);
             ("sourceTransactionsHidden", JBool true); ("qualifyingPaymentCount", JNum count)] |}).

(** *** Income range *)

Record IncomeRangeInput := {
  ir_selectedPaymentIds : list string;
  ir_lowerBound : string;
  ir_upperBound : string;
  ir_assetCode : string;
  ir_assetIssuer : option string;
  ir_periodStart : JsDate;
  ir_periodEnd : JsDate;
  ir_expiresInDays : option Z;
}.

Definition check_income_range (input : IncomeRangeInput) (p : Payment) : result IssueError unit :=
  _ ← check_income p;
  _ ← check_asset (ir_assetCode input) (ir_assetIssuer input) p;
  check_period (ir_periodStart input) (ir_periodEnd input) p.

Definition createIncomeRangeProof (db txdb : Db) (user : User) (input : IncomeRangeInput)
    (now : Z) (proofId : string) : result IssueError ProofCore :=
  _ ← throw_if (date_gt (ir_periodStart input) (ir_periodEnd input)) PeriodInverted;
  lowerBound ← require (parseAmount (ir_lowerBound input)) InvalidAmount;
  upperBound ← require (parseAmount (ir_upperBound input)) InvalidAmount;
  _ ← throw_if (upperBound <=? lowerBound) BoundsInverted;
  rows ← load_selected db user (ir_selectedPaymentIds input);
  _ ← check_each (check_income_range input) rows;
  total ← total_amount rows 0;
  _ ← throw_if ((total <? lowerBound) || (upperBound <? total)) OutsideRange;
  let expiresAt := expiry now (ir_expiresInDays input) in
  periodStart ← valid_date (ir_periodStart input);
  periodEnd ← valid_date (ir_periodEnd input);
  let count := Z.of_nat (length rows) in
  let credential := buildIncomeRangeCredential proofId (u_walletHash user) (ir_lowerBound input)
    (ir_upperBound input) (ir_assetCode input) (ir_assetIssuer input) periodStart periodEnd count
    now expiresAt in
  _ ← charge user;
  _ ← requireActiveAssetPolicy txdb (ir_assetCode input) (ir_assetIssuer input);
  Ok (make_core proofId user ProofType.INCOME_RANGE INCOME_RANGE_SCHEMA_VERSION (ir_assetCode input)
        (ir_assetIssuer input) periodStart periodEnd expiresAt now credential
        {| cl_operator := "range"; cl_thresholdEncrypted := None; cl_frequency := None;
           cl_result := true;
           cl_disclosurePolicy := JObj [("exactIncomeHidden", JBool true);
             ("sourceTransactionsHidden", JBool true); ("qualifyingPaymentCount", JNum count);
             ("lowerBound", JStr (ir_lowerBound input)); ("upperBound", JStr (ir_upperBound input))] |}).
(** *** Recurring income *)

Record RecurringIncomeInput := {
  rc_selectedPaymentIds : list string;
  rc_intervalUnit : IntervalUnit;
  rc_intervalCount : Z;
  rc_assetCode : string;
  rc_assetIssuer : option string;
  rc_periodStart : JsDate;
  rc_periodEnd : JsDate;
  rc_expiresInDays : option Z;
}.

Definition check_recurring (input : RecurringIncomeInput) (p : Payment) : result IssueError unit :=
  _ ← check_income p;
  _ ← check_hold p;
  _ ← check_asset (rc_assetCode input) (rc_assetIssuer input) p;
  check_period (rc_periodStart input) (rc_periodEnd input) p.

(** An interval that contains one of the payments. *)
Definition interval_paid (rows : list Payment) (i : JsDate * JsDate) : bool :=
  existsb (fun p => date_ge (Some (pay_occurredAt p)) i.1 && date_ge i.2 (Some (pay_occurredAt p))) rows.

Definition createRecurringIncomeProof (db txdb : Db) (user : User) (input : RecurringIncomeInput)
    (now : Z) (proofId : string) : result IssueError ProofCore :=
  _ ← throw_if (date_ge (rc_periodStart input) (rc_periodEnd input)) PeriodInverted;
  intervals ← buildRecurringIntervals (rc_periodStart input) (rc_periodEnd input)
    (rc_intervalUnit input) (rc_intervalCount input);
  rows ← load_selected db user (rc_selectedPaymentIds input);
  _ ← check_each (check_recurring input) rows;
  let missingIntervals := List.filter (fun i => negb (interval_paid rows i)) intervals in
  _ ← throw_if (0 <? length missingIntervals)%nat (IntervalsMissing (length missingIntervals));
  let expiresAt := expiry now (rc_expiresInDays input) in
  let cadence := String.append (unit_text (rc_intervalUnit input))
    (String.append ":" (num_text (rc_intervalCount input))) in
  periodStart ← valid_date (rc_periodStart input);
  periodEnd ← valid_date (rc_periodEnd input);
  let count := Z.of_nat (length rows) in
  let credential := buildRecurringIncomeCredential proofId (u_walletHash user) cadence
    (rc_intervalUnit input) (rc_intervalCount input) (rc_assetCode input) (rc_assetIssuer input)
    periodStart periodEnd count now expiresAt in
  _ ← charge user;
  _ ← requireActiveAssetPolicy txdb (rc_assetCode input) (rc_assetIssuer input);
  Ok (make_core proofId user ProofType.RECURRING_INCOME RECURRING_INCOME_SCHEMA_VERSION
        (rc_assetCode input) (rc_assetIssuer input) periodStart periodEnd expiresAt now credential
        {| cl_operator := "recurring"; cl_thresholdEncrypted := None; cl_frequency := Some cadence;
           cl_result := true;
           cl_disclosurePolicy := JObj [("exactIncomeHidden", JBool true);
             ("sourceTransactionsHidden", JBool true); ("qualifyingPaymentCount", JNum count);
             ("intervalUnit", JStr (unit_text (rc_intervalUnit input)));
             ("intervalCount", JNum (rc_intervalCount input))] |}).

(** *** Payment receipt *)

Record PaymentReceiptInput := {
  pr_paymentId : string;
  pr_discloseSender : bool;                     (* input.discloseSender === true *)
  pr_discloseAmount : bool;
  pr_expiresInDays : option Z;
}.

Definition createPaymentReceiptProof (db txdb : Db) (user : User) (input : PaymentReceiptInput)
    (now : Z) (proofId : string) : result IssueError ProofCore :=
  payment ← require (find_where (fun p => bool_decide (pay_id p = pr_paymentId input) &&
    bool_decide (pay_userId p = u_id user)) (payments db)) PaymentNotFound;
  _ ← throw_if (negb (pay_isEligible payment)) PaymentNotEligible;
  _ ← check_hold payment;
  _ ← throw_if (bool_decide (pay_classification payment = PaymentClassification.EXCLUDED))
        PaymentExcluded;
  let senderHidden := negb (pr_discloseSender input) in
  let amountHidden := negb (pr_discloseAmount input) in
  sourceAddress ← (if senderHidden then Ok None else
    a ← require (revealAddress (pay_sourceAddressEncrypted payment) (pay_sourceAddress payment))
          PaymentNotEligible; Ok (Some a));
  amount ← (if amountHidden then Ok None else
    a ← require (revealPaymentAmount (pay_amountEncrypted payment)) PaymentNotEligible; Ok (Some a));
  let expiresAt := expiry now (pr_expiresInDays input) in
  let paymentReferenceHash := String.append "sha256:" (sha256 (pay_operationId payment)) in
  let occurredAt := pay_occurredAt payment in
  let credential := buildPaymentReceiptCredential proofId (u_walletHash user) (pay_assetCode payment)
    (pay_assetIssuer payment) occurredAt paymentReferenceHash senderHidden amountHidden
    sourceAddress amount now expiresAt in
  _ ← charge user;
  _ ← requireActiveAssetPolicy txdb (pay_assetCode payment) (pay_assetIssuer payment);
  Ok (make_core proofId user ProofType.PAYMENT_RECEIPT PAYMENT_RECEIPT_SCHEMA_VERSION
        (pay_assetCode payment) (pay_assetIssuer payment) occurredAt occurredAt expiresAt now credential
        {| cl_operator := "receipt";
           cl_thresholdEncrypted := if amountHidden then None else pay_amountEncrypted payment;
           cl_frequency := None; cl_result := true;
           cl_disclosurePolicy := JObj ([("senderHidden", JBool senderHidden);
             ("amountHidden", JBool amountHidden);
             ("paymentReferenceHash", JStr paymentReferenceHash); ("occurredAt", jiso occurredAt)]
             ++ (if senderHidden then [] else [("sourceAddress", jundef sourceAddress)]))%list |}).
(** *** Invoice settlement *)

Record InvoiceSettlementInput := {
  iv_invoiceReference : string;
  iv_issuerId : string;
  iv_assetCode : string;
  iv_assetIssuer : option string;
  iv_expectedAmount : string;
  iv_periodStart : option JsDate;               (* None: not given *)
  iv_periodEnd : option JsDate;
  iv_discloseAmount : bool;
  iv_expiresInDays : option Z;
}.

Definition bound_ok (cmp : Z -> Z -> bool) (b : option JsDate) (t : Z) : bool :=
  match b with Some (Some x) => cmp x t | _ => true end.

Definition invoice_candidate (db : Db) (user : User) (input : InvoiceSettlementInput)
    (addresses : list string) (p : Payment) : bool :=
  bool_decide (pay_userId p = u_id user) &&
  match pay_sourceAddress p with None => false | Some a => bool_decide (a ∈ addresses) end &&
  bool_decide (pay_assetCode p = iv_assetCode input) &&
  bool_decide (pay_assetIssuer p = iv_assetIssuer input) &&
  pay_isEligible p &&
  negb (bool_decide (pay_classification p = PaymentClassification.EXCLUDED)) &&
  negb (bool_decide (pay_id p ∈ st_paymentId <$> settlements db)) &&
  bound_ok Z.leb (iv_periodStart input) (pay_occurredAt p) &&
  bound_ok Z.geb (iv_periodEnd input) (pay_occurredAt p).

(** The only payment that matches, or the refusal. *)
Definition match_invoice (db : Db) (user : User) (input : InvoiceSettlementInput)
    (invoiceReferenceHash : string) : result IssueError Payment :=
  issuer ← require (find_where (fun i => bool_decide (is_id i = iv_issuerId input)) (issuers db))
    InactiveIssuer;
  _ ← throw_if (negb (bool_decide (is_status issuer = ResourceStatus.ACTIVE))) InactiveIssuer;
  _ ← throw_if (existsb (fun s => bool_decide (st_issuerId s = iv_issuerId input) &&
    bool_decide (st_invoiceReferenceHash s = invoiceReferenceHash)) (settlements db)) ReferenceSettled;
  let trusted := List.filter (fun t => bool_decide (ts_userId t = u_id user) &&
    bool_decide (ts_issuerId t = Some (iv_issuerId input)) &&
    bool_decide (ts_status t = ResourceStatus.ACTIVE)) (trustedSources db) in
  _ ← throw_if (length trusted =? 0)%nat PaymentNotFound;
  _ ← throw_if (bool_decide (iv_periodStart input = Some None) ||
                bool_decide (iv_periodEnd input = Some None)) InvalidDate;
  let candidates := List.filter (invoice_candidate db user input (ts_sourceAddress <$> trusted))
    (payments db) in
  expectedAmount ← require (parseAmount (iv_expectedAmount input)) InvalidAmount;
  let matches := List.filter (fun c =>
    bool_decide (revealProtectedAmount (pay_amountEncrypted c) = Some expectedAmount)) candidates in
  match matches with
  | [] => Err PaymentNotFound
  | [p] => Ok p
  | _ => Err AmbiguousMatch
  end.

Definition createInvoiceSettlementProof (db txdb : Db) (user : User) (input : InvoiceSettlementInput)
    (now : Z) (proofId : string) : result IssueError (ProofCore * Settlement) :=
  let normalizedReference := normalizeInvoiceReference (iv_invoiceReference input) in
  _ ← throw_if (String.eqb normalizedReference EmptyString) EmptyReference;
  let invoiceReferenceHash := String.append "sha256:" (sha256 normalizedReference) in
  _ ← throw_if (match iv_periodStart input, iv_periodEnd input with
                | Some s, Some e => date_gt s e | _, _ => false end) PeriodInverted;
  payment ← match_invoice db user input invoiceReferenceHash;
  let amountHidden := negb (iv_discloseAmount input) in
  amount ← (if amountHidden then Ok None else
    a ← require (revealPaymentAmount (pay_amountEncrypted payment)) PaymentNotEligible; Ok (Some a));
  let expiresAt := expiry now (iv_expiresInDays input) in
  let occurredAt := pay_occurredAt payment in
  let credential := buildInvoiceSettlementCredential proofId (u_walletHash user) (iv_issuerId input)
    (pay_assetCode payment) (pay_assetIssuer payment) occurredAt invoiceReferenceHash amountHidden
    amount now expiresAt in
  _ ← throw_if (bool_decide (pay_id payment ∈ st_paymentId <$> settlements txdb)) PaymentSettled;
  _ ← throw_if (existsb (fun s => bool_decide (st_issuerId s = iv_issuerId input) &&
    bool_decide (st_invoiceReferenceHash s = invoiceReferenceHash)) (settlements txdb)) ReferenceSettled;
  Ok (make_core proofId user ProofType.INVOICE_SETTLEMENT INVOICE_SETTLEMENT_SCHEMA_VERSION
        (pay_assetCode payment) (pay_assetIssuer payment) occurredAt occurredAt expiresAt now credential
        {| cl_operator := "settlement";
           cl_thresholdEncrypted := if amountHidden then None else pay_amountEncrypted payment;
           cl_frequency := None; cl_result := true;
           cl_disclosurePolicy := JObj [("amountHidden", JBool amountHidden);
             ("invoiceReferenceHash", JStr invoiceReferenceHash);
             ("issuerId", JStr (iv_issuerId input)); ("occurredAt", jiso occurredAt)] |},
      {| st_proofId := proofId; st_paymentId := pay_id payment; st_issuerId := iv_issuerId input;
         st_invoiceReferenceHash := invoiceReferenceHash |}).

(** *** Aggregate earnings *)

Definition scope_text (s : SourceScope) : string :=
  match s with
  | income => "income" | trusted_sources => "trusted_sources" | verified_issuers => "verified_issuers"
  end.

Record AggregateEarningsInput := {
  ae_assets : list AssetRef;
  ae_periodStart : JsDate;
  ae_periodEnd : JsDate;
  ae_sourceScope : option SourceScope;
  ae_issuerIds : option (list string);
  ae_roundingIncrement : option RoundingIncrement;
  ae_expiresInDays : option Z;
}.

Definition createAggregateEarningsProof (db : Db) (user : User) (input : AggregateEarningsInput)
    (now : Z) (proofId : string) : result IssueError ProofCore :=
  let sourceScope := default income (ae_sourceScope input) in
  _ ← throw_if (bool_decide (is_Some (ae_issuerIds input)) &&
                match sourceScope with verified_issuers => false | _ => true end) IssuerIdsNotAllowed;
  let roundingIncrement := default inc_1 (ae_roundingIncrement input) in
  computation ← match Calculator.compute decrypt hmac activeSecret db (u_id user)
    {| Calculator.rq_assets := ae_assets input; Calculator.rq_periodStart := ae_periodStart input;
       Calculator.rq_periodEnd := ae_periodEnd input; Calculator.rq_sourceScope := sourceScope;
       Calculator.rq_issuerIds := ae_issuerIds input;
       Calculator.rq_roundingIncrement := roundingIncrement |} now with
    | Ok c => Ok c
    | Err e => Err (Aggregation e)
    end;
  let expiresAt := expiry now (ae_expiresInDays input) in
  let asset := Calculator.c_asset computation in
  let period := Calculator.c_period computation in
  let amount := Calculator.c_disclosedAmount computation in
  let count := Calculator.c_paymentCount computation in
  let credential := buildAggregateEarningsCredential proofId (u_walletHash user) amount
    (increment_text roundingIncrement) (code asset) (issuer asset) (p_start period) (p_end period)
    (scope_text sourceScope) count AGGREGATE_EARNINGS_POLICY_VERSION now expiresAt in
  Ok (make_core proofId user ProofType.AGGREGATE_EARNINGS AGGREGATE_EARNINGS_SCHEMA_VERSION
        (code asset) (issuer asset) (p_start period) (p_end period) expiresAt now credential
        {| cl_operator := "sum"; cl_thresholdEncrypted := Some (protectAmount amount);
           cl_frequency := None; cl_result := true;
           cl_disclosurePolicy := JObj [("exactIncomeHidden", JBool true);
             ("sourceTransactionsHidden", JBool true); ("sourceIdentitiesHidden", JBool true);
             ("qualifyingPaymentCount", JNum count);
             ("policyVersion", JStr AGGREGATE_EARNINGS_POLICY_VERSION);
             ("roundingIncrement", JStr (increment_text roundingIncrement));
             ("sourceScope", JStr (scope_text sourceScope));
             ("inputsDigest", JStr (Calculator.c_inputsDigest computation))] |}).
(** *** Employer identity *)

Definition EMPLOYER_PAYMENT_POLICY_VERSION := "earnproof.employer-payment.policy.v1".
Definition MAX_EMPLOYER_PAYMENT_CANDIDATES : nat := 200.
Definition EMPLOYMENT_CONTINUITY_POLICY_VERSION := "earnproof.employment-continuity.policy.v1".
Definition CONTINUITY_PERIOD_UNIT := "calendar-month-utc".
Definition MAX_CONTINUITY_PAYMENTS : nat := 2000.

Definition paymentReferenceHash (operationId : string) : string :=
  String.append "sha256:" (sha256 operationId).

Definition find_issuer (db : Db) (id : option string) : option Issuer :=
  i ← id; find_where (fun r => bool_decide (is_id r = i)) (issuers db).

Definition resolveTrustedEmployer (db : Db) (user : User) (trustedSourceId : string)
    : result IssueError (TrustedSource * EmployerSource) :=
  source ← require (find_where (fun t => bool_decide (ts_id t = trustedSourceId) &&
    bool_decide (ts_userId t = u_id user)) (trustedSources db)) SourceNotFound;
  let addressOwner := find_where (fun i => bool_decide (is_stellarAddress i = ts_sourceAddress source))
    (issuers db) in
  let linked i := {| ei_id := is_id i; ei_status := is_status i;
                     ei_stellarAddress := is_stellarAddress i; ei_organization := is_organization i |} in
  match resolveEmployerSource
    {| es_id := ts_id source; es_sourceAddress := ts_sourceAddress source;
       es_status := ts_status source; es_issuerId := ts_issuerId source;
       es_issuer := linked <$> find_issuer db (ts_issuerId source) |} (is_id <$> addressOwner) with
  | Ok r => Ok (source, r)
  | Err reason => Err (EmployerSourceError reason)
  end.

(** The locked re-read inside the transaction; the joins need issuer and organization. *)
Definition assertEmployerStillTrusted (txdb : Db) (sourceId : string) (user : User)
    (resolution : EmployerSource) : result IssueError unit :=
  throw_if (negb match find_where (fun t => bool_decide (ts_id t = sourceId) &&
                   bool_decide (ts_userId t = u_id user)) (trustedSources txdb) with
    | None => false
    | Some t =>
        match find_issuer txdb (ts_issuerId t) with
        | None => false
        | Some i =>
            bool_decide (ts_status t = ResourceStatus.ACTIVE) &&
            bool_decide (is_status i = ResourceStatus.ACTIVE) &&
            bool_decide (is_organization i = Some ResourceStatus.ACTIVE) &&
            bool_decide (ts_issuerId t = Some (er_issuerId resolution)) &&
            bool_decide (ts_sourceAddress t = er_sourceAddress resolution)
        end
    end) (EmployerSourceError source_inactive).

Definition attestation_live (now : Z) (a : Attestation) : bool :=
  bool_decide (at_status a = ResourceStatus.ACTIVE) && bool_decide (at_revokedAt a = None) &&
  match at_expiresAt a with None => true | Some e => now <? e end.

(** The map from payment reference to the attestation with the lowest id. *)
Definition findPaymentAttestations (db : Db) (issuerId subjectWalletHash : string)
    (rows : list Payment) (now : Z) : list (string * string) :=
  let references := (fun p => paymentReferenceHash (pay_operationId p)) <$> rows in
  let found := js_sort (fun a b => str_le (at_id a) (at_id b)) (List.filter (fun a =>
    bool_decide (at_issuerId a = issuerId) && bool_decide (at_subjectWalletHash a = subjectWalletHash) &&
    at_isPayment a && attestation_live now a &&
    match at_paymentReferenceHash a with None => false | Some r => bool_decide (r ∈ references) end)
    (attestations db)) in
  foldl (fun m a =>
    match at_paymentReferenceHash a with
    | None | Some EmptyString => m
    | Some r => match JsMap.get r m with Some _ => m | None => JsMap.set r (at_id a) m end
    end) [] found.

(** The payment query shared by the two employer proofs. *)
Definition employer_payment (user : User) (address code : string) (issuer : option string)
    (periodStart periodEnd : JsDate) (p : Payment) : bool :=
  bool_decide (pay_userId p = u_id user) && bool_decide (pay_sourceAddress p = Some address) &&
  bool_decide (pay_assetCode p = code) && bool_decide (pay_assetIssuer p = issuer) &&
  bool_decide (pay_classification p = PaymentClassification.INCOME) && pay_isEligible p &&
  date_ge (Some (pay_occurredAt p)) periodStart && date_lt (Some (pay_occurredAt p)) periodEnd.

Definition find_attestation (db : Db) (id : string) : option Attestation :=
  find_where (fun a => bool_decide (at_id a = id)) (attestations db).

(** A payment the transaction still finds to be eligible income. *)
Definition still_income (txdb : Db) (user : User) (id : string) : bool :=
  existsb (fun p => bool_decide (pay_id p = id) && bool_decide (pay_userId p = u_id user) &&
    bool_decide (pay_classification p = PaymentClassification.INCOME) && pay_isEligible p)
    (payments txdb).

(** *** Employer payment *)

Record EmployerPaymentInput := {
  em_trustedSourceId : string;
  em_assetCode : string;
  em_assetIssuer : option string;
  em_periodStart : JsDate;
  em_periodEnd : JsDate;
  em_expiresInDays : option Z;
}.

Definition corroboration_text (c : EmployerCorroboration) : string :=
  match c with issuer_account => "issuer_account" | issuer_attestation => "issuer_attestation" end.

(** The chosen payment with its corroboration and, if attested, the attestation. *)
Definition choose_employer_payment (db : Db) (user : User) (input : EmployerPaymentInput) (now : Z)
    (resolution : EmployerSource)
    : result IssueError (Payment * EmployerCorroboration * option string) :=
  let candidates := take MAX_EMPLOYER_PAYMENT_CANDIDATES
    (js_sort (candidate_le pay_operationId pay_occurredAt)
      (List.filter (employer_payment user (er_sourceAddress resolution) (em_assetCode input)
        (em_assetIssuer input) (em_periodStart input) (em_periodEnd input)) (payments db))) in
  _ ← throw_if (length candidates =? 0)%nat EmployerPaymentNotFound;
  let byReference := if er_isIssuerAccount resolution then [] else
    findPaymentAttestations db (er_issuerId resolution) (u_walletHash user) candidates now in
  let reference p := paymentReferenceHash (pay_operationId p) in
  '(payment, how) ← require (selectEmployerPayment pay_operationId pay_occurredAt candidates
      (er_isIssuerAccount resolution) (fun r => bool_decide (is_Some (JsMap.get r byReference)))
      reference) NotCorroborated;
  Ok (payment, how, match how with
                    | issuer_account => None
                    | issuer_attestation => JsMap.get (reference payment) byReference
                    end).

Definition createEmployerPaymentProof (db txdb : Db) (user : User) (input : EmployerPaymentInput)
    (now : Z) (proofId : string) : result IssueError ProofCore :=
  _ ← match validateEmployerPaymentPeriod (em_periodStart input) (em_periodEnd input) (Some now) with
      | Some v => Err (EmployerPeriod v)
      | None => Ok tt
      end;
  '(source, resolution) ← resolveTrustedEmployer db user (em_trustedSourceId input);
  '(payment, how, attestationId) ← choose_employer_payment db user input now resolution;
  let expiresAt := expiry now (em_expiresInDays input) in
  periodStart ← valid_date (em_periodStart input);
  periodEnd ← valid_date (em_periodEnd input);
  let credential := buildEmployerPaymentCredential proofId (u_walletHash user)
    (er_issuerId resolution) (corroboration_text how) (em_assetCode input) (em_assetIssuer input)
    periodStart periodEnd EMPLOYER_PAYMENT_POLICY_VERSION now expiresAt in
  _ ← charge user;
  _ ← requireActiveAssetPolicy txdb (em_assetCode input) (em_assetIssuer input);
  _ ← assertEmployerStillTrusted txdb (ts_id source) user resolution;
  _ ← match attestationId with
      | None | Some EmptyString => Ok tt
      | Some id => throw_if (negb match find_attestation txdb id with
                                  | None => false | Some a => attestation_live now a end)
                     (EmployerSourceError source_inactive)
      end;
  _ ← throw_if (negb (still_income txdb user (pay_id payment))) EmployerPaymentNotFound;
  Ok (make_core proofId user ProofType.EMPLOYER_PAYMENT EMPLOYER_PAYMENT_SCHEMA_VERSION
        (em_assetCode input) (em_assetIssuer input) periodStart periodEnd expiresAt now credential
        {| cl_operator := "employer_payment"; cl_thresholdEncrypted := None; cl_frequency := None;
           cl_result := true;
           cl_disclosurePolicy := JObj [("policyVersion", JStr EMPLOYER_PAYMENT_POLICY_VERSION);
             ("employerIssuerId", JStr (er_issuerId resolution));
             ("corroboration", JStr (corroboration_text how));
             ("paymentReferenceDigest", JStr (keyedDigest (pay_operationId payment)));
             ("amountHidden", JBool true); ("senderHidden", JBool true); ("memoHidden", JBool true);
             ("sourceTransactionsHidden", JBool true)] |}).

(** *** Employment continuity *)

Record EmploymentContinuityInput := {
  ec_trustedSourceId : string;
  ec_assetCode : string;
  ec_assetIssuer : option string;
  ec_periodStart : JsDate;
  ec_observedPeriods : option Z;
  ec_expiresInDays : option Z;
}.

Definition payment_date (p : Payment) : JsDate := Some (pay_occurredAt p).
Definition join_lines (l : list string) : string :=
  String.concat (String (ascii_of_nat 10) EmptyString) l.

Definition createEmploymentContinuityProof (db txdb : Db) (user : User)
    (input : EmploymentContinuityInput) (now : Z) (proofId : string) : result IssueError ProofCore :=
  window ← match buildContinuityWindow (ec_periodStart input) (ec_observedPeriods input) (Some now) with
           | Ok w => Ok w
           | Err v => Err (ContinuityWindowError v)
           end;
  '(source, resolution) ← resolveTrustedEmployer db user (ec_trustedSourceId input);
  let rows := take (S MAX_CONTINUITY_PAYMENTS) (js_sort Calculator.payment_le
    (List.filter (employer_payment user (er_sourceAddress resolution) (ec_assetCode input)
      (ec_assetIssuer input) (cw_start window) (cw_end window)) (payments db))) in
  _ ← throw_if (MAX_CONTINUITY_PAYMENTS <? length rows)%nat ContinuityLimitExceeded;
  let byReference := if er_isIssuerAccount resolution then [] else
    findPaymentAttestations db (er_issuerId resolution) (u_walletHash user) rows now in
  let attestationFor p := JsMap.get (paymentReferenceHash (pay_operationId p)) byReference in
  let evaluation := evaluateContinuity pay_operationId payment_date
    (List.filter (fun p => er_isIssuerAccount resolution || bool_decide (is_Some (attestationFor p))) rows)
    window in
  _ ← throw_if (negb (continuous evaluation)) ContinuityNotSatisfied;
  let expiresAt := expiry now (ec_expiresInDays input) in
  periodStart ← valid_date (cw_start window);
  periodEnd ← valid_date (cw_end window);
  let credential := buildEmploymentContinuityCredential proofId (u_walletHash user)
    (er_issuerId resolution) (ec_assetCode input) (ec_assetIssuer input) periodStart periodEnd
    CONTINUITY_PERIOD_UNIT (cw_periods window) MAX_MISSING_CONTINUITY_PERIODS
    EMPLOYMENT_CONTINUITY_POLICY_VERSION now expiresAt in
  _ ← charge user;
  _ ← requireActiveAssetPolicy txdb (ec_assetCode input) (ec_assetIssuer input);
  _ ← assertEmployerStillTrusted txdb (ts_id source) user resolution;
  let still p := still_income txdb user (pay_id p) &&
    (er_isIssuerAccount resolution ||
     match attestationFor p ≫= find_attestation txdb with
     | None => false | Some a => attestation_live now a end) in
  let locked := evaluateContinuity pay_operationId payment_date
    (List.filter still (includedPayments evaluation)) window in
  _ ← throw_if (negb (continuous locked)) ContinuityNotSatisfied;
  Ok (make_core proofId user ProofType.EMPLOYMENT_CONTINUITY EMPLOYMENT_CONTINUITY_SCHEMA_VERSION
        (ec_assetCode input) (ec_assetIssuer input) periodStart periodEnd expiresAt now credential
        {| cl_operator := "employment_continuity"; cl_thresholdEncrypted := None;
           cl_frequency := Some CONTINUITY_PERIOD_UNIT; cl_result := true;
           cl_disclosurePolicy := JObj [("policyVersion", JStr EMPLOYMENT_CONTINUITY_POLICY_VERSION);
             ("employerIssuerId", JStr (er_issuerId resolution));
             ("periodUnit", JStr CONTINUITY_PERIOD_UNIT);
             ("observedPeriods", JNum (cw_periods window));
             ("toleratedMissingPeriods", JNum MAX_MISSING_CONTINUITY_PERIODS);
             ("includedPaymentsDigest", JStr (keyedDigest
               (join_lines (pay_operationId <$> includedPayments locked))));
             ("amountHidden", JBool true); ("senderHidden", JBool true); ("memoHidden", JBool true);
             ("sourceTransactionsHidden", JBool true); ("paymentDatesHidden", JBool true)] |}).

(** ** The writes of the issuing transaction *)

Definition new_proof (core : ProofCore) : Proof :=
  {| p_core := core; p_status := ProofStatus.ACTIVE; p_contractTransactionHash := None;
     p_revocation := not_revoked; p_supersedesId := None; p_supersededAt := None;
     p_renewalRequestHash := None; p_propagationConfirmedAt := None;
     p_updatedAt := pc_createdAt core |}.

(** The REGISTER intent enqueued with a new proof when anchoring is configured. *)
Definition enqueue_register (proofId intentId : string) (now : Z) (s : Store) : result DbError Store :=
  if cfg_anchoringEnabled cfg
  then create_intent (new_intent {| ic_id := intentId; ic_proofId := proofId;
         ic_operation := AnchoringOperation.REGISTER; ic_createdAt := now |} AnchoringStatus.PENDING) s
  else Ok s.

Definition issue (core : ProofCore) (intentId : string) (s : Store) : result DbError Store :=
  s ← create_proof (new_proof core) s;
  enqueue_register (pc_id core) intentId (pc_createdAt core) s.
End create.
