(* ===== verification/IssuanceFacts.v ===== *)
(** * What issuance guarantees

    Every credential issued by [Issuance] is the one [rebuildCredential]
    reconstructs from the row that was written, so verification recomputes the
    committed hash; and what an accepted request says about the payments it was
    accepted on. *)

From S2P Require Import Prelude JsData DecimalText Calendar IsoDate Encoding Schema Canonical.
From S2P Require Import PaymentStore AggregateEarnings EmployerPayment Continuity ProofStore.
From S2P Require Import Credentials Issuance.
From Stdlib Require Import Ascii.

Local Open Scope string_scope.
Local Open Scope Z_scope.
#[local] Arguments String.append !_ _ : simpl nomatch.

(** ** Reading back a stored policy *)

Lemma get_here {V} (k : string) (v : V) l : JsMap.get k ((k, v) :: l) = Some v.
Proof. cbn. by rewrite decide_True. Qed.
Lemma get_skip {V} (k k' : string) (v : V) l : k <> k' -> JsMap.get k ((k', v) :: l) = JsMap.get k l.
Proof. intros H. cbn. by rewrite decide_False. Qed.

Ltac policy_simpl :=
  unfold policy_get, text_or, num_or, not_false, stored_instant, policy_get, qualifyingPaymentCount;
  cbn [jsonPolicy cl_disclosurePolicy app];
  repeat first [rewrite get_here | rewrite get_skip by done];
  cbn [default].

Lemma num_text_nonneg n : 0 <= n -> num_text n = dec_string n.
Proof. intros Hn. unfold num_text. destruct (Z.ltb_spec n 0); [lia|done]. Qed.

(** A cadence written by issuance is read back as its unit and count. *)
Lemma cadence_count_dec n : 1 <= n <= 120 -> cadence_count (dec_string n) = Some n.
Proof.
  intros Hn. assert (exists k : nat, n = Z.of_nat k /\ (1 <= k <= 120)%nat) as (k & -> & Hk)
    by (exists (Z.to_nat n); lia).
  assert (forallb (fun k => bool_decide (cadence_count (dec_string (Z.of_nat k)) = Some (Z.of_nat k)))
    (seq 1 120) = true) as H by by vm_compute.
  rewrite forallb_forall in H. specialize (H k ltac:(apply in_seq; lia)).
  by apply bool_decide_eq_true in H.
Qed.

Lemma revealCadence_written u n :
  1 <= n <= 120 ->
  revealCadence (Some (String.append (unit_text u) (String ":" (num_text n)))) = Some (u, n).
Proof.
  intros Hn. rewrite num_text_nonneg by lia. unfold revealCadence. cbn [default].
  destruct u; cbn -[cadence_count dec_string]; by rewrite cadence_count_dec.
Qed.

Lemma require_Ok {A} (o : option A) e a : require o e = Ok a <-> o = Some a.
Proof. destruct o; cbn; naive_solver. Qed.

Ltac run_issue :=
  run_result; repeat match goal with H : require _ _ = Ok _ |- _ => apply require_Ok in H end.

(** ** Round trips, one per proof type *)

Section round_trip.
Context (decrypt : string -> option string) (sha256 keyedDigest : string -> string).
Context (revealAddress : option string -> option string -> option string).
Context (hmac : string -> string -> string) (activeSecret : string).
Context (cfg : Config) (consumeForUser : string -> bool).

(** The row is rebuilt to the credential it was made for. *)
Lemma make_core_matches id u ty sv code iss ps pe ex now cred claim :
  rebuildCredential decrypt (make_core sha256 cfg id u ty sv code iss ps pe ex now cred claim)
    (u_walletHash u) claim = cred ->
  hash_matches decrypt sha256 (make_core sha256 cfg id u ty sv code iss ps pe ex now cred claim)
    (u_walletHash u) claim = true.
Proof. intros H. unfold hash_matches. rewrite H. apply String.eqb_refl. Qed.

Lemma minimum_income_matches db txdb u input now id core :
  createMinimumIncomeProof decrypt sha256 cfg consumeForUser db txdb u input now id = Ok core ->
  exists claim, pc_claim core = Some claim /\
    hash_matches decrypt sha256 core (u_walletHash u) claim = true.
Proof.
  unfold createMinimumIncomeProof. intros H. run_result. eexists; split; [reflexivity|].
  apply make_core_matches. unfold rebuildCredential. cbn -[protectAmount].
  rewrite revealThreshold_protect. policy_simpl. done.
Qed.

Lemma income_range_matches db txdb u input now id core :
  createIncomeRangeProof decrypt sha256 cfg consumeForUser db txdb u input now id = Ok core ->
  exists claim, pc_claim core = Some claim /\
    hash_matches decrypt sha256 core (u_walletHash u) claim = true.
Proof.
  unfold createIncomeRangeProof. intros H. run_result. eexists; split; [reflexivity|].
  apply make_core_matches. unfold rebuildCredential. cbn. policy_simpl. done.
Qed.

Lemma recurring_income_matches db txdb u input now id core :
  1 <= rc_intervalCount input <= 120 ->
  createRecurringIncomeProof sha256 cfg consumeForUser db txdb u input now id = Ok core ->
  exists claim, pc_claim core = Some claim /\
    hash_matches decrypt sha256 core (u_walletHash u) claim = true.
Proof.
  intros Hc. unfold createRecurringIncomeProof. intros H. run_result. eexists; split; [reflexivity|].
  apply make_core_matches. unfold rebuildCredential. cbn [cl_frequency].
  rewrite revealCadence_written by done. cbn -[String.append num_text]. policy_simpl. done.
Qed.

Lemma stored_instant_iso core t policy :
  Z.abs t <= MAX_TIME -> JsMap.get "occurredAt" policy = Some (jiso t) ->
  stored_instant core policy = t.
Proof.
  intros Ht Hg. unfold stored_instant, policy_get. rewrite Hg. cbn. by rewrite date_parse_iso.
Qed.

Lemma revealPaymentAmount_verify o a :
  revealPaymentAmount decrypt o = Some a -> revealPaymentAmountForVerification decrypt o = a.
Proof. destruct o as [[|c s]|]; cbn; [done| |done]. by intros ->. Qed.

(** Payment times are JavaScript dates. *)
Definition dated (db : Db) : Prop := Forall (fun p => Z.abs (pay_occurredAt p) <= MAX_TIME) (payments db).

Lemma payment_receipt_matches db txdb u input now id core :
  dated db ->
  createPaymentReceiptProof decrypt sha256 revealAddress cfg consumeForUser db txdb u input now id
    = Ok core ->
  exists claim, pc_claim core = Some claim /\
    hash_matches decrypt sha256 core (u_walletHash u) claim = true.
Proof.
  intros Hd. unfold createPaymentReceiptProof. intros H. run_issue.
  apply find_where_Some in H0 as [Hin _]. unfold dated in Hd. rewrite Forall_forall in Hd.
  eexists; split; [reflexivity|]. apply make_core_matches.
  unfold rebuildCredential, rebuildPaymentReceiptCredential.
  cbn -[stored_instant jiso]. erewrite stored_instant_iso; [|by apply Hd|].
  2: { destruct (negb _); policy_simpl; done. }
  policy_simpl. destruct (pr_discloseSender input), (pr_discloseAmount input); cbn in *; run_issue;
    policy_simpl; try done;
    match goal with Ha : revealPaymentAmount _ _ = Some _ |- _ =>
      by rewrite (revealPaymentAmount_verify _ _ Ha) end.
Qed.

Lemma invoice_settlement_matches db txdb u input now id core st :
  dated db ->
  createInvoiceSettlementProof decrypt sha256 cfg db txdb u input now id = Ok (core, st) ->
  exists claim, pc_claim core = Some claim /\
    hash_matches decrypt sha256 core (u_walletHash u) claim = true.
Proof.
  intros Hd. unfold createInvoiceSettlementProof. intros H. run_issue.
  assert (Z.abs (pay_occurredAt x1) <= MAX_TIME) as Ht.
  { unfold match_invoice in H2. run_issue. unfold dated in Hd. rewrite Forall_forall in Hd.
    destruct (List.filter _ (List.filter _ _)) as [|p [|q l]] eqn:E; simplify_eq.
    apply Hd, list_elem_of_In. assert (In x1 [x1]) as Hin by by left. rewrite <- E in Hin.
    by apply List.filter_In in Hin as [[Hin _]%List.filter_In _]. }
  eexists; split; [reflexivity|]. apply make_core_matches.
  unfold rebuildCredential, rebuildInvoiceSettlementCredential.
  cbn -[stored_instant jiso]. erewrite stored_instant_iso; [|exact Ht|].
  2: { policy_simpl; done. }
  policy_simpl. destruct (iv_discloseAmount input); cbn in *; run_issue; policy_simpl; try done;
    match goal with Ha : revealPaymentAmount _ _ = Some _ |- _ =>
      by rewrite (revealPaymentAmount_verify _ _ Ha) end.
Qed.

Lemma aggregate_earnings_matches db u input now id core :
  createAggregateEarningsProof decrypt sha256 hmac activeSecret cfg db u input now id = Ok core ->
  exists claim, pc_claim core = Some claim /\
    hash_matches decrypt sha256 core (u_walletHash u) claim = true.
Proof.
  unfold createAggregateEarningsProof. intros H. run_issue. eexists; split; [reflexivity|].
  apply make_core_matches. unfold rebuildCredential, rebuildAggregateEarningsCredential.
  cbn -[protectAmount]. rewrite revealThreshold_protect. policy_simpl.
  destruct (default inc_1 _), (default income _); by cbn.
Qed.

Lemma employer_payment_matches db txdb u input now id core :
  createEmployerPaymentProof sha256 keyedDigest cfg consumeForUser db txdb u input now id = Ok core ->
  exists claim, pc_claim core = Some claim /\
    hash_matches decrypt sha256 core (u_walletHash u) claim = true.
Proof.
  unfold createEmployerPaymentProof. intros H. run_issue. destruct x0 as [source resolution].
  run_issue. destruct x0 as [[payment how] att]. run_issue. eexists; split; [reflexivity|].
  apply make_core_matches. unfold rebuildCredential, rebuildEmployerPaymentCredential.
  cbn. policy_simpl. by destruct how.
Qed.

Lemma employment_continuity_matches db txdb u input now id core :
  createEmploymentContinuityProof sha256 keyedDigest cfg consumeForUser db txdb u input now id = Ok core ->
  exists claim, pc_claim core = Some claim /\
    hash_matches decrypt sha256 core (u_walletHash u) claim = true.
Proof.
  unfold createEmploymentContinuityProof. intros H. run_issue. destruct x0 as [source resolution].
  run_issue. eexists; split; [reflexivity|].
  apply make_core_matches. unfold rebuildCredential, rebuildEmploymentContinuityCredential.
  cbn -[join_lines]. policy_simpl. done.
Qed.
End round_trip.

(** Requests that are answered with a proof, whatever its type.  The bound on
    the number of intervals is the one of the request's validation. *)
Inductive issued (decrypt : string -> option string) (sha256 keyedDigest : string -> string)
    (revealAddress : option string -> option string -> option string)
    (hmac : string -> string -> string) (secret : string) (cfg : Config)
    (consume : string -> bool) (db txdb : Db) (u : User) (now : Z) (id : string) : ProofCore -> Prop :=
| issued_minimum_income input core :
    createMinimumIncomeProof decrypt sha256 cfg consume db txdb u input now id = Ok core ->
    issued decrypt sha256 keyedDigest revealAddress hmac secret cfg consume db txdb u now id core
| issued_income_range input core :
    createIncomeRangeProof decrypt sha256 cfg consume db txdb u input now id = Ok core ->
    issued decrypt sha256 keyedDigest revealAddress hmac secret cfg consume db txdb u now id core
| issued_recurring_income input core :
    1 <= rc_intervalCount input <= 120 ->
    createRecurringIncomeProof sha256 cfg consume db txdb u input now id = Ok core ->
    issued decrypt sha256 keyedDigest revealAddress hmac secret cfg consume db txdb u now id core
| issued_payment_receipt input core :
    createPaymentReceiptProof decrypt sha256 revealAddress cfg consume db txdb u input now id = Ok core ->
    issued decrypt sha256 keyedDigest revealAddress hmac secret cfg consume db txdb u now id core
| issued_invoice_settlement input core st :
    createInvoiceSettlementProof decrypt sha256 cfg db txdb u input now id = Ok (core, st) ->
    issued decrypt sha256 keyedDigest revealAddress hmac secret cfg consume db txdb u now id core
| issued_aggregate_earnings input core :
    createAggregateEarningsProof decrypt sha256 hmac secret cfg db u input now id = Ok core ->
    issued decrypt sha256 keyedDigest revealAddress hmac secret cfg consume db txdb u now id core
| issued_employer_payment input core :
    createEmployerPaymentProof sha256 keyedDigest cfg consume db txdb u input now id = Ok core ->
    issued decrypt sha256 keyedDigest revealAddress hmac secret cfg consume db txdb u now id core
| issued_employment_continuity input core :
    createEmploymentContinuityProof sha256 keyedDigest cfg consume db txdb u input now id = Ok core ->
    issued decrypt sha256 keyedDigest revealAddress hmac secret cfg consume db txdb u now id core.

Lemma issued_matches decrypt sha256 keyedDigest revealAddress hmac secret cfg consume db txdb u now id core :
  dated db ->
  issued decrypt sha256 keyedDigest revealAddress hmac secret cfg consume db txdb u now id core ->
  exists claim, pc_claim core = Some claim /\
    hash_matches decrypt sha256 core (u_walletHash u) claim = true.
Proof.
  intros Hd [input c H|input c H|input c Hc H|input c H|input c st H|input c H|input c H|input c H].
  - by eapply minimum_income_matches.
  - by eapply income_range_matches.
  - by eapply recurring_income_matches.
  - by eapply payment_receipt_matches.
  - by eapply invoice_settlement_matches.
  - by eapply aggregate_earnings_matches.
  - by eapply employer_payment_matches.
  - by eapply employment_continuity_matches.
Qed.

(** ** Accepted payments *)

Lemma check_each_Ok {E A} (f : A -> result E unit) l :
  check_each f l = Ok tt <-> Forall (fun x => f x = Ok tt) l.
Proof.
  induction l as [|x l IH]; cbn; [split; [constructor|done]|].
  rewrite bind_Ok, Forall_cons, <- IH. split; [intros ([] & ? & ?)|intros [? ?]]; eauto.
Qed.

Lemma total_amount_Ok decrypt l sum total :
  total_amount decrypt l sum = Ok total <->
  exists amounts, Forall2 (fun p a => revealProtectedAmount decrypt (pay_amountEncrypted p) = Some a)
    l amounts /\ total = sum + sumZ amounts.
Proof.
  revert sum. induction l as [|p l IH]; intros sum; cbn [total_amount].
  - split; [intros [= <-]; exists []; split; [constructor|cbn; lia]|].
    intros (amounts & H & ->). inversion H; subst. cbn. f_equal. lia.
  - destruct (revealProtectedAmount _ _) as [a|] eqn:E; [rewrite IH|].
    + split.
      * intros (amounts & H & ->). exists (a :: amounts). split; [by constructor|cbn; lia].
      * intros (amounts & H & ->). inversion H as [|? b ? l' Hb Hl]; subst.
        exists l'. split; [done|]. rewrite E in Hb. injection Hb as <-. cbn. lia.
    + split; [done|]. intros (amounts & H & _). inversion H; congruence.
Qed.

(** What the per-payment checks of the income proofs establish. *)
Definition qualifies (code : string) (issuer : option string) (s e : JsDate) (p : Payment) : Prop :=
  pay_classification p = PaymentClassification.INCOME /\ pay_isEligible p = true /\
  pay_assetCode p = code /\ pay_assetIssuer p = issuer /\
  date_lt (Some (pay_occurredAt p)) s = false /\ date_gt (Some (pay_occurredAt p)) e = false.

Lemma check_income_Ok p u :
  check_income p = Ok u <->
  pay_classification p = PaymentClassification.INCOME /\ pay_isEligible p = true.
Proof.
  unfold check_income. rewrite throw_if_Ok, orb_false_iff, !negb_false_iff, bool_decide_eq_true. done.
Qed.
Lemma check_hold_Ok p u : check_hold p = Ok u <-> pay_finalityHoldAt p = None.
Proof.
  unfold check_hold. rewrite throw_if_Ok, bool_decide_eq_false, <- eq_None_not_Some. done.
Qed.
Lemma check_asset_Ok c i p u :
  check_asset c i p = Ok u <-> pay_assetCode p = c /\ pay_assetIssuer p = i.
Proof.
  unfold check_asset. rewrite throw_if_Ok, orb_false_iff, !negb_false_iff, !bool_decide_eq_true. done.
Qed.
Lemma check_period_Ok s e p u :
  check_period s e p = Ok u <->
  date_lt (Some (pay_occurredAt p)) s = false /\ date_gt (Some (pay_occurredAt p)) e = false.
Proof. unfold check_period. rewrite throw_if_Ok, orb_false_iff. done. Qed.

Lemma check_minimum_income_Ok input p :
  check_minimum_income input p = Ok tt <->
  pay_finalityHoldAt p = None /\
  qualifies (mi_assetCode input) (mi_assetIssuer input) (mi_periodStart input) (mi_periodEnd input) p.
Proof.
  unfold check_minimum_income, qualifies. split.
  - intros H. run_result.
    repeat match goal with
    | H : check_income _ = Ok _ |- _ => apply check_income_Ok in H
    | H : check_hold _ = Ok _ |- _ => apply check_hold_Ok in H
    | H : check_asset _ _ _ = Ok _ |- _ => apply check_asset_Ok in H
    | H : check_period _ _ _ = Ok _ |- _ => apply check_period_Ok in H
    end. naive_solver.
  - intros (H1 & H2 & H3 & H4 & H5 & H6 & H7).
    apply bind_Ok; exists tt; split; [by apply check_income_Ok|].
    apply bind_Ok; exists tt; split; [by apply check_hold_Ok|].
    apply bind_Ok; exists tt; split; [by apply check_asset_Ok|]. by apply check_period_Ok.
Qed.

Lemma load_selected_Ok db u ids rows :
  load_selected db u ids = Ok rows <->
  rows = selected db u ids /\ length rows = length (js_set ids).
Proof.
  unfold load_selected. rewrite bind_Ok. setoid_rewrite throw_if_Ok.
  setoid_rewrite negb_false_iff. setoid_rewrite Nat.eqb_eq. split.
  - intros (_ & Hl & [= <-]). done.
  - intros [-> Hl]. exists tt. done.
Qed.

(** Every selected id is the id of a selected payment, when ids are unique. *)
Lemma selected_all db u ids :
  NoDup (pay_id <$> payments db) -> length (selected db u ids) = length (js_set ids) ->
  (pay_id <$> selected db u ids) ≡ₚ js_set ids.
Proof.
  intros Hnd Hl. apply submseteq_length_Permutation; [|rewrite length_fmap; lia].
  apply NoDup_submseteq.
  - unfold selected. revert Hnd. generalize (payments db). intros l Hnd.
    refine (sublist_NoDup _ _ Hnd _). apply fmap_sublist. clear.
    induction l as [|x l IH]; cbn; [constructor|]. destruct (_ && _); by constructor.
  - intros x (p & -> & Hp)%list_elem_of_fmap. apply list_elem_of_In, List.filter_In in Hp as [_ Hp].
    by reflect_hyps.
Qed.

(** ** Finality holds *)

Definition set_hold (h : option Z) (p : Payment) : Payment :=
  {| pay_id := pay_id p; pay_userId := pay_userId p; pay_operationId := pay_operationId p;
     pay_sourceAddress := pay_sourceAddress p;
     pay_sourceAddressEncrypted := pay_sourceAddressEncrypted p;
     pay_assetCode := pay_assetCode p; pay_assetIssuer := pay_assetIssuer p;
     pay_amountEncrypted := pay_amountEncrypted p; pay_classification := pay_classification p;
     pay_isEligible := pay_isEligible p; pay_finalityHoldAt := h;
     pay_occurredAt := pay_occurredAt p |}.

(** The tables with every payment held, or none. *)
Definition hold_all (h : option Z) (db : Db) : Db :=
  {| payments := set_hold h <$> payments db; trustedSources := trustedSources db;
     issuers := issuers db; supportedAssets := supportedAssets db;
     attestations := attestations db; settlements := settlements db |}.

Lemma selected_hold h db u ids : selected (hold_all h db) u ids = set_hold h <$> selected db u ids.
Proof.
  unfold selected. cbn [hold_all payments]. induction (payments db) as [|p l IH]; [done|].
  rewrite fmap_cons. cbn. rewrite IH. by destruct (_ && _).
Qed.

Lemma load_selected_hold h db u ids :
  load_selected (hold_all h db) u ids =
  match load_selected db u ids with
  | Ok rows => Ok (set_hold h <$> rows)
  | Err e => Err e
  end.
Proof.
  unfold load_selected. rewrite selected_hold, length_fmap. by destruct (throw_if _ _).
Qed.

Lemma check_each_hold h (f : Payment -> result IssueError unit) l :
  (forall p, f (set_hold h p) = f p) -> check_each f (set_hold h <$> l) = check_each f l.
Proof. intros Hf. induction l as [|p l IH]; [done|]. rewrite fmap_cons. cbn. by rewrite Hf, IH. Qed.

Lemma total_amount_hold decrypt h l sum :
  total_amount decrypt (set_hold h <$> l) sum = total_amount decrypt l sum.
Proof.
  revert sum. induction l as [|p l IH]; intros sum; [done|]. rewrite fmap_cons. cbn.
  destruct (revealProtectedAmount _ _); [apply IH|done].
Qed.

(** ** Recurring intervals *)

(** The instant [n] cadence steps after [t], before clipping. *)
Definition step_from (t : Z) (u : IntervalUnit) (n : Z) : Z :=
  match u with
  | day => t + n * DAY_MS
  | week => t + n * 7 * DAY_MS
  | month => (month_first_day (utc_full_year t) (utc_month t + n) + (utc_date t - 1)) * DAY_MS
             + t mod DAY_MS
  end.

Lemma addIntervalUnit_step t u n : addIntervalUnit (Some t) u n = time_clip (step_from t u n).
Proof. unfold addIntervalUnit, step_from. cbn [mbind option_bind]. destruct u; reflexivity. Qed.

Lemma step_from_0 t u : step_from t u 0 = t.
Proof.
  destruct u; cbn [step_from]; [lia|lia|]. unfold month_first_day. pose proof (utc_month_range t).
  replace (utc_month t + 0) with (utc_month t) by lia.
  replace (utc_full_year t + utc_month t / 12) with (utc_full_year t) by div_lia.
  replace (utc_month t mod 12) with (utc_month t) by div_lia.
  unfold utc_date, day_within_year, day_of. unfold DAY_MS.
  pose proof (Z.div_mod t 86400000 ltac:(lia)). lia.
Qed.

Lemma step_from_succ t u n : step_from t u n < step_from t u (n + 1).
Proof.
  destruct u; cbn [step_from]; unfold DAY_MS; [lia|lia|].
  pose proof (month_first_day_succ (utc_full_year t) (utc_month t + n)).
  replace (utc_month t + (n + 1)) with (utc_month t + n + 1) by lia. lia.
Qed.

Lemma step_from_mono t u n m : n <= m -> step_from t u n <= step_from t u m.
Proof.
  intros H. replace m with (n + Z.of_nat (Z.to_nat (m - n))) by lia.
  induction (Z.to_nat (m - n)) as [|k IH]; [by replace (n + Z.of_nat 0) with n by lia|].
  pose proof (step_from_succ t u (n + Z.of_nat k)).
  replace (n + Z.of_nat (S k)) with (n + Z.of_nat k + 1) by lia. lia.
Qed.

(** Which step an instant falls in. *)
Lemma step_from_locate t u n x :
  0 <= n -> t <= x < step_from t u n ->
  exists k, 0 <= k < n /\ step_from t u k <= x < step_from t u (k + 1).
Proof.
  intros Hn Hx. rewrite <- (step_from_0 t u) in Hx at 1. revert Hx.
  replace n with (Z.of_nat (Z.to_nat n)) by lia. clear Hn.
  induction (Z.to_nat n) as [|k IH]; intros Hx; [change (Z.of_nat 0) with 0 in Hx; lia|].
  destruct (decide (x < step_from t u (Z.of_nat k))) as [Hlt|Hge].
  - destruct IH as (j & Hj & Hs); [lia|]. exists j. split; [lia|done].
  - exists (Z.of_nat k). replace (Z.of_nat k + 1) with (Z.of_nat (S k)) by lia. split; lia.
Qed.

Lemma time_clip_between a b c : a <= b <= c -> is_Some (time_clip a) -> is_Some (time_clip c) ->
  time_clip b = Some b.
Proof.
  unfold time_clip. intros Hb [x Ha] [y Hc].
  destruct (Z.leb_spec (Z.abs a) MAX_TIME), (Z.leb_spec (Z.abs c) MAX_TIME), (Z.leb_spec (Z.abs b) MAX_TIME);
    try done; lia.
Qed.

#[local] Arguments addIntervalUnit : simpl never.

(** The intervals of an accepted cadence, index by index. *)
Lemma recurring_intervals_nth s e u count intervals k :
  is_Some (time_clip s) -> is_Some (time_clip (step_from s u count)) ->
  buildRecurringIntervals (Some s) (Some e) u count = Ok intervals -> 0 <= k < count ->
  intervals !! Z.to_nat k =
    Some (Some (step_from s u k), Some (Z.min (step_from s u (k + 1) - 1) e)).
Proof.
  intros Hs Hc. unfold buildRecurringIntervals. intros H Hk. run_result.
  rewrite list_lookup_fmap, lookup_seq_lt by lia. cbn [fmap option_fmap option_map].
  rewrite Nat.add_0_l, Z2Nat.id by lia. rewrite !addIntervalUnit_step.
  pose proof (step_from_mono s u 0 k). pose proof (step_from_mono s u k (k + 1)).
  pose proof (step_from_mono s u (k + 1) count). pose proof (step_from_succ s u k).
  rewrite step_from_0 in *.
  rewrite (time_clip_between s _ (step_from s u count)) by (done || lia).
  rewrite (time_clip_between s (step_from s u (k + 1)) (step_from s u count)) by (done || lia).
  cbn [mbind option_bind].
  rewrite (time_clip_between s _ (step_from s u count)) by (done || lia).
  unfold date_min. cbn [date_lt]. destruct (Z.ltb_spec (step_from s u (k + 1) - 1) e);
    do 3 f_equal; lia.
Qed.

(** ** Two amount parsers *)

Lemma before_dot_span s w r :
  span_digits s = (w, r) -> r = EmptyString \/ (exists r', r = String "." r') ->
  before_dot s = (w, match r with EmptyString => None | String _ r' => Some r' end).
Proof.
  revert w. induction s as [|c s IH]; intros w; cbn [span_digits before_dot].
  - by intros [= <- <-] _.
  - destruct (is_digit c) eqn:Ec.
    + destruct (span_digits s) as [w' r'] eqn:E. intros [= <- <-] Hr.
      destruct (Ascii.eqb_spec c "."); [by subst|]. by rewrite (IH w' eq_refl Hr).
    + intros [= <- <-] [?|[r' [= -> ->]]]; [done|]. done.
Qed.

Lemma before_dot_digits s : all_digits s = true -> (before_dot s).1 = s.
Proof.
  induction s as [|c s IH]; [done|]. cbn. intros [Hc Hs]%andb_true_iff.
  destruct (Ascii.eqb_spec c "."); [by subst|]. specialize (IH Hs).
  destruct (before_dot s). cbn in *. by rewrite IH.
Qed.

Lemma big_int_digits s : all_digits s = true -> big_int s = Some (dec_value s).
Proof.
  destruct s as [|c s]; [done|]. intros Hd. unfold big_int. rewrite Hd.
  cbn in Hd. apply andb_true_iff in Hd as [Hc _].
  destruct c as [[] [] [] [] [] [] [] []]; try done; by destruct s.
Qed.

(** ** Properties *)

(** C29: a proof issued by any of the eight requests verifies: the hash it was
    committed under is the hash of the credential rebuilt from its stored row
    and claim. *)
Theorem issued_proof_rebuilds decrypt sha256 keyedDigest revealAddress hmac secret cfg consume
    db txdb u now id core :
  dated db ->
  issued decrypt sha256 keyedDigest revealAddress hmac secret cfg consume db txdb u now id core ->
  exists claim, pc_claim core = Some claim /\
    hash_matches decrypt sha256 core (u_walletHash u) claim = true.
Proof. apply issued_matches. Qed.

(** a minimum-income proof is only issued on payments of the caller, one per
    selected id, each eligible income in the requested asset and period and not
    on a finality hold, whose readable amounts add up to the threshold or more,
    while the asset is supported. *)
Theorem minimum_income_sound decrypt sha256 cfg consume db txdb u input now id core :
  NoDup (pay_id <$> payments db) ->
  createMinimumIncomeProof decrypt sha256 cfg consume db txdb u input now id = Ok core ->
  exists rows amounts threshold,
    (forall p, p ∈ rows -> p ∈ payments db /\ pay_userId p = u_id u) /\
    (pay_id <$> rows) ≡ₚ js_set (mi_selectedPaymentIds input) /\
    Forall (fun p => pay_finalityHoldAt p = None /\ qualifies (mi_assetCode input)
      (mi_assetIssuer input) (mi_periodStart input) (mi_periodEnd input) p) rows /\
    Forall2 (fun p a => revealProtectedAmount decrypt (pay_amountEncrypted p) = Some a) rows amounts /\
    parseAmount (mi_thresholdAmount input) = Some threshold /\ threshold <= sumZ amounts /\
    requireActiveAssetPolicy cfg txdb (mi_assetCode input) (mi_assetIssuer input) = Ok tt.
Proof.
  intros Hnd. unfold createMinimumIncomeProof. intros H. run_issue.
  apply load_selected_Ok in H1 as [-> Hl]. destruct x1. rewrite check_each_Ok in H2.
  apply total_amount_Ok in H3 as (amounts & Hf & ->). reflect_hyps.
  exists (selected db u (mi_selectedPaymentIds input)), amounts, x3. split_and!; try done.
  - intros p Hp. apply list_elem_of_In, List.filter_In in Hp as [Hp Hu]. reflect_hyps.
    split; [by apply list_elem_of_In|done].
  - by apply selected_all.
  - eapply Forall_impl; [exact H2|]. intros p Hp. by apply check_minimum_income_Ok.
  - by destruct x8.
Qed.

(** income-range issuance does not look at finality holds: holding every
    payment, or releasing every hold, never changes its answer. *)
Theorem income_range_ignores_holds decrypt sha256 cfg consume db txdb u input now id h :
  createIncomeRangeProof decrypt sha256 cfg consume (hold_all h db) txdb u input now id =
  createIncomeRangeProof decrypt sha256 cfg consume db txdb u input now id.
Proof.
  unfold createIncomeRangeProof. destruct (throw_if _ _); cbn; [|done].
  destruct (require _ _) as [lo|]; cbn; [|done]. destruct (require _ _) as [hi|]; cbn; [|done].
  destruct (throw_if _ _); cbn; [|done]. rewrite load_selected_hold.
  destruct (load_selected db u _) as [rows|]; cbn; [|done].
  rewrite check_each_hold by done. destruct (check_each _ _); cbn; [|done].
  rewrite total_amount_hold, length_fmap. done.
Qed.

(** the cadence intervals of a recurring-income proof partition the
    requested period: every instant of the period lies in exactly one interval
    (its cadence step), and an accepted proof has a selected payment in each of
    the requested number of intervals. *)
Theorem recurring_income_covers sha256 cfg consume db txdb u input now id core s e :
  rc_periodStart input = Some s -> rc_periodEnd input = Some e ->
  is_Some (time_clip s) ->
  is_Some (time_clip (step_from s (rc_intervalUnit input) (rc_intervalCount input))) ->
  createRecurringIncomeProof sha256 cfg consume db txdb u input now id = Ok core ->
  (forall t, s <= t <= e -> exists k, 0 <= k < rc_intervalCount input /\
     step_from s (rc_intervalUnit input) k <= t < step_from s (rc_intervalUnit input) (k + 1)) /\
  (forall k, 0 <= k < rc_intervalCount input -> exists p,
     p ∈ selected db u (rc_selectedPaymentIds input) /\
     step_from s (rc_intervalUnit input) k <= pay_occurredAt p
       < step_from s (rc_intervalUnit input) (k + 1)).
Proof.
  intros Es Ee Hs Hc. unfold createRecurringIncomeProof. rewrite Es, Ee. intros H. run_issue.
  pose proof H1 as Hb. unfold buildRecurringIntervals in Hb.
  apply bind_Ok in Hb as (? & Hg & _). apply throw_if_Ok, orb_false_iff in Hg as [Hf Hg].
  rewrite !addIntervalUnit_step in *. set (n := rc_intervalCount input) in *.
  set (unit := rc_intervalUnit input) in *. cbn in H0. reflect_hyps.
  assert (e < step_from s unit n) as Hend.
  { destruct Hc as [c Hc]. rewrite Hc in Hg. unfold time_clip in Hc.
    destruct (_ <=? _); simplify_eq. cbn in Hg. by apply Z.leb_gt in Hg. }
  assert (0 <= n) as Hn.
  { destruct (decide (0 <= n)); [done|]. pose proof (step_from_mono s unit n 0). rewrite step_from_0 in *. lia. }
  split; [intros t Ht; apply step_from_locate; lia|].
  intros k Hk. pose proof (recurring_intervals_nth s e unit n _ k Hs Hc H1 Hk) as Hi.
  apply Nat.ltb_ge, Nat.le_0_r, length_zero_iff_nil in H4.
  assert (interval_paid x1 (Some (step_from s unit k), Some (Z.min (step_from s unit (k + 1) - 1) e)) = true) as Hp.
  { apply not_false_iff_true. intros Hno. apply list_elem_of_lookup_2, list_elem_of_In in Hi.
    eapply in_nil. erewrite <- H4. apply List.filter_In. split; [exact Hi|]. by rewrite Hno. }
  unfold interval_paid in Hp. apply existsb_exists in Hp as (p & Hin & Hp). cbn in Hp. reflect_hyps.
  apply load_selected_Ok in H2 as [-> _]. exists p. split; [by apply list_elem_of_In|lia].
Qed.

(** the two amount parsers of the service agree: wherever the aggregate
    policy's [parseStroops] reads an amount, [parseAmount] reads the same one. *)
Theorem amount_parsers_agree s n : parseStroops s = Some n -> parseAmount s = Some n.
Proof.
  unfold parseStroops, parseAmount. pose proof (span_digits_spec s) as [_ Hw].
  destruct (span_digits s) as [w r] eqn:E. cbn in Hw. destruct (_ && _); [|done].
  destruct r as [|c r].
  - rewrite (before_dot_span _ _ _ E) by auto. intros [= <-].
    rewrite big_int_digits by done. cbn [mbind option_bind]. by rewrite big_int_digits.
  - destruct (_ && _) eqn:E2; [|done]. reflect_hyps. destruct (Ascii.eqb_spec c "."); [subst|done].
    rewrite (before_dot_span _ _ _ E) by eauto. cbv iota beta zeta.
    rewrite before_dot_digits, (big_int_digits w) by done. cbn [mbind option_bind].
    rewrite big_int_digits; [done|].
    unfold pad_end. rewrite all_digits_append, all_digits_repeat, andb_true_r. done.
Qed.

(** ** Concrete requests *)

Definition demo_user : User := {| u_id := "alice"; u_walletHash := "w"; u_role := UserRole.WORKER |}.
Definition demo_config : Config :=
  {| cfg_network := "testnet"; cfg_anchoringEnabled := true; cfg_anchoringRequired := false |}.
Definition demo_row (id : string) (t : Z) (hold : option Z) : Payment :=
  {| pay_id := id; pay_userId := "alice"; pay_operationId := id; pay_sourceAddress := None;
     pay_sourceAddressEncrypted := None; pay_assetCode := "XLM"; pay_assetIssuer := None;
     pay_amountEncrypted := Some "40.5"; pay_classification := PaymentClassification.INCOME;
     pay_isEligible := true; pay_finalityHoldAt := hold; pay_occurredAt := t |}.
Definition demo_tables (rows : list Payment) : Db :=
  {| payments := rows; trustedSources := []; issuers := [];
     supportedAssets := [{| sa_id := "a"; sa_code := "XLM"; sa_issuer := None;
       sa_network := "testnet"; sa_status := ResourceStatus.ACTIVE |}];
     attestations := []; settlements := [] |}.
Definition demo_rows : list Payment := [demo_row "p1" 1000 None; demo_row "p2" (DAY_MS + 5) None].
Definition demo_minimum : MinimumIncomeInput :=
  {| mi_selectedPaymentIds := ["p2"; "p1"; "p2"]; mi_thresholdAmount := "80.9999999";
     mi_assetCode := "XLM"; mi_assetIssuer := None; mi_periodStart := Some 0;
     mi_periodEnd := Some (2 * DAY_MS); mi_expiresInDays := None |}.
Definition demo_recurring : RecurringIncomeInput :=
  {| rc_selectedPaymentIds := ["p1"; "p2"]; rc_intervalUnit := day; rc_intervalCount := 2;
     rc_assetCode := "XLM"; rc_assetIssuer := None; rc_periodStart := Some 0;
     rc_periodEnd := Some (2 * DAY_MS - 1); rc_expiresInDays := None |}.
Definition demo_core (r : result IssueError ProofCore) : ProofCore :=
  match r with
  | Ok c => c
  | Err _ => make_core id demo_config EmptyString demo_user ProofType.MINIMUM_INCOME EmptyString
      EmptyString None 0 0 0 0 JNull {| cl_operator := EmptyString; cl_thresholdEncrypted := None;
        cl_frequency := None; cl_result := false; cl_disclosurePolicy := JNull |}
  end.
Definition demo_create : result IssueError ProofCore :=
  createMinimumIncomeProof Some id demo_config (fun _ => true) (demo_tables demo_rows)
    (demo_tables []) demo_user demo_minimum 5000 "proof".

Lemma issued_proof_rebuilds_witness :
  exists claim, hash_matches Some id (demo_core demo_create) "w" claim = true.
Proof.
  destruct (issued_proof_rebuilds Some id id (fun _ _ => None) (fun _ m => m) "k" demo_config
    (fun _ => true) (demo_tables demo_rows) (demo_tables []) demo_user 5000 "proof"
    (demo_core demo_create)) as (claim & _ & H).
  - apply (bool_decide_unpack _). by vm_compute.
  - apply (issued_minimum_income _ _ _ _ _ _ _ _ _ _ _ _ _ demo_minimum). by vm_compute.
  - by exists claim.
Defined.

Lemma minimum_income_sound_witness :
  exists amounts threshold, parseAmount "80.9999999" = Some threshold /\ threshold <= sumZ amounts.
Proof.
  destruct (minimum_income_sound Some id demo_config (fun _ => true) (demo_tables demo_rows)
    (demo_tables []) demo_user demo_minimum 5000 "proof" (demo_core demo_create))
    as (rows & amounts & threshold & _ & _ & _ & _ & Ht & Hs & _).
  - apply (bool_decide_unpack _). by vm_compute.
  - by vm_compute.
  - by exists amounts, threshold.
Defined.

(** A payment on a finality hold is refused by the minimum-income request and
    accepted by the income-range request. *)
Example held_payment_in_range_proof :
  let db := demo_tables [demo_row "p1" 1000 (Some 7)] in
  createMinimumIncomeProof Some id demo_config (fun _ => true) db db demo_user
    {| mi_selectedPaymentIds := ["p1"]; mi_thresholdAmount := "1"; mi_assetCode := "XLM";
       mi_assetIssuer := None; mi_periodStart := Some 0; mi_periodEnd := Some 5000;
       mi_expiresInDays := None |} 9000 "proof" = Err FinalityHold /\
  is_Some (match createIncomeRangeProof Some id demo_config (fun _ => true) db db demo_user
    {| ir_selectedPaymentIds := ["p1"]; ir_lowerBound := "1"; ir_upperBound := "50";
       ir_assetCode := "XLM"; ir_assetIssuer := None; ir_periodStart := Some 0;
       ir_periodEnd := Some 5000; ir_expiresInDays := None |} 9000 "proof" with
    | Ok core => Some (pc_id core) | Err _ => None end).
Proof. split; vm_compute; [done|by eexists]. Qed.

Lemma recurring_income_covers_witness :
  exists p, p ∈ selected (demo_tables demo_rows) demo_user ["p1"; "p2"] /\
    DAY_MS <= pay_occurredAt p < 2 * DAY_MS.
Proof.
  destruct (recurring_income_covers id demo_config (fun _ => true) (demo_tables demo_rows)
    (demo_tables []) demo_user demo_recurring 5000 "proof"
    (demo_core (createRecurringIncomeProof id demo_config (fun _ => true) (demo_tables demo_rows)
      (demo_tables []) demo_user demo_recurring 5000 "proof")) 0 (2 * DAY_MS - 1))
    as [_ H].
  - by vm_compute.
  - by vm_compute.
  - vm_compute. by eexists.
  - vm_compute. by eexists.
  - by vm_compute.
  - destruct (H 1) as (p & Hp & Ht); [by vm_compute|]. by exists p.
Defined.

Lemma amount_parsers_agree_witness : parseAmount "12.0000345" = Some 120000345.
Proof. apply amount_parsers_agree. by vm_compute. Defined.
