(* ===== verification/Renewal.v ===== *)
(** * Proof renewal and supersession

    Model of [src/proofs/proof-renewal.policy.ts] and of the renewal methods of
    [ProofsService] ([renewProof], [issueSuccessor], [linkSuccessor],
    [claimPredecessor], [replayOrConflict]).  A renewal reads the store, then
    commits a transaction on a store that other requests may have changed in
    between: [renew_prepare] is the first part, [renew_finish] the second. *)

From S2P Require Import Prelude JsData DecimalText Calendar Encoding Schema Canonical PaymentStore.
From S2P Require Import EmployerPayment ProofStore Credentials Issuance IssuanceFacts.
From Stdlib Require Import Ascii.

Local Open Scope string_scope.
Local Open Scope Z_scope.
#[local] Arguments String.append !_ _ : simpl nomatch.

Definition RENEWAL_GRACE_PERIOD_DAYS : Z := 30.
Definition MAX_SUPERSESSION_CHAIN_DEPTH : nat := 256.
Definition MAX_IDEMPOTENCY_KEY_LENGTH : nat := 128.
Definition PROOF_CREDENTIAL_ISSUER := "earnproof-backend".

Inductive RenewalIneligibility :=
| inel_revoked | inel_invalid | inel_expired_beyond_grace | inel_already_superseded.

Inductive SupersessionIncompatibility :=
| SAME_PROOF | OWNER_MISMATCH | PROOF_TYPE_MISMATCH | ISSUER_MISMATCH | ASSET_MISMATCH
| NETWORK_MISMATCH | POLICY_MISMATCH | SUCCESSOR_NOT_ACTIVE | SUCCESSOR_EXPIRED
| SUCCESSOR_ALREADY_LINKED | SUCCESSOR_SUPERSEDED | SUCCESSOR_PREDATES_PREDECESSOR | CYCLE.
#[export] Instance SupersessionIncompatibility_eq_dec : EqDecision SupersessionIncompatibility.
Proof. solve_decision. Defined.

(** A stored row, with the issuer field rows do not carry today. *)
Record RenewableProof := { rn_row : Proof; rn_issuer : option string }.
Definition renewable (p : Proof) : RenewableProof := {| rn_row := p; rn_issuer := None |}.

(** ** Eligibility *)

Definition evaluateRenewalEligibility (p : Proof) (now : Z) (hasSuccessor : bool)
    : list RenewalIneligibility :=
  ((match p_status p with
   | ProofStatus.REVOKED => [inel_revoked]
   | ProofStatus.INVALID => [inel_invalid]
   | _ => if p_expiresAt p + RENEWAL_GRACE_PERIOD_DAYS * 86400000 <=? now
          then [inel_expired_beyond_grace] else []
   end)
  ++ (if hasSuccessor || bool_decide (is_Some (p_supersededAt p))
      then [inel_already_superseded] else []))%list.

(** ** Policy fingerprint *)

Definition POLICY_FLAGS : list string :=
  ["senderHidden"; "amountHidden"; "exactIncomeHidden"; "sourceTransactionsHidden"].

(** [value ?? null] *)
Definition or_null (v : json) : json := match v with JUndef => JNull | _ => v end.

Definition policy_flags (claim : option Claim) : list (string * json) :=
  let policy := match claim with Some c => jsonPolicy (cl_disclosurePolicy c) | None => [] end in
  (fun flag => (flag, or_null (policy_get policy flag))) <$> POLICY_FLAGS.

Definition fingerprint_value (p : Proof) : json :=
  JObj [("schemaVersion", JStr (pc_schemaVersion (p_core p)));
        ("operator", jopt (cl_operator <$> p_claim p));
        ("frequency", jopt (p_claim p ≫= cl_frequency));
        ("flags", JObj (policy_flags (p_claim p)))].

Definition policyFingerprint (p : Proof) : result CanonicalError (option string) :=
  canonicalize (fingerprint_value p).

#[export] Instance result_eq_dec {E A} `{EqDecision E} `{EqDecision A} : EqDecision (result E A).
Proof. solve_decision. Defined.
#[export] Instance CanonicalError_eq_dec : EqDecision CanonicalError.
Proof. solve_decision. Defined.

(** ** Compatibility *)

Definition credentialIssuer (r : RenewableProof) : string :=
  default PROOF_CREDENTIAL_ISSUER (rn_issuer r).

Definition when (c : bool) (r : SupersessionIncompatibility) : list SupersessionIncompatibility :=
  if c then [r] else [].

Definition evaluateSupersessionCompatibility (predecessor successor : RenewableProof) (now : Z)
    (successorHasSuccessor : bool) : list SupersessionIncompatibility :=
  let p := rn_row predecessor in
  let q := rn_row successor in
  let pc := p_core p in
  let qc := p_core q in
  if bool_decide (pc_id pc = pc_id qc) then [SAME_PROOF] else
  (when (negb (bool_decide (pc_userId pc = pc_userId qc))) OWNER_MISMATCH
  ++ when (negb (bool_decide (pc_proofType pc = pc_proofType qc))) PROOF_TYPE_MISMATCH
  ++ when (negb (bool_decide (credentialIssuer predecessor = credentialIssuer successor))) ISSUER_MISMATCH
  ++ when (negb (bool_decide (pc_assetCode pc = pc_assetCode qc)) ||
           negb (bool_decide (pc_assetIssuer pc = pc_assetIssuer qc))) ASSET_MISMATCH
  ++ when (negb (bool_decide (pc_network pc = pc_network qc))) NETWORK_MISMATCH
  ++ when (negb (bool_decide (policyFingerprint p = policyFingerprint q))) POLICY_MISMATCH
  ++ (if negb (bool_decide (p_status q = ProofStatus.ACTIVE)) then [SUCCESSOR_NOT_ACTIVE]
      else when (pc_expiresAt qc <=? now) SUCCESSOR_EXPIRED)
  ++ when (truthy (p_supersedesId q)) SUCCESSOR_ALREADY_LINKED
  ++ when (bool_decide (is_Some (p_supersededAt q)) || successorHasSuccessor) SUCCESSOR_SUPERSEDED
  ++ when (pc_createdAt qc <? pc_createdAt pc) SUCCESSOR_PREDATES_PREDECESSOR)%list.

(** ** Cycle detection *)

(** The loop: [budget] counts down from the depth limit. *)
Fixpoint walk (loadPredecessorId : string -> option string) (candidate : string) (budget : nat)
    (seen : list string) (current : option string) : bool :=
  match current with
  | None | Some EmptyString => false
  | Some c =>
      if bool_decide (c = candidate) || bool_decide (c ∈ seen) then true
      else match budget with
           | O => true
           | S budget => walk loadPredecessorId candidate budget (c :: seen) (loadPredecessorId c)
           end
  end.

Definition wouldCreateCycle (predecessorId candidateSuccessorId : string)
    (loadPredecessorId : string -> option string) : bool :=
  walk loadPredecessorId candidateSuccessorId MAX_SUPERSESSION_CHAIN_DEPTH [] (Some predecessorId).

(** ** Request identity *)

Record RenewalRequest := {
  rq_userId : string;
  rq_predecessorId : string;
  rq_successorProofId : option string;
  rq_expiresInDays : option Z;
  rq_idempotencyKey : option string;
}.

Definition request_value (r : RenewalRequest) : json :=
  JObj [("userId", JStr (rq_userId r)); ("predecessorId", JStr (rq_predecessorId r));
        ("successorProofId", jopt (rq_successorProofId r));
        ("expiresInDays", match rq_expiresInDays r with None => JNull | Some n => JNum n end);
        ("idempotencyKey", jopt (rq_idempotencyKey r))].

Definition renewalRequestHash (sha256 : string -> string) (r : RenewalRequest) : string :=
  content_hash sha256 (request_value r).

(** ** The service *)

Record RenewInput := { ri_successorProofId : option string; ri_expiresInDays : option Z }.

Inductive RenewalMode := mode_issued | mode_linked.

Inductive RenewError :=
| InvalidIdempotencyKey | RenewProofNotFound | NotOwner | NotEligible (r : list RenewalIneligibility)
| SuccessorNotFound | Incompatible (r : list SupersessionIncompatibility)
| AlreadySuperseded | MissingClaim | RenewDb (e : DbError).

Record RenewalResponse := {
  rr_predecessorId : string;
  rr_proofId : string;
  rr_status : ProofStatus.t;
  rr_mode : RenewalMode;
  rr_replayed : bool;
  rr_supersededAt : Z;
  rr_credential : json;                         (* the body, before it is signed *)
}.

(** What a renewal carries from its reads to its transaction. *)
Inductive PendingRenewal :=
| PendingIssue (predecessor : Proof) (claim : Claim) (successorId intentId : string)
    (expiresInDays : option Z) (requestHash : string) (now : Z)
| PendingLink (predecessor successor : Proof) (claim : Claim) (requestHash : string) (now : Z).

Inductive TxError := TxConflict | TxDb (e : DbError).

Section service.
Context (decrypt : string -> option string) (sha256 : string -> string) (cfg : Config).
(** The wallet hash of a user row. *)
Context (walletHashOf : string -> string).

Definition load_owned (s : Store) (user : User) (proofId : string) : result RenewError Proof :=
  match find_proof proofId s with
  | None => Err RenewProofNotFound
  | Some p => if bool_decide (p_userId p = u_id user) then Ok p else Err NotOwner
  end.

Definition loadPredecessorId (s : Store) (proofId : string) : option string :=
  find_proof proofId s ≫= p_supersedesId.

Definition rebuilt (core : ProofCore) (claim : Claim) : json :=
  rebuildCredential decrypt core (walletHashOf (pc_userId core)) claim.

Definition renewalResponse (predecessorId : string) (supersededAt : Z) (successor : Proof)
    (credential : json) (mode : RenewalMode) (replayed : bool) : RenewalResponse :=
  {| rr_predecessorId := predecessorId; rr_proofId := p_id successor; rr_status := p_status successor;
     rr_mode := mode; rr_replayed := replayed; rr_supersededAt := supersededAt;
     rr_credential := credential |}.

Definition replayOrConflict (s : Store) (predecessorId requestHash : string) (mode : RenewalMode)
    : result RenewError RenewalResponse :=
  match find_proof predecessorId s with
  | None => Err AlreadySuperseded
  | Some predecessor =>
      match superseded_by predecessorId s with
      | None => Err AlreadySuperseded
      | Some successor =>
          match p_claim successor with
          | None => Err AlreadySuperseded
          | Some claim =>
              if bool_decide (p_renewalRequestHash successor = Some requestHash)
              then Ok (renewalResponse predecessorId
                     (default (pc_createdAt (p_core successor)) (p_supersededAt predecessor))
                     successor (rebuilt (p_core successor) claim) mode true)
              else Err AlreadySuperseded
          end
      end
  end.

(** The successor's row and the credential it commits to. *)
Definition successor_core (predecessor : ProofCore) (claim : Claim) (successorId : string)
    (expiresAt now : Z) (hash : string) : ProofCore :=
  {| pc_id := successorId; pc_userId := pc_userId predecessor; pc_proofType := pc_proofType predecessor;
     pc_schemaVersion := pc_schemaVersion predecessor; pc_network := pc_network predecessor;
     pc_assetCode := pc_assetCode predecessor; pc_assetIssuer := pc_assetIssuer predecessor;
     pc_periodStart := pc_periodStart predecessor; pc_periodEnd := pc_periodEnd predecessor;
     pc_expiresAt := expiresAt; pc_commitment := Some (String.append "sha256:" (sha256 hash));
     pc_credentialHash := hash; pc_createdAt := now; pc_claim := Some claim |}.

(** [rebuildCredential({...predecessor, id, createdAt, expiresAt, claim})] *)
Definition successor_credential (predecessor : ProofCore) (claim : Claim) (successorId : string)
    (expiresAt now : Z) : json :=
  rebuilt (successor_core predecessor claim successorId expiresAt now EmptyString) claim.

Definition issued_successor (predecessor : Proof) (claim : Claim) (successorId : string)
    (expiresInDays : option Z) (requestHash : string) (now : Z) : Proof :=
  let expiresAt := expiry now expiresInDays in
  let hash := content_hash sha256
    (successor_credential (p_core predecessor) claim successorId expiresAt now) in
  {| p_core := successor_core (p_core predecessor) claim successorId expiresAt now hash;
     p_status := ProofStatus.ACTIVE; p_contractTransactionHash := None; p_revocation := not_revoked;
     p_supersedesId := Some (p_id predecessor); p_supersededAt := None;
     p_renewalRequestHash := Some requestHash; p_propagationConfirmedAt := None; p_updatedAt := now |}.

(** The conditional update of [claimPredecessor]. *)
Definition claimable (predecessor q : Proof) : bool :=
  has_id (p_id predecessor) q && bool_decide (p_userId q = p_userId predecessor) &&
  bool_decide (p_supersededAt q = None) &&
  negb (bool_decide (p_status q = ProofStatus.REVOKED)) &&
  negb (bool_decide (p_status q = ProofStatus.INVALID)).

Definition claimPredecessor (predecessor : Proof) (now : Z) (s : Store) : result TxError Store :=
  if (count_where (claimable predecessor) (proofs s) =? 1)%nat
  then Ok (map_proofs (claimable predecessor) (set_superseded now now) s)
  else Err TxConflict.

(** The conditional update of [linkSuccessor]. *)
Definition attachable (user : string) (successor q : Proof) : bool :=
  has_id (p_id successor) q && bool_decide (p_userId q = user) &&
  bool_decide (p_status q = ProofStatus.ACTIVE) &&
  bool_decide (p_supersedesId q = None) && bool_decide (p_supersededAt q = None).

Definition lift_db {A} (r : result DbError A) : result TxError A :=
  match r with Ok a => Ok a | Err e => Err (TxDb e) end.

(** The transaction of [issueSuccessor] or [linkSuccessor]. *)
Definition renew_commit (pending : PendingRenewal) (s : Store) : result TxError (Store * Proof) :=
  match pending with
  | PendingIssue predecessor claim successorId intentId expiresInDays requestHash now =>
      s ← claimPredecessor predecessor now s;
      let created := issued_successor predecessor claim successorId expiresInDays requestHash now in
      s ← lift_db (create_proof created s);
      s ← lift_db (enqueue_register cfg successorId intentId now s);
      Ok (s, created)
  | PendingLink predecessor successor claim requestHash now =>
      s ← claimPredecessor predecessor now s;
      let w := attachable (p_userId predecessor) successor in
      let n := count_where w (proofs s) in
      _ ← throw_if ((0 <? n)%nat && bool_decide (is_Some (superseded_by (p_id predecessor) s)))
            (TxDb P2002);
      let s' := map_proofs w (set_link (p_id predecessor) requestHash now) s in
      _ ← throw_if (negb (n =? 1)%nat) TxConflict;
      match find_proof (p_id successor) s' with
      | None => Err (TxDb P2025)
      | Some linked => Ok (s', linked)
      end
  end.

Definition bad_key (idempotencyKey : option string) : bool :=
  match idempotencyKey with
  | None => false
  | Some k => String.eqb (trim k) EmptyString || (MAX_IDEMPOTENCY_KEY_LENGTH <? String.length k)%nat
  end.

(** The request whose hash identifies a renewal. *)
Definition request_of (user : User) (predecessorId : string) (input : RenewInput)
    (idempotencyKey : option string) : RenewalRequest :=
  {| rq_userId := u_id user; rq_predecessorId := predecessorId;
     rq_successorProofId := ri_successorProofId input;
     rq_expiresInDays := if truthy (ri_successorProofId input) then None else ri_expiresInDays input;
     rq_idempotencyKey := idempotencyKey |}.

(** [renewProof] up to the transaction: an answer, or what to commit. *)
Definition renew_prepare (s : Store) (user : User) (proofId : string) (input : RenewInput)
    (idempotencyKey : option string) (now : Z) (successorId intentId : string)
    : result RenewError (RenewalResponse + PendingRenewal) :=
  _ ← throw_if (bad_key idempotencyKey) InvalidIdempotencyKey;
  predecessor ← load_owned s user proofId;
  let linking := truthy (ri_successorProofId input) in
  let requestHash := renewalRequestHash sha256
    (request_of user (p_id predecessor) input idempotencyKey) in
  let mode := if linking then mode_linked else mode_issued in
  match superseded_by (p_id predecessor) s with
  | Some _ => r ← replayOrConflict s (p_id predecessor) requestHash mode; Ok (inl r)
  | None =>
      let reasons := evaluateRenewalEligibility predecessor now false in
      _ ← throw_if (0 <? length reasons)%nat (NotEligible reasons);
      if linking then
        match find_where (fun q => bool_decide (Some (p_id q) = ri_successorProofId input) &&
                                   bool_decide (p_userId q = u_id user)) (proofs s) with
        | None => Err SuccessorNotFound
        | Some successor =>
            match p_claim successor with
            | None => Err SuccessorNotFound
            | Some claim =>
                let incompatible := evaluateSupersessionCompatibility (renewable predecessor)
                  (renewable successor) now
                  (bool_decide (is_Some (superseded_by (p_id successor) s))) in
                let cyclic := negb (bool_decide (SAME_PROOF ∈ incompatible)) &&
                  wouldCreateCycle (p_id predecessor) (p_id successor) (loadPredecessorId s) in
                let incompatible := (incompatible ++ when cyclic CYCLE)%list in
                _ ← throw_if (0 <? length incompatible)%nat (Incompatible incompatible);
                Ok (inr (PendingLink predecessor successor claim requestHash now))
            end
        end
      else
        match p_claim predecessor with
        | None => Err MissingClaim
        | Some claim => Ok (inr (PendingIssue predecessor claim successorId intentId
                                   (ri_expiresInDays input) requestHash now))
        end
  end.

Definition pending_hash (p : PendingRenewal) : string :=
  match p with PendingIssue _ _ _ _ _ h _ => h | PendingLink _ _ _ h _ => h end.
Definition pending_predecessor (p : PendingRenewal) : Proof :=
  match p with PendingIssue q _ _ _ _ _ _ => q | PendingLink q _ _ _ _ => q end.
Definition pending_mode (p : PendingRenewal) : RenewalMode :=
  match p with PendingIssue _ _ _ _ _ _ _ => mode_issued | PendingLink _ _ _ _ _ => mode_linked end.

(** The body the winning response carries. *)
Definition pending_credential (p : PendingRenewal) (created : Proof) : json :=
  match p with
  | PendingIssue q claim id _ days _ now =>
      successor_credential (p_core q) claim id (expiry now days) now
  | PendingLink _ successor claim _ _ => rebuilt (p_core successor) claim
  end.
Definition pending_now (p : PendingRenewal) : Z :=
  match p with PendingIssue _ _ _ _ _ _ n => n | PendingLink _ _ _ _ n => n end.

(** The rest of [renewProof]: commit, or answer a lost race. *)
Definition renew_finish (pending : PendingRenewal) (s : Store)
    : Store * result RenewError RenewalResponse :=
  match renew_commit pending s with
  | Ok (s', successor) =>
      (s', Ok (renewalResponse (p_id (pending_predecessor pending)) (pending_now pending) successor
                 (pending_credential pending successor) (pending_mode pending) false))
  | Err TxConflict | Err (TxDb P2002) =>
      (s, replayOrConflict s (p_id (pending_predecessor pending)) (pending_hash pending)
            (pending_mode pending))
  | Err (TxDb P2025) => (s, Err (RenewDb P2025))
  end.
End service.
