(* ===== verification/RenewalFacts.v ===== *)
(** * What renewal guarantees

    Cycle detection, the identity of a renewal request, the effect of a renewal
    transaction on the store, races between renewals, and the validity of a
    renewed credential. *)

From S2P Require Import Prelude JsData DecimalText Calendar Schema Canonical PaymentStore.
From S2P Require Import EmployerPayment ProofStore Credentials Issuance IssuanceFacts Renewal.
From Stdlib Require Import Ascii.

Local Open Scope string_scope.
Local Open Scope Z_scope.
#[local] Arguments String.append !_ _ : simpl nomatch.
#[local] Arguments wouldCreateCycle : simpl never.

(** ** Ancestry *)

(** [ancestry load c l]: [l] is the chain of predecessors of [c], [c] included,
    up to the first row without a predecessor. *)
Inductive ancestry (load : string -> option string) : string -> list string -> Prop :=
| ancestry_root c : truthy (Some c) = true -> truthy (load c) = false -> ancestry load c [c]
| ancestry_step c d l :
    truthy (Some c) = true -> load c = Some d -> ancestry load d l -> ancestry load c (c :: l).

Lemma walk_falsy load cand budget seen o : truthy o = false -> walk load cand budget seen o = false.
Proof. by destruct budget, o as [[]|]. Qed.

Lemma walk_truthy load cand budget seen c :
  truthy (Some c) = true ->
  walk load cand budget seen (Some c) =
  if bool_decide (c = cand) || bool_decide (c ∈ seen) then true
  else match budget with
       | O => true
       | S budget => walk load cand budget (c :: seen) (load c)
       end.
Proof. by destruct budget, c. Qed.

Lemma walk_false load cand budget seen c :
  truthy (Some c) = true ->
  walk load cand budget seen (Some c) = false <->
  exists l, ancestry load c l /\ (length l <= budget)%nat /\ NoDup l /\ (cand ∉ l) /\
    (forall x, x ∈ l -> x ∉ seen).
Proof.
  revert seen c. induction budget as [|budget IH]; intros seen c Hc; rewrite walk_truthy by done.
  { split; [by destruct (_ || _)|]. intros (l & [] & Hl & _); cbn in Hl; lia. }
  destruct (_ || _) eqn:E.
  - split; [done|]. intros (l & Ha & _ & _ & Hcand & Hs). apply orb_true_iff in E.
    assert (c ∈ l) by (destruct Ha; set_solver).
    destruct E as [E|E]; apply bool_decide_eq_true in E; [by subst|by destruct (Hs c)].
  - apply orb_false_iff in E as [E1 E2]. apply bool_decide_eq_false in E1, E2.
    destruct (truthy (load c)) eqn:Et.
    + destruct (load c) as [d|] eqn:El; [|done]. rewrite IH by done. split.
      * intros (l & Ha & Hl & Hnd & Hcand & Hs). exists (c :: l). split_and!.
        -- by eapply ancestry_step.
        -- cbn. lia.
        -- apply NoDup_cons. split; [|done]. intros Hin. apply (Hs c Hin). set_solver.
        -- set_solver.
        -- set_solver.
      * intros (l & Ha & Hl & Hnd & Hcand & Hs).
        inversion Ha as [? ? Hno|? d' l' ? Hd Hrest]; subst; [rewrite El in Hno; congruence|].
        rewrite El in Hd. injection Hd as <-. apply NoDup_cons in Hnd as [Hnotin Hnd].
        exists l'. cbn in Hl. split_and!; [done|lia|done|set_solver|set_solver].
    + rewrite walk_falsy by done. split; [|done]. intros _. exists [c].
      split_and!; [by constructor|cbn; lia|apply NoDup_singleton|set_solver|set_solver].
Qed.

Lemma cycle_free load predecessor candidate :
  predecessor <> EmptyString ->
  wouldCreateCycle predecessor candidate load = false <->
  exists l, ancestry load predecessor l /\ (length l <= 256)%nat /\ NoDup l /\ candidate ∉ l.
Proof.
  intros Hp. unfold wouldCreateCycle. rewrite walk_false by (by destruct predecessor).
  split; intros (l & ? & ? & ? & ?); exists l; [naive_solver|].
  split_and!; try done. set_solver.
Qed.

(** ** Plain values *)

Lemma request_value_plain r : plain (request_value r) = true.
Proof.
  unfold request_value. cbn. rewrite !jopt_plain. by destruct (rq_expiresInDays r).
Qed.

Lemma content_hash_plain sha256 v :
  plain v = true -> exists text, canonicalize v = Ok (Some text) /\
    content_hash sha256 v = String.append "sha256:" (sha256 text).
Proof.
  intros Hp. unfold content_hash. rewrite (canonicalize_plain v Hp). eauto.
Qed.

Lemma request_value_inj r1 r2 :
  canonicalize (request_value r1) = canonicalize (request_value r2) -> r1 = r2.
Proof.
  intros Hc. pose proof (fun k v => canonical_field _ _ k v (request_value_plain r1)
    (request_value_plain r2) Hc) as Hf.
  assert (forall o, atomic (jopt o) = true) as Hat by by intros [].
  pose proof (Hf "userId" _ eq_refl eq_refl) as [= H1].
  pose proof (Hf "predecessorId" _ eq_refl eq_refl) as [= H2].
  pose proof (Hf "successorProofId" _ eq_refl (Hat _)) as H3.
  assert (JsMap.get "expiresInDays" [("expiresInDays", match rq_expiresInDays r2 with
    | None => JNull | Some n => JNum n end)] = Some match rq_expiresInDays r1 with
    | None => JNull | Some n => JNum n end) as H4.
  { rewrite <- (Hf "expiresInDays" _ eq_refl); [done|]. by destruct (rq_expiresInDays r1). }
  pose proof (Hf "idempotencyKey" _ eq_refl (Hat _)) as H5.
  cbn in H3, H4, H5. injection H3 as H3%jopt_inj. injection H5 as H5%jopt_inj.
  destruct r1 as [u1 p1 s1 e1 k1], r2 as [u2 p2 s2 e2 k2]; cbn in *. subst.
  destruct e1, e2; naive_solver.
Qed.

(** ** Transactions *)

Lemma claimable_true predecessor q :
  claimable predecessor q = true ->
  p_id q = p_id predecessor /\ p_supersededAt q = None /\
  p_status q <> ProofStatus.REVOKED /\ p_status q <> ProofStatus.INVALID.
Proof.
  unfold claimable. intros H. reflect_hyps. split_and!; try done. by apply String.eqb_eq.
Qed.

Lemma attachable_true u successor q :
  attachable u successor q = true ->
  p_id q = p_id successor /\ p_supersedesId q = None /\ p_supersededAt q = None /\
  p_status q = ProofStatus.ACTIVE.
Proof.
  unfold attachable. intros H. reflect_hyps. split_and!; try done. by apply String.eqb_eq.
Qed.

Lemma claimPredecessor_Ok predecessor now s s' :
  claimPredecessor predecessor now s = Ok s' ->
  exists q, q ∈ proofs s /\ claimable predecessor q = true /\
    s' = map_proofs (claimable predecessor) (set_superseded now now) s.
Proof.
  unfold claimPredecessor. destruct (Nat.eqb_spec (count_where (claimable predecessor) (proofs s)) 1) as [Hn|];
    [|done]. intros [= <-]. destruct (count_where_pos (claimable predecessor) (proofs s)) as (q & Hq & Hc);
    [lia|eauto].
Qed.

Lemma set_superseded_evolves predecessor now q :
  claimable predecessor q = true -> proof_evolves q (set_superseded now now q).
Proof.
  intros (_ & Hs & _)%claimable_true. split; unfold status_le; cbn; auto.
  rewrite Hs. by intros [].
Qed.

Lemma set_link_evolves u successor predecessor hash now q :
  attachable u successor q = true -> proof_evolves q (set_link predecessor hash now q).
Proof.
  intros (_ & Hs & _)%attachable_true. split; unfold status_le; cbn; auto.
  rewrite Hs. by intros [].
Qed.

Lemma claimPredecessor_preserves predecessor now s s' :
  claimPredecessor predecessor now s = Ok s' -> store_wf s -> store_wf s' /\ store_evolves s s'.
Proof.
  intros (q & _ & _ & ->)%claimPredecessor_Ok Hwf. split; [by apply map_proofs_wf|].
  apply map_proofs_evolves. intros p _. apply set_superseded_evolves.
Qed.

(** The row of the predecessor after it was claimed. *)
Lemma claimPredecessor_marks predecessor now s s' :
  claimPredecessor predecessor now s = Ok s' ->
  exists q, q ∈ proofs s' /\ p_id q = p_id predecessor /\ p_supersededAt q = Some now.
Proof.
  intros (q & Hq & Hc & ->)%claimPredecessor_Ok. exists (set_superseded now now q).
  split_and!; [|apply (claimable_true _ _ Hc)|done].
  apply elem_of_update_where. exists q. by rewrite Hc.
Qed.

Lemma enqueue_register_preserves cfg id iid now s s' :
  enqueue_register cfg id iid now s = Ok s' -> store_wf s -> store_wf s' /\ proofs s' = proofs s.
Proof.
  unfold enqueue_register. destruct (cfg_anchoringEnabled cfg); [|by intros [= <-]].
  intros H Hwf. split; [eauto with earn|by apply create_intent_proofs in H].
Qed.

Lemma lift_db_Ok {A} (r : result DbError A) a : lift_db r = Ok a <-> r = Ok a.
Proof. destruct r; cbn; naive_solver. Qed.

(** Attaching a link no other row has keeps the constraints. *)
Lemma set_link_wf u successor predecessor hash now s :
  store_wf s -> superseded_by predecessor s = None ->
  store_wf (map_proofs (attachable u successor) (set_link predecessor hash now) s).
Proof.
  intros [H1 H2 H3 H4] Hnone. rewrite superseded_by_None in Hnone. split; cbn; try done.
  - rewrite update_where_keys; [done|]. by intros p.
  - intros p q x Hp Hq Hpx Hqx. apply elem_of_update_where in Hp as (p0 & Hp0 & ->).
    apply elem_of_update_where in Hq as (q0 & Hq0 & ->).
    destruct (attachable u successor p0) eqn:Ep, (attachable u successor q0) eqn:Eq; cbn in Hpx, Hqx.
    + apply attachable_true in Ep as [Ep _], Eq as [Eq _].
      assert (p0 = q0) as ->; [|done]. apply (key_unique (fun p => p_id p) (proofs s)); congruence.
    + destruct (Hnone q0 Hq0). congruence.
    + destruct (Hnone p0 Hp0). congruence.
    + by apply (H4 p0 q0 x).
Qed.

(** What a committed renewal did. *)
Record renewed (pending : PendingRenewal) (s s' : Store) (successor : Proof) : Prop := {
  rd_wf : store_wf s';
  rd_evolves : store_evolves s s';
  rd_successor : successor ∈ proofs s';
  rd_link : p_supersedesId successor = Some (p_id (pending_predecessor pending));
  rd_hash : p_renewalRequestHash successor = Some (pending_hash pending);
  rd_claimed : exists q, q ∈ proofs s' /\ p_id q = p_id (pending_predecessor pending) /\
    p_supersededAt q = Some (pending_now pending);
}.

Lemma evolved_claim s s' id t :
  store_evolves s s' -> (exists q, q ∈ proofs s /\ p_id q = id /\ p_supersededAt q = Some t) ->
  exists q, q ∈ proofs s' /\ p_id q = id /\ p_supersededAt q = Some t.
Proof.
  intros Hev (q & Hq & Hid & Ht). destruct (Hev q Hq) as (r & Hr & [Hc _ Ha _ _]).
  exists r. rewrite Hc, Ha, Ht by (rewrite Ht; done). done.
Qed.

Lemma commit_issue decrypt sha256 cfg w predecessor claim sid iid days hash now s s' created :
  renew_commit decrypt sha256 cfg w (PendingIssue predecessor claim sid iid days hash now) s =
    Ok (s', created) -> store_wf s ->
  renewed (PendingIssue predecessor claim sid iid days hash now) s s' created /\
  created = issued_successor decrypt sha256 w predecessor claim sid days hash now.
Proof.
  unfold renew_commit. intros H Hwf. run_result.
  repeat match goal with H : lift_db _ = Ok _ |- _ => apply lift_db_Ok in H end.
  match goal with H : claimPredecessor _ _ _ = _ |- _ =>
    pose proof (claimPredecessor_marks _ _ _ _ H);
    destruct (claimPredecessor_preserves _ _ _ _ H Hwf) as [Hwf1 Hev1] end.
  match goal with H : create_proof _ _ = _ |- _ =>
    pose proof (create_proof_wf _ _ _ H Hwf1) as Hwf2;
    pose proof (create_proof_evolves _ _ _ H) as Hev2; rename H into Hcreate end.
  match goal with H : enqueue_register _ _ _ _ _ = _ |- _ =>
    destruct (enqueue_register_preserves _ _ _ _ _ _ H Hwf2) as [Hwf3 Hp] end.
  pose proof (store_evolves_same _ _ Hp) as Hev3. split; [|done]. split; try done.
  - by do 2 (etrans; [done|]).
  - rewrite Hp. unfold create_proof in Hcreate. run_result. cbn. set_solver.
  - by do 2 (eapply evolved_claim; [done|]).
Qed.

Lemma commit_link decrypt sha256 cfg w predecessor successor claim hash now s s' linked :
  renew_commit decrypt sha256 cfg w (PendingLink predecessor successor claim hash now) s =
    Ok (s', linked) -> store_wf s ->
  renewed (PendingLink predecessor successor claim hash now) s s' linked /\
  p_id linked = p_id successor.
Proof.
  unfold renew_commit. intros H Hwf. run_result.
  match goal with H : claimPredecessor _ _ _ = Ok ?s1 |- _ =>
    pose proof (claimPredecessor_marks _ _ _ _ H) as Hmark; rename s1 into s1;
    destruct (claimPredecessor_preserves _ _ _ _ H Hwf) as [Hwf1 Hev1] end.
  set (wh := attachable _ _) in *.
  match goal with H : context [find_proof ?i ?st] |- _ =>
    destruct (find_proof i st) as [q|] eqn:Hfind; [|done] end.
  run_result. apply find_proof_Some in Hfind as [Hin Hid]. apply andb_false_iff in H1.
  apply negb_false_iff, Nat.eqb_eq in H2. destruct (count_where_pos wh (proofs x)) as (q & Hq & Hw); [lia|].
  assert (superseded_by (p_id predecessor) x = None) as Hnone.
  { destruct H1 as [H1|H1]; [apply Nat.ltb_ge in H1; lia|]. reflect_hyps.
    by apply eq_None_not_Some. }
  assert (store_evolves x (map_proofs wh (set_link (p_id predecessor) hash now) x)) as Hev2.
  { apply map_proofs_evolves. intros p _. apply set_link_evolves. }
  assert (store_wf (map_proofs wh (set_link (p_id predecessor) hash now) x)) as Hwf2.
  { by apply set_link_wf. }
  assert (linked = set_link (p_id predecessor) hash now q) as ->.
  { apply (proof_unique _ _ _ Hwf2 Hin).
    - apply elem_of_update_where. exists q. by rewrite Hw.
    - rewrite Hid. symmetry. apply (attachable_true _ _ _ Hw). }
  split; [|done]. split; try done.
  - by etrans.
  - by eapply evolved_claim.
Qed.

(** ** Replays *)

Section replays.
Context (decrypt : string -> option string) (sha256 : string -> string) (cfg : Config)
  (walletHashOf : string -> string).

Lemma superseded_by_elem s q id :
  store_wf s -> q ∈ proofs s -> p_supersedesId q = Some id -> superseded_by id s = Some q.
Proof.
  intros Hwf Hq Hl. destruct (superseded_by id s) as [q'|] eqn:E.
  - apply superseded_by_Some in E as [Hq' Hl']. f_equal. by apply (wf_supersedes s Hwf _ _ id).
  - rewrite superseded_by_None in E. by destruct (E q Hq).
Qed.

(** The answer of [replayOrConflict] once a renewal has been committed. *)
Lemma replay_after pending s s' s'' successor claim hash mode :
  renewed pending s s' successor -> p_claim successor = Some claim ->
  store_wf s'' -> store_evolves s' s'' ->
  exists row, row ∈ proofs s'' /\ proof_evolves successor row /\
    superseded_by (p_id (pending_predecessor pending)) s'' = Some row /\
    replayOrConflict decrypt walletHashOf s'' (p_id (pending_predecessor pending)) hash mode =
    (if bool_decide (pending_hash pending = hash)
     then Ok (renewalResponse (p_id (pending_predecessor pending)) (pending_now pending) row
                (rebuilt decrypt walletHashOf (p_core successor) claim) mode true)
     else Err AlreadySuperseded).
Proof.
  intros [Hwf _ Hin Hlink Hhash Hclaimed] Hcl Hwf'' Hev.
  destruct (Hev _ Hin) as (row & Hrow & Hpe). pose proof Hpe as [Hc _ _ Hl _].
  destruct Hl as [Hl Hh]; [by rewrite Hlink|]. rewrite Hlink in Hl. rewrite Hhash in Hh.
  pose proof (superseded_by_elem _ _ _ Hwf'' Hrow Hl) as Hsup.
  exists row. split_and!; try done. unfold replayOrConflict.
  destruct (evolved_claim _ _ _ _ Hev Hclaimed) as (q & Hq & Hid & Ht).
  rewrite <- Hid in Hsup |- *. rewrite (find_proof_elem _ _ Hwf'' Hq), Hsup, Hc, Hcl, Hh, Ht.
  destruct (decide (pending_hash pending = hash)) as [->|Hne].
  - by rewrite !bool_decide_eq_true_2.
  - rewrite !bool_decide_eq_false_2; [done..|]. by intros [= ?].
Qed.

(** What the first half of a renewal read. *)
Lemma prepare_reads s user id input key now sid iid pending :
  renew_prepare decrypt sha256 walletHashOf s user id input key now sid iid = Ok (inr pending) ->
  p_id (pending_predecessor pending) = id /\
  pending_predecessor pending ∈ proofs s /\
  bad_key key = false /\ p_userId (pending_predecessor pending) = u_id user /\
  pending_hash pending = renewalRequestHash sha256 (request_of user id input key) /\
  evaluateRenewalEligibility (pending_predecessor pending) now false = [] /\
  match pending with
  | PendingIssue predecessor claim _ _ _ _ _ => p_claim predecessor = Some claim
  | PendingLink predecessor successor claim _ _ =>
      successor ∈ proofs s /\ p_claim successor = Some claim /\
      evaluateSupersessionCompatibility (renewable predecessor) (renewable successor) now
        (bool_decide (is_Some (superseded_by (p_id successor) s))) = [] /\
      wouldCreateCycle (p_id predecessor) (p_id successor) (loadPredecessorId s) = false
  end.
Proof.
  unfold renew_prepare, load_owned. intros H. run_result.
  destruct (find_proof id s) as [p|] eqn:Hf; [|done]. apply find_proof_Some in Hf as [Hin Hid].
  destruct (bool_decide _) eqn:Hu; [|done]. reflect_hyps. run_result.
  match goal with H : match superseded_by ?i ?st with _ => _ end = _ |- _ =>
    destruct (superseded_by i st) end; run_result; [done|].
  match goal with H : (0 <? length ?l)%nat = false |- _ =>
    destruct l eqn:Hel; [clear H|discriminate H] end.
  destruct (truthy (ri_successorProofId input)) eqn:Hlink.
  - match goal with H : match find_where ?w ?t with _ => _ end = _ |- _ =>
      destruct (find_where w t) as [q|] eqn:Hq; [|done] end.
    apply find_where_Some in Hq as [Hq _]. destruct (p_claim q) eqn:Hcl; [|done].
    run_result. simplify_eq/=.
    match goal with H : (0 <? length ?l)%nat = false |- _ =>
      destruct l eqn:Hin2; [clear H|discriminate H] end.
    apply app_eq_nil in Hin2 as [Hcompat Hcyc]. rewrite Hcompat in Hcyc. cbn in Hcyc.
    split_and!; try done. by destruct (wouldCreateCycle _ _ _).
  - destruct (p_claim _) eqn:Hcl; [|done]. by simplify_eq/=.
Qed.

(** A committed renewal left a successor that still has its claim. *)
Lemma commit_renewed s0 user id input key now sid iid pending s s' successor :
  renew_prepare decrypt sha256 walletHashOf s0 user id input key now sid iid = Ok (inr pending) ->
  store_wf s -> store_evolves s0 s ->
  renew_commit decrypt sha256 cfg walletHashOf pending s = Ok (s', successor) ->
  renewed pending s s' successor /\ is_Some (p_claim successor).
Proof.
  intros (Hid & Hin & _ & _ & _ & _ & Hp)%prepare_reads Hwf Hev Hc. destruct pending.
  - apply commit_issue in Hc as [Hr ->]; [|done]. split; [done|]. by eexists.
  - apply commit_link in Hc as [Hr Hs]; [|done]. split; [done|]. destruct Hp as (Hq & Hcl & _).
    destruct (Hev _ Hq) as (q1 & Hq1 & [Hc1 _ _ _ _]).
    destruct (rd_evolves _ _ _ _ Hr _ Hq1) as (q2 & Hq2 & [Hc2 _ _ _ _]).
    assert (successor = q2) as ->.
    { apply (proof_unique _ _ _ (rd_wf _ _ _ _ Hr)); [apply (rd_successor _ _ _ _ Hr)|done|congruence]. }
    rewrite Hc2, Hc1, Hcl. by eexists.
Qed.

(** A claimed predecessor cannot be claimed again. *)
Lemma claimed_conflict predecessor now s t :
  store_wf s -> (exists q, q ∈ proofs s /\ p_id q = p_id predecessor /\ p_supersededAt q = Some t) ->
  claimPredecessor predecessor now s = Err TxConflict.
Proof.
  intros Hwf (q & Hq & Hid & Ht).
  destruct (claimPredecessor predecessor now s) as [s'|[]] eqn:E; [|done|].
  - apply claimPredecessor_Ok in E as (r & Hr & (Hri & Hrs & _)%claimable_true & _).
    rewrite (proof_unique s r q Hwf Hr Hq) in Hrs by congruence. congruence.
  - unfold claimPredecessor in E. by destruct (_ =? _)%nat.
Qed.
End replays.

(** ** Properties *)

(** [wouldCreateCycle] is exact within its depth limit: it answers [false]
    exactly when the predecessor's chain of ancestors ends, visits at most 256
    rows, repeats none, and does not contain the candidate successor. *)
Theorem cycle_detection_exact load predecessor candidate :
  predecessor <> EmptyString ->
  wouldCreateCycle predecessor candidate load = false <->
  exists l, ancestry load predecessor l /\ (length l <= 256)%nat /\ NoDup l /\ candidate ∉ l.
Proof.
  apply cycle_free.
Qed.

(** two renewal requests with the same request hash are the same request
    (owner, predecessor, chosen successor, validity and idempotency key), or the
    digest collides on two different texts, which are then exhibited. *)
Theorem renewal_hash_identifies_request sha256 r1 r2 :
  renewalRequestHash sha256 r1 = renewalRequestHash sha256 r2 ->
  r1 = r2 \/ exists t1 t2, t1 <> t2 /\ sha256 t1 = sha256 t2.
Proof.
  intros H. unfold renewalRequestHash in H.
  destruct (content_hash_plain sha256 _ (request_value_plain r1)) as (t1 & H1 & E1).
  destruct (content_hash_plain sha256 _ (request_value_plain r2)) as (t2 & H2 & E2).
  rewrite E1, E2 in H. apply append_left_inj in H.
  destruct (decide (t1 = t2)) as [->|]; [|eauto]. left. apply request_value_inj. congruence.
Qed.

(** a renewal request repeated after it was committed, at any later time
    and whatever other requests did in between, changes nothing and answers with
    the same successor, marked as a replay. *)
Theorem renewal_idempotent decrypt sha256 cfg w s0 user id input key now sid iid pending s1 s2 successor
    s3 now' sid' iid' :
  renew_prepare decrypt sha256 w s0 user id input key now sid iid = Ok (inr pending) ->
  store_wf s1 -> store_evolves s0 s1 ->
  renew_commit decrypt sha256 cfg w pending s1 = Ok (s2, successor) ->
  store_wf s3 -> store_evolves s2 s3 ->
  exists r, renew_prepare decrypt sha256 w s3 user id input key now' sid' iid' = Ok (inl r) /\
    rr_proofId r = p_id successor /\ rr_replayed r = true /\ rr_supersededAt r = pending_now pending.
Proof.
  intros Hp Hwf1 Hev1 Hc Hwf3 Hev3.
  destruct (commit_renewed _ _ _ _ _ _ _ _ _ _ _ _ _ _ _ _ Hp Hwf1 Hev1 Hc) as [Hr [claim Hcl]].
  destruct (prepare_reads _ _ _ _ _ _ _ _ _ _ _ _ Hp) as (Hid & Hin & Hkey & Hu & Hh & _).
  destruct (Hev1 _ Hin) as (p1 & Hp1 & [Hc1 _ _ _ _]).
  destruct (rd_evolves _ _ _ _ Hr _ Hp1) as (p2 & Hp2 & [Hc2 _ _ _ _]).
  destruct (Hev3 _ Hp2) as (p3 & Hp3 & [Hc3 _ _ _ _]).
  assert (p_core p3 = p_core (pending_predecessor pending)) as Hcore by congruence.
  pose proof (find_proof_elem _ _ Hwf3 Hp3) as Hfind. rewrite Hcore, Hid in Hfind.
  destruct (replay_after decrypt w _ _ _ _ _ _ (pending_hash pending)
    (if truthy (ri_successorProofId input) then mode_linked else mode_issued) Hr Hcl Hwf3 Hev3)
    as (row & Hrow & Hpe & Hsup & Hrep).
  unfold renew_prepare, load_owned. rewrite Hkey, Hfind. cbn.
  rewrite Hcore, bool_decide_eq_true_2 by done. cbn. rewrite !Hcore.
  rewrite Hsup, Hid, <- Hh, <- Hid, Hrep. rewrite bool_decide_eq_true_2 by done. cbn.
  eexists. split_and!; [done| |done..]. cbn. by rewrite (ev_core _ _ Hpe).
Qed.

(** two renewals of the same proof that raced past the check cannot both
    commit.  Once one has, the other one leaves the store as it is: it answers
    with the winner's successor when it is the same request, and with
    AlreadySuperseded otherwise. *)
Theorem renewal_race decrypt sha256 cfg w s0 user id input key now sid iid pending s1 s2 successor
    s3 late :
  renew_prepare decrypt sha256 w s0 user id input key now sid iid = Ok (inr pending) ->
  store_wf s1 -> store_evolves s0 s1 ->
  renew_commit decrypt sha256 cfg w pending s1 = Ok (s2, successor) ->
  store_wf s3 -> store_evolves s2 s3 -> p_id (pending_predecessor late) = id ->
  exists row claim, row ∈ proofs s3 /\ proof_evolves successor row /\ p_claim row = Some claim /\
  renew_finish decrypt sha256 cfg w late s3 =
  (s3, if bool_decide (pending_hash pending = pending_hash late)
       then Ok (renewalResponse id (pending_now pending) row
                  (rebuilt decrypt w (p_core row) claim) (pending_mode late) true)
       else Err AlreadySuperseded).
Proof.
  intros Hp Hwf1 Hev1 Hc Hwf3 Hev3 Hlate.
  destruct (commit_renewed _ _ _ _ _ _ _ _ _ _ _ _ _ _ _ _ Hp Hwf1 Hev1 Hc) as [Hr [claim Hcl]].
  destruct (prepare_reads _ _ _ _ _ _ _ _ _ _ _ _ Hp) as (Hid & _).
  destruct (replay_after decrypt w _ _ _ _ _ _ (pending_hash late) (pending_mode late) Hr Hcl Hwf3 Hev3)
    as (row & Hrow & Hpe & _ & Hrep).
  exists row, claim. split_and!; [done..|by rewrite (ev_core _ _ Hpe)|].
  pose proof (evolved_claim _ _ _ _ Hev3 (rd_claimed _ _ _ _ Hr)) as Hmark.
  rewrite Hid, <- Hlate in Hmark.
  assert (renew_commit decrypt sha256 cfg w late s3 = Err TxConflict) as Hconflict.
  { destruct late; cbn; rewrite (claimed_conflict _ _ _ _ Hwf3 Hmark); done. }
  unfold renew_finish. rewrite Hconflict, Hlate, <- Hid, Hrep, (ev_core _ _ Hpe). done.
Qed.

(** an issued successor verifies: the hash it commits to is that of the
    credential rebuilt from its own row, for every proof type and every stored
    claim. *)
Theorem renewed_credential_verifies decrypt sha256 w predecessor claim sid days hash now :
  let successor := issued_successor decrypt sha256 w predecessor claim sid days hash now in
  hash_matches decrypt sha256 (p_core successor) (w (p_userId successor)) claim = true.
Proof. apply String.eqb_refl. Qed.

Lemma when_nil c r : when c r = [] <-> c = false.
Proof. by destruct c. Qed.

Lemma eligibility_nil p now b :
  evaluateRenewalEligibility p now b = [] <->
  (p_status p = ProofStatus.ACTIVE \/ p_status p = ProofStatus.EXPIRED) /\
  now < p_expiresAt p + 30 * 86400000 /\ b = false /\ p_supersededAt p = None.
Proof.
  unfold evaluateRenewalEligibility, RENEWAL_GRACE_PERIOD_DAYS.
  destruct (Z.leb_spec (p_expiresAt p + 30 * 86400000) now), b, (p_supersededAt p), (p_status p); cbn;
    try (split; [discriminate|]); naive_solver lia.
Qed.

(** C31: a renewal that reaches its transaction renews a proof its caller owns,
    active or expired for less than thirty days and not superseded.  When it
    links an existing proof, that proof has the same type, asset and network and
    the same policy fingerprint, is active, unexpired and not part of another
    link, is no older than the predecessor, and is none of its ancestors. *)
Theorem renewal_sound decrypt sha256 w s user id input key now sid iid pending :
  renew_prepare decrypt sha256 w s user id input key now sid iid = Ok (inr pending) ->
  let p := pending_predecessor pending in
  p ∈ proofs s /\ p_id p = id /\ p_userId p = u_id user /\
  (p_status p = ProofStatus.ACTIVE \/ p_status p = ProofStatus.EXPIRED) /\
  now < p_expiresAt p + 30 * 86400000 /\ p_supersededAt p = None /\
  match pending with
  | PendingIssue _ _ _ _ _ _ _ => True
  | PendingLink _ q _ _ _ =>
      let c := p_core p in let d := p_core q in
      q ∈ proofs s /\ p_userId q = u_id user /\ pc_proofType d = pc_proofType c /\
      pc_assetCode d = pc_assetCode c /\ pc_assetIssuer d = pc_assetIssuer c /\
      pc_network d = pc_network c /\ policyFingerprint q = policyFingerprint p /\
      p_status q = ProofStatus.ACTIVE /\ now < p_expiresAt q /\ truthy (p_supersedesId q) = false /\
      p_supersededAt q = None /\ pc_createdAt c <= pc_createdAt d /\
      (id <> EmptyString -> exists l, ancestry (loadPredecessorId s) id l /\ p_id q ∉ l)
  end.
Proof.
  intros (Hid & Hin & _ & Hu & _ & Hel & Hp)%prepare_reads p.
  apply eligibility_nil in Hel as (Hst & Hexp & _ & Hsup). split_and!; [done..|].
  destruct pending as [|pr q]; [done|]. destruct Hp as (Hq & _ & Hc & Hcyc). subst p. cbn in *.
  unfold evaluateSupersessionCompatibility in Hc. cbn in Hc. destruct (bool_decide _); [done|].
  rewrite !app_nil, !when_nil in Hc. destruct Hc as (C1 & C2 & _ & C4 & C5 & C6 & C7 & C8 & C9 & C10).
  destruct (negb _) eqn:C11 in C7; [done|]. rewrite when_nil in C7. reflect_hyps.
  split_and!; try done; try congruence; [by apply eq_None_not_Some|].
  intros Hne. apply cycle_free in Hcyc; [|congruence]. rewrite <- Hid. naive_solver.
Qed.

(** ** Witnesses *)

Definition sample_claim : Claim :=
  {| cl_operator := "gte"; cl_thresholdEncrypted := Some (protectAmount "1000"); cl_frequency := None;
     cl_result := true;
     cl_disclosurePolicy := JObj [("exactIncomeHidden", JBool true); ("qualifyingPaymentCount", JNum 3)] |}.

Definition sample_proof : Proof :=
  {| p_core :=
       {| pc_id := "p1"; pc_userId := "u1"; pc_proofType := ProofType.MINIMUM_INCOME;
          pc_schemaVersion := "1.0.0"; pc_network := "testnet"; pc_assetCode := "USDC";
          pc_assetIssuer := Some "G1"; pc_periodStart := Some 0; pc_periodEnd := Some 86400000;
          pc_expiresAt := 2592000000; pc_commitment := None; pc_credentialHash := "h1";
          pc_createdAt := 0; pc_claim := Some sample_claim |};
     p_status := ProofStatus.ACTIVE; p_contractTransactionHash := None; p_revocation := not_revoked;
     p_supersedesId := None; p_supersededAt := None; p_renewalRequestHash := None;
     p_propagationConfirmedAt := None; p_updatedAt := 0 |}.

Definition sample_store : Store := {| proofs := [sample_proof]; intents := []; audit := [] |}.

Lemma sample_store_wf : store_wf sample_store.
Proof.
  split; cbn; try apply NoDup_singleton; try apply NoDup_nil; [done..|].
  intros p q x ->%list_elem_of_singleton. done.
Qed.

Definition sample_user : User := {| u_id := "u1"; u_walletHash := "w1"; u_role := UserRole.WORKER |}.
Definition sample_config : Config :=
  {| cfg_network := "testnet"; cfg_anchoringEnabled := true; cfg_anchoringRequired := false |}.
Definition sample_input : RenewInput := {| ri_successorProofId := None; ri_expiresInDays := Some 90 |}.
Definition sample_wallet (_ : string) : string := "w1".

Definition sample_pending : PendingRenewal :=
  PendingIssue sample_proof sample_claim "p2" "i2" (Some 90)
    (renewalRequestHash id (request_of sample_user "p1" sample_input None)) 1000.

Definition sample_successor : Proof :=
  issued_successor Some id sample_wallet sample_proof sample_claim "p2" (Some 90)
    (pending_hash sample_pending) 1000.

Definition sample_renewed : Store :=
  {| proofs := [set_superseded 1000 1000 sample_proof; sample_successor];
     intents := [new_intent {| ic_id := "i2"; ic_proofId := "p2";
       ic_operation := AnchoringOperation.REGISTER; ic_createdAt := 1000 |} AnchoringStatus.PENDING];
     audit := [] |}.

Lemma sample_commit :
  renew_commit Some id sample_config sample_wallet sample_pending sample_store =
    Ok (sample_renewed, sample_successor).
Proof. vm_compute. reflexivity. Qed.

Lemma sample_prepare :
  renew_prepare Some id sample_wallet sample_store sample_user "p1" sample_input None 1000 "p2" "i2" =
    Ok (inr sample_pending).
Proof. vm_compute. reflexivity. Qed.

Lemma sample_renewed_wf : store_wf sample_renewed.
Proof. eapply rd_wf, commit_issue; [apply sample_commit|apply sample_store_wf]. Qed.

Lemma cycle_detection_exact_witness :
  exists l, ancestry (fun c => if String.eqb c "b" then Some "a" else None) "b" l /\
    (length l <= 256)%nat /\ NoDup l /\ "c" ∉ l.
Proof.
  apply (cycle_detection_exact (fun c => if String.eqb c "b" then Some "a" else None) "b" "c");
    [done|reflexivity].
Defined.

Lemma renewal_hash_identifies_request_witness :
  request_of sample_user "p1" sample_input None = request_of sample_user "p1" sample_input None \/
  exists t1 t2 : string, t1 <> t2 /\ id t1 = id t2.
Proof.
  apply (renewal_hash_identifies_request id (request_of sample_user "p1" sample_input None)
    (request_of sample_user "p1" sample_input None)). reflexivity.
Defined.

Lemma renewal_idempotent_witness :
  exists r, renew_prepare Some id sample_wallet sample_renewed sample_user "p1" sample_input None 9000
      "p3" "i3" = Ok (inl r) /\
    rr_proofId r = "p2" /\ rr_replayed r = true /\ rr_supersededAt r = 1000.
Proof.
  apply (renewal_idempotent Some id sample_config sample_wallet sample_store sample_user "p1"
    sample_input None 1000 "p2" "i2" sample_pending sample_store sample_renewed sample_successor
    sample_renewed 9000 "p3" "i3");
    [apply sample_prepare|apply sample_store_wf|reflexivity|apply sample_commit
    |apply sample_renewed_wf|reflexivity].
Defined.

Definition sample_late : PendingRenewal :=
  PendingIssue sample_proof sample_claim "p3" "i3" (Some 30) "other request" 1001.

Lemma renewal_race_witness :
  exists row claim, row ∈ proofs sample_renewed /\ proof_evolves sample_successor row /\
    p_claim row = Some claim /\
    renew_finish Some id sample_config sample_wallet sample_late sample_renewed =
    (sample_renewed,
     if bool_decide (pending_hash sample_pending = pending_hash sample_late)
     then Ok (renewalResponse "p1" (pending_now sample_pending) row
                (rebuilt Some sample_wallet (p_core row) claim) mode_issued true)
     else Err AlreadySuperseded).
Proof.
  apply (renewal_race Some id sample_config sample_wallet sample_store sample_user "p1"
    sample_input None 1000 "p2" "i2" sample_pending sample_store sample_renewed sample_successor
    sample_renewed sample_late);
    [apply sample_prepare|apply sample_store_wf|reflexivity|apply sample_commit
    |apply sample_renewed_wf|reflexivity|reflexivity].
Defined.

Lemma renewal_sound_witness :
  p_userId sample_proof = "u1" /\ 1000 < p_expiresAt sample_proof + 30 * 86400000.
Proof.
  destruct (renewal_sound Some id sample_wallet sample_store sample_user "p1" sample_input None 1000
    "p2" "i2" sample_pending sample_prepare) as (_ & _ & Hu & _ & He & _).
  split; [exact Hu|exact He].
Defined.
