(* ===== verification/CircuitBreaker.v ===== *)
(** * Circuit breaker

    Model of [src/common/resilience/circuit-breaker.ts] and of its registry
    ([circuit-breaker.registry.ts]).  A guarded call is two events: it begins
    ([admit_call]) and it finishes with an outcome that is recorded ([record]), or with
    a refusal of a nested breaker, which is not.  Other calls run in between. *)

From S2P Require Import Prelude JsData.

Local Open Scope Z_scope.

Inductive CallOutcome := success | trip | ignore.

Module CircuitState.
Inductive t := closed | open | half_open.
#[export] Instance t_eq_dec : EqDecision t.
Proof. solve_decision. Defined.
End CircuitState.
Import CircuitState.
Export (hints) CircuitState.

Record Options := {
  failureThreshold : Z;
  openDurationMs : Z;
  halfOpenMaxProbes : Z;
  successThreshold : Z;
}.

Definition DEFAULT_FAILURE_THRESHOLD : Z := 5.
Definition DEFAULT_OPEN_DURATION_MS : Z := 30000.
Definition DEFAULT_HALF_OPEN_MAX_PROBES : Z := 1.
Definition DEFAULT_SUCCESS_THRESHOLD : Z := 2.

Definition default_options : Options :=
  {| failureThreshold := DEFAULT_FAILURE_THRESHOLD; openDurationMs := DEFAULT_OPEN_DURATION_MS;
     halfOpenMaxProbes := DEFAULT_HALF_OPEN_MAX_PROBES; successThreshold := DEFAULT_SUCCESS_THRESHOLD |}.

Record Breaker := {
  state : CircuitState.t;
  consecutiveFailures : Z;
  probeSuccesses : Z;
  probesInFlight : Z;
  openCount : Z;
  openUntil : Z;
}.

Definition new_breaker : Breaker :=
  {| state := closed; consecutiveFailures := 0; probeSuccesses := 0; probesInFlight := 0;
     openCount := 0; openUntil := 0 |}.

Section breaker.
Context (o : Options).

(** ** State machine *)

Definition refresh (now : Z) (b : Breaker) : Breaker :=
  match state b with
  | open =>
      if openUntil b <=? now
      then {| state := half_open; consecutiveFailures := consecutiveFailures b; probeSuccesses := 0;
              probesInFlight := 0; openCount := openCount b; openUntil := openUntil b |}
      else b
  | _ => b
  end.

Definition tryAcquireProbe (b : Breaker) : option Breaker :=
  if halfOpenMaxProbes o <=? probesInFlight b then None
  else Some {| state := state b; consecutiveFailures := consecutiveFailures b;
               probeSuccesses := probeSuccesses b; probesInFlight := probesInFlight b + 1;
               openCount := openCount b; openUntil := openUntil b |}.

(** The state after [admit_call], and the state a refusal reports. *)
Definition admit_call (now : Z) (b : Breaker) : Breaker * option CircuitState.t :=
  let b := refresh now b in
  match state b with
  | open => (b, Some open)
  | closed => (b, None)
  | half_open =>
      match tryAcquireProbe b with
      | None => (b, Some half_open)
      | Some b => (b, None)
      end
  end.

Definition open_ (now : Z) (b : Breaker) : Breaker :=
  {| state := open; consecutiveFailures := consecutiveFailures b; probeSuccesses := 0;
     probesInFlight := 0; openCount := openCount b + 1; openUntil := now + openDurationMs o |}.

Definition close (b : Breaker) : Breaker :=
  {| state := closed; consecutiveFailures := 0; probeSuccesses := 0; probesInFlight := 0;
     openCount := openCount b; openUntil := 0 |}.

Definition onSuccess (b : Breaker) : Breaker :=
  match state b with
  | half_open =>
      let b := {| state := state b; consecutiveFailures := consecutiveFailures b;
                  probeSuccesses := probeSuccesses b + 1; probesInFlight := probesInFlight b;
                  openCount := openCount b; openUntil := openUntil b |} in
      if successThreshold o <=? probeSuccesses b then close b else b
  | _ => {| state := state b; consecutiveFailures := 0; probeSuccesses := probeSuccesses b;
            probesInFlight := probesInFlight b; openCount := openCount b; openUntil := openUntil b |}
  end.

Definition onTrip (now : Z) (b : Breaker) : Breaker :=
  match state b with
  | half_open => open_ now b
  | _ =>
      let b := {| state := state b; consecutiveFailures := consecutiveFailures b + 1;
                  probeSuccesses := probeSuccesses b; probesInFlight := probesInFlight b;
                  openCount := openCount b; openUntil := openUntil b |} in
      if failureThreshold o <=? consecutiveFailures b then open_ now b else b
  end.

Definition record (now : Z) (outcome : CallOutcome) (b : Breaker) : Breaker :=
  let b := match state b with
           | half_open =>
               {| state := state b; consecutiveFailures := consecutiveFailures b;
                  probeSuccesses := probeSuccesses b;
                  probesInFlight := Z.max 0 (probesInFlight b - 1);
                  openCount := openCount b; openUntil := openUntil b |}
           | _ => b
           end in
  match outcome with
  | success => onSuccess b
  | trip => onTrip now b
  | ignore => b
  end.

(** Operator intervention: what [close] does, from any state. *)
Definition reset (b : Breaker) : Breaker := close b.

Definition cooldownRemainingMs (now : Z) (b : Breaker) : Z :=
  match state b with open => Z.max 0 (openUntil b - now) | _ => 0 end.

Definition snapshot (now : Z) (b : Breaker) : Breaker * Z :=
  let b := refresh now b in (b, cooldownRemainingMs now b).

(** ** Calls *)

(** [run]: a call begins, and finishes with a recorded outcome or, when a nested
    breaker refused, with none. *)
Inductive event := Begin (now : Z) | Finish (now : Z) (outcome : option CallOutcome).

Definition event_time (e : event) : Z := match e with Begin t | Finish t _ => t end.

Definition apply_event (b : Breaker) (e : event) : Breaker :=
  match e with
  | Begin now => (admit_call now b).1
  | Finish now (Some outcome) => record now outcome b
  | Finish _ None => b
  end.

Definition apply_events : Breaker -> list event -> Breaker := foldl apply_event.

Definition admitted (b : Breaker) (now : Z) : bool := bool_decide ((admit_call now b).2 = None).
End breaker.

(** ** Registry *)

Definition Registry := list (string * (Options * Breaker)).

Definition getOrCreate (name : string) (o : Options) (r : Registry) : Registry * (Options * Breaker) :=
  match JsMap.get name r with
  | Some existing => (r, existing)
  | None => (JsMap.set name (o, new_breaker) r, (o, new_breaker))
  end.

(** ** Invariant *)

Record options_wf (o : Options) : Prop := {
  ow_failure : 1 <= failureThreshold o;
  ow_duration : 0 <= openDurationMs o;
  ow_probes : 1 <= halfOpenMaxProbes o;
  ow_success : 1 <= successThreshold o;
}.

Record breaker_wf (o : Options) (b : Breaker) : Prop := {
  bw_failures : 0 <= consecutiveFailures b;
  bw_opened : 0 <= openCount b;
  bw_probes : 0 <= probesInFlight b <= halfOpenMaxProbes o;
  bw_closed : state b = closed -> consecutiveFailures b < failureThreshold o;
  bw_half : 0 <= probeSuccesses b < successThreshold o;
  bw_idle : state b <> half_open -> probesInFlight b = 0 /\ probeSuccesses b = 0;
}.

Lemma options_wf_default : options_wf default_options.
Proof. by split. Qed.

Lemma new_breaker_wf o : options_wf o -> breaker_wf o new_breaker.
Proof. intros []. split; cbn; intros; (done || lia). Qed.

(** Case on the tests of one operation and close the arithmetic. *)
Ltac breaker_cases :=
  repeat match goal with
  | |- context [?x <=? ?y] => destruct (Z.leb_spec x y)
  end; cbn in *.

Lemma apply_event_wf o b e : options_wf o -> breaker_wf o b -> breaker_wf o (apply_event o b e).
Proof.
  intros [O1 O2 O3 O4] [W1 W2 W3 W4 W5 W6]. destruct e as [now|now [outcome|]]; cbn.
  - unfold admit_call, refresh, tryAcquireProbe.
    destruct b as [st cf ps pf oc ou]; destruct st; cbn in *; breaker_cases; split; cbn; intros;
      try (specialize (W6 ltac:(done))); try (specialize (W4 ltac:(done))); (congruence || lia).
  - unfold record, onSuccess, onTrip.
    destruct b as [st cf ps pf oc ou]; destruct outcome, st; cbn in *; breaker_cases; split; cbn; intros;
      try (specialize (W6 ltac:(done))); try (specialize (W4 ltac:(done))); (congruence || lia).
  - split; auto.
Qed.

Lemma apply_events_wf o es b :
  options_wf o -> breaker_wf o b -> breaker_wf o (apply_events o b es).
Proof.
  intros Ho. revert b. induction es as [|e es IH]; intros b Hb; [done|]. by apply IH, apply_event_wf.
Qed.

(** ** Cool-off *)

(** An open circuit before the end of its cool-off. *)
Definition cooling (o : Options) (u : Z) (b : Breaker) : Prop :=
  state b = open /\ u <= openUntil b.

Lemma cooling_refuses o u b now : cooling o u b -> now < u -> admit_call o now b = (b, Some open).
Proof.
  intros [Hs Hu] Hn. unfold admit_call, refresh. destruct b as [st cf ps pf oc ou]; cbn in *. subst st.
  destruct (Z.leb_spec ou now); [lia|]. done.
Qed.

Lemma cooling_step o u b e :
  cooling o u b -> u - openDurationMs o <= event_time e < u -> cooling o u (apply_event o b e).
Proof.
  intros Hc Ht. destruct e as [now|now [outcome|]]; cbn [apply_event event_time] in *; [| |done].
  - rewrite (cooling_refuses o u) by (done || lia). done.
  - destruct Hc as [Hs Hu]. destruct b as [st cf ps pf oc ou]; cbn [state openUntil] in *. subst st.
    destruct outcome; [done| |done]. unfold record, onTrip. cbn -[Z.add Z.leb Z.sub].
    destruct (_ <=? _); split; cbn -[Z.add Z.sub]; (done || lia).
Qed.

(** Calls a sequence of events admits. *)
Fixpoint admissions (o : Options) (b : Breaker) (es : list event) : list bool :=
  match es with
  | [] => []
  | e :: es =>
      (match e with Begin now => [admitted o b now] | Finish _ _ => [] end)
      ++ admissions o (apply_event o b e) es
  end.

(** ** Failure streaks *)

(** Consecutive trips, reset by a success and blind to ignored outcomes. *)
Fixpoint streak (acc : Z) (os : list CallOutcome) : Z :=
  match os with
  | [] => acc
  | success :: os => streak 0 os
  | trip :: os => streak (acc + 1) os
  | ignore :: os => streak acc os
  end.

(** One call after the other, at given times. *)
Definition sequential (calls : list (Z * CallOutcome)) : list event :=
  flat_map (fun c => [Begin c.1; Finish c.1 (Some c.2)]) calls.

Lemma streak_app n os os' : streak n (os ++ os') = streak (streak n os) os'.
Proof. revert n. induction os as [|[] os IH]; intros n; cbn; auto. Qed.

Definition closed_with (n : Z) (b : Breaker) : Prop :=
  state b = closed /\ consecutiveFailures b = n.

Lemma closed_call o b n now outcome :
  closed_with n b -> 0 < failureThreshold o ->
  let b' := apply_events o b [Begin now; Finish now (Some outcome)] in
  if streak n [outcome] <? failureThreshold o then closed_with (streak n [outcome]) b'
  else n < failureThreshold o -> state b' = open /\ openUntil b' = now + openDurationMs o.
Proof.
  intros [Hs Hc] Ho. destruct b as [st cf ps pf oc ou]; cbn [state consecutiveFailures] in *. subst st cf.
  unfold apply_events, apply_event, admit_call, refresh, record, onSuccess, onTrip.
  destruct outcome; cbn -[Z.add Z.leb Z.ltb].
  - destruct (Z.ltb_spec 0 (failureThreshold o)); [done|lia].
  - destruct (Z.ltb_spec (n + 1) (failureThreshold o)), (Z.leb_spec (failureThreshold o) (n + 1)); done || lia.
  - destruct (Z.ltb_spec n (failureThreshold o)); [done|]. lia.
Qed.

Lemma closed_calls o calls b n :
  0 < failureThreshold o -> closed_with n b ->
  (forall k, streak n (take k calls.*2) < failureThreshold o) ->
  closed_with (streak n calls.*2) (apply_events o b (sequential calls)).
Proof.
  intros Ho. revert b n. induction calls as [|[t outcome] calls IH]; intros b n Hb Hk; [done|].
  pose proof (closed_call o b n t outcome Hb Ho) as Hc. pose proof (Hk 1%nat) as H1.
  rewrite fmap_cons in H1. cbn [take snd] in H1. rewrite firstn_O in H1.
  apply Z.ltb_lt in H1. cbv zeta in Hc. rewrite H1 in Hc.
  change (apply_events o b (sequential ((t, outcome) :: calls))) with
    (apply_events o (apply_events o b [Begin t; Finish t (Some outcome)]) (sequential calls)).
  assert (forall os, streak n (outcome :: os) = streak (streak n [outcome]) os) as Hs by by destruct outcome.
  rewrite fmap_cons. cbn [snd]. rewrite Hs. apply IH; [done|].
  intros k. rewrite <- Hs. apply (Hk (S k)).
Qed.

(** ** Calls in flight *)

(** A breaker with the calls it admitted: probes of the current half-open
    window, and calls admitted before it. *)
Record Traffic := { brk : Breaker; early : Z; probes : Z }.

Inductive traffic_event :=
| TBegin (now : Z)
| TFinish (probe : bool) (now : Z) (outcome : option CallOutcome).

Definition traffic_step (o : Options) (t : Traffic) (e : traffic_event) : Traffic :=
  match e with
  | TBegin now =>
      let window := match state (brk t), state (refresh now (brk t)) with
                    | open, half_open => true | _, _ => false end in
      let e0 := if window then early t + probes t else early t in
      let p0 := if window then 0 else probes t in
      let '(b, refused) := admit_call o now (brk t) in
      match refused, state b with
      | Some _, _ => {| brk := b; early := e0; probes := p0 |}
      | None, half_open => {| brk := b; early := e0; probes := p0 + 1 |}
      | None, _ => {| brk := b; early := e0 + 1; probes := p0 |}
      end
  | TFinish probe now outcome =>
      {| brk := apply_event o (brk t) (Finish now outcome);
         early := if probe then early t else early t - 1;
         probes := if probe then probes t - 1 else probes t |}
  end.

(** Events in which only probes of the current window finish while the circuit
    is half-open, and they report an outcome. *)
Definition orderly (t : Traffic) (e : traffic_event) : Prop :=
  match e with
  | TBegin _ => True
  | TFinish probe _ outcome => state (brk t) = half_open -> probe = true /\ 0 < probes t /\ is_Some outcome
  end.

Inductive orderly_run (o : Options) : Traffic -> Prop :=
| orderly_new : orderly_run o {| brk := new_breaker; early := 0; probes := 0 |}
| orderly_more t e : orderly_run o t -> orderly t e -> orderly_run o (traffic_step o t e).

Lemma orderly_step o t e :
  options_wf o -> orderly t e -> breaker_wf o (brk t) ->
  (state (brk t) = half_open -> probes t = probesInFlight (brk t)) ->
  state (brk (traffic_step o t e)) = half_open ->
  probes (traffic_step o t e) = probesInFlight (brk (traffic_step o t e)).
Proof.
  intros [O1 O2 O3 O4] Hord [W1 W2 W3 W4 W5 W6] Hp.
  destruct t as [[st cf ps pf oc ou] ea pr]; cbn [brk early probes state probesInFlight] in *.
  destruct e as [now|probe now outcome]; cbn [traffic_step orderly brk early probes] in *.
  - unfold admit_call, refresh, tryAcquireProbe. destruct st; cbn -[Z.add];
      breaker_cases; intros; try specialize (Hp eq_refl); (congruence || lia).
  - destruct st.
    + destruct outcome as [[]|]; cbn -[Z.add Z.sub Z.leb]; breaker_cases; done.
    + destruct outcome as [[]|]; cbn -[Z.add Z.sub Z.leb]; breaker_cases; done.
    + destruct (Hord eq_refl) as (-> & Hpos & [oc' ->]). specialize (Hp eq_refl). subst pr.
      destruct oc'; cbn -[Z.add Z.sub Z.leb Z.max]; breaker_cases; intros; (congruence || lia).
Qed.

Lemma traffic_brk o t e :
  exists ev, brk (traffic_step o t e) = apply_event o (brk t) ev.
Proof.
  destruct e as [now|probe now outcome]; [exists (Begin now)|by exists (Finish now outcome)].
  cbn. destruct (admit_call o now (brk t)) as [b [r|]]; [done|]. by destruct (state b).
Qed.

Lemma orderly_run_inv o t :
  options_wf o -> orderly_run o t ->
  breaker_wf o (brk t) /\ (state (brk t) = half_open -> probes t = probesInFlight (brk t)).
Proof.
  intros Ho. induction 1 as [|t e _ [Hwf Hp] Hord]; [split; [by apply new_breaker_wf|done]|].
  split; [|by apply orderly_step]. destruct (traffic_brk o t e) as [ev ->]. by apply apply_event_wf.
Qed.

(** ** Leaked slots *)

Definition unrecorded (e : event) : bool :=
  match e with Begin _ | Finish _ None => true | Finish _ (Some _) => false end.

Definition wedged (o : Options) (b : Breaker) : Prop :=
  state b = half_open /\ halfOpenMaxProbes o <= probesInFlight b.

Lemma wedged_admit o b now : wedged o b -> admit_call o now b = (b, Some half_open).
Proof.
  intros [Hs Hp]. unfold admit_call, refresh, tryAcquireProbe. rewrite Hs, Hs.
  by destruct (Z.leb_spec (halfOpenMaxProbes o) (probesInFlight b)); [|lia].
Qed.

Lemma cooling_admissions o u b es :
  cooling o u b -> Forall (fun e => u - openDurationMs o <= event_time e < u) es ->
  Forall (fun a => a = false) (admissions o b es).
Proof.
  intros Hc Hes. revert b Hc. induction Hes as [|e es He _ IH]; intros b Hc; [constructor|].
  cbn [admissions]. apply Forall_app. split; [|by apply IH, cooling_step].
  destruct e as [now|]; [|constructor]. repeat constructor. unfold admitted.
  by rewrite (cooling_refuses o u) by (done || (cbn in He; lia)).
Qed.

Lemma wedged_admissions o b es :
  wedged o b -> forallb unrecorded es = true -> Forall (fun a => a = false) (admissions o b es).
Proof.
  intros Hw. induction es as [|e es IH]; [constructor|]. cbn [forallb]. intros [He Hes]%andb_true_iff.
  cbn [admissions]. apply Forall_app. destruct e as [now|now [|]]; try done; cbn [apply_event].
  - rewrite wedged_admit by done. split; [|by apply IH]. repeat constructor. unfold admitted.
    by rewrite wedged_admit.
  - split; [constructor|by apply IH].
Qed.

(** ** Properties *)

(** the counters of a circuit breaker stay in range under every sequence of
    calls and completions: a closed circuit is below its failure threshold, a
    half-open one below its success threshold and within its probe budget, and
    no probe is counted outside the half-open state. *)
Theorem breaker_invariant o es : options_wf o -> breaker_wf o (apply_events o new_breaker es).
Proof. intros Ho. by apply apply_events_wf, new_breaker_wf. Qed.

(** during its cool-off an open circuit admits no call, whatever calls
    admitted earlier finish meanwhile and with whatever outcome. *)
Theorem cooldown_admits_nothing o b es :
  state b = open ->
  Forall (fun e => openUntil b - openDurationMs o <= event_time e < openUntil b) es ->
  Forall (fun a => a = false) (admissions o b es).
Proof. intros Hs. by apply cooling_admissions. Qed.

(** a fresh circuit under sequential calls stays closed exactly as long as
    the run of trips since the last success, ignored outcomes aside, is below the
    threshold; the call that reaches it opens the circuit for the cool-off. *)
Theorem circuit_opens_at_threshold o calls t outcome :
  0 < failureThreshold o ->
  (forall k, streak 0 (take k calls.*2) < failureThreshold o) ->
  let before := apply_events o new_breaker (sequential calls) in
  let after := apply_events o new_breaker (sequential (calls ++ [(t, outcome)])) in
  state before = closed /\ consecutiveFailures before = streak 0 calls.*2 /\
  (state after = open <-> failureThreshold o <= streak 0 (calls.*2 ++ [outcome])) /\
  (state after = open -> openUntil after = t + openDurationMs o).
Proof.
  intros Ho Hk before after.
  pose proof (closed_calls o calls new_breaker 0 Ho (conj eq_refl eq_refl) Hk) as Hc.
  fold before in Hc. set (n := streak 0 calls.*2) in *.
  assert (after = apply_events o before [Begin t; Finish t (Some outcome)]) as Ha.
  { unfold after, before, apply_events, sequential. by rewrite flat_map_app, foldl_app. }
  pose proof (closed_call o before n t outcome Hc Ho) as Hcall. cbv zeta in Hcall. rewrite <- Ha in Hcall.
  assert (streak 0 (calls.*2 ++ [outcome]) = streak n [outcome]) as -> by apply streak_app.
  assert (n < failureThreshold o) as Hn.
  { specialize (Hk (length calls.*2)). by rewrite take_ge in Hk by lia. }
  destruct Hc as [Hs Hf]. split; [done|]. split; [done|].
  destruct (Z.ltb_spec (streak n [outcome]) (failureThreshold o)) as [Hlt|Hge].
  - destruct Hcall as [Hst _]. rewrite Hst. split; [|done]. split; [done|lia].
  - destruct (Hcall Hn) as [Hst Hu]. by rewrite Hst.
Qed.

(** as long as only the probes of the current window finish while the
    circuit is half-open, and report an outcome, no more of them are in flight
    than the budget allows. *)
Theorem probe_bound_orderly o t :
  options_wf o -> orderly_run o t -> state (brk t) = half_open -> 0 <= probes t <= halfOpenMaxProbes o.
Proof.
  intros Ho Hr Hs. destruct (orderly_run_inv o t Ho Hr) as [[_ _ Hb _ _ _] Hp]. by rewrite (Hp Hs).
Qed.

(** a call admitted while the circuit was closed that finishes while it is
    half-open releases a slot it never reserved: with the default options six
    such calls lead to two probes in flight under a budget of one. *)
Theorem straggler_exceeds_probe_bound :
  let calls := repeat (TBegin 0) 6 ++ repeat (TFinish false 1 (Some trip)) 5 ++
    [TBegin 30001; TFinish false 30002 (Some ignore); TBegin 30003] in
  let t := foldl (traffic_step default_options) {| brk := new_breaker; early := 0; probes := 0 |} calls in
  state (brk t) = half_open /\ early t = 0 /\ probes t = 2 /\ halfOpenMaxProbes default_options = 1.
Proof. vm_compute. split_and!; reflexivity. Qed.

(** a half-open circuit all of whose slots were taken by calls that a nested
    breaker refused admits nothing any more, however much time passes: nothing
    was recorded for those calls, so their slots are never released. *)
Theorem leaked_probe_wedges_circuit o b es :
  state b = half_open -> halfOpenMaxProbes o <= probesInFlight b -> forallb unrecorded es = true ->
  Forall (fun a => a = false) (admissions o b es).
Proof. intros Hs Hp. by apply wedged_admissions. Qed.

(** ** Witnesses *)

Lemma breaker_invariant_witness : breaker_wf default_options
  (apply_events default_options new_breaker [Begin 0; Finish 5 (Some trip); Begin 6]).
Proof. apply (breaker_invariant default_options [Begin 0; Finish 5 (Some trip); Begin 6]). by split. Defined.

Definition tripped : Breaker :=
  apply_events default_options new_breaker (sequential (repeat (0, trip) 5)).

Lemma cooldown_admits_nothing_witness :
  Forall (fun a => a = false) (admissions default_options tripped [Begin 10; Finish 20 (Some trip); Begin 29999]).
Proof.
  apply (cooldown_admits_nothing default_options tripped); [reflexivity|].
  repeat constructor; vm_compute; congruence.
Defined.

Lemma circuit_opens_at_threshold_witness :
  state (apply_events default_options new_breaker
    (sequential ([(0, trip); (1, success)] ++ [(2, trip)]))) = open <->
  5 <= streak 0 ([trip; success] ++ [trip]).
Proof.
  apply (circuit_opens_at_threshold default_options [(0, trip); (1, success)] 2 trip); [reflexivity|].
  intros k. destruct k as [|[|k]]; try (vm_compute; reflexivity).
  rewrite take_ge by (cbn; lia). vm_compute. reflexivity.
Defined.

(** A single probe in flight. *)
Definition probing : Traffic :=
  foldl (traffic_step default_options) {| brk := new_breaker; early := 0; probes := 0 |}
    (flat_map (fun _ => [TBegin 0; TFinish false 0 (Some trip)]) (seq 0 5) ++ [TBegin 30001]).

Lemma probing_orderly : orderly_run default_options probing.
Proof.
  unfold probing. repeat first [apply orderly_new | apply orderly_more]; vm_compute; try exact I; discriminate.
Qed.

Lemma probe_bound_orderly_witness : 0 <= probes probing <= 1.
Proof.
  apply (probe_bound_orderly default_options probing); [by split|apply probing_orderly|reflexivity].
Defined.

(** A probe ends in the refusal of a nested breaker. *)
Definition leaked : Breaker :=
  apply_events default_options tripped [Begin 30000; Finish 30001 None].

Lemma leaked_probe_wedges_circuit_witness :
  Forall (fun a => a = false) (admissions default_options leaked [Begin 1000000; Begin 100000000]).
Proof.
  apply (leaked_probe_wedges_circuit default_options leaked); [reflexivity| |reflexivity].
  vm_compute. congruence.
Defined.
