(* ===== verification/Contract.v ===== *)
(** * The on-chain proof registry as the backend sees it

    Model of [src/proofs/contract-anchoring.service.ts] and
    [src/proofs/contract-error.ts]: which command line is run, how its output is
    read, and how a failure or a refusal by the circuit breaker is reported.  The
    command itself (the Stellar CLI) is a parameter: a run has a [CliOutcome]. *)

From S2P Require Import Prelude JsData DecimalText Calendar Schema Canonical Encoding.
From S2P Require Import EmployerPayment Credentials Issuance CircuitBreaker.
From Stdlib Require Import Ascii.

Local Open Scope string_scope.
Local Open Scope Z_scope.
#[local] Arguments String.append !_ _ : simpl nomatch.

(** ** Error messages *)

Fixpoint contains (p s : string) : bool :=
  bool_decide (is_Some (strip_prefix p s)) ||
  match s with EmptyString => false | String _ s => contains p s end.

(** [patterns.some((pattern) => pattern.test(message))], patterns with the [i] flag. *)
Definition matches_any (patterns : list string) (message : string) : bool :=
  existsb (fun p => contains p (lower message)) patterns.

Definition PERMANENT_CONTRACT_ERROR_PATTERNS : list string :=
  ["already registered"; "already exists"; "proof not found"; "invalid contract id";
   "contract not found"; "unauthorized"; "access denied"].

Definition isPermanentContractError (message : string) : bool :=
  matches_any PERMANENT_CONTRACT_ERROR_PATTERNS message.

Definition classifyContractError (message : string) : CallOutcome :=
  if isPermanentContractError message then ignore else trip.

(** ** Results *)

Inductive NotAnchored := disabled | failed (error : string) | circuit_open.

Inductive AnchorProofResult :=
| Anchored (transactionHash : string)
| Unanchored (reason : NotAnchored).

Inductive ContractProofStatus :=
| Checked (revoked valid : bool)
| Unchecked (reason : NotAnchored).

(** One guarded run of the command: its output, its error message after
    redaction, or the breaker's refusal. *)
Inductive CliOutcome := CliOutput (stdout : string) | CliError (message : string) | CliRefused.

Record ContractConfig := {
  cc_enabled : bool;
  cc_required : bool;
  cc_source : option string;
  cc_network : string;
  cc_contractId : option string;
  cc_issuerAddress : option string;
  cc_schemaVersion : Z;
}.

Definition hasRequiredConfig (c : ContractConfig) : bool :=
  truthy (cc_source c) && truthy (cc_contractId c) && truthy (cc_issuerAddress c).

Definition configured (c : ContractConfig) : bool := cc_enabled c && hasRequiredConfig c.

(** ** Output of the command *)

Fixpoint split_on (sep : ascii) (s : string) : list string :=
  match s with
  | EmptyString => [EmptyString]
  | String c s =>
      if Ascii.eqb c sep then EmptyString :: split_on sep s
      else match split_on sep s with
           | [] => [String c EmptyString]
           | w :: ws => String c w :: ws
           end
  end.

(** Lines end in a line feed; a carriage return before it is trimmed. *)
Definition lastOutputLine (stdout : string) : string :=
  let lines := List.filter (fun l => negb (String.eqb l EmptyString))
                 (trim <$> split_on (ascii_of_nat 10) stdout) in
  default EmptyString (last lines).

Definition parseBoolean (value : string) : bool := String.eqb (lower (trim value)) "true".

(** ** Command lines *)

Definition is_hex (c : ascii) : bool :=
  let n := byte_val c in
  ((48 <=? n) && (n <=? 57)) || ((65 <=? n) && (n <=? 70)) || ((97 <=? n) && (n <=? 102)).
Fixpoint all_hex (s : string) : bool :=
  match s with EmptyString => true | String c s => is_hex c && all_hex s end.

Section service.
Context (sha256 : string -> string) (cfg : ContractConfig).

Definition hexFromSha256 (value : string) : string :=
  let normalized := default value (strip_prefix "sha256:" value) in
  if all_hex normalized && (String.length normalized =? 64)%nat then lower normalized
  else sha256 value.

Definition contractInvokeArgs (functionName : string) (functionArgs : list string)
    (includeSource : bool) : list string :=
  (["contract"; "invoke"]
  ++ (if includeSource then ["--source"; default EmptyString (cc_source cfg)] else [])
  ++ ["--network"; cc_network cfg; "--id"; default EmptyString (cc_contractId cfg); "--"; functionName]
  ++ functionArgs)%list.

(** The arguments of [anchorProof]; [expiresAt] is sent in whole seconds. *)
Definition registerArgs (proofId commitment : string) (expiresAt : Z) : list string :=
  contractInvokeArgs "register_proof"
    ["--proof_id_hash"; sha256 proofId; "--commitment_hash"; hexFromSha256 commitment;
     "--issuer_address"; default EmptyString (cc_issuerAddress cfg);
     "--schema_version"; num_text (cc_schemaVersion cfg);
     "--expires_at"; num_text (expiresAt / 1000)] true.

Definition revokeArgs (proofId : string) : list string :=
  contractInvokeArgs "revoke_proof" ["--proof_id_hash"; sha256 proofId] true.

(** ** Calls *)

(** A mutation: [anchorProof] and [invokeMutation] answer a run the same way.
    [Err] is the error thrown when anchoring is required. *)
Definition mutation_result (what : string) (run : CliOutcome) : result string AnchorProofResult :=
  match run with
  | CliOutput out => Ok (Anchored (lastOutputLine out))
  | CliRefused =>
      if cc_required cfg then Err (String.append what " unavailable: dependency circuit is open")
      else Ok (Unanchored circuit_open)
  | CliError m => if cc_required cfg then Err m else Ok (Unanchored (failed m))
  end.

Context (run : list string -> CliOutcome).

Definition anchorProof (proofId commitment : string) (expiresAt : Z) : result string AnchorProofResult :=
  if negb (configured cfg) then Ok (Unanchored disabled)
  else mutation_result "Contract anchoring" (run (registerArgs proofId commitment expiresAt)).

Definition revokeOnChain (proofId : string) : result string AnchorProofResult :=
  if negb (configured cfg) then Ok (Unanchored disabled)
  else mutation_result "Contract mutation" (run (revokeArgs proofId)).

(** [Promise.all] of the two reads: both outputs, or the rejection that came
    first ([swap]: the second read's). *)
Definition all_reads (swap : bool) (a b : CliOutcome) : (string * string) + CliOutcome :=
  match a, b with
  | CliOutput x, CliOutput y => inl (x, y)
  | CliOutput _, e | e, CliOutput _ => inr e
  | e, e' => inr (if swap then e' else e)
  end.

Definition getProofStatus (swap : bool) (proofId : string) : result string ContractProofStatus :=
  if negb (configured cfg) then Ok (Unchecked disabled) else
  let read f := run (contractInvokeArgs f ["--proof_id_hash"; sha256 proofId] false) in
  match all_reads swap (read "is_revoked") (read "is_valid_proof") with
  | inl (revoked, valid) =>
      Ok (Checked (parseBoolean (lastOutputLine revoked)) (parseBoolean (lastOutputLine valid)))
  | inr CliRefused =>
      if cc_required cfg then Err "Contract status check unavailable: circuit is open"
      else Ok (Unchecked circuit_open)
  | inr (CliError m) => if cc_required cfg then Err m else Ok (Unchecked (failed m))
  | inr (CliOutput _) => Ok (Unchecked (failed EmptyString))     (* not reached: see [all_reads] *)
  end.
End service.

(** ** Facts *)

Lemma all_reads_rejection swap a b o : all_reads swap a b = inr o -> forall x, o <> CliOutput x.
Proof. destruct a, b, swap; cbn; naive_solver. Qed.

Lemma lower_char_hex c : is_hex c = true -> is_hex (lower_char c) = true.
Proof.
  destruct c as [[] [] [] [] [] [] [] []]; cbv; try done.
Qed.

Lemma lower_hex s : all_hex s = true -> all_hex (lower s) = true /\ String.length (lower s) = String.length s.
Proof.
  induction s as [|c s IH]; cbn; [done|]. intros [Hc Hs]%andb_true_iff.
  destruct (IH Hs) as [-> ->]. by rewrite lower_char_hex.
Qed.

(** Every mutation argument is a 32-byte hexadecimal digest, whatever the stored
    commitment looks like, as long as the digest is one. *)
Lemma hexFromSha256_shape sha256 value :
  (forall s, all_hex (sha256 s) = true /\ String.length (sha256 s) = 64%nat) ->
  all_hex (hexFromSha256 sha256 value) = true /\ String.length (hexFromSha256 sha256 value) = 64%nat.
Proof.
  intros Hsha. unfold hexFromSha256. set (v := default value _).
  destruct (all_hex v) eqn:Eh; cbn [andb]; [|apply Hsha].
  destruct (Nat.eqb_spec (String.length v) 64) as [Hl|]; [|apply Hsha]. apply lower_hex in Eh as [? ->]. done.
Qed.

(** When anchoring is required, a status that is reported was read from the
    contract; an unreachable contract is an error instead. *)
Lemma required_status_is_checked sha256 cfg run swap id st :
  configured cfg = true -> cc_required cfg = true ->
  getProofStatus sha256 cfg run swap id = Ok st -> exists r v, st = Checked r v.
Proof.
  intros Hc Hr. unfold getProofStatus. rewrite Hc, Hr. cbn [negb].
  match goal with |- context [all_reads ?s ?x ?y] => destruct (all_reads s x y) as [[? ?]|[]] eqn:E end;
    intros H; simplify_eq/=; eauto.
  by destruct (all_reads_rejection _ _ _ _ E stdout).
Qed.
