(* ===== verification/Lifecycle.v ===== *)
(** * Verification, revocation and expiry of proofs

    Model of [verifyProof], [verifyProofsBatch] and [revokeProof] of
    [src/proofs/proofs.service.ts] and of
    [src/jobs/proof-expiration-reconciler.service.ts].  Handlers that read and
    then write are split in two, so that other writers can come in between. *)

From S2P Require Import Prelude JsData DecimalText Calendar Schema Canonical IsoDate AuditChain.
From S2P Require Import PaymentStore EmployerPayment ProofStore Credentials Issuance Contract.
From Stdlib Require Import Ascii.

Local Open Scope string_scope.
Local Open Scope Z_scope.
#[local] Arguments String.append !_ _ : simpl nomatch.

(** ** Verification *)

Definition publicStatus (r : VerificationResult.t) : string :=
  match r with
  | VerificationResult.VALID => "valid"
  | VerificationResult.EXPIRED => "expired"
  | VerificationResult.REVOKED => "revoked"
  | VerificationResult.UNKNOWN_PROOF => "unknown"
  | _ => "invalid"
  end.

Definition mapResultToOutcome (r : VerificationResult.t) : VerificationOutcome.t :=
  match r with
  | VerificationResult.VALID => VerificationOutcome.VALID
  | VerificationResult.EXPIRED => VerificationOutcome.EXPIRED
  | VerificationResult.REVOKED => VerificationOutcome.REVOKED
  | VerificationResult.INVALID_SIGNATURE => VerificationOutcome.INVALID_SIGNATURE
  | VerificationResult.UNKNOWN_PROOF => VerificationOutcome.UNKNOWN
  | VerificationResult.UNVERIFIED_ISSUER => VerificationOutcome.ISSUER_WARNING
  end.

(** The verdict on the stored row alone. *)
Definition local_result (hashOk : bool) (p : Proof) (now : Z) : VerificationResult.t :=
  if negb hashOk then VerificationResult.INVALID_SIGNATURE
  else if bool_decide (p_status p = ProofStatus.REVOKED) then VerificationResult.REVOKED
  else if p_expiresAt p <=? now then VerificationResult.EXPIRED
  else if negb (bool_decide (p_status p = ProofStatus.ACTIVE)) then VerificationResult.INVALID_SIGNATURE
  else VerificationResult.VALID.

(** What the contract says overrides it. *)
Definition chain_result (contractStatus : option ContractProofStatus) (r : VerificationResult.t)
    : VerificationResult.t :=
  match contractStatus with
  | Some (Checked revoked valid) =>
      if revoked then VerificationResult.REVOKED
      else if bool_decide (r = VerificationResult.VALID) && negb valid
      then VerificationResult.INVALID_SIGNATURE else r
  | _ => r
  end.

Definition required_result (required : bool) (p : Proof) (r : VerificationResult.t)
    : VerificationResult.t :=
  if bool_decide (r = VerificationResult.VALID) && required && negb (truthy (p_contractTransactionHash p))
  then VerificationResult.UNVERIFIED_ISSUER else r.

Inductive VerifyError := TooManyRequests | ContractUnavailable (message : string).

Record VerifiedProof := {
  vp_credential : json;
  vp_id : string;
  vp_type : ProofType.t;
  vp_schemaVersion : string;
  vp_network : string;
  vp_issuedAt : Z;
  vp_expiresAt : Z;
  vp_revokedAt : option Z;
  vp_revocationReasonCode : option RevocationReasonCode.t;
  vp_contractStatus : ContractProofStatus;
}.

Record VerifyResponse := {
  vr_result : VerificationResult.t;
  vr_status : string;
  vr_proof : option VerifiedProof;
}.

(** A row of [VerificationEvent]. *)
Record VerificationEvent := { ve_proofId : string; ve_result : VerificationResult.t }.

Section verify.
Context (decrypt : string -> option string) (sha256 : string -> string) (cfg : Config).
Context (walletHashOf : string -> string).
(** The abuse limits: whether a client may ask about this proof, and again once
    it is known whether the proof exists. *)
Context (admitClient : string -> bool) (admitVerification : string -> bool -> bool).
(** The contract service, when it is wired, and the event budget of a proof. *)
Context (getStatus : option (string -> result string ContractProofStatus)).
Context (privacyBudget : string -> bool).

Definition contract_status (p : Proof) : result VerifyError (option ContractProofStatus) :=
  if truthy (p_contractTransactionHash p) then
    match getStatus with
    | None => Ok None
    | Some get =>
        match get (p_id p) with Ok st => Ok (Some st) | Err m => Err (ContractUnavailable m) end
    end
  else Ok None.

Definition verdict (p : Proof) (claim : Claim) (st : option ContractProofStatus) (now : Z)
    : VerificationResult.t :=
  required_result (cfg_anchoringRequired cfg) p
    (chain_result st
       (local_result (hash_matches decrypt sha256 (p_core p) (walletHashOf (p_userId p)) claim) p now)).

Definition verifyProof (s : Store) (proofId : string) (now : Z)
    : result VerifyError (VerifyResponse * list VerificationEvent) :=
  _ ← throw_if (negb (admitClient proofId)) TooManyRequests;
  let found := p ← find_proof proofId s; claim ← p_claim p; Some (p, claim) in
  _ ← throw_if (negb (admitVerification proofId (bool_decide (is_Some found)))) TooManyRequests;
  match found with
  | None =>
      Ok ({| vr_result := VerificationResult.UNKNOWN_PROOF; vr_status := "unknown"; vr_proof := None |}, [])
  | Some (p, claim) =>
      st ← contract_status p;
      let r := verdict p claim st now in
      let c := p_core p in
      Ok ({| vr_result := r; vr_status := publicStatus r;
             vr_proof := Some {| vp_credential := rebuildCredential decrypt c (walletHashOf (p_userId p)) claim;
               vp_id := pc_id c; vp_type := pc_proofType c; vp_schemaVersion := pc_schemaVersion c;
               vp_network := pc_network c; vp_issuedAt := pc_createdAt c; vp_expiresAt := pc_expiresAt c;
               vp_revokedAt := rv_at (p_revocation p);
               vp_revocationReasonCode := rv_reasonCode (p_revocation p);
               vp_contractStatus := default (Unchecked disabled) st |} |},
          if privacyBudget (p_id p) then [{| ve_proofId := p_id p; ve_result := r |}] else [])
  end.

(** ** Batches *)

Record BatchItem := {
  bi_id : string;
  bi_result : VerificationResult.t;
  bi_status : string;
  bi_contractStatus : option ContractProofStatus;          (* [None]: reason "unknown" *)
}.

(** [[...new Set(proofIds)]] is [js_set]; the calls of [Promise.all] run against
    the store as each finds it, here in the order they were started. *)
Fixpoint verify_all (s : Store) (now : Z) (ids : list string) (byId : list (string * VerifyResponse))
    (events : list VerificationEvent)
    : result VerifyError (list (string * VerifyResponse) * list VerificationEvent) :=
  match ids with
  | [] => Ok (byId, events)
  | id :: ids =>
      re ← verifyProof s id now;
      verify_all s now ids (JsMap.set id re.1 byId) (events ++ re.2)%list
  end.

Definition batch_item (byId : list (string * VerifyResponse)) (id : string) : option BatchItem :=
  v ← JsMap.get id byId;
  Some {| bi_id := id; bi_result := vr_result v; bi_status := vr_status v;
          bi_contractStatus := vp_contractStatus <$> vr_proof v |}.

Definition verifyProofsBatch (s : Store) (now : Z) (ids : list string)
    : result VerifyError (list (option BatchItem) * list VerificationEvent) :=
  be ← verify_all s now (js_set ids) [] [];
  Ok (batch_item be.1 <$> ids, be.2).
End verify.

(** ** Revocation *)

Record RevokeBody := {
  rb_reasonCode : option RevocationReasonCode.t;
  rb_reasonPrivate : option string;
  rb_evidenceHash : option string;
}.
Definition no_body : RevokeBody :=
  {| rb_reasonCode := None; rb_reasonPrivate := None; rb_evidenceHash := None |}.

Inductive RevokeError := RevokeNotFound | RevokeForbidden | RevokeDb (e : DbError).

(** What a revocation carries from its read to its transaction. *)
Record PendingRevocation := {
  pr_proof : Proof;
  pr_revocation : Revocation;
  pr_enqueue : bool;
  pr_intentId : string;
  pr_auditId : string;
  pr_now : Z;
}.

(** The record a revocation writes. *)
Definition revocation_of (user : User) (p : Proof) (body : RevokeBody) (now : Z) : Revocation :=
  {| rv_at := Some now;
     rv_byType := Some (if bool_decide (u_role user = UserRole.ADMIN) &&
                           negb (bool_decide (p_userId p = u_id user))
                        then RevocationActorType.ADMIN else RevocationActorType.OWNER);
     rv_byId := Some (u_id user);
     rv_reasonCode := Some (default RevocationReasonCode.OWNER_REQUESTED (rb_reasonCode body));
     rv_reasonPrivate := rb_reasonPrivate body;
     rv_evidenceHash := rb_evidenceHash body |}.

(** [revokeProof] up to its transaction: the row already revoked, or what to commit. *)
Definition revoke_prepare (cfg : Config) (s : Store) (user : User) (proofId : string)
    (body : RevokeBody) (now : Z) (intentId auditId : string) : result RevokeError (Proof + PendingRevocation) :=
  match find_proof proofId s with
  | None => Err RevokeNotFound
  | Some p =>
      _ ← throw_if (negb (bool_decide (p_userId p = u_id user)) &&
                    negb (bool_decide (u_role user = UserRole.ADMIN))) RevokeForbidden;
      if bool_decide (p_status p = ProofStatus.REVOKED) then Ok (inl p)
      else Ok (inr {| pr_proof := p; pr_revocation := revocation_of user p body now;
                      pr_enqueue := cfg_anchoringEnabled cfg && truthy (p_contractTransactionHash p);
                      pr_intentId := intentId; pr_auditId := auditId; pr_now := now |})
  end.

Definition revoke_intent (proofId intentId : string) (now : Z) : Intent :=
  new_intent {| ic_id := intentId; ic_proofId := proofId;
    ic_operation := AnchoringOperation.REVOKE; ic_createdAt := now |} AnchoringStatus.PENDING.

(** The audit record of a revocation. *)
Definition revocation_audit (r : PendingRevocation) : AuditArgs :=
  let rv := pr_revocation r in
  {| aa_organizationId := None; aa_actorType := "user"; aa_actorId := rv_byId rv; aa_action := "proof.revoked";
     aa_resourceType := "proof"; aa_resourceId := Some (p_id (pr_proof r));
     aa_metadata := Some (JObj
       [("revokedByType", jundef (RevocationActorType.text <$> rv_byType rv));
        ("reasonCode", jundef (RevocationReasonCode.text <$> rv_reasonCode rv));
        ("revokedAt", jundef (iso_text <$> rv_at rv))]);
     aa_createdAt := None |}.

(** The transaction. *)
Definition revoke_commit (r : PendingRevocation) (s : Store) : result DbError Store :=
  let id := p_id (pr_proof r) in
  s ← update_proof id (set_revocation ProofStatus.REVOKED (pr_revocation r) (pr_now r)) s;
  s ← create_audit (pr_auditId r) (pr_now r) (revocation_audit r) s;
  if pr_enqueue r then create_intent (revoke_intent id (pr_intentId r) (pr_now r)) s else Ok s.

(** ** Expiry *)

Definition EXPIRY_BATCH_SIZE : nat := 100.
Definition MAX_BATCHES_PER_CYCLE : nat := 10.

Definition expirable (now : Z) (p : Proof) : bool :=
  bool_decide (p_status p = ProofStatus.ACTIVE) && (p_expiresAt p <=? now).

Definition expires_le (p q : Proof) : bool := p_expiresAt p <=? p_expiresAt q.

(** The first query: the ids of the oldest expired active rows. *)
Definition expired_ids (now : Z) (s : Store) : list string :=
  (fun p => p_id p) <$> take EXPIRY_BATCH_SIZE (js_sort expires_le (List.filter (expirable now) (proofs s))).

Definition still_active (ids : list string) (p : Proof) : bool :=
  bool_decide (p_id p ∈ ids) && bool_decide (p_status p = ProofStatus.ACTIVE).

(** The update that follows it. *)
Definition expire (ids : list string) (now : Z) (s : Store) : Store * nat :=
  (map_proofs (still_active ids) (set_status ProofStatus.EXPIRED now) s,
   count_where (still_active ids) (proofs s)).

Definition reconcileBatch (now : Z) (s : Store) : Store * nat :=
  match expired_ids now s with
  | [] => (s, O)
  | ids => expire ids now s
  end.

(** The loop of a cycle, with the clock of each batch. *)
Fixpoint expire_cycle (clock : nat -> Z) (i budget : nat) (s : Store) (total : nat) : Store * nat :=
  match budget with
  | O => (s, total)
  | S budget =>
      let '(s, count) := reconcileBatch (clock i) s in
      if (count <? EXPIRY_BATCH_SIZE)%nat then (s, (total + count)%nat)
      else expire_cycle clock (S i) budget s (total + count)%nat
  end.

Definition reconcile_expired (clock : nat -> Z) (s : Store) : Store * nat :=
  expire_cycle clock 0 MAX_BATCHES_PER_CYCLE s 0.
