(* ===== verification/LifecycleFacts.v ===== *)
(** * What verification, revocation and expiry guarantee *)

From S2P Require Import Prelude JsData DecimalText Calendar Schema Canonical IsoDate AuditChain.
From S2P Require Import PaymentStore EmployerPayment ProofStore Credentials Issuance.
From S2P Require Import IssuanceFacts Renewal RenewalFacts Contract Lifecycle.
From Stdlib Require Import Ascii.

Local Open Scope string_scope.
Local Open Scope Z_scope.
#[local] Arguments String.append !_ _ : simpl nomatch.

(** ** Verdicts *)

Lemma local_result_valid hashOk p now :
  local_result hashOk p now = VerificationResult.VALID <->
  hashOk = true /\ p_status p = ProofStatus.ACTIVE /\ now < p_expiresAt p.
Proof.
  unfold local_result. destruct hashOk, (p_status p), (Z.leb_spec (p_expiresAt p) now); cbn;
    naive_solver lia.
Qed.

Lemma chain_result_valid st r :
  chain_result st r = VerificationResult.VALID <->
  r = VerificationResult.VALID /\ (forall revoked valid, st = Some (Checked revoked valid) ->
    revoked = false /\ valid = true).
Proof. destruct st as [[[] []|]|], r; cbn; naive_solver. Qed.

Lemma required_result_valid required p r :
  required_result required p r = VerificationResult.VALID <->
  r = VerificationResult.VALID /\ (required = true -> truthy (p_contractTransactionHash p) = true).
Proof. unfold required_result. destruct r, required, (truthy _); cbn; naive_solver. Qed.

Lemma verify_found decrypt sha256 cfg w ac av get budget s id now p claim :
  find_proof id s = Some p -> p_claim p = Some claim ->
  forall resp events,
  verifyProof decrypt sha256 cfg w ac av get budget s id now = Ok (resp, events) ->
  exists st, contract_status get p = Ok st /\
    vr_result resp = verdict decrypt sha256 cfg w p claim st now.
Proof.
  intros Hf Hc resp events. unfold verifyProof. rewrite Hf. cbn. rewrite Hc. cbn. intros H.
  run_result. simplify_eq/=. eauto.
Qed.

(** A verdict that is not UNKNOWN_PROOF is about a stored row. *)
Lemma verify_known decrypt sha256 cfg w ac av get budget s id now resp events :
  verifyProof decrypt sha256 cfg w ac av get budget s id now = Ok (resp, events) ->
  vr_result resp <> VerificationResult.UNKNOWN_PROOF ->
  exists p claim, find_proof id s = Some p /\ p_claim p = Some claim.
Proof.
  unfold verifyProof. intros H. run_result.
  destruct (find_proof id s) as [p|]; cbn in *; [|by simplify_eq/=].
  destruct (p_claim p) as [claim|] eqn:E; cbn in *; [eauto|by simplify_eq/=].
Qed.

(** ** What a credential hash binds *)

Definition type_name (t : ProofType.t) : string :=
  match t with
  | ProofType.MINIMUM_INCOME => "EarnProofMinimumIncomeCredential"
  | ProofType.RECURRING_INCOME => "EarnProofRecurringIncomeCredential"
  | ProofType.PAYMENT_RECEIPT => "EarnProofPaymentReceiptCredential"
  | ProofType.INCOME_RANGE => "EarnProofIncomeRangeCredential"
  | ProofType.EMPLOYER_PAYMENT => "EarnProofEmployerPaymentCredential"
  | ProofType.EMPLOYMENT_CONTINUITY => "EarnProofEmploymentContinuityCredential"
  | ProofType.INVOICE_SETTLEMENT => "EarnProofInvoiceSettlementCredential"
  | ProofType.AGGREGATE_EARNINGS => "EarnProofAggregateEarningsCredential"
  end.

Lemma type_name_inj t t' : type_name t = type_name t' -> t = t'.
Proof. by destruct t, t'. Qed.

Lemma rebuild_paths decrypt c w claim :
  let v := rebuildCredential decrypt c w claim in
  path ["id"] v = Some (JStr (pc_id c)) /\ path ["type"] v = Some (JStr (type_name (pc_proofType c))) /\
  path ["subject"; "walletHash"] v = Some (JStr w) /\
  path ["issuedAt"] v = Some (jiso (pc_createdAt c)) /\
  path ["expiresAt"] v = Some (jiso (pc_expiresAt c)) /\
  path ["claim"; "assetCode"] v = Some (JStr (pc_assetCode c)) /\
  path ["claim"; "assetIssuer"] v = Some (jopt (pc_assetIssuer c)).
Proof. unfold rebuildCredential. destruct (pc_proofType c); split_and!; reflexivity. Qed.

(** A receipt that discloses its sender has one stored. *)
Definition sender_stored (claim : Claim) : bool :=
  let policy := jsonPolicy (cl_disclosurePolicy claim) in
  not_false policy "senderHidden" || match policy_get policy "sourceAddress" with JStr _ => true | _ => false end.

Lemma envelope_plain id type sv w claim privacy t1 t2 :
  plain claim = true -> plain privacy = true -> plain (envelope id type sv w claim privacy t1 t2) = true.
Proof. intros Hc Hp. unfold envelope. cbn. by rewrite Hc, Hp. Qed.

Lemma rebuild_plain decrypt c w claim :
  sender_stored claim = true -> plain (rebuildCredential decrypt c w claim) = true.
Proof.
  intros Hs. unfold rebuildCredential. destruct (pc_proofType c); apply envelope_plain; try done;
    unfold sender_stored in Hs; cbn [orb] in Hs.
  all: try (cbn [plain forallb snd jiso]; by rewrite jopt_plain).
  - destruct (not_false _ "senderHidden"), (not_false _ "amountHidden"); cbn [app plain forallb snd jiso];
      rewrite jopt_plain; try done; destruct (policy_get _ "sourceAddress"); done.
  - destruct (not_false _ "amountHidden"); cbn [app plain forallb snd jiso]; by rewrite jopt_plain.
Qed.

(** ** Expiry *)

Lemma proofs_NoDup s : store_wf s -> NoDup (proofs s).
Proof. intros Hwf. apply (NoDup_fmap_1 (fun p => p_id p)), Hwf. Qed.

(** The rows of a batch. *)
Definition expiry_batch (now : Z) (s : Store) : list Proof :=
  take EXPIRY_BATCH_SIZE (js_sort expires_le (List.filter (expirable now) (proofs s))).

Lemma expiry_batch_elem now s p : p ∈ expiry_batch now s -> p ∈ proofs s /\ expirable now p = true.
Proof.
  intros Hp. rewrite <- elem_of_filter_bool, <- (js_sort_perm expires_le).
  eapply elem_of_sublist; [exact Hp|apply sublist_take].
Qed.

(** The rows the update reaches are those of the batch. *)
Lemma still_active_batch now s :
  store_wf s -> List.filter (still_active (expired_ids now s)) (proofs s) ≡ₚ expiry_batch now s.
Proof.
  intros Hwf. apply NoDup_Permutation.
  - by apply NoDup_filter_bool, proofs_NoDup.
  - apply (sublist_NoDup _ (js_sort expires_le (List.filter (expirable now) (proofs s))));
      [|apply sublist_take]. rewrite js_sort_perm. by apply NoDup_filter_bool, proofs_NoDup.
  - intros p. rewrite elem_of_filter_bool. unfold still_active, expired_ids. fold (expiry_batch now s).
    split.
    + intros [Hp Ha]. reflect_hyps. apply list_elem_of_fmap in H as (q & Hid & Hq).
      destruct (expiry_batch_elem _ _ _ Hq) as [Hq' _]. by rewrite (proof_unique s p q).
    + intros Hp. destruct (expiry_batch_elem _ _ _ Hp) as [Hp' He]. split; [done|].
      unfold expirable in He. reflect_hyps. apply andb_true_iff. split; apply bool_decide_eq_true_2; [|done].
      apply list_elem_of_fmap. by exists p.
Qed.

Lemma reconcileBatch_eq now s : reconcileBatch now s = expire (expired_ids now s) now s \/
  (expired_ids now s = [] /\ reconcileBatch now s = (s, O)).
Proof. unfold reconcileBatch. destruct (expired_ids now s); auto. Qed.

Lemma reconcileBatch_count now s :
  store_wf s ->
  let '(s', n) := reconcileBatch now s in
  store_wf s' /\ n = Nat.min 100 (count_where (expirable now) (proofs s)) /\
  (count_where (expirable now) (proofs s') + n)%nat = count_where (expirable now) (proofs s).
Proof.
  intros Hwf.
  assert (length (expired_ids now s) = Nat.min 100 (count_where (expirable now) (proofs s))) as Hlen.
  { unfold expired_ids. rewrite length_fmap, length_take, js_sort_perm. done. }
  destruct (reconcileBatch_eq now s) as [->|[Hnil ->]].
  - unfold expire. split_and!; [by apply map_proofs_wf| |].
    + rewrite <- Hlen. unfold count_where. rewrite still_active_batch by done.
      unfold expired_ids. by rewrite length_fmap.
    + apply count_where_update. intros p Hp Ha.
      assert (p ∈ expiry_batch now s) as Hb
        by (rewrite <- still_active_batch by done; by apply elem_of_filter_bool).
      split; [apply (expiry_batch_elem _ _ _ Hb)|done].
  - rewrite Hnil in Hlen. cbn [length] in Hlen. split_and!; [done|lia|lia].
Qed.

Lemma expire_cycle_count now i budget s total :
  store_wf s ->
  let '(s', n) := expire_cycle (fun _ => now) i budget s total in
  store_wf s' /\ n = (total + Nat.min (100 * budget) (count_where (expirable now) (proofs s)))%nat /\
  (count_where (expirable now) (proofs s') + (n - total))%nat = count_where (expirable now) (proofs s).
Proof.
  revert i s total. induction budget as [|budget IH]; intros i s total Hwf; cbn [expire_cycle].
  { split_and!; [done|cbn; lia|lia]. }
  pose proof (reconcileBatch_count now s Hwf) as Hb. destruct (reconcileBatch now s) as [s1 n1].
  destruct Hb as (Hwf1 & Hn1 & Hc1). unfold EXPIRY_BATCH_SIZE.
  destruct (Nat.ltb_spec n1 100) as [Hlt|Hge]; [split_and!; [done|lia|lia]|].
  specialize (IH (S i) s1 (total + n1)%nat Hwf1).
  destruct (expire_cycle _ _ _ _ _) as [s2 n2]. destruct IH as (Hwf2 & Hn2 & Hc2).
  split_and!; [done|lia|lia].
Qed.

(** ** Verification does not see the expiry of an expired row *)

Lemma find_proof_map id w f s :
  (forall p, p_id (f p) = p_id p) ->
  find_proof id (map_proofs w f s) = (fun p => if w p then f p else p) <$> find_proof id s.
Proof. intros Hf. apply find_where_update. intros p. unfold has_id. by rewrite Hf. Qed.

Lemma expire_invisible decrypt sha256 cfg w ac av get budget s ids t id now now' :
  (forall p, p ∈ proofs s -> p_id p ∈ ids -> p_expiresAt p <= now) -> now <= now' ->
  verifyProof decrypt sha256 cfg w ac av get budget (expire ids t s).1 id now' =
  verifyProof decrypt sha256 cfg w ac av get budget s id now'.
Proof.
  intros Hexp Hnow. unfold verifyProof, expire. cbn [fst]. rewrite find_proof_map by done.
  destruct (find_proof id s) as [p|] eqn:Hf; [|done]. cbn [fmap option_fmap option_map].
  destruct (still_active ids p) eqn:Ha; [|done].
  apply find_proof_Some in Hf as [Hp Hid]. unfold still_active in Ha. reflect_hyps.
  assert (forall ok, local_result ok (set_status ProofStatus.EXPIRED t p) now' = local_result ok p now') as Hl.
  { intros ok. unfold local_result. cbn [set_status p_core p_status]. specialize (Hexp p Hp H).
    rewrite H0. destruct ok, (Z.leb_spec (p_expiresAt p) now'); cbn; done || lia. }
  assert (forall claim st, verdict decrypt sha256 cfg w (set_status ProofStatus.EXPIRED t p) claim st now' =
    verdict decrypt sha256 cfg w p claim st now') as Hv.
  { intros claim st. unfold verdict. by rewrite Hl. }
  assert (contract_status get (set_status ProofStatus.EXPIRED t p) = contract_status get p) as Hst by done.
  destruct (throw_if (negb (ac id)) _); cbn [mbind result_bind]; [|done].
  cbn [mbind option_bind]. change (p_claim (set_status ProofStatus.EXPIRED t p)) with (p_claim p).
  destruct (p_claim p) as [claim|]; [|done]. cbn [mbind option_bind]. rewrite Hst.
  rewrite !bool_decide_eq_true_2 by (by eexists).
  destruct (throw_if _ _); cbn [mbind result_bind]; [|done].
  destruct (contract_status get p) as [st|]; cbn [mbind result_bind]; [|done]. by rewrite Hv.
Qed.

(** ** Properties *)

(** C28: a proof verifies as VALID exactly when its row exists with a claim, the
    stored hash is that of the credential rebuilt from the row, the row is active
    and unexpired, the contract (where it was asked and answered) holds it valid
    and not revoked, and, where anchoring is required, it has been anchored. *)
Theorem verify_valid_iff decrypt sha256 cfg w ac av get budget s id now resp events :
  verifyProof decrypt sha256 cfg w ac av get budget s id now = Ok (resp, events) ->
  vr_result resp = VerificationResult.VALID <->
  exists p claim st, find_proof id s = Some p /\ p_claim p = Some claim /\
    contract_status get p = Ok st /\
    hash_matches decrypt sha256 (p_core p) (w (p_userId p)) claim = true /\
    p_status p = ProofStatus.ACTIVE /\ now < p_expiresAt p /\
    (forall revoked valid, st = Some (Checked revoked valid) -> revoked = false /\ valid = true) /\
    (cfg_anchoringRequired cfg = true -> truthy (p_contractTransactionHash p) = true).
Proof.
  intros H. split.
  - intros Hv. destruct (verify_known _ _ _ _ _ _ _ _ _ _ _ _ _ H) as (p & claim & Hf & Hc); [by rewrite Hv|].
    destruct (verify_found _ _ _ _ _ _ _ _ _ _ _ _ _ Hf Hc _ _ H) as (st & Hst & Hr).
    rewrite Hv in Hr. symmetry in Hr. unfold verdict in Hr.
    rewrite required_result_valid, chain_result_valid, local_result_valid in Hr. naive_solver.
  - intros (p & claim & st & Hf & Hc & Hst & Hrest).
    destruct (verify_found _ _ _ _ _ _ _ _ _ _ _ _ _ Hf Hc _ _ H) as (st' & Hst' & Hr).
    rewrite Hst in Hst'. injection Hst' as <-. rewrite Hr. unfold verdict.
    rewrite required_result_valid, chain_result_valid, local_result_valid. naive_solver.
Qed.

(** where anchoring is required, configured and wired, a VALID answer was
    confirmed by the contract: it read the proof as valid and not revoked. An
    unreachable contract never lets a proof through. *)
Theorem verify_required_fails_closed decrypt sha256 cfg w ac av budget s id now resp events
    ccfg run swap :
  cfg_anchoringRequired cfg = true -> configured ccfg = true -> cc_required ccfg = true ->
  verifyProof decrypt sha256 cfg w ac av (Some (getProofStatus sha256 ccfg run swap)) budget s id now =
    Ok (resp, events) ->
  vr_result resp = VerificationResult.VALID ->
  getProofStatus sha256 ccfg run swap id = Ok (Checked false true).
Proof.
  intros Hreq Hcc Hcr H Hv.
  destruct (verify_known _ _ _ _ _ _ _ _ _ _ _ _ _ H) as (p & claim & Hf & Hc); [by rewrite Hv|].
  destruct (verify_found _ _ _ _ _ _ _ _ _ _ _ _ _ Hf Hc _ _ H) as (st & Hst & Hr).
  apply find_proof_Some in Hf as [_ Hid].
  rewrite Hv in Hr. symmetry in Hr. unfold verdict in Hr.
  rewrite required_result_valid, chain_result_valid in Hr. destruct Hr as [[_ Hchain] Htx].
  unfold contract_status in Hst. rewrite (Htx Hreq), Hid in Hst.
  destruct (getProofStatus sha256 ccfg run swap id) as [c|] eqn:E; [|done].
  destruct (required_status_is_checked _ _ _ _ _ _ Hcc Hcr E) as (r & v & ->). injection Hst as <-.
  by destruct (Hchain r v eq_refl) as [-> ->].
Qed.

(** once a proof is revoked, no later state of the system verifies it as
    VALID: whatever happens in between, whatever the contract answers and at
    any time, the verdict is REVOKED, or INVALID_SIGNATURE when the row no
    longer matches its hash. *)
Theorem revoked_never_valid decrypt sha256 cfg w ac av get budget s s' p now resp events :
  p ∈ proofs s -> p_status p = ProofStatus.REVOKED -> is_Some (p_claim p) ->
  store_evolves s s' -> store_wf s' ->
  verifyProof decrypt sha256 cfg w ac av get budget s' (p_id p) now = Ok (resp, events) ->
  vr_result resp = VerificationResult.REVOKED \/ vr_result resp = VerificationResult.INVALID_SIGNATURE.
Proof.
  intros Hp Hst [claim Hcl] Hev Hwf H. destruct (Hev p Hp) as (q & Hq & [Hc Hs _ _ _]).
  assert (p_status q = ProofStatus.REVOKED) as Hqs.
  { rewrite Hst in Hs. unfold status_le in Hs. intuition congruence. }
  pose proof (find_proof_elem _ _ Hwf Hq) as Hf. rewrite Hc in Hf.
  destruct (verify_found _ _ _ _ _ _ _ _ _ _ _ _ claim Hf ltac:(by rewrite Hc) _ _ H) as (st & _ & ->).
  unfold verdict, local_result. rewrite Hqs.
  destruct (hash_matches _ _ _ _ _), st as [[[] []|]|]; cbn; auto.
Qed.

(** The text whose digest a credential commits to. *)
Definition credential_text (decrypt : string -> option string) (c : ProofCore) (w : string) (claim : Claim) : string :=
  json_text (sortObject (rebuildCredential decrypt c w claim)).

(** Two credentials with the same hash are the same data, or their texts collide. *)
Lemma hash_binds_credential decrypt sha256 c w claim c' w' claim' :
  hash_matches decrypt sha256 c w claim = true -> hash_matches decrypt sha256 c' w' claim' = true ->
  pc_credentialHash c = pc_credentialHash c' ->
  sender_stored claim = true -> sender_stored claim' = true ->
  let t := credential_text decrypt c w claim in
  let t' := credential_text decrypt c' w' claim' in
  (t <> t' /\ sha256 t = sha256 t') \/
  reorder (rebuildCredential decrypt c w claim) (rebuildCredential decrypt c' w' claim').
Proof.
  intros H H' Heq Hs Hs' t t'. unfold hash_matches in H, H'. apply String.eqb_eq in H, H'.
  pose proof (rebuild_plain decrypt c w claim Hs) as Hp.
  pose proof (rebuild_plain decrypt c' w' claim' Hs') as Hp'.
  unfold content_hash in H, H'. rewrite canonicalize_plain in H, H' by done.
  rewrite Heq, H' in H. apply append_left_inj in H.
  destruct (decide (t = t')) as [E|]; [right|by left].
  apply canonicalize_iff; [done..|]. rewrite !canonicalize_plain by done. unfold t, t', credential_text in E. by rewrite E.
Qed.

(** A row matches its hash under one wallet only, or the texts collide. *)
Lemma hash_binds_wallet decrypt sha256 c w w' claim :
  hash_matches decrypt sha256 c w claim = true -> hash_matches decrypt sha256 c w' claim = true ->
  sender_stored claim = true ->
  w = w' \/ (credential_text decrypt c w claim <> credential_text decrypt c w' claim /\
    sha256 (credential_text decrypt c w claim) = sha256 (credential_text decrypt c w' claim)).
Proof.
  intros H H' Hs. destruct (hash_binds_credential _ _ _ _ _ _ _ _ H H' eq_refl Hs Hs) as [?|Hr]; [by right|left].
  destruct (rebuild_paths decrypt c w claim) as (_ & _ & P & _).
  destruct (rebuild_paths decrypt c w' claim) as (_ & _ & Q & _).
  pose proof (rebuild_plain decrypt c w claim Hs). pose proof (rebuild_plain decrypt c w' claim Hs).
  eapply reorder_path_atomic in P; [|done..]. rewrite P in Q. by injection Q.
Qed.

(** C30: the stored hash binds the row.  If two rows carry the same credential
    hash and both pass the integrity check, then their credentials are the same
    data, and so are their ids, wallets, proof types, assets and (as dates a
    Date can hold) their issue and expiry instants; or the digest collides on
    the canonical texts of the two credentials.  The rows are such that a receipt
    which discloses its sender has one stored.  In particular an edit of any of
    these columns that leaves the hash alone is detected. *)
Theorem hash_binds_row decrypt sha256 c w claim c' w' claim' :
  hash_matches decrypt sha256 c w claim = true -> hash_matches decrypt sha256 c' w' claim' = true ->
  pc_credentialHash c = pc_credentialHash c' ->
  sender_stored claim = true -> sender_stored claim' = true ->
  let t := credential_text decrypt c w claim in
  let t' := credential_text decrypt c' w' claim' in
  (t <> t' /\ sha256 t = sha256 t') \/
  reorder (rebuildCredential decrypt c w claim) (rebuildCredential decrypt c' w' claim') /\
  pc_id c = pc_id c' /\ w = w' /\ pc_proofType c = pc_proofType c' /\
  pc_assetCode c = pc_assetCode c' /\ pc_assetIssuer c = pc_assetIssuer c' /\
  (Z.abs (pc_expiresAt c) <= MAX_TIME -> Z.abs (pc_expiresAt c') <= MAX_TIME ->
   pc_expiresAt c = pc_expiresAt c') /\
  (Z.abs (pc_createdAt c) <= MAX_TIME -> Z.abs (pc_createdAt c') <= MAX_TIME ->
   pc_createdAt c = pc_createdAt c').
Proof.
  intros H H' Heq Hs Hs' t t'.
  destruct (hash_binds_credential _ _ _ _ _ _ _ _ H H' Heq Hs Hs') as [?|Hr]; [by left|right].
  destruct (rebuild_paths decrypt c w claim) as (P1 & P2 & P3 & P4 & P5 & P6 & P7).
  destruct (rebuild_paths decrypt c' w' claim') as (Q1 & Q2 & Q3 & Q4 & Q5 & Q6 & Q7).
  pose proof (rebuild_plain decrypt c w claim Hs). pose proof (rebuild_plain decrypt c' w' claim' Hs').
  assert (atomic (jopt (pc_assetIssuer c)) = true) by by destruct (pc_assetIssuer c).
  eapply reorder_path_atomic in P1, P2, P3, P4, P5, P6, P7; [|done..].
  split; [done|]. rewrite P1 in Q1. rewrite P2 in Q2. rewrite P3 in Q3. rewrite P4 in Q4.
  rewrite P5 in Q5. rewrite P6 in Q6. rewrite P7 in Q7.
  injection Q1 as ->. injection Q2 as Q2%type_name_inj. injection Q3 as ->. injection Q6 as ->.
  injection Q7 as Q7. injection Q4 as Q4. injection Q5 as Q5.
  split_and!; try done; [|intros ??; by apply iso_text_inj..].
  by destruct (pc_assetIssuer c), (pc_assetIssuer c'); simplify_eq/=.
Qed.

(** ** Batches and revocations *)

Section batches.
Context (decrypt : string -> option string) (sha256 : string -> string) (cfg : Config)
  (w : string -> string) (ac : string -> bool) (av : string -> bool -> bool)
  (get : option (string -> result string ContractProofStatus)) (budget : string -> bool).

Definition item_of (id : string) (v : VerifyResponse) : BatchItem :=
  {| bi_id := id; bi_result := vr_result v; bi_status := vr_status v;
     bi_contractStatus := vp_contractStatus <$> vr_proof v |}.

Lemma verify_events s id now resp events :
  verifyProof decrypt sha256 cfg w ac av get budget s id now = Ok (resp, events) ->
  (length events <= 1)%nat.
Proof.
  unfold verifyProof. intros H. run_result.
  destruct (p ← find_proof id s; claim ← p_claim p; Some (p, claim)) as [[p claim]|]; run_result;
    simplify_eq/=; [destruct (budget _); cbn|]; lia.
Qed.

Lemma verify_all_spec s now ids byId events byId' events' :
  verify_all decrypt sha256 cfg w ac av get budget s now ids byId events = Ok (byId', events') ->
  (forall id, id ∈ ids -> exists resp ev,
     verifyProof decrypt sha256 cfg w ac av get budget s id now = Ok (resp, ev) /\
     JsMap.get id byId' = Some resp) /\
  (forall id, id ∉ ids -> JsMap.get id byId' = JsMap.get id byId) /\
  (length events' <= length events + length ids)%nat.
Proof.
  revert byId events. induction ids as [|x ids IH]; intros byId events; cbn [verify_all].
  { intros [= <- <-]. split_and!; [set_solver|done|cbn; lia]. }
  intros H. apply bind_Ok in H as ([resp ev] & Hv & H). cbn in H.
  destruct (IH _ _ H) as (H1 & H2 & H3). rewrite length_app in H3.
  pose proof (verify_events _ _ _ _ _ Hv). split_and!; [| |cbn; lia].
  - intros id Hid. destruct (decide (id ∈ ids)) as [Hin|Hni]; [by apply H1|].
    assert (id = x) as -> by set_solver. exists resp, ev. split; [done|].
    rewrite H2 by done. apply JsMap.get_set_eq.
  - intros id Hid. rewrite H2 by set_solver. apply JsMap.get_set_ne. set_solver.
Qed.
End batches.

(** a batch answers, at every position, what the single verification of that
    id answers, and writes at most one event per distinct id. *)
Theorem batch_matches_single decrypt sha256 cfg w ac av get budget s now ids items events :
  verifyProofsBatch decrypt sha256 cfg w ac av get budget s now ids = Ok (items, events) ->
  Forall2 (fun id item => exists resp ev,
    verifyProof decrypt sha256 cfg w ac av get budget s id now = Ok (resp, ev) /\
    item = Some (item_of id resp)) ids items /\
  (length events <= length (js_set ids))%nat.
Proof.
  unfold verifyProofsBatch. intros H. apply bind_Ok in H as ([byId ev] & Hv & [= <- <-]).
  destruct (verify_all_spec _ _ _ _ _ _ _ _ _ _ _ _ _ _ _ Hv) as (H1 & _ & H3). split; [|done].
  apply Forall2_fmap_r, Forall_Forall2_diag, Forall_forall. intros id Hid.
  destruct (H1 id) as (resp & e & Hr & Hg); [by apply js_set_spec|]. exists resp, e.
  split; [done|]. cbn. unfold batch_item. cbn. by rewrite Hg.
Qed.

Lemma revoke_evolves rv now p : proof_evolves p (set_revocation ProofStatus.REVOKED rv now p).
Proof. split; unfold status_le; cbn; auto. Qed.

Lemma revoke_commit_Ok r s s' :
  revoke_commit r s = Ok s' -> store_wf s ->
  exists p, find_proof (p_id (pr_proof r)) s = Some p /\ store_wf s' /\ store_evolves s s' /\
    proofs s' = update_where (has_id (p_id (pr_proof r)))
      (set_revocation ProofStatus.REVOKED (pr_revocation r) (pr_now r)) (proofs s) /\
    (pr_enqueue r = true -> revoke_intent (p_id (pr_proof r)) (pr_intentId r) (pr_now r) ∈ intents s').
Proof.
  unfold revoke_commit. intros H Hwf. apply bind_Ok in H as (s1 & Hu & H).
  assert (store_wf s1) as Hwf1 by (eapply update_proof_wf; [|exact Hu|exact Hwf]; by intros p).
  pose proof (update_proof_evolves _ _ _ _ (revoke_evolves _ _) Hu) as Hev1.
  unfold update_proof in Hu. destruct (find_proof _ s) as [p|]; [|done]. injection Hu as <-.
  apply bind_Ok in H as (s2 & (rows & _ & ->)%create_audit_Ok & H).
  exists p. split; [done|]. destruct (pr_enqueue r); [|simplify_eq/=].
  2: { split_and!; [by apply set_audit_wf|by apply Hev1|done|done]. }
  pose proof (create_intent_proofs _ _ _ H) as Hp. split_and!; [eauto with earn| |by rewrite Hp|].
  - etrans; [done|]. by apply store_evolves_same.
  - intros _. unfold create_intent in H. run_result. cbn. set_solver.
Qed.

(** a revocation that commits was asked for by the owner or an admin, and
    records exactly its actor, reason, evidence and time on the row, for the row
    as any concurrent writers left it; the on-chain revocation is enqueued in
    the same transaction when the proof was anchored, and no other row changes. *)
Theorem revocation_recorded cfg s user id body now iid aid r s1 s2 :
  revoke_prepare cfg s user id body now iid aid = Ok (inr r) -> store_wf s1 -> store_evolves s s1 ->
  revoke_commit r s1 = Ok s2 ->
  exists p q, find_proof id s = Some p /\ (p_userId p = u_id user \/ u_role user = UserRole.ADMIN) /\
    find_proof id s2 = Some q /\ p_core q = p_core p /\ p_status q = ProofStatus.REVOKED /\
    p_revocation q = revocation_of user p body now /\
    (cfg_anchoringEnabled cfg = true -> truthy (p_contractTransactionHash p) = true ->
     revoke_intent id iid now ∈ intents s2) /\
    (forall x, p_id x <> id -> x ∈ proofs s1 <-> x ∈ proofs s2).
Proof.
  unfold revoke_prepare. destruct (find_proof id s) as [p|] eqn:Hf; [|done]. intros H Hwf1 Hev Hc.
  run_result. destruct (bool_decide (p_status p = ProofStatus.REVOKED)); [done|]. injection H as <-.
  apply find_proof_Some in Hf as [Hp Hid].
  destruct (revoke_commit_Ok _ _ _ Hc Hwf1) as (p1 & Hf1 & Hwf2 & Hev2 & Hps & Hint). cbn in *. rewrite Hid in *.
  destruct (find_proof_Some _ _ _ Hf1) as [Hp1 Hid1].
  assert (p_core p1 = p_core p) as Hcore.
  { destruct (Hev p Hp) as (q & Hq & [Hcq _ _ _ _]).
    by rewrite (proof_unique s1 p1 q Hwf1 Hp1 Hq) by (by rewrite Hcq, Hid1, Hid). }
  exists p, (set_revocation ProofStatus.REVOKED (revocation_of user p body now) now p1).
  split_and!; try done.
  - destruct (bool_decide_reflect (p_userId p = u_id user)); [by left|].
    destruct (bool_decide_reflect (u_role user = UserRole.ADMIN)); [by right|done].
  - unfold find_proof. rewrite Hps, find_where_update by done.
    change (find_where (has_id id) (proofs s1)) with (find_proof id s1). rewrite Hf1. cbn.
    unfold has_id. by rewrite Hid1, String.eqb_refl.
  - intros Hen Htx. apply Hint. by rewrite Hen, Htx.
  - intros y Hy. rewrite Hps, elem_of_update_where. unfold has_id. split.
    + intros Hin. exists y. split; [done|]. destruct (String.eqb_spec (p_id y) id); done.
    + intros (z & Hz & ->). destruct (String.eqb_spec (p_id z) id); done.
Qed.

(** marking expired proofs is invisible to verifiers: whatever ran between
    the job's query and its update, every id is answered as it would have been
    without the update, at any time from the query on. *)
Theorem expiry_invisible decrypt sha256 cfg w ac av get budget s0 s1 id now now' :
  store_evolves s0 s1 -> store_wf s1 -> now <= now' ->
  verifyProof decrypt sha256 cfg w ac av get budget (expire (expired_ids now s0) now s1).1 id now' =
  verifyProof decrypt sha256 cfg w ac av get budget s1 id now'.
Proof.
  intros Hev Hwf Hnow. apply (expire_invisible _ _ _ _ _ _ _ _ _ _ _ _ now); [|done].
  intros p Hp Hin. apply list_elem_of_fmap in Hin as (q & Hid & Hq).
  destruct (expiry_batch_elem now s0 q Hq) as [Hq' He]. destruct (Hev q Hq') as (q1 & Hq1 & [Hc _ _ _ _]).
  rewrite (proof_unique s1 p q1 Hwf Hp Hq1) by (by rewrite Hc). rewrite Hc.
  unfold expirable in He. by reflect_hyps.
Qed.

(** one cycle of the expiry job marks the expired active proofs, up to a
    thousand of them: it reports how many it marked, exactly that many leave the
    set of proofs to mark, and none is left when there were at most a thousand. *)
Theorem expiry_cycle_drains now s :
  store_wf s ->
  let '(s', total) := reconcile_expired (fun _ => now) s in
  store_wf s' /\
  total = Nat.min 1000 (count_where (expirable now) (proofs s)) /\
  (count_where (expirable now) (proofs s') + total)%nat = count_where (expirable now) (proofs s).
Proof.
  intros Hwf. unfold reconcile_expired. pose proof (expire_cycle_count now 0 10 s 0 Hwf) as H.
  unfold MAX_BATCHES_PER_CYCLE. destruct (expire_cycle _ _ _ _ _) as [s' total].
  destruct H as (H1 & H2 & H3). split_and!; [done|lia|lia].
Qed.

Lemma stored_corroboration_fallback policy :
  policy_get policy "corroboration" <> JStr "issuer_attestation" ->
  stored_corroboration policy = "issuer_account".
Proof.
  unfold stored_corroboration. intros Hne. destruct (policy_get policy "corroboration"); try reflexivity.
  case_bool_decide as Hin; [|reflexivity]. 
  apply list_elem_of_In in Hin as [<-|[<-|[]]]; [reflexivity|by destruct Hne].
Qed.

(** the integrity check does not cover the stored corroboration of an
    employer payment: a row issued as issuer_account still matches its hash
    after that field is replaced by anything that is not one of the two known
    values. *)
Theorem corroboration_edit_undetected decrypt sha256 c w claim claim' :
  let get k cl := policy_get (jsonPolicy (cl_disclosurePolicy cl)) k in
  pc_proofType c = ProofType.EMPLOYER_PAYMENT ->
  (forall k, k <> "corroboration" -> get k claim' = get k claim) ->
  get "corroboration" claim = JStr "issuer_account" ->
  get "corroboration" claim' <> JStr "issuer_attestation" ->
  hash_matches decrypt sha256 c w claim' = hash_matches decrypt sha256 c w claim.
Proof.
  intros get Ht Hk Ha Hb. unfold hash_matches, rebuildCredential. rewrite Ht.
  unfold rebuildEmployerPaymentCredential, text_or. unfold get in *. rewrite !Hk by done.
  by rewrite (stored_corroboration_fallback _ Hb), (stored_corroboration_fallback _ ltac:(by rewrite Ha)).
Qed.

(** ** Witnesses *)

(** The successor of the renewal example, anchored; the contract holds it valid. *)
Definition sample_anchored : Proof := set_transaction "tx1" 2000 sample_successor.
Definition anchored_store : Store := {| proofs := [sample_anchored]; intents := []; audit := [] |}.

Lemma anchored_store_wf : store_wf anchored_store.
Proof.
  split; cbn; try apply NoDup_singleton; try apply NoDup_nil; [done..|].
  intros p q x ->%list_elem_of_singleton ->%list_elem_of_singleton. done.
Qed.

Definition required_config : Config :=
  {| cfg_network := "testnet"; cfg_anchoringEnabled := true; cfg_anchoringRequired := true |}.
Definition sample_contract : ContractConfig :=
  {| cc_enabled := true; cc_required := true; cc_source := Some "S"; cc_network := "testnet";
     cc_contractId := Some "C"; cc_issuerAddress := Some "G"; cc_schemaVersion := 1 |}.
Definition sample_cli (args : list string) : CliOutcome :=
  if bool_decide ("is_revoked" ∈ args) then CliOutput "false" else CliOutput "true".
Definition sample_status := getProofStatus id sample_contract sample_cli false.

Definition sample_verify (s : Store) (proofId : string) (now : Z) :=
  verifyProof Some id required_config sample_wallet (fun _ => true) (fun _ _ => true)
    (Some sample_status) (fun _ => true) s proofId now.

Definition answer {E A B} (r : result E (A * B)) (d : A) : A := match r with Ok (a, _) => a | Err _ => d end.
Definition unknown_answer : VerifyResponse :=
  {| vr_result := VerificationResult.UNKNOWN_PROOF; vr_status := "unknown"; vr_proof := None |}.
Definition sample_answer : VerifyResponse := answer (sample_verify anchored_store "p2" 3000) unknown_answer.
Definition valid_event : VerificationEvent := {| ve_proofId := "p2"; ve_result := VerificationResult.VALID |}.

Lemma sample_verified : sample_verify anchored_store "p2" 3000 = Ok (sample_answer, [valid_event]).
Proof. vm_compute. reflexivity. Qed.

Lemma verify_valid_iff_witness :
  exists p claim st, find_proof "p2" anchored_store = Some p /\ p_claim p = Some claim /\
    contract_status (Some sample_status) p = Ok st /\
    hash_matches Some id (p_core p) "w1" claim = true.
Proof.
  destruct (proj1 (verify_valid_iff Some id required_config sample_wallet (fun _ => true) (fun _ _ => true)
    (Some sample_status) (fun _ => true) anchored_store "p2" 3000 sample_answer [valid_event]
    sample_verified) ltac:(vm_compute; reflexivity)) as (p & claim & st & Hf & Hc & Hst & Hh & _).
  exists p, claim, st. split_and!; assumption.
Defined.

Lemma verify_required_fails_closed_witness : sample_status "p2" = Ok (Checked false true).
Proof.
  apply (verify_required_fails_closed Some id required_config sample_wallet (fun _ => true) (fun _ _ => true)
    (fun _ => true) anchored_store "p2" 3000 sample_answer [valid_event] sample_contract sample_cli false);
    [reflexivity|reflexivity|reflexivity|exact sample_verified|vm_compute; reflexivity].
Defined.

Definition sample_admin : User := {| u_id := "admin"; u_walletHash := "w9"; u_role := UserRole.ADMIN |}.
Definition sample_revocation : Revocation := revocation_of sample_admin sample_anchored no_body 4000.
Definition pending_revocation : PendingRevocation :=
  {| pr_proof := sample_anchored; pr_revocation := sample_revocation; pr_enqueue := true;
     pr_intentId := "i9"; pr_auditId := "a9"; pr_now := 4000 |}.
Definition revoked_store : Store :=
  {| proofs := [set_revocation ProofStatus.REVOKED sample_revocation 4000 sample_anchored];
     intents := [revoke_intent "p2" "i9" 4000];
     audit := [unchained_row "a9" 4000 (revocation_audit pending_revocation)] |}.
Definition revoked_answer : VerifyResponse := answer (sample_verify revoked_store "p2" 5000) unknown_answer.

Lemma revoked_store_wf : store_wf revoked_store.
Proof.
  split; cbn; try apply NoDup_singleton; [done..|].
  intros p q x ->%list_elem_of_singleton ->%list_elem_of_singleton. done.
Qed.

Lemma revoked_never_valid_witness :
  vr_result revoked_answer = VerificationResult.REVOKED \/
  vr_result revoked_answer = VerificationResult.INVALID_SIGNATURE.
Proof.
  apply (revoked_never_valid Some id required_config sample_wallet (fun _ => true) (fun _ _ => true)
    (Some sample_status) (fun _ => true) revoked_store revoked_store
    (set_revocation ProofStatus.REVOKED sample_revocation 4000 sample_anchored) 5000 revoked_answer
    [{| ve_proofId := "p2"; ve_result := VerificationResult.REVOKED |}]);
    [by left|reflexivity|by eexists|reflexivity|apply revoked_store_wf|vm_compute; reflexivity].
Defined.

Definition sample_edited : ProofCore :=
  {| pc_id := "p3"; pc_userId := pc_userId (p_core sample_successor); pc_proofType := pc_proofType (p_core sample_successor);
     pc_schemaVersion := pc_schemaVersion (p_core sample_successor); pc_network := pc_network (p_core sample_successor);
     pc_assetCode := pc_assetCode (p_core sample_successor); pc_assetIssuer := pc_assetIssuer (p_core sample_successor);
     pc_periodStart := pc_periodStart (p_core sample_successor); pc_periodEnd := pc_periodEnd (p_core sample_successor);
     pc_expiresAt := pc_expiresAt (p_core sample_successor); pc_commitment := pc_commitment (p_core sample_successor);
     pc_credentialHash := pc_credentialHash (p_core sample_successor); pc_createdAt := pc_createdAt (p_core sample_successor);
     pc_claim := pc_claim (p_core sample_successor) |}.

(** A row with another id under the same hash does not match. *)
Lemma hash_binds_row_witness :
  let t := credential_text Some (p_core sample_successor) "w1" sample_claim in
  t = t /\ pc_id (p_core sample_successor) = "p2" /\
  hash_matches Some id sample_edited "w1" sample_claim = false.
Proof.
  destruct (hash_binds_row Some id (p_core sample_successor) "w1" sample_claim (p_core sample_successor)
    "w1" sample_claim) as [[Hne Heq]|(_ & Hid & _)]; [vm_compute; reflexivity..|by destruct Hne|].
  split_and!; [done|exact Hid|vm_compute; reflexivity].
Defined.

Lemma batch_matches_single_witness :
  Forall2 (fun i item => exists resp ev,
    verifyProof Some id required_config sample_wallet (fun _ => true) (fun _ _ => true)
      (Some sample_status) (fun _ => true) anchored_store i 3000 = Ok (resp, ev) /\
    item = Some (item_of i resp)) ["p2"; "p9"; "p2"]
    [Some (item_of "p2" sample_answer); Some (item_of "p9" unknown_answer);
     Some (item_of "p2" sample_answer)] /\ (1 <= length (js_set ["p2"; "p9"; "p2"]))%nat.
Proof.
  apply (batch_matches_single Some id required_config sample_wallet (fun _ => true) (fun _ _ => true)
    (Some sample_status) (fun _ => true) anchored_store 3000 ["p2"; "p9"; "p2"]
    [Some (item_of "p2" sample_answer); Some (item_of "p9" unknown_answer);
     Some (item_of "p2" sample_answer)] [valid_event]).
  vm_compute. reflexivity.
Defined.

Lemma revocation_recorded_witness :
  exists p q, find_proof "p2" anchored_store = Some p /\ find_proof "p2" revoked_store = Some q /\
    p_revocation q = revocation_of sample_admin p no_body 4000 /\
    revoke_intent "p2" "i9" 4000 ∈ intents revoked_store.
Proof.
  destruct (revocation_recorded required_config anchored_store sample_admin "p2" no_body 4000 "i9" "a9"
    pending_revocation anchored_store revoked_store) as (p & q & Hp & _ & Hq & _ & _ & Hr & Hi & _);
    [reflexivity|apply anchored_store_wf|reflexivity|vm_compute; reflexivity|].
  exists p, q. injection Hp as <-. split_and!; [reflexivity|assumption|assumption|].
  apply Hi; reflexivity.
Defined.

Lemma expiry_invisible_witness :
  sample_verify (expire (expired_ids 9000000000 anchored_store) 9000000000 anchored_store).1 "p2" 9000000001 =
  sample_verify anchored_store "p2" 9000000001.
Proof.
  apply (expiry_invisible Some id required_config sample_wallet (fun _ => true) (fun _ _ => true)
    (Some sample_status) (fun _ => true) anchored_store anchored_store "p2" 9000000000 9000000001);
    [reflexivity|apply anchored_store_wf|lia].
Defined.

Lemma expiry_cycle_drains_witness :
  (reconcile_expired (fun _ => 9000000000) anchored_store).2 = 1%nat.
Proof.
  pose proof (expiry_cycle_drains 9000000000 anchored_store anchored_store_wf) as H.
  destruct (reconcile_expired (fun _ => 9000000000) anchored_store) as [s' total].
  destruct H as (_ & -> & _). reflexivity.
Defined.

Definition employer_core : ProofCore :=
  {| pc_id := "p7"; pc_userId := "u1"; pc_proofType := ProofType.EMPLOYER_PAYMENT;
     pc_schemaVersion := EMPLOYER_PAYMENT_SCHEMA_VERSION; pc_network := "testnet";
     pc_assetCode := "USDC"; pc_assetIssuer := None; pc_periodStart := Some 0; pc_periodEnd := Some 1000;
     pc_expiresAt := 5000; pc_commitment := None; pc_credentialHash := "h7"; pc_createdAt := 2000;
     pc_claim := None |}.
Definition employer_claim (corroboration : string) : Claim :=
  {| cl_operator := "eq"; cl_thresholdEncrypted := None; cl_frequency := None; cl_result := true;
     cl_disclosurePolicy := JObj [("employerIssuerId", JStr "iss"); ("corroboration", JStr corroboration)] |}.

Lemma corroboration_edit_undetected_witness :
  hash_matches Some id employer_core "w1" (employer_claim "forged") =
  hash_matches Some id employer_core "w1" (employer_claim "issuer_account").
Proof.
  apply (corroboration_edit_undetected Some id employer_core "w1" (employer_claim "issuer_account")
    (employer_claim "forged")); [reflexivity| |reflexivity|discriminate].
  intros k Hk. unfold policy_get, employer_claim. cbn. by rewrite !(decide_False (P := k = "corroboration")).
Defined.
