(* ===== verification/ShareTokens.v ===== *)
(** * Share tokens

    Model of [src/proofs/share-tokens/proof-share-tokens.service.ts] and of the
    constraints of the [ProofShareToken] table in
    [prisma/migrations/20260927110000_proof_share_tokens/migration.sql].  Issuing
    reads the proof, reads the live tokens inside its transaction, then writes;
    resolving reads the token, consumes a use and then asks for the verification
    of the proof: each is a definition of its own, because other requests act in
    between. *)

From S2P Require Import Prelude JsData DecimalText Calendar Schema Canonical IsoDate AuditChain.
From S2P Require Import PaymentStore EmployerPayment ProofStore Credentials Issuance Contract Lifecycle.
From Stdlib Require Import Ascii.

Local Open Scope string_scope.
Local Open Scope Z_scope.
#[local] Arguments String.append !_ _ : simpl nomatch.

Definition TOKEN_PREFIX := "eps_".
Definition DEFAULT_TTL_MINUTES : Z := 1440.
Definition MAX_TTL_MINUTES : Z := 10080.

(** [/^eps_[A-Za-z0-9_-]{43}$/] *)
Definition token_char (c : ascii) : bool :=
  let n := nat_of_ascii c in
  ((65 <=? n) && (n <=? 90) || (97 <=? n) && (n <=? 122) || (48 <=? n) && (n <=? 57))%nat
  || Ascii.eqb c "_" || Ascii.eqb c "-".

Fixpoint token_chars (s : string) : bool :=
  match s with EmptyString => true | String c s => token_char c && token_chars s end.

Definition TOKEN_PATTERN (s : string) : bool :=
  String.prefix TOKEN_PREFIX s && (String.length s =? 47)%nat &&
  token_chars (String.substring 4 43 s).

Module ProofShareScope.
Inductive t := VERIFY_STATUS | VERIFY_CREDENTIAL.
#[export] Instance t_eq_dec : EqDecision t.
Proof. solve_decision. Defined.
Definition text (s : t) : string :=
  match s with VERIFY_STATUS => "VERIFY_STATUS" | VERIFY_CREDENTIAL => "VERIFY_CREDENTIAL" end.
End ProofShareScope.
Export (hints) ProofShareScope.

(** ** The table *)

(** The columns fixed at issuance. *)
Record ShareCore := {
  sc_id : string;
  sc_proofId : string;
  sc_ownerId : string;
  sc_tokenHash : string;
  sc_scope : ProofShareScope.t;
  sc_label : option string;
  sc_maxUses : option Z;
  sc_expiresAt : Z;
  sc_createdAt : Z;
}.

Record Share := {
  sh_core : ShareCore;
  sh_useCount : Z;
  sh_revokedAt : option Z;
  sh_supersededAt : option Z;
  sh_supersededById : option string;
  sh_lastUsedAt : option Z;
}.

Abbreviation sh_id t := (sc_id (sh_core t)).
Abbreviation sh_proofId t := (sc_proofId (sh_core t)).
Abbreviation sh_ownerId t := (sc_ownerId (sh_core t)).
Abbreviation sh_scope t := (sc_scope (sh_core t)).
Abbreviation sh_maxUses t := (sc_maxUses (sh_core t)).
Abbreviation sh_expiresAt t := (sc_expiresAt (sh_core t)).

(** Neither revoked nor superseded. *)
Definition live (t : Share) : bool :=
  bool_decide (sh_revokedAt t = None) && bool_decide (sh_supersededAt t = None).

(** The partial unique index: one live token per proof and scope. *)
Definition live_key (t : Share) : string * ProofShareScope.t := (sh_proofId t, sh_scope t).
Definition live_keys (ts : list Share) : list (string * ProofShareScope.t) :=
  live_key <$> List.filter live ts.

Inductive ShareDbError := ShareP2002 | ShareCheck.

Definition create_share (t : Share) (ts : list Share) : result ShareDbError (list Share) :=
  _ ← throw_if (match sh_maxUses t with None => false | Some m => m <=? 0 end) ShareCheck;
  _ ← throw_if (bool_decide (sh_id t ∈ (fun t => sh_id t) <$> ts)
                || bool_decide (sc_tokenHash (sh_core t) ∈ (fun t => sc_tokenHash (sh_core t)) <$> ts)
                || (live t && bool_decide (live_key t ∈ live_keys ts))) ShareP2002;
  Ok (ts ++ [t])%list.

(** ** Issuing *)

Record ShareInput := {
  si_scope : ProofShareScope.t;
  si_expiresInMinutes : option Z;
  si_maxUses : option Z;
  si_label : option string;
}.

Inductive ShareError :=
| TtlTooLong                     (* 400 *)
| ShareProofNotFound             (* 404 *)
| ProofNotShareable              (* 422 *)
| ShareConflict                  (* 409 *)
| ShareNotFound                  (* 404 *)
| InvalidShare                   (* 404, the uniform answer *)
| ShareDb (e : ShareDbError)
| ShareVerify (e : VerifyError).

Record PendingShare := {
  ps_core : ShareCore;
  ps_now : Z;
  ps_auditId : string;
}.

Section issue.
Context (sha256 : string -> string) (maxTtlMinutes defaultTtlMinutes : Z).

(** [issue] up to its transaction. *)
Definition issue_prepare (s : Store) (user : User) (proofId : string) (input : ShareInput) (now : Z)
    (rawToken tokenId auditId : string) : result ShareError PendingShare :=
  let ttlMinutes := default defaultTtlMinutes (si_expiresInMinutes input) in
  _ ← throw_if (maxTtlMinutes <? ttlMinutes) TtlTooLong;
  match find_where (fun p => has_id proofId p && bool_decide (p_userId p = u_id user)) (proofs s) with
  | None => Err ShareProofNotFound
  | Some p =>
      _ ← throw_if (negb (bool_decide (p_status p = ProofStatus.ACTIVE)) || (p_expiresAt p <=? now))
            ProofNotShareable;
      let requestedExpiry := now + ttlMinutes * 60000 in
      Ok {| ps_core := {| sc_id := tokenId; sc_proofId := p_id p; sc_ownerId := u_id user;
                          sc_tokenHash := sha256 rawToken; sc_scope := si_scope input;
                          sc_label := si_label input; sc_maxUses := si_maxUses input;
                          sc_expiresAt := if requestedExpiry <? p_expiresAt p then requestedExpiry else p_expiresAt p;
                          sc_createdAt := now |};
            ps_now := now; ps_auditId := auditId |}
  end.

(** The ids of the live tokens, read inside the transaction. *)
Definition issue_live (q : PendingShare) (ts : list Share) : list string :=
  let c := ps_core q in
  (fun t => sh_id t) <$> List.filter (fun t =>
    bool_decide (sh_proofId t = sc_proofId c) && bool_decide (sh_ownerId t = sc_ownerId c) &&
    bool_decide (sh_scope t = sc_scope c) && live t) ts.

Definition supersede (now : Z) (t : Share) : Share :=
  {| sh_core := sh_core t; sh_useCount := sh_useCount t; sh_revokedAt := sh_revokedAt t;
     sh_supersededAt := Some now; sh_supersededById := sh_supersededById t; sh_lastUsedAt := sh_lastUsedAt t |}.
Definition point_to (id : string) (t : Share) : Share :=
  {| sh_core := sh_core t; sh_useCount := sh_useCount t; sh_revokedAt := sh_revokedAt t;
     sh_supersededAt := sh_supersededAt t; sh_supersededById := Some id; sh_lastUsedAt := sh_lastUsedAt t |}.

Definition new_share (c : ShareCore) : Share :=
  {| sh_core := c; sh_useCount := 0; sh_revokedAt := None; sh_supersededAt := None;
     sh_supersededById := None; sh_lastUsedAt := None |}.

Definition share_audit (q : PendingShare) (liveIds : list string) : AuditArgs :=
  let c := ps_core q in
  {| aa_organizationId := None; aa_actorType := "user"; aa_actorId := Some (sc_ownerId c);
     aa_action := "proof.share_token.issued"; aa_resourceType := "proofShareToken"; aa_resourceId := Some (sc_id c);
     aa_metadata := Some (JObj [("proofId", JStr (sc_proofId c)); ("scope", JStr (ProofShareScope.text (sc_scope c)));
       ("expiresAt", jiso (sc_expiresAt c));
       ("maxUses", match sc_maxUses c with None => JNull | Some m => JNum m end);
       ("superseded", JArr (JStr <$> liveIds))]);
     aa_createdAt := None |}.

(** The writes of the transaction, on the tables as they are by then. *)
Definition issue_write (q : PendingShare) (liveIds : list string) (ts : list Share) (s : Store)
    : result ShareError (list Share * Store) :=
  let listed t := bool_decide (sh_id t ∈ liveIds) in
  let ts := update_where (fun t => listed t && live t) (supersede (ps_now q)) ts in
  match create_share (new_share (ps_core q)) ts with
  | Err ShareP2002 => Err ShareConflict
  | Err e => Err (ShareDb e)
  | Ok ts =>
      let ts := update_where listed (point_to (sc_id (ps_core q))) ts in
      match create_audit (ps_auditId q) (ps_now q) (share_audit q liveIds) s with
      | Err P2002 => Err ShareConflict
      | Err P2025 => Err (ShareDb ShareCheck)      (* not reached: an insert *)
      | Ok s => Ok (ts, s)
      end
  end.
End issue.

(** ** Listing and revoking *)

Definition usable (now : Z) (t : Share) : bool :=
  live t && (now <? sh_expiresAt t) &&
  match sh_maxUses t with None => true | Some m => sh_useCount t <? m end.

Definition created_desc (t t' : Share) : bool := sc_createdAt (sh_core t') <=? sc_createdAt (sh_core t).

Definition listActive (s : Store) (ts : list Share) (user : User) (proofId : string) (now : Z)
    : result ShareError (list Share) :=
  match find_where (fun p => has_id proofId p && bool_decide (p_userId p = u_id user)) (proofs s) with
  | None => Err ShareProofNotFound
  | Some _ =>
      Ok (List.filter (fun t => match sh_maxUses t with None => true | Some m => sh_useCount t <? m end)
        (js_sort created_desc (List.filter (fun t =>
          bool_decide (sh_proofId t = proofId) && bool_decide (sh_ownerId t = u_id user) &&
          live t && (now <? sh_expiresAt t)) ts)))
  end.

Definition scoped (user : User) (proofId tokenId : string) (t : Share) : bool :=
  bool_decide (sh_id t = tokenId) && bool_decide (sh_proofId t = proofId) &&
  bool_decide (sh_ownerId t = u_id user).

Definition set_revoked (now : Z) (t : Share) : Share :=
  {| sh_core := sh_core t; sh_useCount := sh_useCount t; sh_revokedAt := Some now;
     sh_supersededAt := sh_supersededAt t; sh_supersededById := sh_supersededById t;
     sh_lastUsedAt := sh_lastUsedAt t |}.

(** The update of [revoke], and its look-up when it changed nothing; the audit
    record follows outside. *)
Definition revoke_update (user : User) (proofId tokenId : string) (now : Z) (ts : list Share)
    : list Share * nat :=
  let unrevoked t := scoped user proofId tokenId t && bool_decide (sh_revokedAt t = None) in
  (update_where unrevoked (set_revoked now) ts, count_where unrevoked ts).

Definition revoke_lookup (user : User) (proofId tokenId : string) (ts : list Share) : result ShareError Z :=
  match find_where (scoped user proofId tokenId) ts with
  | Some t => match sh_revokedAt t with Some at_ => Ok at_ | None => Err ShareNotFound end
  | None => Err ShareNotFound
  end.

(** ** Resolving *)

Section resolve.
Context (sha256 : string -> string).

(** The look-up and the checks on what it found. *)
Definition resolve_read (rawToken : string) (now : Z) (ts : list Share) (s : Store) : result ShareError Share :=
  _ ← throw_if (negb (TOKEN_PATTERN rawToken)) InvalidShare;
  match find_where (fun t => String.eqb (sc_tokenHash (sh_core t)) (sha256 rawToken)) ts with
  | None => Err InvalidShare
  | Some t =>
      match find_proof (sh_proofId t) s with
      | None => Err InvalidShare                 (* not reached: a foreign key *)
      | Some p =>
          _ ← throw_if (negb (usable now t) || negb (bool_decide (p_userId p = sh_ownerId t))) InvalidShare;
          Ok t
      end
  end.

Definition use (now : Z) (t : Share) : Share :=
  {| sh_core := sh_core t; sh_useCount := sh_useCount t + 1; sh_revokedAt := sh_revokedAt t;
     sh_supersededAt := sh_supersededAt t; sh_supersededById := sh_supersededById t; sh_lastUsedAt := Some now |}.

Definition consumable (t : Share) (now : Z) (r : Share) : bool :=
  bool_decide (sh_id r = sh_id t) && live r && (now <? sh_expiresAt r) &&
  match sh_maxUses t with None => true | Some m => sh_useCount r <? m end.

(** The conditional update that consumes a use. *)
Definition resolve_consume (t : Share) (now : Z) (ts : list Share) : result ShareError (list Share) :=
  _ ← throw_if (negb (count_where (consumable t now) ts =? 1)%nat) InvalidShare;
  Ok (update_where (consumable t now) (use now) ts).

(** What a resolution discloses. *)
Record ShareAnswer := {
  sa_scope : ProofShareScope.t;
  sa_result : VerificationResult.t;
  sa_status : string;
  sa_shareExpiresAt : string;
  sa_proofId : option string;
  sa_type : ProofType.t;
  sa_schemaVersion : string;
  sa_network : string;
  sa_issuedAt : Z;
  sa_expiresAt : Z;
  sa_revokedAt : option Z;
  sa_revocationReasonCode : option RevocationReasonCode.t;
  sa_credential : option json;
}.

(** After the use is consumed: the verification of the proof, restricted to the
    scope of the token. *)
Definition resolve_answer (t : Share) (v : result VerifyError (VerifyResponse * list VerificationEvent))
    : result ShareError ShareAnswer :=
  match v with
  | Err e => Err (ShareVerify e)
  | Ok (resp, _) =>
      match vr_proof resp with
      | None => Err InvalidShare
      | Some vp =>
          let full := bool_decide (sh_scope t = ProofShareScope.VERIFY_CREDENTIAL) in
          Ok {| sa_scope := sh_scope t; sa_result := vr_result resp; sa_status := vr_status resp;
                sa_shareExpiresAt := iso_text (sh_expiresAt t);
                sa_proofId := if full then Some (vp_id vp) else None;
                sa_type := vp_type vp; sa_schemaVersion := vp_schemaVersion vp; sa_network := vp_network vp;
                sa_issuedAt := vp_issuedAt vp; sa_expiresAt := vp_expiresAt vp; sa_revokedAt := vp_revokedAt vp;
                sa_revocationReasonCode := vp_revocationReasonCode vp;
                sa_credential := if full then Some (vp_credential vp) else None |}
      end
  end.
End resolve.
