(* ===== verification/ShareTokensFacts.v ===== *)
(** * What share tokens guarantee

    Every interleaving of issuing, revoking and resolving keeps at most one live
    token per proof and scope, never exceeds a token's permitted uses, and never
    uses a token again once it is revoked or superseded. *)

From S2P Require Import Prelude JsData DecimalText Calendar Schema Canonical IsoDate AuditChain.
From S2P Require Import PaymentStore EmployerPayment ProofStore Credentials Issuance Contract Lifecycle ShareTokens.
From S2P Require Import Renewal RenewalFacts LifecycleFacts.

Local Open Scope string_scope.
Local Open Scope Z_scope.

(** ** The system *)

(** Requests between two statements. *)
Inductive ShareFlight :=
| FIssue (q : PendingShare)
| FWrite (q : PendingShare) (liveIds : list string)
| FResolve (t : Share) (now : Z).

(** The tables, the requests in flight, and the tokens used, one entry per use. *)
Record ShareSys := { shares : list Share; base : Store; flights : list ShareFlight; uses : list string }.

Section system.
Context (sha256 : string -> string) (maxTtl defaultTtl : Z).

Inductive share_step : ShareSys -> ShareSys -> Prop :=
| share_begin ts s fs us user proofId input now raw tid aid q :
    issue_prepare sha256 maxTtl defaultTtl s user proofId input now raw tid aid = Ok q ->
    share_step {| shares := ts; base := s; flights := fs; uses := us |}
               {| shares := ts; base := s; flights := FIssue q :: fs; uses := us |}
| share_read ts s fs1 q fs2 us :
    share_step {| shares := ts; base := s; flights := fs1 ++ FIssue q :: fs2; uses := us |}
               {| shares := ts; base := s; flights := fs1 ++ FWrite q (issue_live q ts) :: fs2; uses := us |}
| share_write ts s fs1 q ids fs2 us ts' s' :
    issue_write q ids ts s = Ok (ts', s') ->
    share_step {| shares := ts; base := s; flights := fs1 ++ FWrite q ids :: fs2; uses := us |}
               {| shares := ts'; base := s'; flights := fs1 ++ fs2; uses := us |}
| share_revoke ts s fs us user proofId tokenId now :
    share_step {| shares := ts; base := s; flights := fs; uses := us |}
               {| shares := (revoke_update user proofId tokenId now ts).1; base := s; flights := fs; uses := us |}
| share_lookup ts s fs us raw now t :
    resolve_read sha256 raw now ts s = Ok t ->
    share_step {| shares := ts; base := s; flights := fs; uses := us |}
               {| shares := ts; base := s; flights := FResolve t now :: fs; uses := us |}
| share_consume ts s fs1 t now fs2 us ts' :
    resolve_consume t now ts = Ok ts' ->
    share_step {| shares := ts; base := s; flights := fs1 ++ FResolve t now :: fs2; uses := us |}
               {| shares := ts'; base := s; flights := fs1 ++ fs2; uses := sh_id t :: us |}
| share_drop ts s fs1 q fs2 us :
    share_step {| shares := ts; base := s; flights := fs1 ++ q :: fs2; uses := us |}
               {| shares := ts; base := s; flights := fs1 ++ fs2; uses := us |}
| share_base ts s fs us s' :
    share_step {| shares := ts; base := s; flights := fs; uses := us |}
               {| shares := ts; base := s'; flights := fs; uses := us |}.

Definition share_init (s : Store) : ShareSys := {| shares := []; base := s; flights := []; uses := [] |}.

(** ** What every update of the table keeps *)

Definition used (id : string) (us : list string) : Z := Z.of_nat (count_where (String.eqb id) us).

(** How a row may change: what was issued is fixed, revocation and supersession
    are final, and a use needs a live token. *)
Record share_evolves (t t' : Share) : Prop := {
  sv_core : sh_core t' = sh_core t;
  sv_revoked : is_Some (sh_revokedAt t) -> sh_revokedAt t' = sh_revokedAt t;
  sv_superseded : is_Some (sh_supersededAt t) -> sh_supersededAt t' = sh_supersededAt t;
}.

#[local] Instance share_evolves_preorder : PreOrder share_evolves.
Proof.
  split; [by split|]. intros t1 t2 t3 [C1 R1 S1] [C2 R2 S2]. split; [congruence| |].
  - intros H. rewrite R2, R1; try done. by rewrite R1.
  - intros H. rewrite S2, S1; try done. by rewrite S1.
Qed.

Lemma live_false t : live t = false <-> is_Some (sh_revokedAt t) \/ is_Some (sh_supersededAt t).
Proof.
  unfold live. destruct (sh_revokedAt t), (sh_supersededAt t); cbn; split; try done; eauto.
  intros [[? [=]]|[? [=]]].
Qed.

Lemma evolves_live t t' : share_evolves t t' -> live t = false -> live t' = false.
Proof.
  rewrite !live_false. intros [_ R S] [H|H]; [left; by rewrite R|right; by rewrite S].
Qed.

Record share_inv (s : ShareSys) : Prop := {
  si_ids : NoDup ((fun t => sh_id t) <$> shares s);
  si_live : NoDup (live_keys (shares s));
  si_uses : forall t, t ∈ shares s ->
    sh_useCount t = used (sh_id t) (uses s) /\
    match sh_maxUses t with None => True | Some m => sh_useCount t <= m end;
  si_used : forall id, id ∈ uses s -> id ∈ (fun t => sh_id t) <$> shares s;
  si_flights : forall t now, FResolve t now ∈ flights s -> exists t', t' ∈ shares s /\ sh_core t' = sh_core t;
}.

(** An update of rows that keeps the count and does not make a row live. *)
Definition quiet (w : Share -> bool) (f : Share -> Share) : Prop :=
  forall t, w t = true -> share_evolves t (f t) /\ sh_useCount (f t) = sh_useCount t /\ (live (f t) = true -> live t = true).

Lemma live_keys_update w f ts :
  (forall t, w t = true -> sh_core (f t) = sh_core t /\ (live (f t) = true -> live t = true)) ->
  NoDup (live_keys ts) -> NoDup (live_keys (update_where w f ts)).
Proof.
  intros Hf. assert (live_keys (update_where w f ts) `sublist_of` live_keys ts) as Hsub.
  { unfold live_keys, update_where. induction ts as [|t ts IH]; [done|]. rewrite fmap_cons. cbn.
    destruct (w t) eqn:Hw; [|destruct (live t); cbn; [by apply sublist_skip|done]].
    destruct (Hf t Hw) as [Hc Hl].
    destruct (live (f t)); [rewrite Hl by done|destruct (live t)]; cbn; [|by constructor|done].
    unfold live_key. rewrite Hc. by apply sublist_skip. }
  intros Hnd. eapply sublist_NoDup; [exact Hnd|exact Hsub].
Qed.

Lemma update_ids w f ts :
  (forall t, w t = true -> sh_core (f t) = sh_core t) ->
  (fun t => sh_id t) <$> update_where w f ts = (fun t => sh_id t) <$> ts.
Proof.
  intros Hc. unfold update_where. induction ts as [|t ts IH]; [done|]. rewrite !fmap_cons, IH.
  destruct (w t) eqn:Hw; [by rewrite Hc|done].
Qed.

Lemma flights_update w f ts (fs : list ShareFlight) :
  (forall t, w t = true -> sh_core (f t) = sh_core t) ->
  (forall t now, FResolve t now ∈ fs -> exists t', t' ∈ ts /\ sh_core t' = sh_core t) ->
  forall t now, FResolve t now ∈ fs -> exists t', t' ∈ update_where w f ts /\ sh_core t' = sh_core t.
Proof.
  intros Hc H t now Ht. destruct (H t now Ht) as (t' & Ht' & Hcore). exists (if w t' then f t' else t').
  split; [apply elem_of_update_where; by exists t'|]. destruct (w t') eqn:Hw; [by rewrite Hc|done].
Qed.

Lemma inv_quiet w f ts s fs us :
  quiet w f -> share_inv {| shares := ts; base := s; flights := fs; uses := us |} ->
  share_inv {| shares := update_where w f ts; base := s; flights := fs; uses := us |}.
Proof.
  intros Hq [H1 H2 H3 H4 H5].
  assert (forall t, w t = true -> sh_core (f t) = sh_core t) as Hc by (intros t Ht; by apply Hq).
  pose proof (update_ids w f ts Hc) as Hids.
  split; cbn in *; [by rewrite Hids| | |by rewrite Hids|by apply flights_update].
  - apply live_keys_update; [|done]. intros t Ht. split; [auto|]. by apply Hq.
  - intros t (t0 & Ht0 & ->)%elem_of_update_where. specialize (H3 t0 Ht0). destruct (w t0) eqn:Hw; [|done].
    rewrite Hc by done. by destruct (Hq t0 Hw) as (_ & -> & _).
Qed.

Lemma supersede_quiet (p : Share -> bool) now : quiet (fun t => p t && live t) (supersede now).
Proof.
  intros t [_ Hl]%andb_true_iff. unfold live in Hl. reflect_hyps. split; [|split; [done|]].
  - split; cbn; [done|done|]. intros [x Hx]. congruence.
  - unfold live. cbn. by rewrite andb_false_r.
Qed.
Lemma point_to_quiet p id : quiet p (point_to id).
Proof. intros t _. by repeat split. Qed.
Lemma set_revoked_quiet (p : Share -> bool) now :
  quiet (fun t => p t && bool_decide (sh_revokedAt t = None)) (set_revoked now).
Proof.
  intros t [_ Hr%bool_decide_eq_true]%andb_true_iff. split; [|done]. split; cbn; [done| |done].
  intros [x Hx]. congruence.
Qed.

Lemma used_zero id us : id ∉ us -> used id us = 0.
Proof.
  intros H. unfold used. rewrite count_where_none; [done|]. intros x Hx. apply String.eqb_neq. by intros <-.
Qed.

(** A new row under the constraints. *)
Lemma inv_create c ts ts' s fs us :
  create_share (new_share c) ts = Ok ts' ->
  share_inv {| shares := ts; base := s; flights := fs; uses := us |} ->
  share_inv {| shares := ts'; base := s; flights := fs; uses := us |}.
Proof.
  intros H [H1 H2 H3 H4 H5]. unfold create_share in H. run_result. cbn in *.
  match goal with H : (_ || _) = false |- _ => apply orb_false_iff in H as [[Hid _]%orb_false_iff Hlive] end.
  apply bool_decide_eq_false in Hid, Hlive. split; cbn.
  - by apply NoDup_fmap_snoc.
  - unfold live_keys. rewrite List.filter_app. cbn. by apply NoDup_fmap_snoc.
  - intros t [Ht| ->%list_elem_of_singleton]%elem_of_app; [auto|]. cbn. rewrite used_zero.
    + split; [done|]. destruct (sc_maxUses c); [|done]. lia.
    + intros Hin. apply Hid. by apply H4.
  - intros id Hin. rewrite fmap_app, elem_of_app. left. auto.
  - intros t now Ht. destruct (H5 t now Ht) as (t' & Ht' & Hc). exists t'. split; [|done]. set_solver.
Qed.

Lemma inv_base ts s s' fs us :
  share_inv {| shares := ts; base := s; flights := fs; uses := us |} ->
  share_inv {| shares := ts; base := s'; flights := fs; uses := us |}.
Proof. by intros []. Qed.

Lemma inv_fewer_flights ts s fs fs' us :
  (forall t now, FResolve t now ∈ fs' -> FResolve t now ∈ fs) ->
  share_inv {| shares := ts; base := s; flights := fs; uses := us |} ->
  share_inv {| shares := ts; base := s; flights := fs'; uses := us |}.
Proof. intros Hf [H1 H2 H3 H4 H5]. split; cbn in *; eauto. Qed.

Lemma issue_write_inv q ids ts ts' s s' fs us :
  issue_write q ids ts s = Ok (ts', s') ->
  share_inv {| shares := ts; base := s; flights := fs; uses := us |} ->
  share_inv {| shares := ts'; base := s'; flights := fs; uses := us |}.
Proof.
  unfold issue_write. intros H Hinv. destruct (create_share _ _) as [ts1|[]] eqn:Hc; [|done..].
  destruct (create_audit _ _ _ s) as [s1|[]]; [|done..]. injection H as <- <-.
  apply inv_quiet; [apply point_to_quiet|]. apply (inv_base _ s).
  eapply inv_create; [exact Hc|]. by apply inv_quiet; [apply supersede_quiet|].
Qed.

Lemma used_cons id x us : used id (x :: us) = used id us + (if decide (id = x) then 1 else 0).
Proof.
  unfold used, count_where. cbn. destruct (String.eqb_spec id x), (decide (id = x)); try done; cbn; lia.
Qed.

Lemma consume_inv t now ts ts' s fs us :
  (exists t', t' ∈ ts /\ sh_core t' = sh_core t) -> resolve_consume t now ts = Ok ts' ->
  share_inv {| shares := ts; base := s; flights := fs; uses := us |} ->
  share_inv {| shares := ts'; base := s; flights := fs; uses := sh_id t :: us |}.
Proof.
  intros (t' & Ht' & Hcore) H [H1 H2 H3 H4 H5]. unfold resolve_consume in H.
  destruct (count_where (consumable t now) ts =? 1)%nat eqn:Hcount; [|done]. cbn in H. injection H as <-.
  apply Nat.eqb_eq in Hcount.
  assert (forall r, r ∈ ts -> consumable t now r = true -> r = t') as Huniq.
  { intros r Hr Hc. unfold consumable in Hc. reflect_hyps. apply (key_unique (fun t => sh_id t) ts); [done..|].
    by rewrite Hcore. }
  assert (consumable t now t' = true) as Hct'.
  { destruct (count_where_pos (consumable t now) ts) as (r & Hr & Hc); [by rewrite Hcount|].
    by rewrite <- (Huniq r Hr Hc). }
  pose proof (update_ids (consumable t now) (use now) ts (fun _ _ => eq_refl)) as Hids. cbn in *.
  split; cbn; [by rewrite Hids|by apply live_keys_update| | |by apply flights_update].
  - intros r (r0 & Hr0 & ->)%elem_of_update_where. destruct (H3 r0 Hr0) as [Hu Hm]. rewrite used_cons.
    destruct (consumable t now r0) eqn:Hc; cbn.
    + rewrite (Huniq r0 Hr0 Hc) in *. rewrite Hcore in *. rewrite decide_True by done. split; [lia|].
      unfold consumable in Hct'. destruct (sh_maxUses t); [|done]. reflect_hyps. lia.
    + destruct (decide (sh_id r0 = sh_id t)) as [E|]; [|split; [lia|done]].
      assert (r0 = t') as -> by (apply (key_unique (fun t => sh_id t) ts); [done..|by rewrite Hcore]). congruence.
  - intros id [->|Hin]%elem_of_cons; rewrite Hids; [|auto]. apply list_elem_of_fmap. exists t'. by rewrite Hcore.
Qed.

Lemma resolve_read_elem raw now ts s t : resolve_read sha256 raw now ts s = Ok t -> t ∈ ts.
Proof.
  unfold resolve_read. intros (u & _ & H)%bind_Ok. destruct (find_where _ ts) as [t0|] eqn:Hf; [|done].
  apply find_where_Some in Hf as [Hin _]. destruct (find_proof _ s); [|done]. by run_result.
Qed.

Lemma share_step_inv s s' : share_step s s' -> share_inv s -> share_inv s'.
Proof.
  intros Hs. destruct Hs as [ts b fs us user pid input now raw tid aid q _|ts b fs1 q fs2 us|
    ts b fs1 q ids fs2 us ts' b' Hw|ts b fs us user pid tid now|ts b fs us raw now t Hr|
    ts b fs1 t now fs2 us ts' Hc|ts b fs1 q fs2 us|ts b fs us b'].
  - apply inv_fewer_flights. set_solver.
  - apply inv_fewer_flights. set_solver.
  - intros Hinv. eapply issue_write_inv; [exact Hw|]. eapply inv_fewer_flights; [|exact Hinv]. set_solver.
  - apply inv_quiet, set_revoked_quiet.
  - intros [H1 H2 H3 H4 H5]. split; cbn in *; try done. intros t0 now0 [[= -> ->]|Hin]%elem_of_cons; [|by eapply H5].
    exists t. split; [|done]. by eapply resolve_read_elem.
  - intros Hinv. eapply consume_inv; [|exact Hc|].
    + apply (si_flights _ Hinv t now). set_solver.
    + eapply inv_fewer_flights; [|exact Hinv]. set_solver.
  - apply inv_fewer_flights. set_solver.
  - apply inv_base.
Qed.

Lemma share_reachable_inv b s : rtc share_step (share_init b) s -> share_inv s.
Proof.
  intros H. eapply (rtc_invariant share_step share_inv); [|exact H|]; [eauto using share_step_inv|].
  split; cbn; [apply NoDup_nil_2|apply NoDup_nil_2|set_solver..].
Qed.

(** C21: in every interleaving of issuing, revoking and resolving, a token with a
    limit is used at most that many times, and at most one token per proof and
    scope is live. *)
Theorem share_uses_bounded b s t m :
  rtc share_step (share_init b) s -> t ∈ shares s -> sh_maxUses t = Some m ->
  used (sh_id t) (uses s) <= m /\ NoDup (live_keys (shares s)).
Proof.
  intros [_ H2 H3 _ _]%share_reachable_inv Ht Hm. split; [|done].
  destruct (H3 t Ht) as [<- Hle]. by rewrite Hm in Hle.
Qed.

(** Rows evolve, and only live rows are used. *)
Definition rows_evolve (s s' : ShareSys) : Prop :=
  forall t, t ∈ shares s -> exists t', t' ∈ shares s' /\ share_evolves t t' /\
    (live t = false -> used (sh_id t) (uses s') = used (sh_id t) (uses s)).

#[local] Instance rows_evolve_preorder : PreOrder rows_evolve.
Proof.
  split; [intros s t Ht; by exists t|]. intros s1 s2 s3 H12 H23 t Ht.
  destruct (H12 t Ht) as (t2 & Ht2 & He2 & Hu2), (H23 t2 Ht2) as (t3 & Ht3 & He3 & Hu3).
  exists t3. split; [done|]. split; [by etrans|]. intros Hl. rewrite (sv_core _ _ He2) in Hu3.
  rewrite Hu3, Hu2; [done..|]. by eapply evolves_live.
Qed.

Lemma rows_evolve_update w f ts ts' b b' fs fs' us :
  quiet w f -> ts' = update_where w f ts ->
  rows_evolve {| shares := ts; base := b; flights := fs; uses := us |}
              {| shares := ts'; base := b'; flights := fs'; uses := us |}.
Proof.
  intros Hq -> t Ht. cbn in *. exists (if w t then f t else t). split; [apply elem_of_update_where; by exists t|].
  split; [|done]. destruct (w t) eqn:Hw; [by apply Hq|done].
Qed.

Lemma rows_evolve_write q ids ts ts' b b' fs fs' us :
  issue_write q ids ts b = Ok (ts', b') ->
  rows_evolve {| shares := ts; base := b; flights := fs; uses := us |}
              {| shares := ts'; base := b'; flights := fs'; uses := us |}.
Proof.
  unfold issue_write. intros H. destruct (create_share _ _) as [ts1|[]] eqn:Hc; [|done..].
  destruct (create_audit _ _ _ b) as [b1|[]]; [|done..]. injection H as <- <-.
  set (w := fun t => bool_decide (sh_id t ∈ ids) && live t) in *.
  transitivity {| shares := update_where w (supersede (ps_now q)) ts; base := b; flights := fs; uses := us |}.
  { eapply rows_evolve_update; [apply supersede_quiet|done]. }
  transitivity {| shares := ts1; base := b; flights := fs; uses := us |}.
  - intros t Ht. exists t. split; [|done]. unfold create_share in Hc. run_result. cbn in *. set_solver.
  - eapply rows_evolve_update; [apply point_to_quiet|done].
Qed.

Lemma rows_evolve_consume t now ts ts' b fs fs' us :
  NoDup ((fun t => sh_id t) <$> ts) -> resolve_consume t now ts = Ok ts' ->
  rows_evolve {| shares := ts; base := b; flights := fs; uses := us |}
              {| shares := ts'; base := b; flights := fs'; uses := sh_id t :: us |}.
Proof.
  intros Hnd H t0 Ht0. cbn in *. unfold resolve_consume in H.
  destruct (count_where (consumable t now) ts =? 1)%nat eqn:Hcount; [|done]. cbn in H. injection H as <-.
  exists (if consumable t now t0 then use now t0 else t0). split; [apply elem_of_update_where; by exists t0|].
  split; [by destruct (consumable t now t0)|]. intros Hl. rewrite used_cons. case_decide as Hid; [|lia].
  apply Nat.eqb_eq in Hcount. destruct (count_where_pos (consumable t now) ts) as (r & Hr & Hc); [by rewrite Hcount|].
  unfold consumable in Hc. reflect_hyps. assert (r = t0) as ->; [|congruence].
  apply (key_unique (fun t => sh_id t) ts); [done..|]. congruence.
Qed.

Lemma share_step_evolves s s' : share_step s s' -> share_inv s -> rows_evolve s s'.
Proof.
  intros Hs Hinv. destruct Hs as [ts b fs us user pid input now raw tid aid q _|ts b fs1 q fs2 us|
    ts b fs1 q ids fs2 us ts' b' Hw|ts b fs us user pid tid now|ts b fs us raw now t Hr|
    ts b fs1 t now fs2 us ts' Hc|ts b fs1 q fs2 us|ts b fs us b']; try (intros t0 Ht0; by exists t0).
  - by eapply rows_evolve_write.
  - eapply rows_evolve_update; [apply set_revoked_quiet|done].
  - eapply rows_evolve_consume; [apply Hinv|done].
Qed.

(** a share token that is revoked or superseded is never used again, in any
    continuation, including by requests that had already looked it up; and what
    was issued, the revocation and the supersession never change. *)
Theorem dead_share_never_used b s s' t :
  rtc share_step (share_init b) s -> rtc share_step s s' -> t ∈ shares s -> live t = false ->
  used (sh_id t) (uses s') = used (sh_id t) (uses s) /\
  exists t', t' ∈ shares s' /\ share_evolves t t' /\ live t' = false.
Proof.
  intros H1%share_reachable_inv H2 Ht Hl.
  assert (rows_evolve s s') as Hev.
  { eapply (rtc_preorder share_step share_inv rows_evolve); [|exact H2|exact H1].
    intros s1 s2 Hs Hi. split; [by eapply share_step_inv|by apply share_step_evolves]. }
  destruct (Hev t Ht) as (t' & Ht' & He & Hu). split; [auto|]. exists t'. eauto using evolves_live.
Qed.
End system.

(** ** Single requests *)

(** a share token is only prepared for a proof the caller owns that is active
    and not expired, and its lifetime ends within the permitted time and no later
    than the proof's. *)
Theorem share_issue_sound sha256 maxTtl defaultTtl s user proofId input now raw tid aid q :
  store_wf s ->
  issue_prepare sha256 maxTtl defaultTtl s user proofId input now raw tid aid = Ok q ->
  exists p, find_proof proofId s = Some p /\ p_userId p = u_id user /\ p_status p = ProofStatus.ACTIVE /\
    now < p_expiresAt p /\ sc_proofId (ps_core q) = proofId /\ sc_ownerId (ps_core q) = p_userId p /\
    sc_expiresAt (ps_core q) <= p_expiresAt p /\ sc_expiresAt (ps_core q) <= now + maxTtl * 60000 /\
    sc_tokenHash (ps_core q) = sha256 raw.
Proof.
  intros Hwf. unfold issue_prepare. intros (u & Httl & H)%bind_Ok. apply throw_if_Ok, Z.ltb_ge in Httl.
  destruct (find_where _ (proofs s)) as [p|] eqn:Hf; [|done]. run_result. cbn.
  apply find_where_Some in Hf as [Hin [Hid Hu]%andb_true_iff]. apply String.eqb_eq in Hid. reflect_hyps. exists p.
  rewrite <- Hid at 1. rewrite find_proof_elem by done.
  split_and!; try done; try congruence; (destruct (Z.ltb_spec (now + default defaultTtl (si_expiresInMinutes input) * 60000)
    (p_expiresAt p)); lia).
Qed.

(** what a status token discloses does not depend on the proof's identifier
    or credential: two verifications that differ in nothing else give the same
    answer; a credential token discloses exactly the verification's. *)
Theorem share_scope_limits_disclosure t resp ev resp' ev' vp vp' a a' :
  vr_proof resp = Some vp -> vr_proof resp' = Some vp' ->
  resolve_answer t (Ok (resp, ev)) = Ok a -> resolve_answer t (Ok (resp', ev')) = Ok a' ->
  (sh_scope t = ProofShareScope.VERIFY_STATUS ->
   vr_result resp = vr_result resp' -> vr_status resp = vr_status resp' -> vp_type vp = vp_type vp' ->
   vp_schemaVersion vp = vp_schemaVersion vp' -> vp_network vp = vp_network vp' -> vp_issuedAt vp = vp_issuedAt vp' ->
   vp_expiresAt vp = vp_expiresAt vp' -> vp_revokedAt vp = vp_revokedAt vp' ->
   vp_revocationReasonCode vp = vp_revocationReasonCode vp' -> a = a') /\
  (sh_scope t = ProofShareScope.VERIFY_CREDENTIAL ->
   sa_proofId a = Some (vp_id vp) /\ sa_credential a = Some (vp_credential vp) /\ sa_result a = vr_result resp).
Proof.
  unfold resolve_answer. intros -> -> [= <-] [= <-]. split; intros Hs; rewrite Hs; cbn; [|done].
  by intros -> -> -> -> -> -> -> -> ->.
Qed.

(** issuing records its audit row through the transaction's own delegate, so
    once that place is taken no share token can be issued for any proof. *)
Theorem audit_slot_blocks_sharing q ids ts s : slot_taken s -> exists e, issue_write q ids ts s = Err e.
Proof.
  intros Hs. unfold issue_write. destruct (create_share _ _) as [ts1|[]]; [|eauto..].
  rewrite create_audit_refused by done. eauto.
Qed.

(** ** Witnesses *)

Definition demo_raw : string := "eps_AAAAAAAAAAAAAAAAAAAAAAAAAAAAAAAAAAAAAAAAAAA".
Definition demo_share_input : ShareInput :=
  {| si_scope := ProofShareScope.VERIFY_STATUS; si_expiresInMinutes := Some 60; si_maxUses := Some 1;
     si_label := None |}.
Definition demo_core : ShareCore :=
  {| sc_id := "t1"; sc_proofId := "p2"; sc_ownerId := "u1"; sc_tokenHash := demo_raw;
     sc_scope := ProofShareScope.VERIFY_STATUS; sc_label := None; sc_maxUses := Some 1;
     sc_expiresAt := 3603000; sc_createdAt := 3000 |}.
Definition demo_pending : PendingShare := {| ps_core := demo_core; ps_now := 3000; ps_auditId := "a1" |}.

Lemma demo_prepared :
  issue_prepare id MAX_TTL_MINUTES DEFAULT_TTL_MINUTES anchored_store sample_user "p2" demo_share_input 3000
    demo_raw "t1" "a1" = Ok demo_pending.
Proof. vm_compute. reflexivity. Qed.

Definition demo_base : Store :=
  set_audit [unchained_row "a1" 3000 (share_audit demo_pending [])] anchored_store.
Definition demo_used : list Share := [use 4000 (new_share demo_core)].
Definition demo_shared : ShareSys :=
  {| shares := demo_used; base := demo_base; flights := [FResolve (new_share demo_core) 4001]; uses := ["t1"] |}.
Definition demo_dead : ShareSys :=
  {| shares := [set_revoked 5000 (use 4000 (new_share demo_core))]; base := demo_base;
     flights := [FResolve (new_share demo_core) 4001]; uses := ["t1"] |}.

(** Two requests look the token up, one uses it, the owner revokes it. *)
Lemma demo_share_run :
  rtc (share_step id MAX_TTL_MINUTES DEFAULT_TTL_MINUTES) (share_init anchored_store) demo_shared.
Proof.
  eapply rtc_l; [eapply share_begin, demo_prepared|].
  eapply rtc_l; [apply (share_read _ _ _ _ _ [] _ [])|].
  eapply rtc_l; [eapply (share_write _ _ _ _ _ [] _ _ [] _ [new_share demo_core] demo_base); by vm_compute|].
  eapply rtc_l; [eapply (share_lookup _ _ _ _ _ _ _ demo_raw 4001 (new_share demo_core)); by vm_compute|].
  eapply rtc_l; [eapply (share_lookup _ _ _ _ _ _ _ demo_raw 4000 (new_share demo_core)); by vm_compute|].
  apply rtc_once, (share_consume _ _ _ _ _ [] (new_share demo_core) 4000 [FResolve (new_share demo_core) 4001] []).
  by vm_compute.
Qed.

Lemma demo_revoked_share : rtc (share_step id MAX_TTL_MINUTES DEFAULT_TTL_MINUTES) demo_shared demo_dead.
Proof.
  apply rtc_once. exact (share_revoke id MAX_TTL_MINUTES DEFAULT_TTL_MINUTES demo_used demo_base
    [FResolve (new_share demo_core) 4001] ["t1"] sample_user "p2" "t1" 5000).
Qed.

Lemma share_uses_bounded_witness : used "t1" (uses demo_shared) <= 1 /\ NoDup (live_keys (shares demo_shared)).
Proof.
  apply (share_uses_bounded id MAX_TTL_MINUTES DEFAULT_TTL_MINUTES anchored_store demo_shared
    (use 4000 (new_share demo_core)) 1 demo_share_run); [by left|reflexivity].
Defined.

Lemma dead_share_never_used_witness : used "t1" (uses demo_dead) = used "t1" (uses demo_dead).
Proof.
  apply (dead_share_never_used id MAX_TTL_MINUTES DEFAULT_TTL_MINUTES anchored_store demo_dead demo_dead
    (set_revoked 5000 (use 4000 (new_share demo_core)))); [|apply rtc_refl|by left|reflexivity].
  etrans; [exact demo_share_run|exact demo_revoked_share].
Defined.

Lemma share_issue_sound_witness :
  exists p, find_proof "p2" anchored_store = Some p /\ 3603000 <= p_expiresAt p.
Proof.
  destruct (share_issue_sound id MAX_TTL_MINUTES DEFAULT_TTL_MINUTES anchored_store sample_user "p2" demo_share_input
    3000 demo_raw "t1" "a1" demo_pending anchored_store_wf demo_prepared) as (p & Hf & _ & _ & _ & _ & _ & He & _).
  exists p. split; assumption.
Defined.

Definition demo_verified : VerifiedProof :=
  {| vp_credential := JNull; vp_id := "p2"; vp_type := ProofType.MINIMUM_INCOME; vp_schemaVersion := "1.0.0";
     vp_network := "testnet"; vp_issuedAt := 0; vp_expiresAt := 1; vp_revokedAt := None;
     vp_revocationReasonCode := None; vp_contractStatus := Unchecked disabled |}.
Definition demo_verification : VerifyResponse :=
  {| vr_result := VerificationResult.VALID; vr_status := "valid"; vr_proof := Some demo_verified |}.
Definition demo_disclosure (c : ShareCore) : ShareAnswer :=
  {| sa_scope := sc_scope c; sa_result := VerificationResult.VALID; sa_status := "valid";
     sa_shareExpiresAt := iso_text 3603000; sa_proofId := None; sa_type := ProofType.MINIMUM_INCOME;
     sa_schemaVersion := "1.0.0"; sa_network := "testnet"; sa_issuedAt := 0; sa_expiresAt := 1; sa_revokedAt := None;
     sa_revocationReasonCode := None; sa_credential := None |}.

Lemma share_scope_limits_disclosure_witness : demo_disclosure demo_core = demo_disclosure demo_core.
Proof.
  apply (share_scope_limits_disclosure (new_share demo_core) demo_verification [] demo_verification [] demo_verified
    demo_verified); reflexivity.
Defined.

Lemma audit_slot_blocks_sharing_witness : exists e, issue_write demo_pending [] [] demo_base = Err e.
Proof. apply audit_slot_blocks_sharing. apply (bool_decide_unpack _). by vm_compute. Defined.
