(* ===== verification/Accounts.v ===== *)
(** * Accounts

    Model of the account tables of [prisma/schema.prisma] ([User], [AuthSession],
    [WalletChallenge], [WalletRotation], [AuthAuditEvent]), of the policy
    [src/auth/account-status.policy.ts] and of [src/users/users.service.ts].  The
    two administrative changes run in transactions that read the account and then
    write: each is split there.  Audit records go to the table the proof handlers
    write, through the transaction's own delegate. *)

From S2P Require Import Prelude JsData Schema Canonical AuditChain ProofStore Issuance.

Local Open Scope string_scope.
Local Open Scope Z_scope.

(** ** Tables *)

(** The columns the modelled services read or write. *)
Record Account := {
  ac_id : string;
  ac_walletAddress : string;
  ac_walletHash : string;
  ac_role : UserRole.t;
  ac_status : ResourceStatus.t;
  ac_displayName : option string;
  ac_lastLoginAt : option Z;
}.

(** The columns of a session fixed when it is created. *)
Record SessionCore := {
  ss_id : string;
  ss_tokenHash : string;
  ss_userId : string;
  ss_walletHash : option string;
  ss_createdAt : Z;
  ss_expiresAt : Z;
  ss_firstSeenAt : Z;
  ss_deviceFingerprint : option string;
}.

Record AuthSession := {
  as_core : SessionCore;
  as_lastUsedAt : option Z;
  as_revokedAt : option Z;
  as_deviceLabel : option string;
  as_lastSeenAt : Z;
  as_revocationReason : option string;
  as_rotatedToId : option string;
}.

Abbreviation as_id x := (ss_id (as_core x)).
Abbreviation as_tokenHash x := (ss_tokenHash (as_core x)).
Abbreviation as_userId x := (ss_userId (as_core x)).
Abbreviation as_walletHash x := (ss_walletHash (as_core x)).
Abbreviation as_expiresAt x := (ss_expiresAt (as_core x)).

Record WalletChallenge := {
  wc_id : string;
  wc_walletAddress : string;
  wc_nonceHash : string;
  wc_message : string;
  wc_expiresAt : Z;
  wc_usedAt : option Z;
  wc_networkPassphrase : option string;
  wc_origin : option string;
}.

Module WalletRotationStatus.
Inductive t := PENDING | COMPLETED | FAILED | CANCELLED.
#[export] Instance t_eq_dec : EqDecision t.
Proof. solve_decision. Defined.
End WalletRotationStatus.
Export (hints) WalletRotationStatus.

Inductive WalletRotationFailure :=
| NETWORK_MISMATCH | ORIGIN_MISMATCH | IDENTITY_CHANGED | CURRENT_SIGNATURE_INVALID
| REPLACEMENT_SIGNATURE_INVALID | REPLACEMENT_UNAVAILABLE | SUPERSEDED.

(** The columns of a rotation fixed when it is created. *)
Record RotationCore := {
  wr_id : string;
  wr_userId : string;
  wr_currentWalletAddress : string;
  wr_newWalletAddress : string;
  wr_nonceHash : string;
  wr_currentMessage : string;
  wr_newMessage : string;
  wr_networkPassphrase : string;
  wr_origin : string;
  wr_expiresAt : Z;
}.

Record WalletRotation := {
  wr_core : RotationCore;
  wr_status : WalletRotationStatus.t;
  wr_failureReason : option WalletRotationFailure;
  wr_consumedAt : option Z;
  wr_completedAt : option Z;
}.

Module AuthEventType.
Inductive t :=
| CHALLENGE_CREATED | CHALLENGE_VERIFIED | SIGNATURE_INVALID | CHALLENGE_EXPIRED
| CHALLENGE_REPLAYED | RATE_LIMITED | ACCOUNT_INACTIVE.
#[export] Instance t_eq_dec : EqDecision t.
Proof. solve_decision. Defined.
End AuthEventType.
Export (hints) AuthEventType.

Record AuthAuditEvent := {
  ev_eventType : AuthEventType.t;
  ev_walletHash : string;
  ev_clientMetadataHash : option string;
  ev_challengeId : option string;
  ev_success : bool;
  ev_failureReason : option string;
  ev_createdAt : Z;
}.

(** The tables, with the store whose audit table they share. *)
Record AuthDb := {
  db_users : list Account;
  db_sessions : list AuthSession;
  db_challenges : list WalletChallenge;
  db_rotations : list WalletRotation;
  db_events : list AuthAuditEvent;
  db_store : Store;
}.

Definition set_users t db :=
  {| db_users := t; db_sessions := db_sessions db; db_challenges := db_challenges db; 
     db_rotations := db_rotations db; db_events := db_events db; db_store := db_store db |}.
Definition set_sessions t db :=
  {| db_users := db_users db; db_sessions := t; db_challenges := db_challenges db; 
     db_rotations := db_rotations db; db_events := db_events db; db_store := db_store db |}.
Definition set_challenges t db :=
  {| db_users := db_users db; db_sessions := db_sessions db; db_challenges := t; 
     db_rotations := db_rotations db; db_events := db_events db; db_store := db_store db |}.
Definition set_rotations t db :=
  {| db_users := db_users db; db_sessions := db_sessions db; db_challenges := db_challenges db; 
     db_rotations := t; db_events := db_events db; db_store := db_store db |}.
Definition set_events t db :=
  {| db_users := db_users db; db_sessions := db_sessions db; db_challenges := db_challenges db; 
     db_rotations := db_rotations db; db_events := t; db_store := db_store db |}.
Definition set_store t db :=
  {| db_users := db_users db; db_sessions := db_sessions db; db_challenges := db_challenges db; 
     db_rotations := db_rotations db; db_events := db_events db; db_store := t |}.

Definition user_id (id : string) (u : Account) : bool := String.eqb (ac_id u) id.
Definition find_user (id : string) (us : list Account) : option Account := find_where (user_id id) us.
Definition user_wallet (w : string) (u : Account) : bool := String.eqb (ac_walletAddress u) w.

(** ** Errors *)

Inductive AuthError :=
| MissingBearer | MalformedToken | SessionNotFound | SessionRevoked | SessionExpired | SessionNotYours
| SessionStale | UserNotFound | AccountInactive
| InvalidPublicKey | InvalidOrigin | RateLimited
| ChallengeUnavailable | ChallengeUnbound | ChallengeNetwork | ChallengeOrigin | InvalidSignature
| SameWallet | RotationUnavailable | RotationNetwork | RotationOrigin | RotationIdentity
| InvalidCurrentSignature | InvalidNewSignature | ReplacementBound
| OwnAccount | TransitionRefused | ChangedConcurrently | RoleNeedsActive | RoleUnchanged
| OwnsOrganizations (n : nat)
| AuthP (e : DbError).

(** ** The account status policy *)

Definition status_text (s : ResourceStatus.t) : string :=
  match s with
  | ResourceStatus.ACTIVE => "ACTIVE" | ResourceStatus.PENDING => "PENDING"
  | ResourceStatus.SUSPENDED => "SUSPENDED" | ResourceStatus.REVOKED => "REVOKED"
  | ResourceStatus.DELETED => "DELETED" | ResourceStatus.EXPIRED => "EXPIRED"
  end.
Definition role_text (r : UserRole.t) : string :=
  match r with
  | UserRole.WORKER => "WORKER" | UserRole.ISSUER => "ISSUER"
  | UserRole.ADMIN => "ADMIN" | UserRole.DEVELOPER => "DEVELOPER"
  end.

Definition NON_AUTHENTICATING_STATUSES : list ResourceStatus.t :=
  [ResourceStatus.SUSPENDED; ResourceStatus.REVOKED; ResourceStatus.DELETED].

Definition canAuthenticate (s : ResourceStatus.t) : bool :=
  negb (bool_decide (s ∈ NON_AUTHENTICATING_STATUSES)).

Definition ACCOUNT_STATUS_TRANSITIONS (s : ResourceStatus.t) : list ResourceStatus.t :=
  match s with
  | ResourceStatus.PENDING => [ResourceStatus.ACTIVE; ResourceStatus.SUSPENDED; ResourceStatus.REVOKED]
  | ResourceStatus.ACTIVE => [ResourceStatus.SUSPENDED; ResourceStatus.REVOKED]
  | ResourceStatus.SUSPENDED => [ResourceStatus.ACTIVE; ResourceStatus.REVOKED]
  | ResourceStatus.REVOKED | ResourceStatus.DELETED | ResourceStatus.EXPIRED => []
  end.

Definition isAllowedStatusTransition (from to : ResourceStatus.t) : bool :=
  bool_decide (to ∈ ACCOUNT_STATUS_TRANSITIONS from).

Definition transitionRevokesSessions (from to : ResourceStatus.t) : bool :=
  negb (canAuthenticate to) || negb (canAuthenticate from).

Definition ORGANIZATION_OWNER_ROLES : list UserRole.t := [UserRole.ADMIN; UserRole.ISSUER; UserRole.DEVELOPER].
Definition LIVE_ORGANIZATION_STATUSES : list ResourceStatus.t :=
  [ResourceStatus.ACTIVE; ResourceStatus.PENDING; ResourceStatus.SUSPENDED].

(** ** Writes shared by the services *)

Definition revoke_session (now : Z) (x : AuthSession) : AuthSession :=
  {| as_core := as_core x; as_lastUsedAt := as_lastUsedAt x; as_revokedAt := Some now;
     as_deviceLabel := as_deviceLabel x; as_lastSeenAt := as_lastSeenAt x;
     as_revocationReason := as_revocationReason x; as_rotatedToId := as_rotatedToId x |}.

Definition unrevoked (x : AuthSession) : bool := bool_decide (as_revokedAt x = None).

(** [updateMany] over the live sessions of an account, with its count. *)
Definition revoke_user_sessions (userId : string) (now : Z) (ss : list AuthSession) : list AuthSession * nat :=
  let mine x := String.eqb (as_userId x) userId && unrevoked x in
  (update_where mine (revoke_session now) ss, count_where mine ss).

(** ** [changeStatus] *)

Definition user_audit (action actorId userId : string) (metadata : json) : AuditArgs :=
  {| aa_organizationId := None; aa_actorType := "user"; aa_actorId := Some actorId; aa_action := action;
     aa_resourceType := "user"; aa_resourceId := Some userId; aa_metadata := Some metadata;
     aa_createdAt := None |}.

Definition set_account_status (st : ResourceStatus.t) (u : Account) : Account :=
  {| ac_id := ac_id u; ac_walletAddress := ac_walletAddress u; ac_walletHash := ac_walletHash u;
     ac_role := ac_role u; ac_status := st; ac_displayName := ac_displayName u; ac_lastLoginAt := ac_lastLoginAt u |}.

(** A status change that passed the checks of its transaction. *)
Record PendingStatus := {
  ph_actorId : string;
  ph_userId : string;
  ph_previous : ResourceStatus.t;
  ph_status : ResourceStatus.t;
  ph_reason : option string;
}.

Definition status_read (actorId userId : string) (st : ResourceStatus.t) (reason : option string) (db : AuthDb)
    : result AuthError PendingStatus :=
  _ ← throw_if (String.eqb actorId userId) OwnAccount;
  match find_user userId (db_users db) with
  | None => Err UserNotFound
  | Some current =>
      _ ← throw_if (negb (isAllowedStatusTransition (ac_status current) st)) TransitionRefused;
      Ok {| ph_actorId := actorId; ph_userId := userId; ph_previous := ac_status current; ph_status := st;
            ph_reason := reason |}
  end.

Definition status_write (q : PendingStatus) (now : Z) (auditId : string) (db : AuthDb)
    : result AuthError (AuthDb * nat) :=
  let w u := user_id (ph_userId q) u && bool_decide (ac_status u = ph_previous q) in
  _ ← throw_if (negb (count_where w (db_users db) =? 1)%nat) ChangedConcurrently;
  let us := update_where w (set_account_status (ph_status q)) (db_users db) in
  let '(ss, sessionsRevoked) :=
    if transitionRevokesSessions (ph_previous q) (ph_status q)
    then revoke_user_sessions (ph_userId q) now (db_sessions db) else (db_sessions db, 0%nat) in
  match create_audit auditId now (user_audit "user.status_changed" (ph_actorId q) (ph_userId q)
    (JObj [("previousStatus", JStr (status_text (ph_previous q))); ("newStatus", JStr (status_text (ph_status q)));
           ("reason", jopt (ph_reason q)); ("sessionsRevoked", JNum (Z.of_nat sessionsRevoked))])) (db_store db) with
  | Err e => Err (AuthP e)
  | Ok s => Ok (set_store s (set_sessions ss (set_users us db)), sessionsRevoked)
  end.

(** ** [changeRole] *)

(** The columns of [Organization] the check counts over. *)
Record OwnedOrganization := { og_createdById : string; og_status : ResourceStatus.t }.

Definition owned_live (userId : string) (os : list OwnedOrganization) : nat :=
  count_where (fun o => String.eqb (og_createdById o) userId &&
                        bool_decide (og_status o ∈ LIVE_ORGANIZATION_STATUSES)) os.

Record PendingRole := { pl_actorId : string; pl_userId : string; pl_previous : UserRole.t; pl_role : UserRole.t }.

Definition role_read (actorId userId : string) (role : UserRole.t) (os : list OwnedOrganization) (db : AuthDb)
    : result AuthError PendingRole :=
  _ ← throw_if (String.eqb actorId userId) OwnAccount;
  match find_user userId (db_users db) with
  | None => Err UserNotFound
  | Some current =>
      _ ← throw_if (negb (bool_decide (ac_status current = ResourceStatus.ACTIVE))) RoleNeedsActive;
      _ ← throw_if (bool_decide (ac_role current = role)) RoleUnchanged;
      _ ← throw_if (negb (bool_decide (role ∈ ORGANIZATION_OWNER_ROLES)) && (0 <? owned_live userId os)%nat)
            (OwnsOrganizations (owned_live userId os));
      Ok {| pl_actorId := actorId; pl_userId := userId; pl_previous := ac_role current; pl_role := role |}
  end.

Definition set_role (r : UserRole.t) (u : Account) : Account :=
  {| ac_id := ac_id u; ac_walletAddress := ac_walletAddress u; ac_walletHash := ac_walletHash u;
     ac_role := r; ac_status := ac_status u; ac_displayName := ac_displayName u; ac_lastLoginAt := ac_lastLoginAt u |}.

Definition role_write (q : PendingRole) (now : Z) (auditId : string) (db : AuthDb) : result AuthError AuthDb :=
  let w u := user_id (pl_userId q) u && bool_decide (ac_role u = pl_previous q) &&
             bool_decide (ac_status u = ResourceStatus.ACTIVE) in
  _ ← throw_if (negb (count_where w (db_users db) =? 1)%nat) ChangedConcurrently;
  match create_audit auditId now (user_audit "user.role_changed" (pl_actorId q) (pl_userId q)
    (JObj [("previousRole", JStr (role_text (pl_previous q))); ("newRole", JStr (role_text (pl_role q)))]))
    (db_store db) with
  | Err e => Err (AuthP e)
  | Ok s => Ok (set_store s (set_users (update_where w (set_role (pl_role q)) (db_users db)) db))
  end.

(** ** [updateProfile] *)

Definition set_display (name : option string) (u : Account) : Account :=
  {| ac_id := ac_id u; ac_walletAddress := ac_walletAddress u; ac_walletHash := ac_walletHash u;
     ac_role := ac_role u; ac_status := ac_status u; ac_displayName := name; ac_lastLoginAt := ac_lastLoginAt u |}.

(** [displayName]: absent, cleared or set. *)
Definition updateProfile (userId : string) (displayName : option (option string)) (db : AuthDb)
    : result AuthError AuthDb :=
  match find_user userId (db_users db) with
  | None => Err UserNotFound
  | Some _ =>
      Ok match displayName with
         | None => db
         | Some name => set_users (update_where (user_id userId) (set_display name) (db_users db)) db
         end
  end.
