(* ===== verification/Sessions.v ===== *)
(** * Sessions

    Model of [src/auth/session.service.ts], of the device labels of
    [src/auth/session-device-metadata.ts] and of the guard
    [src/common/guards/auth.guard.ts].  Operations that read before they write
    are split there; the random bytes of a token are arguments, and the digest is
    a parameter. *)

From S2P Require Import Prelude JsData Schema Encoding ProofStore Issuance Accounts.
From Stdlib Require Import Ascii.

Local Open Scope string_scope.
Local Open Scope Z_scope.

(** ** Device labels *)

Definition SESSION_DEVICE_LABEL_MAX_LENGTH : nat := 80.

Definition includes (pat s : string) : bool :=
  match String.index 0 pat s with Some _ => true | None => false end.
(** [/pat/i.test(s)] for a pattern in lower case. *)
Definition mentions (pat s : string) : bool := includes pat (lower s).

(** [s.replace(/c/g, by)] *)
Fixpoint replace_all (c : ascii) (by_ s : string) : string :=
  match s with
  | EmptyString => EmptyString
  | String d s => if Ascii.eqb c d then String.append by_ (replace_all c by_ s) else String d (replace_all c by_ s)
  end.

Definition quote : ascii := "034".
Definition apostrophe : ascii := "039".

Definition escape_chars (value : string) : string :=
  replace_all apostrophe "&#39;" (replace_all quote "&quot;" (replace_all ">" "&gt;"
    (replace_all "<" "&lt;" (replace_all "&" "&amp;" (trim value))))).

Definition escapeLabel (value : string) : string :=
  String.substring 0 SESSION_DEVICE_LABEL_MAX_LENGTH (escape_chars value).

(** A header: absent, one value, or several. *)
Inductive Header := HNone | HOne (s : string) | HMany (l : list string).

Definition boundedHeader (value : Header) : string :=
  let single := match value with HNone => None | HOne s => Some s | HMany l => head l end in
  match single with
  | Some s => if (String.length s <=? 512)%nat then s else EmptyString
  | None => EmptyString
  end.

Definition identifyBrowser (userAgent : string) : string :=
  if mentions "edg/" userAgent then "Edge"
  else if mentions "firefox/" userAgent then "Firefox"
  else if mentions "chrome/" userAgent || mentions "crios/" userAgent then "Chrome"
  else if mentions "safari/" userAgent && negb (mentions "chrome" userAgent || mentions "crios" userAgent)
  then "Safari"
  else if mentions "electron/" userAgent then "Electron"
  else "Browser".

Definition identifyPlatform (platformHeader userAgent : string) : string :=
  let value := String.append platformHeader (String.append " " userAgent) in
  if mentions "android" value then "Android"
  else if mentions "iphone" value || mentions "ipad" value || mentions "ios" value then "iOS"
  else if mentions "macintosh" value || mentions "mac os" value || mentions "macos" value then "macOS"
  else if mentions "windows" value then "Windows"
  else if mentions "linux" value then "Linux"
  else "Unknown platform".

Record SessionDeviceHeaders := { h_userAgent : Header; h_platform : Header; h_mobile : Header }.

Definition deriveDeviceLabel (headers : option SessionDeviceHeaders) : string :=
  let get f := boundedHeader (match headers with Some h => f h | None => HNone end) in
  let userAgent := get h_userAgent in
  let browser := identifyBrowser userAgent in
  let platform := identifyPlatform (get h_platform) userAgent in
  let formFactor := if String.eqb (get h_mobile) "?1" || mentions "mobile" userAgent then "Mobile" else "Desktop" in
  let label := String.concat " / "
    (List.filter (fun s => negb (String.eqb s EmptyString)) [browser; platform; formFactor]) in
  escapeLabel (if String.eqb label EmptyString then "Unknown device" else label).

(** ** Tokens *)

Definition DEFAULT_TTL_SECONDS : Z := 60 * 60 * 12.

Definition id_char (c : ascii) : bool :=
  let v := byte_val c in
  (65 <=? v) && (v <=? 90) || (97 <=? v) && (v <=? 122) || (48 <=? v) && (v <=? 57) || (v =? 95) || (v =? 45).
Definition hex_char (c : ascii) : bool :=
  let v := byte_val c in (97 <=? v) && (v <=? 102) || (48 <=? v) && (v <=? 57).

(** [/^[A-Za-z0-9_-]{16}\.[a-f0-9]{64}$/] *)
Definition token_wellformed (token : string) : bool :=
  (String.length token =? 81)%nat && all_chars id_char (String.substring 0 16 token) &&
  String.eqb (String.substring 16 1 token) "." && all_chars hex_char (String.substring 17 64 token).

Section service.
Context (sha256 : string -> string).

Definition hashToken (token : string) : option string :=
  if token_wellformed token then Some (sha256 token) else None.

(** The token and its hash, from the random id and secret. *)
Definition generateToken (sessionId secret : string) : string * string :=
  let token := String.append sessionId (String.append "." secret) in (token, sha256 token).

(** ** Creating and validating *)

Definition insert_session (x : AuthSession) (ss : list AuthSession) : result AuthError (list AuthSession) :=
  _ ← throw_if (bool_decide (as_id x ∈ (fun x => as_id x) <$> ss)
                || bool_decide (as_tokenHash x ∈ (fun x => as_tokenHash x) <$> ss)) (AuthP P2002);
  Ok (ss ++ [x])%list.

Definition new_session (userId walletHash sessionId secret label : string) (ttlSeconds now : Z) : AuthSession :=
  {| as_core := {| ss_id := sessionId; ss_tokenHash := (generateToken sessionId secret).2; ss_userId := userId;
                   ss_walletHash := Some walletHash; ss_createdAt := now;
                   ss_expiresAt := now + ttlSeconds * 1000; ss_firstSeenAt := now; ss_deviceFingerprint := None |};
     as_lastUsedAt := None; as_revokedAt := None; as_deviceLabel := Some label; as_lastSeenAt := now;
     as_revocationReason := None; as_rotatedToId := None |}.

Definition create_session (userId walletHash sessionId secret : string) (ttlSeconds now : Z)
    (headers : option SessionDeviceHeaders) (ss : list AuthSession) : result AuthError (list AuthSession) :=
  insert_session (new_session userId walletHash sessionId secret (deriveDeviceLabel headers) ttlSeconds now) ss.

Definition findSessionByHash (tokenHash : string) (ss : list AuthSession) : option AuthSession :=
  find_where (fun x => String.eqb (as_tokenHash x) tokenHash) ss.

Definition validate (token : string) (now : Z) (ss : list AuthSession) : result AuthError AuthSession :=
  match hashToken token with
  | None => Err MalformedToken
  | Some tokenHash =>
      match findSessionByHash tokenHash ss with
      | None => Err SessionNotFound
      | Some session =>
          _ ← throw_if (negb (bool_decide (as_revokedAt session = None))) SessionRevoked;
          _ ← throw_if (as_expiresAt session <=? now) SessionExpired;
          Ok session
      end
  end.

(** The update [validate] fires and does not wait for. *)
Definition touch_session (now : Z) (x : AuthSession) : AuthSession :=
  {| as_core := as_core x; as_lastUsedAt := Some now; as_revokedAt := as_revokedAt x;
     as_deviceLabel := as_deviceLabel x; as_lastSeenAt := now;
     as_revocationReason := as_revocationReason x; as_rotatedToId := as_rotatedToId x |}.
Definition session_id (id : string) (x : AuthSession) : bool := String.eqb (as_id x) id.
Definition touch (id : string) (now : Z) (ss : list AuthSession) : list AuthSession :=
  update_where (session_id id) (touch_session now) ss.

Definition tryIdentify (token : string) (now : Z) (ss : list AuthSession) : option (string * string) :=
  match hashToken token with
  | None => None
  | Some tokenHash =>
      match findSessionByHash tokenHash ss with
      | None => None
      | Some session =>
          if negb (bool_decide (as_revokedAt session = None)) then None
          else if as_expiresAt session <=? now then None
          else Some (as_id session, as_userId session)
      end
  end.

(** ** The guard *)

Record AuthenticatedSession := {
  ats_sessionId : string;
  ats_id : string;
  ats_walletAddress : string;
  ats_walletHash : string;
  ats_role : UserRole.t;
}.

(** The first half: the header and the session. *)
Definition guard_session (header : option string) (now : Z) (ss : list AuthSession) : result AuthError AuthSession :=
  match header with
  | None => Err MissingBearer
  | Some header =>
      _ ← throw_if (negb (String.prefix "Bearer " header)) MissingBearer;
      validate (String.substring 7 (String.length header - 7) header) now ss
  end.

(** The second half: the account, read afterwards. *)
Definition guard_account (session : AuthSession) (us : list Account) : result AuthError AuthenticatedSession :=
  match find_user (as_userId session) us with
  | None => Err UserNotFound
  | Some user =>
      _ ← throw_if (negb (canAuthenticate (ac_status user))) AccountInactive;
      _ ← throw_if (match as_walletHash session with
                    | None | Some EmptyString => false
                    | Some h => negb (String.eqb h (ac_walletHash user))
                    end) SessionStale;
      Ok {| ats_sessionId := as_id session; ats_id := ac_id user; ats_walletAddress := ac_walletAddress user;
            ats_walletHash := ac_walletHash user; ats_role := ac_role user |}
  end.

Definition canActivate (header : option string) (now : Z) (db : AuthDb) : result AuthError AuthenticatedSession :=
  session ← guard_session header now (db_sessions db); guard_account session (db_users db).

(** ** Revoking *)

Definition revoke (sessionId : string) (now : Z) (ss : list AuthSession) : list AuthSession :=
  update_where (fun x => session_id sessionId x && unrevoked x) (revoke_session now) ss.

Definition revokeAll (userId : string) (now : Z) (ss : list AuthSession) : list AuthSession :=
  (revoke_user_sessions userId now ss).1.

Definition find_session (id : string) (ss : list AuthSession) : option AuthSession := find_where (session_id id) ss.

Definition revoke_because (reason : string) (now : Z) (x : AuthSession) : AuthSession :=
  {| as_core := as_core x; as_lastUsedAt := as_lastUsedAt x; as_revokedAt := Some now;
     as_deviceLabel := as_deviceLabel x; as_lastSeenAt := as_lastSeenAt x;
     as_revocationReason := Some reason; as_rotatedToId := as_rotatedToId x |}.

Definition reason_or_default (reason : option string) : string :=
  match reason with None | Some EmptyString => "REMOTE_REVOCATION" | Some r => r end.

(** The checks of [revokeOtherSession], and its update, which is not conditional. *)
Definition other_read (sessionId userId : string) (ss : list AuthSession) : result AuthError unit :=
  match find_session sessionId ss with
  | None => Err SessionNotFound
  | Some session =>
      _ ← throw_if (negb (String.eqb (as_userId session) userId)) SessionNotYours;
      throw_if (negb (bool_decide (as_revokedAt session = None))) SessionRevoked
  end.
Definition other_write (sessionId : string) (reason : option string) (now : Z) (ss : list AuthSession)
    : result AuthError (list AuthSession) :=
  match find_session sessionId ss with
  | None => Err (AuthP P2025)
  | Some _ => Ok (update_where (session_id sessionId) (revoke_because (reason_or_default reason) now) ss)
  end.

(** [revokeAllOtherSessions]: the checks on the current session are those of
    [other_read]; then the update with its count. *)
Definition others_write (userId currentSessionId : string) (reason : option string) (now : Z)
    (ss : list AuthSession) : list AuthSession * nat :=
  let w x := String.eqb (as_userId x) userId && negb (session_id currentSessionId x) && unrevoked x in
  (update_where w (revoke_because (reason_or_default reason) now) ss, count_where w ss).

(** ** Rotating *)

(** What a rotation carries from its checks to its writes. *)
Record PendingRotation := {
  pn_sessionId : string;
  pn_userId : string;
  pn_new : AuthSession;
}.

Definition rotate_read (sessionId : string) (user : AuthenticatedSession) (newSessionId secret : string)
    (ttlSeconds now : Z) (headers : option SessionDeviceHeaders) (ss : list AuthSession)
    : result AuthError PendingRotation :=
  match find_session sessionId ss with
  | None => Err SessionNotFound
  | Some existing =>
      _ ← throw_if (negb (String.eqb (as_userId existing) (ats_id user))) SessionNotFound;
      _ ← throw_if (negb (bool_decide (as_revokedAt existing = None))) SessionRevoked;
      _ ← throw_if (as_expiresAt existing <=? now) SessionExpired;
      Ok {| pn_sessionId := sessionId; pn_userId := ats_id user;
            pn_new := new_session (ats_id user) (ats_walletHash user) newSessionId secret
              (deriveDeviceLabel headers) ttlSeconds now |}
  end.

Definition rotate_out (newId : string) (now : Z) (x : AuthSession) : AuthSession :=
  {| as_core := as_core x; as_lastUsedAt := as_lastUsedAt x; as_revokedAt := Some now;
     as_deviceLabel := as_deviceLabel x; as_lastSeenAt := as_lastSeenAt x;
     as_revocationReason := as_revocationReason x; as_rotatedToId := Some newId |}.

(** The insert, then the conditional update; anything but one row rolls back. *)
Definition rotate_write (q : PendingRotation) (now : Z) (ss : list AuthSession)
    : result AuthError (list AuthSession) :=
  ss ← insert_session (pn_new q) ss;
  let w x := session_id (pn_sessionId q) x && String.eqb (as_userId x) (pn_userId q) && unrevoked x in
  _ ← throw_if (negb (count_where w ss =? 1)%nat) SessionRevoked;
  Ok (update_where w (rotate_out (as_id (pn_new q)) now) ss).

(** ** Listing, renaming, deleting *)

Record SessionView := {
  sv_id : string; sv_deviceLabel : option string; sv_firstSeenAt : Z; sv_lastSeenAt : Z;
  sv_expiresAt : Z; sv_revokedAt : option Z;
}.
Definition session_view (x : AuthSession) : SessionView :=
  {| sv_id := as_id x; sv_deviceLabel := as_deviceLabel x; sv_firstSeenAt := ss_firstSeenAt (as_core x);
     sv_lastSeenAt := as_lastSeenAt x; sv_expiresAt := as_expiresAt x; sv_revokedAt := as_revokedAt x |}.

Definition last_seen_desc (x y : AuthSession) : bool :=
  (as_lastSeenAt y <? as_lastSeenAt x) || (as_lastSeenAt y =? as_lastSeenAt x) && str_le (as_id x) (as_id y).

Definition listForUser (userId : string) (ss : list AuthSession) : list SessionView :=
  session_view <$> js_sort last_seen_desc (List.filter (fun x => String.eqb (as_userId x) userId) ss).

Record ActiveSession := {
  act_id : string; act_deviceFingerprint : option string; act_createdAt : Z; act_expiresAt : Z;
  act_lastUsedAt : option Z;
}.
Definition session_created_desc (x y : AuthSession) : bool :=
  ss_createdAt (as_core y) <=? ss_createdAt (as_core x).
Definition getSessions (userId : string) (ss : list AuthSession) : list ActiveSession :=
  (fun x => {| act_id := as_id x; act_deviceFingerprint := ss_deviceFingerprint (as_core x);
               act_createdAt := ss_createdAt (as_core x); act_expiresAt := as_expiresAt x;
               act_lastUsedAt := as_lastUsedAt x |}) <$>
  js_sort session_created_desc (List.filter (fun x => String.eqb (as_userId x) userId && unrevoked x) ss).

Definition relabel (label : string) (x : AuthSession) : AuthSession :=
  {| as_core := as_core x; as_lastUsedAt := as_lastUsedAt x; as_revokedAt := as_revokedAt x;
     as_deviceLabel := Some label; as_lastSeenAt := as_lastSeenAt x;
     as_revocationReason := as_revocationReason x; as_rotatedToId := as_rotatedToId x |}.

Definition renameForUser (userId sessionId label : string) (ss : list AuthSession)
    : result AuthError (list AuthSession) :=
  let w x := session_id sessionId x && String.eqb (as_userId x) userId in
  _ ← throw_if (negb (count_where w ss =? 1)%nat) SessionNotYours;
  Ok (update_where w (relabel (escapeLabel label)) ss).

(** Deleting a row clears the links to it ([ON DELETE SET NULL]). *)
Definition unlink (gone : list string) (x : AuthSession) : AuthSession :=
  {| as_core := as_core x; as_lastUsedAt := as_lastUsedAt x; as_revokedAt := as_revokedAt x;
     as_deviceLabel := as_deviceLabel x; as_lastSeenAt := as_lastSeenAt x;
     as_revocationReason := as_revocationReason x;
     as_rotatedToId := match as_rotatedToId x with
                       | Some id => if bool_decide (id ∈ gone) then None else Some id
                       | None => None
                       end |}.

Definition deleteExpired (olderThan : Z) (ss : list AuthSession) : list AuthSession * nat :=
  let expired x := as_expiresAt x <? olderThan in
  let gone := (fun x => as_id x) <$> List.filter expired ss in
  (unlink gone <$> List.filter (fun x => negb (expired x)) ss, count_where expired ss).
End service.
