(* ===== verification/WalletAuth.v ===== *)
(** * Wallet sign-in and wallet rotation

    Model of [src/auth/auth.service.ts], [src/auth/auth-audit.service.ts],
    [src/auth/auth-rate-limiter.service.ts], [src/auth/originNormalizer.ts] and
    [src/auth/wallet-rotation.service.ts].  None of the two protocols runs in one
    transaction: each statement or transaction is a definition of its own.  The
    digest, the URL parser, the check of a public key and the verification of a
    signature are parameters. *)

From S2P Require Import Prelude JsData Encoding Schema IsoDate Canonical AuditChain ProofStore Issuance Accounts Sessions.
From Stdlib Require Import Ascii.

Local Open Scope string_scope.
Local Open Scope Z_scope.

(** ** Origins *)

Record Url := { u_protocol : string; u_username : string; u_password : string; u_hostname : string; u_port : string }.

Inductive OriginRejectionReason :=
| OriginOpaque | OriginWildcard | OriginCredentialBearing | OriginUnsupportedScheme | OriginMalformed | OriginEmpty.

Definition empty (s : string) : bool := String.eqb s EmptyString.

Section auth.
Context (sha256 : string -> string) (parse_url : string -> option Url).
Context (isValidWalletAddress : string -> bool).
Context (verifyWalletSignature : string -> string -> string -> bool).
Context (appUrl networkPassphrase : string).

Definition normalizeOrigin (rawOrigin : string) : result OriginRejectionReason string :=
  _ ← throw_if (empty rawOrigin || empty (trim rawOrigin)) OriginEmpty;
  _ ← throw_if (String.eqb rawOrigin "null") OriginOpaque;
  _ ← throw_if (String.eqb rawOrigin "*") OriginWildcard;
  match parse_url rawOrigin with
  | None => Err OriginMalformed
  | Some parsed =>
      _ ← throw_if (negb (empty (u_username parsed)) || negb (empty (u_password parsed))) OriginCredentialBearing;
      let isHttpsScheme := String.eqb (u_protocol parsed) "https:" in
      let isLocalhostHttp := String.eqb (u_protocol parsed) "http:" &&
        (String.eqb (u_hostname parsed) "localhost" || String.eqb (u_hostname parsed) "127.0.0.1") in
      _ ← throw_if (negb isHttpsScheme && negb isLocalhostHttp) OriginUnsupportedScheme;
      let port := if empty (u_port parsed) then EmptyString else String.append ":" (u_port parsed) in
      Ok (String.append (u_protocol parsed) (String.append "//" (String.append (lower (u_hostname parsed)) port)))
  end.

(** [normalizeOrigin(requestOrigin || this.appUrl)] *)
Definition resolveOrigin (requestOrigin : option string) : result OriginRejectionReason string :=
  normalizeOrigin (match requestOrigin with None | Some EmptyString => appUrl | Some o => o end).

Definition walletHash (walletAddress : string) : string := String.append "sha256:" (sha256 walletAddress).

(** ** Events and rate limits *)

(** What a call of [recordEvent] passes beside type and wallet. *)
Definition auth_event (t : AuthEventType.t) (wallet : string) (challengeId : option string) (success : bool)
    (failureReason clientMetadata : option string) (now : Z) : AuthAuditEvent :=
  {| ev_eventType := t; ev_walletHash := walletHash wallet;
     ev_clientMetadataHash := match clientMetadata with None | Some EmptyString => None | Some m => Some (walletHash m) end;
     ev_challengeId := challengeId; ev_success := success; ev_failureReason := failureReason; ev_createdAt := now |}.

Definition recordEvent (e : AuthAuditEvent) (db : AuthDb) : AuthDb := set_events (db_events db ++ [e])%list db.

Definition getEventCount (wallet : string) (t : AuthEventType.t) (windowMs now : Z) (es : list AuthAuditEvent) : Z :=
  Z.of_nat (count_where (fun e => String.eqb (ev_walletHash e) (walletHash wallet) &&
    bool_decide (ev_eventType e = t) && (now - windowMs <=? ev_createdAt e)) es).
Definition getClientEventCount (clientMetadata : string) (t : AuthEventType.t) (windowMs now : Z)
    (es : list AuthAuditEvent) : Z :=
  Z.of_nat (count_where (fun e => bool_decide (ev_clientMetadataHash e = Some (walletHash clientMetadata)) &&
    bool_decide (ev_eventType e = t) && (now - windowMs <=? ev_createdAt e)) es).

Definition cleanupOldEvents (retentionDays now : Z) (es : list AuthAuditEvent) : list AuthAuditEvent :=
  List.filter (fun e => negb (ev_createdAt e <? now - retentionDays * 24 * 60 * 60 * 1000)) es.

Record RateLimitConfig := {
  maxChallengeCreations : Z;
  challengeCreationWindowMs : Z;
  maxVerifications : Z;
  verificationWindowMs : Z;
}.
Definition default_limits : RateLimitConfig :=
  {| maxChallengeCreations := 10; challengeCreationWindowMs := 15 * 60 * 1000;
     maxVerifications := 5; verificationWindowMs := 15 * 60 * 1000 |}.

(** Both checks: the events counted differ, and the message recorded. *)
Definition check_limit (t : AuthEventType.t) (limit windowMs : Z) (what clientWhat wallet : string)
    (clientMetadata : option string) (now : Z) (db : AuthDb) : AuthDb * result AuthError unit :=
  let limited reason :=
    (recordEvent (auth_event AuthEventType.RATE_LIMITED wallet None false (Some reason) clientMetadata now) db,
     Err RateLimited) in
  if limit <=? getEventCount wallet t windowMs now (db_events db) then limited what
  else match clientMetadata with
       | None | Some EmptyString => (db, Ok tt)
       | Some m =>
           if limit <=? getClientEventCount m t windowMs now (db_events db) then limited clientWhat else (db, Ok tt)
       end.

Definition checkChallengeCreationLimit (cfg : RateLimitConfig) :=
  check_limit AuthEventType.CHALLENGE_CREATED (maxChallengeCreations cfg) (challengeCreationWindowMs cfg)
    "Challenge creation rate limit exceeded" "Client challenge creation rate limit exceeded".
Definition checkVerificationLimit (cfg : RateLimitConfig) :=
  check_limit AuthEventType.CHALLENGE_VERIFIED (maxVerifications cfg) (verificationWindowMs cfg)
    "Verification rate limit exceeded" "Client verification rate limit exceeded".

(** ** Challenges *)

Definition newline : string := String "010" EmptyString.

Definition login_message (wallet nonce : string) (expiresAt : Z) : string :=
  String.concat newline ["EarnProof wallet authentication"; String.append "Domain: " appUrl;
    String.append "Network: " networkPassphrase; String.append "Wallet: " wallet;
    String.append "Nonce: " nonce; String.append "Expires At: " (iso_text expiresAt)].

(** [createChallenge] before its insert. *)
Definition challenge_begin (cfg : RateLimitConfig) (wallet : string) (clientMetadata requestOrigin : option string)
    (now : Z) (db : AuthDb) : AuthDb * result AuthError string :=
  if negb (isValidWalletAddress wallet) then (db, Err InvalidPublicKey)
  else match checkChallengeCreationLimit cfg wallet clientMetadata now db with
       | (db, Err e) => (db, Err e)
       | (db, Ok _) =>
           (db, match resolveOrigin requestOrigin with Err _ => Err InvalidOrigin | Ok o => Ok o end)
       end.

Definition CHALLENGE_TTL_MS : Z := 5 * 60 * 1000.

Definition new_challenge (id wallet nonce origin : string) (now : Z) : WalletChallenge :=
  {| wc_id := id; wc_walletAddress := wallet; wc_nonceHash := sha256 nonce;
     wc_message := login_message wallet nonce (now + CHALLENGE_TTL_MS); wc_expiresAt := now + CHALLENGE_TTL_MS;
     wc_usedAt := None; wc_networkPassphrase := Some networkPassphrase; wc_origin := Some origin |}.

Definition challenge_create (id wallet nonce origin : string) (clientMetadata : option string) (now : Z)
    (db : AuthDb) : result AuthError AuthDb :=
  _ ← throw_if (bool_decide (id ∈ wc_id <$> db_challenges db)
                || bool_decide (sha256 nonce ∈ wc_nonceHash <$> db_challenges db)) (AuthP P2002);
  Ok (recordEvent (auth_event AuthEventType.CHALLENGE_CREATED wallet (Some id) true None clientMetadata now)
        (set_challenges (db_challenges db ++ [new_challenge id wallet nonce origin now])%list db)).

(** ** Signing in *)

Record LoginInput := {
  li_challengeId : string;
  li_walletAddress : string;
  li_signature : string;
  li_clientMetadata : option string;
  li_requestOrigin : option string;
  li_headers : option SessionDeviceHeaders;
}.

(** An event of this attempt. *)
Definition attempt (t : AuthEventType.t) (i : LoginInput) (reason : option string) (now : Z) : AuthAuditEvent :=
  auth_event t (li_walletAddress i) (Some (li_challengeId i)) (bool_decide (reason = None)) reason (li_clientMetadata i) now.

(** Before the challenge is touched. *)
Definition login_begin (cfg : RateLimitConfig) (i : LoginInput) (now : Z) (db : AuthDb)
    : AuthDb * result AuthError unit :=
  if negb (isValidWalletAddress (li_walletAddress i)) then (db, Err InvalidPublicKey)
  else checkVerificationLimit cfg (li_walletAddress i) (li_clientMetadata i) now db.

Definition offered (i : LoginInput) (c : WalletChallenge) : bool :=
  String.eqb (wc_id c) (li_challengeId i) && String.eqb (wc_walletAddress c) (li_walletAddress i).
Definition set_used (now : Z) (c : WalletChallenge) : WalletChallenge :=
  {| wc_id := wc_id c; wc_walletAddress := wc_walletAddress c; wc_nonceHash := wc_nonceHash c;
     wc_message := wc_message c; wc_expiresAt := wc_expiresAt c; wc_usedAt := Some now;
     wc_networkPassphrase := wc_networkPassphrase c; wc_origin := wc_origin c |}.
Definition open_challenge (i : LoginInput) (now : Z) (c : WalletChallenge) : bool :=
  offered i c && bool_decide (wc_usedAt c = None) && (now <? wc_expiresAt c).

(** The conditional update, and the event when it matched nothing. *)
Definition login_consume (i : LoginInput) (now : Z) (db : AuthDb) : AuthDb * result AuthError unit :=
  let w := open_challenge i now in
  if (count_where w (db_challenges db) =? 0)%nat then
    let e := match find_where (fun c => offered i c && negb (bool_decide (wc_usedAt c = None))) (db_challenges db) with
             | Some _ => attempt AuthEventType.CHALLENGE_REPLAYED i (Some "Challenge already used") now
             | None => attempt AuthEventType.CHALLENGE_EXPIRED i (Some "Challenge expired or not found") now
             end in
    (recordEvent e db, Err ChallengeUnavailable)
  else (set_challenges (update_where w (set_used now) (db_challenges db)) db, Ok tt).

(** The challenge read again and every check up to the signature. *)
Definition login_check (i : LoginInput) (now : Z) (db : AuthDb) : AuthDb * result AuthError WalletChallenge :=
  match find_where (fun c => String.eqb (wc_id c) (li_challengeId i)) (db_challenges db) with
  | None => (db, Err ChallengeUnavailable)
  | Some c =>
      match wc_networkPassphrase c, wc_origin c with
      | None, _ | Some EmptyString, _ | _, None | _, Some EmptyString => (db, Err ChallengeUnbound)
      | Some network, Some origin =>
          if negb (String.eqb network networkPassphrase) then (db, Err ChallengeNetwork)
          else match resolveOrigin (li_requestOrigin i) with
               | Err _ => (db, Err InvalidOrigin)
               | Ok requested =>
                   if negb (String.eqb origin requested) then (db, Err ChallengeOrigin)
                   else if negb (verifyWalletSignature (li_walletAddress i) (wc_message c) (li_signature i)) then
                     (recordEvent (attempt AuthEventType.SIGNATURE_INVALID i (Some "Invalid signature") now) db,
                      Err InvalidSignature)
                   else (db, Ok c)
               end
      end
  end.

(** The status of an account that already exists. *)
Definition login_account (i : LoginInput) (now : Z) (db : AuthDb) : AuthDb * result AuthError unit :=
  match find_where (user_wallet (li_walletAddress i)) (db_users db) with
  | Some u =>
      if canAuthenticate (ac_status u) then (db, Ok tt)
      else (recordEvent (attempt AuthEventType.ACCOUNT_INACTIVE i (Some "Account is not active") now) db,
            Err AccountInactive)
  | None => (db, Ok tt)
  end.

Definition logged_in (h : string) (now : Z) (u : Account) : Account :=
  {| ac_id := ac_id u; ac_walletAddress := ac_walletAddress u; ac_walletHash := h; ac_role := ac_role u;
     ac_status := ac_status u; ac_displayName := ac_displayName u; ac_lastLoginAt := Some now |}.
Definition new_account (id wallet h : string) (now : Z) : Account :=
  {| ac_id := id; ac_walletAddress := wallet; ac_walletHash := h; ac_role := UserRole.WORKER;
     ac_status := ResourceStatus.ACTIVE; ac_displayName := None; ac_lastLoginAt := Some now |}.

(** The upsert, under the unique columns of the table: the account it returns. *)
Definition login_upsert (i : LoginInput) (newId : string) (now : Z) (db : AuthDb) : result AuthError (AuthDb * Account) :=
  let wallet := li_walletAddress i in
  let h := walletHash wallet in
  let others := (fun u => ac_walletHash u) <$> List.filter (fun u => negb (user_wallet wallet u)) (db_users db) in
  _ ← throw_if (bool_decide (h ∈ others)) (AuthP P2002);
  match find_where (user_wallet wallet) (db_users db) with
  | Some u => Ok (set_users (update_where (user_wallet wallet) (logged_in h now) (db_users db)) db, logged_in h now u)
  | None =>
      _ ← throw_if (bool_decide (newId ∈ ac_id <$> db_users db)) (AuthP P2002);
      Ok (set_users (db_users db ++ [new_account newId wallet h now])%list db, new_account newId wallet h now)
  end.

(** The session and the closing event. *)
Definition login_session (i : LoginInput) (u : Account) (sessionId secret : string) (now : Z) (db : AuthDb)
    : result AuthError AuthDb :=
  ss ← create_session sha256 (ac_id u) (ac_walletHash u) sessionId secret DEFAULT_TTL_SECONDS now (li_headers i)
         (db_sessions db);
  Ok (recordEvent (attempt AuthEventType.CHALLENGE_VERIFIED i None now) (set_sessions ss db)).

(** ** Wallet rotation *)

Definition WALLET_ROTATION_TTL_MS : Z := 5 * 60 * 1000.

Inductive Signer := SignerCurrent | SignerReplacement.

Record Binding := {
  bi_rotationId : string;
  bi_nonce : string;
  bi_origin : string;
  bi_userId : string;
  bi_currentWalletAddress : string;
  bi_newWalletAddress : string;
  bi_expiresAt : Z;
}.

Definition buildMessage (b : Binding) (signer : Signer) : string :=
  String.concat newline ["EarnProof wallet rotation";
    String.append "Signer: " (match signer with SignerCurrent => "current wallet" | SignerReplacement => "replacement wallet" end);
    String.append "Domain: " appUrl; String.append "Origin: " (bi_origin b);
    String.append "Network: " networkPassphrase; String.append "Account: " (bi_userId b);
    String.append "Current Wallet: " (bi_currentWalletAddress b);
    String.append "Replacement Wallet: " (bi_newWalletAddress b);
    String.append "Rotation: " (bi_rotationId b); String.append "Nonce: " (bi_nonce b);
    String.append "Expires At: " (iso_text (bi_expiresAt b))].

Definition rotation_id (id : string) (r : WalletRotation) : bool := String.eqb (wr_id (wr_core r)) id.
Definition rotation_user (userId : string) (r : WalletRotation) : bool := String.eqb (wr_userId (wr_core r)) userId.
Definition rotation_pending (r : WalletRotation) : bool := bool_decide (wr_status r = WalletRotationStatus.PENDING).

Definition close_rotation (st : WalletRotationStatus.t) (reason : WalletRotationFailure) (r : WalletRotation)
    : WalletRotation :=
  {| wr_core := wr_core r; wr_status := st; wr_failureReason := Some reason;
     wr_consumedAt := wr_consumedAt r; wr_completedAt := wr_completedAt r |}.

(** [initiate]: one transaction of writes. *)
Definition initiate (user : AuthenticatedSession) (newWallet : string) (requestOrigin : option string)
    (rotationId nonce : string) (now : Z) (db : AuthDb) : result AuthError (AuthDb * RotationCore) :=
  _ ← throw_if (negb (isValidWalletAddress newWallet)) InvalidPublicKey;
  _ ← throw_if (String.eqb newWallet (ats_walletAddress user)) SameWallet;
  match resolveOrigin requestOrigin with
  | Err _ => Err InvalidOrigin
  | Ok origin =>
      let b := {| bi_rotationId := rotationId; bi_nonce := nonce; bi_origin := origin; bi_userId := ats_id user;
                  bi_currentWalletAddress := ats_walletAddress user; bi_newWalletAddress := newWallet;
                  bi_expiresAt := now + WALLET_ROTATION_TTL_MS |} in
      let c := {| wr_id := rotationId; wr_userId := ats_id user; wr_currentWalletAddress := ats_walletAddress user;
                  wr_newWalletAddress := newWallet; wr_nonceHash := sha256 nonce;
                  wr_currentMessage := buildMessage b SignerCurrent; wr_newMessage := buildMessage b SignerReplacement;
                  wr_networkPassphrase := networkPassphrase; wr_origin := origin;
                  wr_expiresAt := now + WALLET_ROTATION_TTL_MS |} in
      let rs := update_where (fun r => rotation_user (ats_id user) r && rotation_pending r)
                  (close_rotation WalletRotationStatus.CANCELLED SUPERSEDED) (db_rotations db) in
      _ ← throw_if (bool_decide (rotationId ∈ (fun r => wr_id (wr_core r)) <$> rs)
                    || bool_decide (sha256 nonce ∈ (fun r => wr_nonceHash (wr_core r)) <$> rs)) (AuthP P2002);
      Ok (set_rotations (rs ++ [{| wr_core := c; wr_status := WalletRotationStatus.PENDING; wr_failureReason := None;
                                   wr_consumedAt := None; wr_completedAt := None |}])%list db, c)
  end.

Definition consume_rotation (now : Z) (r : WalletRotation) : WalletRotation :=
  {| wr_core := wr_core r; wr_status := wr_status r; wr_failureReason := wr_failureReason r;
     wr_consumedAt := Some now; wr_completedAt := wr_completedAt r |}.
Definition consumable_rotation (userId rotationId : string) (now : Z) (r : WalletRotation) : bool :=
  rotation_id rotationId r && rotation_user userId r && rotation_pending r &&
  bool_decide (wr_consumedAt r = None) && (now <? wr_expiresAt (wr_core r)).

Definition rotation_consume (userId rotationId : string) (now : Z) (db : AuthDb) : result AuthError AuthDb :=
  let w := consumable_rotation userId rotationId now in
  _ ← throw_if (negb (count_where w (db_rotations db) =? 1)%nat) RotationUnavailable;
  Ok (set_rotations (update_where w (consume_rotation now) (db_rotations db)) db).

(** An error of [complete], with the code it leaves on the rotation. *)
Definition RotationError : Type := option WalletRotationFailure * AuthError.

(** The row read again and every check up to the transaction. *)
Definition rotation_check (user : AuthenticatedSession) (rotationId currentSignature newSignature : string)
    (requestOrigin : option string) (db : AuthDb) : result RotationError RotationCore :=
  match find_where (rotation_id rotationId) (db_rotations db) with
  | None => Err (None, RotationUnavailable)
  | Some r =>
      let c := wr_core r in
      _ ← throw_if (negb (String.eqb (wr_networkPassphrase c) networkPassphrase))
            (Some NETWORK_MISMATCH, RotationNetwork);
      match resolveOrigin requestOrigin with
      | Err _ => Err (Some ORIGIN_MISMATCH, InvalidOrigin)
      | Ok origin =>
          _ ← throw_if (negb (String.eqb (wr_origin c) origin)) (Some ORIGIN_MISMATCH, RotationOrigin);
          _ ← throw_if (negb (String.eqb (wr_currentWalletAddress c) (ats_walletAddress user)))
                (Some IDENTITY_CHANGED, RotationIdentity);
          _ ← throw_if (negb (verifyWalletSignature (wr_currentWalletAddress c) (wr_currentMessage c) currentSignature))
                (Some CURRENT_SIGNATURE_INVALID, InvalidCurrentSignature);
          _ ← throw_if (negb (verifyWalletSignature (wr_newWalletAddress c) (wr_newMessage c) newSignature))
                (Some REPLACEMENT_SIGNATURE_INVALID, InvalidNewSignature);
          Ok c
      end
  end.

(** The transaction's read. *)
Definition rotation_bound (c : RotationCore) (db : AuthDb) : result RotationError unit :=
  match find_where (user_wallet (wr_newWalletAddress c)) (db_users db) with
  | Some _ => Err (Some REPLACEMENT_UNAVAILABLE, ReplacementBound)
  | None => Ok tt
  end.

Definition rebind (wallet : string) (u : Account) : Account :=
  {| ac_id := ac_id u; ac_walletAddress := wallet; ac_walletHash := walletHash wallet; ac_role := ac_role u;
     ac_status := ac_status u; ac_displayName := ac_displayName u; ac_lastLoginAt := ac_lastLoginAt u |}.
Definition complete_rotation (now : Z) (r : WalletRotation) : WalletRotation :=
  {| wr_core := wr_core r; wr_status := WalletRotationStatus.COMPLETED; wr_failureReason := wr_failureReason r;
     wr_consumedAt := wr_consumedAt r; wr_completedAt := Some now |}.

Definition rotation_audit (userId : string) (c : RotationCore) (sessionsRevoked : nat) : AuditArgs :=
  user_audit "user.wallet_rotated" userId userId
    (JObj [("rotationId", JStr (wr_id c)); ("previousWalletHash", JStr (walletHash (wr_currentWalletAddress c)));
           ("newWalletHash", JStr (walletHash (wr_newWalletAddress c)));
           ("sessionsRevoked", JNum (Z.of_nat sessionsRevoked))]).

(** The transaction's writes.  [now] is the time [complete] started. *)
Definition rotation_write (userId : string) (c : RotationCore) (now : Z) (auditId : string) (db : AuthDb)
    : result RotationError (AuthDb * nat) :=
  let w u := user_id userId u && user_wallet (wr_currentWalletAddress c) u in
  let others := List.filter (fun u => negb (w u)) (db_users db) in
  _ ← throw_if (negb (count_where w (db_users db) =? 0)%nat &&
                (bool_decide (wr_newWalletAddress c ∈ ac_walletAddress <$> others)
                 || bool_decide (walletHash (wr_newWalletAddress c) ∈ ac_walletHash <$> others)))
        (Some REPLACEMENT_UNAVAILABLE, ReplacementBound);
  _ ← throw_if (negb (count_where w (db_users db) =? 1)%nat) (Some IDENTITY_CHANGED, RotationIdentity);
  let us := update_where w (rebind (wr_newWalletAddress c)) (db_users db) in
  let '(ss, sessionsRevoked) := revoke_user_sessions userId now (db_sessions db) in
  _ ← throw_if (count_where (rotation_id (wr_id c)) (db_rotations db) =? 0)%nat (None, AuthP P2025);
  let rs := update_where (rotation_id (wr_id c)) (complete_rotation now) (db_rotations db) in
  let rs := update_where (fun r => rotation_user userId r && rotation_pending r && negb (rotation_id (wr_id c) r))
              (close_rotation WalletRotationStatus.CANCELLED SUPERSEDED) rs in
  match create_audit auditId now (rotation_audit userId c sessionsRevoked) (db_store db) with
  | Err P2002 => Err (Some REPLACEMENT_UNAVAILABLE, ReplacementBound)
  | Err e => Err (None, AuthP e)
  | Ok s => Ok (set_store s (set_rotations rs (set_sessions ss (set_users us db))), sessionsRevoked)
  end.

(** [fail] *)
Definition rotation_fail (rotationId : string) (reason : WalletRotationFailure) (db : AuthDb) : AuthDb :=
  set_rotations (update_where (fun r => rotation_id rotationId r && rotation_pending r)
    (close_rotation WalletRotationStatus.FAILED reason) (db_rotations db)) db.

Definition cleanupWalletRotations (challengeRetentionDays now : Z) (db : AuthDb) : AuthDb :=
  set_rotations (List.filter (fun r => negb (wr_expiresAt (wr_core r) <? now - challengeRetentionDays * 24 * 60 * 60 * 1000))
    (db_rotations db)) db.
End auth.
