(* ===== verification/AuthSystem.v ===== *)
(** * Sign-in, sessions and account changes as one system

    Requests that sign in, act under a session, rotate it, revoke others, rotate a
    wallet or administer an account, each between two of its statements while
    others run.  Two kinds of bookkeeping have no counterpart in the code: the
    identifiers and token hashes generated so far, which random generation does
    not repeat, and the sign-ins that opened a session. *)

From S2P Require Import Prelude JsData Schema Canonical AuditChain ProofStore Issuance Accounts Sessions WalletAuth.

Local Open Scope string_scope.
Local Open Scope Z_scope.

(** Where a sign-in stands. *)
Inductive LoginPhase :=
| LConsume
| LCheck
| LAccount (c : WalletChallenge)
| LUpsert (c : WalletChallenge)
| LSession (c : WalletChallenge) (u : Account).

Inductive AuthFlight :=
| FLogin (i : LoginInput) (p : LoginPhase)
| FSeen (x : AuthSession)                        (* in the guard, between its reads *)
| FActs (a : AuthenticatedSession)               (* past the guard *)
| FRotate (q : PendingRotation)
| FOther (sessionId : string) (reason : option string)
| FOthers (userId current : string) (reason : option string)
| FStatus (q : PendingStatus)
| FRole (q : PendingRole)
| FCheck (user : AuthenticatedSession) (rotationId sig newSig : string) (origin : option string) (now : Z)
| FBound (userId : string) (c : RotationCore) (now : Z)
| FWrite (userId : string) (c : RotationCore) (now : Z)
| FFail (rotationId : string) (reason : WalletRotationFailure).

(** A sign-in that opened a session. *)
Record Opened := { op_input : LoginInput; op_challenge : WalletChallenge; op_session : SessionCore }.

Record AuthSys := {
  sy_db : AuthDb;
  sy_flights : list AuthFlight;
  sy_ids : list string;             (* session ids generated *)
  sy_hashes : list string;          (* token hashes generated *)
  sy_challenged : list string;      (* challenge ids generated *)
  sy_opened : list Opened;
}.

Section system.
Context (sha256 : string -> string) (parse_url : string -> option Url).
Context (isValidWalletAddress : string -> bool).
Context (verifyWalletSignature : string -> string -> string -> bool).
Context (appUrl networkPassphrase : string).

(** One request: from the tables and its place, to the tables and its next
    place, if it has one. *)
Inductive flight_step : AuthDb -> AuthFlight -> AuthDb -> list AuthFlight -> Prop :=
| fs_consume i now db db' :
    login_consume sha256 i now db = (db', Ok tt) -> flight_step db (FLogin i LConsume) db' [FLogin i LCheck]
| fs_check i now db db' c :
    login_check sha256 parse_url verifyWalletSignature appUrl networkPassphrase i now db = (db', Ok c) ->
    flight_step db (FLogin i LCheck) db' [FLogin i (LAccount c)]
| fs_account i c now db db' :
    login_account sha256 i now db = (db', Ok tt) -> flight_step db (FLogin i (LAccount c)) db' [FLogin i (LUpsert c)]
| fs_upsert i c newId now db db' u :
    login_upsert sha256 i newId now db = Ok (db', u) ->
    flight_step db (FLogin i (LUpsert c)) db' [FLogin i (LSession c u)]
| fs_consume_refused i now db db' e :
    login_consume sha256 i now db = (db', Err e) -> flight_step db (FLogin i LConsume) db' []
| fs_check_refused i now db db' e :
    login_check sha256 parse_url verifyWalletSignature appUrl networkPassphrase i now db = (db', Err e) ->
    flight_step db (FLogin i LCheck) db' []
| fs_account_refused i c now db db' e :
    login_account sha256 i now db = (db', Err e) -> flight_step db (FLogin i (LAccount c)) db' []
| fs_guard x db a : guard_account x (db_users db) = Ok a -> flight_step db (FSeen x) db [FActs a]
| fs_touch x now db :
    flight_step db (FSeen x) (set_sessions (touch (as_id x) now (db_sessions db)) db) [FSeen x]
| fs_rotate a newId secret ttl now headers db q :
    rotate_read sha256 (ats_sessionId a) a newId secret ttl now headers (db_sessions db) = Ok q ->
    flight_step db (FActs a) db [FRotate q]
| fs_logout a now db :
    flight_step db (FActs a) (set_sessions (revoke (ats_sessionId a) now (db_sessions db)) db) []
| fs_rename a sid label db ss :
    renameForUser (ats_id a) sid label (db_sessions db) = Ok ss -> flight_step db (FActs a) (set_sessions ss db) []
| fs_other_read a sid reason db :
    other_read sid (ats_id a) (db_sessions db) = Ok tt -> flight_step db (FActs a) db [FOther sid reason]
| fs_other_write sid reason now db ss :
    other_write sid reason now (db_sessions db) = Ok ss -> flight_step db (FOther sid reason) (set_sessions ss db) []
| fs_others_read a reason db :
    other_read (ats_sessionId a) (ats_id a) (db_sessions db) = Ok tt ->
    flight_step db (FActs a) db [FOthers (ats_id a) (ats_sessionId a) reason]
| fs_others_write uid cur reason now db :
    flight_step db (FOthers uid cur reason) (set_sessions (others_write uid cur reason now (db_sessions db)).1 db) []
| fs_profile a name db db' : updateProfile (ats_id a) name db = Ok db' -> flight_step db (FActs a) db' []
| fs_status_read a uid st reason db q :
    status_read (ats_id a) uid st reason db = Ok q -> flight_step db (FActs a) db [FStatus q]
| fs_status_write q now auditId db db' n :
    status_write q now auditId db = Ok (db', n) -> flight_step db (FStatus q) db' []
| fs_role_read a uid role os db q :
    role_read (ats_id a) uid role os db = Ok q -> flight_step db (FActs a) db [FRole q]
| fs_role_write q now auditId db db' :
    role_write q now auditId db = Ok db' -> flight_step db (FRole q) db' []
| fs_initiate a w origin rid nonce now db db' c :
    initiate sha256 parse_url isValidWalletAddress appUrl networkPassphrase a w origin rid nonce now db = Ok (db', c) ->
    flight_step db (FActs a) db' []
| fs_rotation_consume a rid sig newSig origin now db db' :
    rotation_consume (ats_id a) rid now db = Ok db' ->
    flight_step db (FActs a) db' [FCheck a rid sig newSig origin now]
| fs_rotation_check a rid sig newSig origin now db c :
    rotation_check parse_url verifyWalletSignature appUrl networkPassphrase a rid sig newSig origin db = Ok c ->
    flight_step db (FCheck a rid sig newSig origin now) db [FBound (ats_id a) c now]
| fs_rotation_refused a rid sig newSig origin now db reason e :
    rotation_check parse_url verifyWalletSignature appUrl networkPassphrase a rid sig newSig origin db
      = Err (Some reason, e) ->
    flight_step db (FCheck a rid sig newSig origin now) db [FFail rid reason]
| fs_bound uid c now db : rotation_bound c db = Ok tt -> flight_step db (FBound uid c now) db [FWrite uid c now]
| fs_bound_refused uid c now db reason e :
    rotation_bound c db = Err (Some reason, e) -> flight_step db (FBound uid c now) db [FFail (wr_id c) reason]
| fs_rotation_write uid c now auditId db db' n :
    rotation_write sha256 uid c now auditId db = Ok (db', n) -> flight_step db (FWrite uid c now) db' []
| fs_write_refused uid c now auditId db reason e :
    rotation_write sha256 uid c now auditId db = Err (Some reason, e) ->
    flight_step db (FWrite uid c now) db [FFail (wr_id c) reason]
| fs_fail rid reason db : flight_step db (FFail rid reason) (rotation_fail rid reason db) []
| fs_drop f db : flight_step db f db [].

(** What happens without a request in flight: requests arrive, challenges are
    created, rows are cleaned up, and the proof handlers write their tables. *)
Inductive outside_step : AuthDb -> AuthDb -> list AuthFlight -> Prop :=
| os_login cfg i now db db' :
    login_begin sha256 isValidWalletAddress cfg i now db = (db', Ok tt) -> outside_step db db' [FLogin i LConsume]
| os_request header now db x :
    guard_session sha256 header now (db_sessions db) = Ok x -> outside_step db db [FSeen x]
| os_expired olderThan db : outside_step db (set_sessions (deleteExpired olderThan (db_sessions db)).1 db) []
| os_challenges p db : outside_step db (set_challenges (List.filter p (db_challenges db)) db) []
| os_rotations days now db : outside_step db (cleanupWalletRotations days now db) []
| os_events es db : outside_step db (set_events es db) []
| os_store s db : outside_step db (set_store s db) [].

Inductive auth_step : AuthSys -> AuthSys -> Prop :=
| as_flight db fs1 f fs2 ids hs cs os db' fs' :
    flight_step db f db' fs' ->
    auth_step {| sy_db := db; sy_flights := fs1 ++ f :: fs2; sy_ids := ids; sy_hashes := hs; sy_challenged := cs; sy_opened := os |}
              {| sy_db := db'; sy_flights := fs' ++ fs1 ++ fs2; sy_ids := ids; sy_hashes := hs; sy_challenged := cs; sy_opened := os |}
| as_outside db fs ids hs cs os db' fs' :
    outside_step db db' fs' ->
    auth_step {| sy_db := db; sy_flights := fs; sy_ids := ids; sy_hashes := hs; sy_challenged := cs; sy_opened := os |}
              {| sy_db := db'; sy_flights := fs' ++ fs; sy_ids := ids; sy_hashes := hs; sy_challenged := cs; sy_opened := os |}
| as_challenge db fs ids hs cs os id wallet nonce origin client now db' :
    id ∉ cs ->
    challenge_create sha256 appUrl networkPassphrase id wallet nonce origin client now db = Ok db' ->
    auth_step {| sy_db := db; sy_flights := fs; sy_ids := ids; sy_hashes := hs; sy_challenged := cs; sy_opened := os |}
              {| sy_db := db'; sy_flights := fs; sy_ids := ids; sy_hashes := hs; sy_challenged := id :: cs; sy_opened := os |}
| as_open db fs1 i c u fs2 ids hs cs os id secret now db' x :
    x = new_session sha256 (ac_id u) (ac_walletHash u) id secret (deriveDeviceLabel (li_headers i)) DEFAULT_TTL_SECONDS now ->
    as_id x ∉ ids -> as_tokenHash x ∉ hs ->
    login_session sha256 i u id secret now db = Ok db' ->
    auth_step {| sy_db := db; sy_flights := fs1 ++ FLogin i (LSession c u) :: fs2; sy_ids := ids; sy_hashes := hs;
                 sy_challenged := cs; sy_opened := os |}
              {| sy_db := db'; sy_flights := fs1 ++ fs2; sy_ids := as_id x :: ids; sy_hashes := as_tokenHash x :: hs;
                 sy_challenged := cs;
                 sy_opened := {| op_input := i; op_challenge := c; op_session := as_core x |} :: os |}
| as_rotate db fs1 q fs2 ids hs cs os now ss :
    as_id (pn_new q) ∉ ids -> as_tokenHash (pn_new q) ∉ hs ->
    rotate_write q now (db_sessions db) = Ok ss ->
    auth_step {| sy_db := db; sy_flights := fs1 ++ FRotate q :: fs2; sy_ids := ids; sy_hashes := hs;
                 sy_challenged := cs; sy_opened := os |}
              {| sy_db := set_sessions ss db; sy_flights := fs1 ++ fs2; sy_ids := as_id (pn_new q) :: ids;
                 sy_hashes := as_tokenHash (pn_new q) :: hs; sy_challenged := cs; sy_opened := os |}.
End system.

(** ** A small deployment *)

Section demo.
#[local] Open Scope list_scope.

Definition demo_url (s : string) : option Url :=
  if String.eqb s "https://app"
  then Some {| u_protocol := "https:"; u_username := EmptyString; u_password := EmptyString; u_hostname := "app"; u_port := EmptyString |}
  else None.

(** A digest that is the identity, and keys that sign with their own name. *)
Definition demo_digest (s : string) : string := s.
Definition demo_valid (w : string) : bool := String.prefix "G" w.
Definition demo_verify (w m sig : string) : bool := String.eqb sig w.

Definition demo_secret : string := "0123456789abcdef0123456789abcdef0123456789abcdef0123456789abcdef".
Definition demo_bearer (sessionId : string) : string :=
  String.append "Bearer " (generateToken demo_digest sessionId demo_secret).1.

Definition demo_user (id wallet : string) (role : UserRole.t) (st : ResourceStatus.t) : Account :=
  {| ac_id := id; ac_walletAddress := wallet; ac_walletHash := walletHash demo_digest wallet; ac_role := role;
     ac_status := st; ac_displayName := None; ac_lastLoginAt := None |}.
Definition demo_session (userId wallet sessionId : string) : AuthSession :=
  new_session demo_digest userId (walletHash demo_digest wallet) sessionId demo_secret "Browser" 3600 0.

Definition demo_accounts (st : ResourceStatus.t) (ss : list AuthSession) : AuthDb :=
  {| db_users := [demo_user "admin" "GADMIN" UserRole.ADMIN ResourceStatus.ACTIVE;
                  demo_user "worker" "GWORKER" UserRole.WORKER st];
     db_sessions := ss; db_challenges := []; db_rotations := []; db_events := [];
     db_store := {| proofs := []; intents := []; audit := [] |} |}.

Definition demo_login (wallet : string) : LoginInput :=
  {| li_challengeId := "challenge-1"; li_walletAddress := wallet; li_signature := wallet;
     li_clientMetadata := None; li_requestOrigin := None; li_headers := None |}.
Definition demo_sessions : list AuthSession :=
  [demo_session "admin" "GADMIN" "session-00000000"; demo_session "worker" "GWORKER" "session-00000002"].

Definition demo_binding : Binding :=
  {| bi_rotationId := "r1"; bi_nonce := "m"; bi_origin := "https://app"; bi_userId := "worker";
     bi_currentWalletAddress := "GWORKER"; bi_newWalletAddress := "GOTHER"; bi_expiresAt := 301001 |}.
Definition demo_rotation : RotationCore :=
  {| wr_id := "r1"; wr_userId := "worker"; wr_currentWalletAddress := "GWORKER"; wr_newWalletAddress := "GOTHER";
     wr_nonceHash := "m"; wr_currentMessage := buildMessage "https://app" "net" demo_binding SignerCurrent;
     wr_newMessage := buildMessage "https://app" "net" demo_binding SignerReplacement;
     wr_networkPassphrase := "net"; wr_origin := "https://app"; wr_expiresAt := 301001 |}.
End demo.
