(* ===== verification/AuthFacts.v ===== *)
(** * What sign-in, sessions and account changes guarantee

    How each statement changes each table, the invariants of the system of
    [AuthSystem], and the theorems about every run of it. *)

From S2P Require Import Prelude JsData Schema Canonical AuditChain ProofStore Issuance Accounts Sessions WalletAuth.
From S2P Require Import AuthSystem.

Local Open Scope string_scope.
Local Open Scope list_scope.
Local Open Scope Z_scope.

(** ** What a statement does to the sessions *)

Definition keeps_session (f : AuthSession -> AuthSession) (x : AuthSession) : Prop :=
  as_core (f x) = as_core x /\ as_rotatedToId (f x) = as_rotatedToId x /\
  (is_Some (as_revokedAt x) -> is_Some (as_revokedAt (f x))).

Inductive session_change : list AuthSession -> list AuthSession -> Prop :=
| sch_same ss : session_change ss ss
| sch_update w f ss : (forall x, w x = true -> keeps_session f x) -> session_change ss (update_where w f ss)
| sch_delete older ss : session_change ss (deleteExpired older ss).1.

(** Follow a statement to the tables it wrote. *)
Ltac tables :=
  repeat match goal with
  | H : (_, _) = (_, _) |- _ => injection H; clear H; intros; subst
  | H : Ok _ = Ok _ |- _ => injection H; clear H; intros; subst
  | H : Err _ = Err _ |- _ => injection H; clear H; intros; subst
  | H : Ok _ = Err _ |- _ => discriminate H
  | H : Err _ = Ok _ |- _ => discriminate H
  | H : (_ ≫= _) = Ok _ |- _ => apply bind_Ok in H; destruct H as (? & ? & H)
  | H : throw_if _ _ = Ok _ |- _ => apply throw_if_Ok in H
  | H : context [match ?x with _ => _ end] |- _ =>
      lazymatch type of H with _ = (_, _) => idtac | _ = Ok _ => idtac | _ = Err _ => idtac end;
      destruct x eqn:?
  end; cbn in *.

Lemma revoke_user_change uid now ss ss' n : revoke_user_sessions uid now ss = (ss', n) -> session_change ss ss'.
Proof. intros [= <- _]. apply sch_update. by repeat split. Qed.

(** ** The sessions of every reachable state *)

(** A rotated session points to a later row of the same account. *)
Fixpoint chained (ss : list AuthSession) : Prop :=
  match ss with
  | [] => True
  | x :: post =>
      (forall y, as_rotatedToId x = Some y -> exists z, z ∈ post /\ as_id z = y /\ as_userId z = as_userId x) /\
      chained post
  end.

Record sessions_wf (ss : list AuthSession) : Prop := {
  sw_ids : NoDup ((fun x => as_id x) <$> ss);
  sw_hashes : NoDup ((fun x => as_tokenHash x) <$> ss);
  sw_rotated : forall x, x ∈ ss -> is_Some (as_rotatedToId x) -> is_Some (as_revokedAt x);
  sw_single : NoDup (omap as_rotatedToId ss);
  sw_chained : chained ss;
}.

Lemma update_map {A} (g : AuthSession -> A) w f ss :
  (forall x, w x = true -> g (f x) = g x) -> g <$> update_where w f ss = g <$> ss.
Proof.
  intros Hg. unfold update_where. rewrite <- list_fmap_compose. apply list_fmap_ext. intros _ x _. cbn.
  destruct (w x) eqn:E; auto.
Qed.

Lemma omap_fmap_same (g : AuthSession -> AuthSession) (ss : list AuthSession) :
  (forall x, as_rotatedToId (g x) = as_rotatedToId x) -> omap as_rotatedToId (g <$> ss) = omap as_rotatedToId ss.
Proof. intros Hg. induction ss as [|x ss IH]; [done|]. cbn. rewrite Hg. destruct (as_rotatedToId x); [f_equal|]; exact IH. Qed.

Lemma chained_fmap (g : AuthSession -> AuthSession) ss :
  (forall x, as_core (g x) = as_core x /\ as_rotatedToId (g x) = as_rotatedToId x) -> chained ss -> chained (g <$> ss).
Proof.
  intros Hg. induction ss as [|x ss IH]; [done|]. intros [Hx Hss]. split; [|auto].
  destruct (Hg x) as [Hc Hr]. intros y. rewrite Hr. intros (z & Hz & Hid & Hu)%Hx. exists (g z).
  destruct (Hg z) as [Hcz _]. rewrite Hcz, Hc. split; [|done]. by apply list_elem_of_fmap_2.
Qed.

Lemma update_wf w f ss :
  (forall x, w x = true -> keeps_session f x) -> sessions_wf ss -> sessions_wf (update_where w f ss).
Proof.
  intros Hf [H1 H2 H3 H4 H5].
  assert (forall x, as_core (if w x then f x else x) = as_core x /\
                    as_rotatedToId (if w x then f x else x) = as_rotatedToId x) as Hk.
  { intros x. destruct (w x) eqn:E; [|done]. by destruct (Hf x E) as (? & ? & _). }
  split.
  - rewrite update_map; [done|]. intros x E. by destruct (Hf x E) as [-> _].
  - rewrite update_map; [done|]. intros x E. by destruct (Hf x E) as [-> _].
  - intros x (x0 & Hx0 & ->)%elem_of_update_where. destruct (w x0) eqn:E; [|auto].
    destruct (Hf x0 E) as (_ & -> & Hr). auto.
  - unfold update_where. rewrite omap_fmap_same; [done|]. intros x. apply Hk.
  - by apply chained_fmap.
Qed.

Lemma omap_unlink_sublist gone p (ss : list AuthSession) :
  omap as_rotatedToId (unlink gone <$> List.filter p ss) `sublist_of` omap as_rotatedToId ss.
Proof.
  induction ss as [|x ss IH]; [done|]. cbn. destruct (p x); cbn.
  - destruct (as_rotatedToId x) as [y|]; [|done]. case_bool_decide; [by apply sublist_cons|by apply sublist_skip].
  - destruct (as_rotatedToId x); [by apply sublist_cons|done].
Qed.

Lemma chained_unlink gone p ss :
  (forall x, x ∈ ss -> p x = false -> as_id x ∈ gone) -> chained ss -> chained (unlink gone <$> List.filter p ss).
Proof.
  induction ss as [|x ss IH]; [done|]. intros Hg [Hx Hss].
  assert (chained (unlink gone <$> List.filter p ss)) as Hrest by (apply IH; [set_solver|done]).
  cbn. destruct (p x) eqn:E; [|done]. split; [|done]. intros y Hy. cbn in Hy.
  destruct (as_rotatedToId x) as [y'|]; [|done]. case_bool_decide as Hin; [done|]. injection Hy as ->.
  destruct (Hx y eq_refl) as (z & Hz & Hid & Hu). exists (unlink gone z). split; [|done].
  apply list_elem_of_fmap_2, elem_of_filter_bool. split; [done|]. destruct (p z) eqn:Ez; [done|].
  exfalso. apply Hin. rewrite <- Hid. apply Hg; [set_solver|done].
Qed.

Lemma map_unlink_sublist {A} (g : AuthSession -> A) gone p ss :
  (forall x, g (unlink gone x) = g x) -> (g <$> (unlink gone <$> List.filter p ss)) `sublist_of` (g <$> ss).
Proof.
  intros Hg. induction ss as [|x ss IH]; [done|]. cbn. destruct (p x); cbn; rewrite ?Hg;
    [by apply sublist_skip|by apply sublist_cons].
Qed.

Lemma delete_wf older ss : sessions_wf ss -> sessions_wf (deleteExpired older ss).1.
Proof.
  intros [H1 H2 H3 H4 H5]. unfold deleteExpired. cbn. set (gone := _ <$> _). split.
  - eapply sublist_NoDup; [exact H1|]. by apply map_unlink_sublist.
  - eapply sublist_NoDup; [exact H2|]. by apply map_unlink_sublist.
  - intros x (x0 & -> & [Hx0 _]%elem_of_filter_bool)%list_elem_of_fmap Hs. cbn in *. apply (H3 x0 Hx0).
    by destruct (as_rotatedToId x0); [|apply is_Some_None in Hs].
  - eapply sublist_NoDup; [exact H4|]. apply omap_unlink_sublist.
  - apply chained_unlink; [|done]. intros x Hx Hp. apply negb_false_iff in Hp.
    apply list_elem_of_fmap. exists x. split; [done|]. by apply elem_of_filter_bool.
Qed.

Lemma session_change_wf ss ss' : session_change ss ss' -> sessions_wf ss -> sessions_wf ss'.
Proof. destruct 1; auto using update_wf, delete_wf. Qed.

(** *** Inserting and rotating *)

Lemma chained_targets ss y : chained ss -> y ∈ omap as_rotatedToId ss -> y ∈ (fun x => as_id x) <$> ss.
Proof.
  induction ss as [|x ss IH]; [set_solver|]. intros [Hx Hss] Hy. cbn in Hy.
  destruct (as_rotatedToId x) as [y'|] eqn:E; [apply elem_of_cons in Hy as [->|Hy]|].
  - destruct (Hx _ eq_refl) as (z & Hz & <- & _). rewrite fmap_cons. right. by apply (list_elem_of_fmap_2 (fun x => as_id x)).
  - rewrite fmap_cons. right. auto.
  - rewrite fmap_cons. right. auto.
Qed.

Lemma chained_snoc ss x : as_rotatedToId x = None -> chained ss -> chained (ss ++ [x]).
Proof.
  intros Hx. induction ss as [|y ss IH]; cbn; [rewrite Hx; by split|]. intros [Hy Hss]. split; [|auto].
  intros z (z' & Hz & ?)%Hy. exists z'. split; [set_solver|done].
Qed.

Lemma insert_session_Ok x ss ss' :
  insert_session x ss = Ok ss' ->
  ss' = (ss ++ [x])%list /\ (as_id x ∉ (fun x => as_id x) <$> ss) /\ (as_tokenHash x ∉ (fun x => as_tokenHash x) <$> ss).
Proof. unfold insert_session. intros H. run_result. reflect_hyps. done. Qed.

Lemma insert_wf x ss ss' :
  insert_session x ss = Ok ss' -> as_rotatedToId x = None -> sessions_wf ss -> sessions_wf ss'.
Proof.
  intros (-> & Hid & Hh)%insert_session_Ok Hx [H1 H2 H3 H4 H5]. split.
  - by apply NoDup_fmap_snoc.
  - by apply NoDup_fmap_snoc.
  - intros y [Hy| ->%list_elem_of_singleton]%elem_of_app; [auto|]. rewrite Hx. by intros [].
  - rewrite omap_app. cbn. rewrite Hx. by rewrite app_nil_r.
  - by apply chained_snoc.
Qed.

Lemma chained_point l1 x l2 n now :
  (exists z, z ∈ l2 /\ as_id z = n /\ as_userId z = as_userId x) ->
  chained (l1 ++ x :: l2) -> chained (l1 ++ rotate_out n now x :: l2).
Proof.
  intros Hn. induction l1 as [|y l1 IH]; cbn; intros [Hy Hss].
  - split; [|done]. by intros ? [= <-].
  - split; [|auto]. intros t (z & Hz & Hid & Hu)%Hy. apply elem_of_app in Hz as [Hz|[->|Hz]%elem_of_cons].
    + exists z. split; [set_solver|done].
    + exists (rotate_out n now x). split; [set_solver|done].
    + exists z. split; [set_solver|done].
Qed.

(** What a rotation wrote: the successor at the end, and the row it replaced. *)
Lemma rotate_write_Ok q now ss ss' :
  as_id (pn_new q) <> pn_sessionId q -> rotate_write q now ss = Ok ss' ->
  exists l1 x l2, ss = l1 ++ x :: l2 /\ as_id x = pn_sessionId q /\ as_userId x = pn_userId q /\
    as_revokedAt x = None /\ insert_session (pn_new q) ss = Ok (ss ++ [pn_new q])%list /\
    ss' = l1 ++ rotate_out (as_id (pn_new q)) now x :: l2 ++ [pn_new q].
Proof.
  intros Hne. unfold rotate_write. intros (ss1 & Hi & (u & Hcount & H)%bind_Ok)%bind_Ok.
  apply throw_if_Ok, negb_false_iff, Nat.eqb_eq in Hcount. pose proof (insert_session_Ok _ _ _ Hi) as (-> & _ & _).
  set (w := fun x => session_id (pn_sessionId q) x && String.eqb (as_userId x) (pn_userId q) && unrevoked x) in *.
  assert (w (pn_new q) = false) as Hw.
  { unfold w, session_id. by rewrite (proj2 (String.eqb_neq _ _) Hne). }
  unfold count_where in Hcount. rewrite List.filter_app in Hcount. cbn in Hcount. rewrite Hw, app_nil_r in Hcount.
  destruct (count_where_one w ss Hcount) as (l1 & x & l2 & Hss & Hx & Hu).
  unfold w, session_id, unrevoked in Hx. reflect_hyps.
  exists l1, x, l2. split_and!; try done; try (by apply String.eqb_eq).
  injection H as <-. unfold update_where. rewrite fmap_app. fold (update_where w (rotate_out (as_id (pn_new q)) now) ss).
  rewrite Hu. cbn. rewrite Hw. by rewrite <- app_assoc, <- app_comm_cons.
Qed.

Lemma rotate_wf q now ss ss' :
  as_id (pn_new q) <> pn_sessionId q -> as_rotatedToId (pn_new q) = None -> as_userId (pn_new q) = pn_userId q ->
  rotate_write q now ss = Ok ss' -> sessions_wf ss -> sessions_wf ss'.
Proof.
  intros Hne Hr Huser H Hwf. destruct (rotate_write_Ok _ _ _ _ Hne H) as (l1 & x & l2 & -> & Hid & Hu & Hrev & Hi & ->).
  pose proof (insert_wf _ _ _ Hi Hr Hwf) as [H1 H2 H3 H4 H5]. pose proof (insert_session_Ok _ _ _ Hi) as (_ & Hnew & _).
  rewrite <- app_assoc, <- app_comm_cons in *.
  assert (as_rotatedToId x = None) as Hx.
  { destruct (as_rotatedToId x) as [y|] eqn:E; [|done]. destruct (H3 x) as [t Ht]; [set_solver|by rewrite E|congruence]. }
  split.
  - rewrite fmap_app, fmap_cons in *. exact H1.
  - rewrite fmap_app, fmap_cons in *. exact H2.
  - intros y Hy. apply elem_of_app in Hy as [Hy|[->|Hy]%elem_of_cons]; [apply H3; set_solver|by eexists|apply H3; set_solver].
  - rewrite omap_app in H4 |- *. cbn in H4 |- *. rewrite Hx in H4. rewrite <- Permutation_middle. constructor; [|done].
    intros Hin. apply Hnew. apply chained_targets; [by apply Hwf|]. rewrite omap_app. cbn. rewrite Hx.
    rewrite omap_app in Hin. cbn in Hin. rewrite Hr, app_nil_r in Hin. done.
  - apply chained_point; [|done]. exists (pn_new q). split; [set_solver|]. split; [done|]. congruence.
Qed.

(** Rows of a changed table come from rows with the same core. *)
Lemma session_change_from ss ss' x' :
  session_change ss ss' -> x' ∈ ss' -> exists x, x ∈ ss /\ as_core x' = as_core x /\
    (is_Some (as_revokedAt x) -> is_Some (as_revokedAt x')).
Proof.
  destruct 1 as [ss|w f ss Hf|older ss]; [eauto| |].
  - intros (x & Hx & ->)%elem_of_update_where. exists x. split; [done|]. destruct (w x) eqn:E; [|done].
    by destruct (Hf x E) as (? & _ & ?).
  - cbn. intros (x & -> & [Hx _]%elem_of_filter_bool)%list_elem_of_fmap. by exists x.
Qed.

Lemma find_session_elem id ss x : find_session id ss = Some x -> x ∈ ss /\ as_id x = id.
Proof. intros [Hin Hid]%find_where_Some. split; [done|]. by apply String.eqb_eq. Qed.

(** ** Accounts *)

(** A revoked account stays revoked, wherever it is looked up. *)
Definition keeps_revoked (us us' : list Account) : Prop :=
  forall id u, find_user id us = Some u -> ac_status u = ResourceStatus.REVOKED ->
    exists u', find_user id us' = Some u' /\ ac_status u' = ResourceStatus.REVOKED.

Definition keeps_account (f : Account -> Account) (u : Account) : Prop :=
  ac_id (f u) = ac_id u /\ (ac_status u = ResourceStatus.REVOKED -> ac_status (f u) = ResourceStatus.REVOKED).

Lemma update_keeps_revoked w f us :
  (forall u, w u = true -> keeps_account f u) -> keeps_revoked us (update_where w f us).
Proof.
  intros Hf id u Hu Hs. unfold find_user in *. induction us as [|v us IH]; [done|]. cbn in *.
  destruct (w v) eqn:E; [|destruct (user_id id v); [naive_solver|auto]].
  destruct (Hf v E) as [Hid Hst]. unfold user_id in *. rewrite Hid. destruct (String.eqb (ac_id v) id); [|auto].
  injection Hu as ->. eauto.
Qed.

Lemma insert_keeps_revoked us l : keeps_revoked us (us ++ l).
Proof. intros id u Hu Hs. exists u. unfold find_user in *. by rewrite find_where_app, Hu. Qed.

Section accounts.
Context (sha256 : string -> string).

Lemma check_limit_db t limit win what cwhat wallet client now db db' r :
  check_limit sha256 t limit win what cwhat wallet client now db = (db', r) ->
  exists es, db' = set_events es db.
Proof. unfold check_limit, recordEvent. destruct db. intros H. tables; by eexists. Qed.

(** ** What a statement does to the accounts *)

Abbreviation walletHash := (walletHash sha256).

Record users_wf (us : list Account) : Prop := {
  uw_ids : NoDup (ac_id <$> us);
  uw_wallets : NoDup (ac_walletAddress <$> us);
  uw_hashes : forall u, u ∈ us -> ac_walletHash u = walletHash (ac_walletAddress u);
}.

Lemma update_users_wf w f us :
  (forall u, u ∈ us -> w u = true -> ac_id (f u) = ac_id u /\ ac_walletAddress (f u) = ac_walletAddress u /\
     ac_walletHash (f u) = walletHash (ac_walletAddress u)) -> users_wf us -> users_wf (update_where w f us).
Proof.
  intros Hf [H1 H2 H3].
  assert (forall {B} (g : Account -> B), (forall u, u ∈ us -> w u = true -> g (f u) = g u) ->
    g <$> update_where w f us = g <$> us) as Hmap.
  { intros B g Hg. unfold update_where. rewrite <- list_fmap_compose. apply list_fmap_ext. intros k u Hu. cbn.
    destruct (w u) eqn:E; [|done]. apply Hg; [|done]. by eapply list_elem_of_lookup_2. }
  split; [rewrite Hmap; [done|apply Hf]|rewrite Hmap; [done|apply Hf]|].
  intros u (u0 & Hu0 & ->)%elem_of_update_where. destruct (w u0) eqn:E; [|auto].
  by destruct (Hf u0 Hu0 E) as (_ & -> & ->).
Qed.

Lemma insert_users_wf us u :
  ac_id u ∉ ac_id <$> us -> ac_walletAddress u ∉ ac_walletAddress <$> us ->
  ac_walletHash u = walletHash (ac_walletAddress u) -> users_wf us -> users_wf (us ++ [u]).
Proof.
  intros Hid Hw Hh [H1 H2 H3]. split; [by apply NoDup_fmap_snoc|by apply NoDup_fmap_snoc|].
  intros v [Hv| ->%list_elem_of_singleton]%elem_of_app; auto.
Qed.

Lemma login_upsert_users i newId now db db' u :
  login_upsert sha256 i newId now db = Ok (db', u) -> users_wf (db_users db) ->
  users_wf (db_users db') /\ keeps_revoked (db_users db) (db_users db') /\
  ac_walletHash u = walletHash (li_walletAddress i).
Proof.
  unfold login_upsert. intros H Hwf. tables.
  - split_and!; [|by apply update_keeps_revoked|done]. apply update_users_wf; [|done]. cbn.
    intros v _ Hv. apply String.eqb_eq in Hv. by rewrite Hv.
  - split_and!; [|apply insert_keeps_revoked|done]. reflect_hyps. apply insert_users_wf; cbn; [done| |done|done].
    intros (v & Hv & Hin)%list_elem_of_fmap.
    match goal with Hf : find_where _ _ = None |- _ =>
      rewrite find_where_None, Forall_forall in Hf; specialize (Hf v Hin); apply String.eqb_neq in Hf end.
    congruence.
Qed.

Lemma rotation_write_users uid c now auditId db db' n :
  rotation_write sha256 uid c now auditId db = Ok (db', n) -> users_wf (db_users db) ->
  users_wf (db_users db') /\ keeps_revoked (db_users db) (db_users db').
Proof.
  unfold rotation_write. intros H Hwf. tables. split; [|by apply update_keeps_revoked].
  match goal with H : negb (_ =? 1)%nat = false |- _ => apply negb_false_iff, Nat.eqb_eq in H as Hone end.
  match goal with H : negb _ && _ = false |- _ => rewrite Hone in H; cbn in H; apply orb_false_iff in H as [Hfree _] end.
  apply bool_decide_eq_false in Hfree.
  destruct (count_where_one _ _ Hone) as (l1 & u & l2 & Heq & Hu & Hupd). rewrite Hupd. rewrite Heq in Hwf, Hfree.
  assert (ac_walletAddress <$> l1 ++ l2 ⊆ ac_walletAddress <$> List.filter
    (fun u => negb (user_id uid u && user_wallet (wr_currentWalletAddress c) u)) (l1 ++ u :: l2)) as Hsub.
  { intros w (v & -> & Hv)%list_elem_of_fmap. apply list_elem_of_fmap_2, elem_of_filter_bool. split; [set_solver|].
    apply negb_true_iff, not_true_is_false. intros Hw. apply andb_true_iff in Hw as [Hw _], Hu as [Hu' _].
    apply String.eqb_eq in Hw, Hu'. destruct Hwf as [Hids _ _]. rewrite fmap_app, fmap_cons in Hids.
    apply NoDup_app in Hids as (_ & Hd & [Hn _]%NoDup_cons). apply elem_of_app in Hv as [Hv|Hv].
    - apply (Hd (ac_id v)); [by apply list_elem_of_fmap_2|]. rewrite Hw, <- Hu'. set_solver.
    - apply Hn. rewrite Hu', <- Hw. by apply list_elem_of_fmap_2. }
  assert (wr_newWalletAddress c ∉ ac_walletAddress <$> l1 ++ l2) as Hnew by set_solver.
  destruct Hwf as [W1 W2 W3]. split.
  - rewrite fmap_app, fmap_cons in W1 |- *. exact W1.
  - rewrite fmap_app, fmap_cons in W2 |- *. rewrite <- Permutation_middle in W2 |- *. apply NoDup_cons in W2 as [_ W2].
    constructor; [|done]. cbn. by rewrite <- fmap_app.
  - intros v Hv. apply elem_of_app in Hv as [Hv|[->|Hv]%elem_of_cons]; [apply W3; set_solver|done|apply W3; set_solver].
Qed.

(** ** The invariant of the system *)

(** What a request in flight carries. *)
Definition flight_ok (ids : list string) (f : AuthFlight) : Prop :=
  match f with
  | FLogin i (LSession c u) => ac_walletHash u = walletHash (li_walletAddress i)
  | FActs a => exists w, ats_walletHash a = walletHash w
  | FRotate q =>
      pn_sessionId q ∈ ids /\ as_rotatedToId (pn_new q) = None /\ as_userId (pn_new q) = pn_userId q /\
      exists w, as_walletHash (pn_new q) = Some (walletHash w)
  | FStatus q => isAllowedStatusTransition (ph_previous q) (ph_status q) = true
  | _ => True
  end.

Lemma status_write_users q now auditId db db' n :
  isAllowedStatusTransition (ph_previous q) (ph_status q) = true ->
  status_write q now auditId db = Ok (db', n) -> users_wf (db_users db) ->
  users_wf (db_users db') /\ keeps_revoked (db_users db) (db_users db').
Proof.
  intros Ha H Hwf. unfold status_write in H. tables; (split;
    [apply update_users_wf; [|done]; intros u Hu _; split_and!; [done..|exact (uw_hashes _ Hwf u Hu)]|
     apply update_keeps_revoked; intros u [_ Hs]%andb_true_iff; apply bool_decide_eq_true in Hs;
     split; [done|]; intros Hrev; rewrite <- Hs, Hrev in Ha; by destruct (ph_status q)]).
Qed.

Lemma role_write_users q now auditId db db' :
  role_write q now auditId db = Ok db' -> users_wf (db_users db) ->
  users_wf (db_users db') /\ keeps_revoked (db_users db) (db_users db').
Proof.
  intros H Hwf. unfold role_write in H. tables. split; [|by apply update_keeps_revoked].
  apply update_users_wf; [|done]. intros u Hu _. split_and!; [done..|exact (uw_hashes _ Hwf u Hu)].
Qed.

Lemma updateProfile_users uid name db db' :
  updateProfile uid name db = Ok db' -> users_wf (db_users db) ->
  users_wf (db_users db') /\ keeps_revoked (db_users db) (db_users db').
Proof.
  intros H Hwf. unfold updateProfile in H. tables. destruct name; cbn; [|split; [done|intros ???; eauto]].
  split; [|by apply update_keeps_revoked].
  apply update_users_wf; [|done]. intros u Hu _. split_and!; [done..|exact (uw_hashes _ Hwf u Hu)].
Qed.

Lemma guard_account_hash x us a : users_wf us -> guard_account x us = Ok a -> exists w, ats_walletHash a = walletHash w.
Proof.
  intros Hwf. unfold guard_account. destruct (find_user _ us) as [u|] eqn:Hf; [|done]. intros H. run_result.
  apply find_where_Some in Hf as [Hin _]. cbn. rewrite (uw_hashes _ Hwf u Hin). eauto.
Qed.

Record auth_inv (s : AuthSys) : Prop := {
  iv_users : users_wf (db_users (sy_db s));
  iv_sessions : sessions_wf (db_sessions (sy_db s));
  iv_minted : forall x, x ∈ db_sessions (sy_db s) -> as_id x ∈ sy_ids s /\ as_tokenHash x ∈ sy_hashes s;
  iv_flights : forall f, f ∈ sy_flights s -> flight_ok (sy_ids s) f;
}.

(** Nothing in flight, on tables that satisfy their constraints. *)
Definition auth_init (db : AuthDb) : AuthSys :=
  {| sy_db := db; sy_flights := []; sy_ids := (fun x => as_id x) <$> db_sessions db;
     sy_hashes := (fun x => as_tokenHash x) <$> db_sessions db; sy_challenged := wc_id <$> db_challenges db;
     sy_opened := [] |}.
Definition start_ok (db : AuthDb) : Prop := users_wf (db_users db) /\ sessions_wf (db_sessions db).

Lemma auth_init_inv db : start_ok db -> auth_inv (auth_init db).
Proof.
  intros [Hu Hs]. split; cbn; [done|done| |set_solver]. intros x Hx.
  split; [by apply (list_elem_of_fmap_2 (fun x => as_id x))|by apply (list_elem_of_fmap_2 (fun x => as_tokenHash x))].
Qed.

Lemma flight_ok_more ids id f : flight_ok ids f -> flight_ok (id :: ids) f.
Proof. destruct f as [? []| | | | | | | | | | |]; cbn; try done. intros (? & ? & ? & ?). split_and!; [set_solver|done..]. Qed.
End accounts.

(** ** Steps *)

Section steps.
Context (sha256 : string -> string) (parse_url : string -> option Url).
Context (isValidWalletAddress : string -> bool).
Context (verifyWalletSignature : string -> string -> string -> bool).
Context (appUrl networkPassphrase : string).

Abbreviation flight_step := (flight_step sha256 parse_url isValidWalletAddress verifyWalletSignature appUrl networkPassphrase).
Abbreviation outside_step := (outside_step sha256 isValidWalletAddress).
Abbreviation auth_step := (auth_step sha256 parse_url isValidWalletAddress verifyWalletSignature appUrl networkPassphrase).
Abbreviation users_wf := (users_wf sha256).
Abbreviation flight_ok := (flight_ok sha256).

Lemma flight_sessions db f db' fs' : flight_step db f db' fs' -> session_change (db_sessions db) (db_sessions db').
Proof.
  destruct 1; try apply sch_same; try (apply sch_update; by repeat split);
    unfold login_consume, login_check, login_account, login_upsert, renameForUser, other_write, updateProfile,
      role_write, initiate, rotation_consume in *; tables;
    try apply sch_same; try (apply sch_update; by repeat split); try (case_match; apply sch_same).
  - unfold status_write in *. tables; eauto using sch_same, revoke_user_change.
  - unfold rotation_write in *. tables. eauto using revoke_user_change.
Qed.

Lemma outside_sessions db db' fs' : outside_step db db' fs' -> session_change (db_sessions db) (db_sessions db').
Proof.
  destruct 1 as [? ? ? ? ? H|?|?|?|?|?|?]; try apply sch_same; [|apply sch_delete].
  unfold login_begin in H. destruct (isValidWalletAddress _); cbn in H; [|by simplify_eq].
  apply check_limit_db in H as [es ->]. apply sch_same.
Qed.

Lemma flight_users ids db f db' fs' :
  flight_step db f db' fs' -> flight_ok ids f -> users_wf (db_users db) ->
  users_wf (db_users db') /\ keeps_revoked (db_users db) (db_users db').
Proof.
  intros Hs Hok Hwf.
  assert (users_wf (db_users db) /\ keeps_revoked (db_users db) (db_users db)) as Hsame by (split; [done|intros ???; eauto]).
  destruct Hs; cbn in *; try exact Hsame;
    eauto using updateProfile_users, role_write_users, status_write_users, rotation_write_users;
    try (match goal with H : login_upsert _ _ _ _ _ = _ |- _ => apply login_upsert_users in H as (? & ? & _); auto end);
    unfold login_consume, login_check, login_account, initiate, rotation_consume in *; tables; exact Hsame.
Qed.

Lemma flight_next ids db f db' fs' :
  flight_step db f db' fs' -> users_wf (db_users db) -> (forall x, x ∈ db_sessions db -> as_id x ∈ ids) ->
  flight_ok ids f -> forall f', f' ∈ fs' -> flight_ok ids f'.
Proof.
  intros Hs Hwf Hids Hok f' Hf'.
  destruct Hs; try (by apply not_elem_of_nil in Hf'); apply list_elem_of_singleton in Hf' as ->; try done; cbn in *.
  - by apply login_upsert_users in H as (_ & _ & ?).
  - by eapply guard_account_hash.
  - unfold rotate_read in H. destruct (find_session _ _) as [x|] eqn:Hx; [|done].
    apply find_session_elem in Hx as [Hx Hid]. run_result. cbn. destruct Hok as [w ->].
    split_and!; [rewrite <- Hid; auto|done|done|eauto].
  - unfold status_read in H. destruct (find_user _ _) as [u|]; [|tables]. run_result. by reflect_hyps.
Qed.
End steps.

(** ** Runs of a small deployment *)

Abbreviation demo_step := (auth_step demo_digest demo_url demo_valid demo_verify "https://app" "net").

Ltac norm_state :=
  match goal with |- rtc ?R ?s ?t => let s' := eval vm_compute in s in change (rtc R s' t) end.
Ltac flight := eapply rtc_l; [eapply as_flight with (fs1 := [])|cbn [app]; norm_state].
Ltac outside := eapply rtc_l; [eapply as_outside|cbn [app]; norm_state].
Ltac unseen := repeat first [apply not_elem_of_nil|apply not_elem_of_cons; split; [discriminate|]].

(** Sign in with a wallet from a given time, opening a session. *)
Ltac sign_in gw gt gs :=
  eapply rtc_l; [eapply as_challenge with (id := "challenge-1") (wallet := gw) (nonce := "n")
    (origin := "https://app") (client := None) (now := gt); [unseen|reflexivity]|norm_state];
  outside; [eapply os_login with (cfg := default_limits) (i := demo_login gw) (now := gt); reflexivity|];
  flight; [eapply fs_consume with (now := gt); reflexivity|];
  flight; [eapply fs_check with (now := gt); reflexivity|];
  flight; [eapply fs_account with (now := gt); reflexivity|];
  flight; [eapply fs_upsert with (newId := "new") (now := gt); reflexivity|];
  eapply rtc_l; [eapply as_open with (fs1 := []) (id := gs) (secret := demo_secret) (now := gt);
    [reflexivity|unseen|unseen|reflexivity]|norm_state].

(** A request with a session passes the guard. *)
Ltac request gs gt :=
  outside; [eapply os_request with (header := Some (demo_bearer gs)) (now := gt); reflexivity|];
  flight; [eapply fs_guard; reflexivity|].

(** The tables of the deployment satisfy their constraints. *)
Ltac demo_rows :=
  intros ? ?; repeat match goal with H : _ ∈ _ |- _ => first
    [apply not_elem_of_nil in H; done|apply elem_of_cons in H as [->|H]] end; try done; by intros [? [=]].
Ltac demo_wf :=
  split; first [by repeat first [apply NoDup_nil_2|apply NoDup_cons_2; [unseen|]]|demo_rows|
    by repeat (split; [by intros ? [=]|])].

Lemma demo_sign_in :
  exists s, rtc demo_step (auth_init (demo_accounts ResourceStatus.ACTIVE [])) s /\
    exists x a, guard_session demo_digest (Some (demo_bearer "session-00000001")) 2000 (db_sessions (sy_db s)) = Ok x /\
      guard_account x (db_users (sy_db s)) = Ok a /\ ats_id a = "worker" /\ length (sy_opened s) = 1%nat.
Proof.
  eexists. split.
  - norm_state. sign_in "GWORKER" 1000 "session-00000001". apply rtc_refl.
  - eexists _, _. vm_compute. split_and!; reflexivity.
Qed.
