(* ===== verification/AuthSystemFacts.v ===== *)
(** * Every run of sign-in, sessions and account changes

    The theorems about the system of [AuthSystem]: what a request that passes the
    guard rests on, that revocation, suspension and wallet rotation are final for
    the sessions they end, that a challenge opens one session, and that session
    rotation forms chains; then the single requests. *)

From S2P Require Import Prelude JsData Schema Canonical AuditChain ProofStore Issuance Accounts Sessions WalletAuth.
From S2P Require Import AuthSystem AuthFacts.

Local Open Scope string_scope.
Local Open Scope list_scope.
Local Open Scope Z_scope.

Section system.
Context (sha256 : string -> string) (parse_url : string -> option Url).
Context (isValidWalletAddress : string -> bool).
Context (verifyWalletSignature : string -> string -> string -> bool).
Context (appUrl networkPassphrase : string).

Abbreviation flight_step := (flight_step sha256 parse_url isValidWalletAddress verifyWalletSignature appUrl networkPassphrase).
Abbreviation outside_step := (outside_step sha256 isValidWalletAddress).
Abbreviation auth_step := (auth_step sha256 parse_url isValidWalletAddress verifyWalletSignature appUrl networkPassphrase).
Abbreviation auth_inv := (auth_inv sha256).
Abbreviation walletHash := (walletHash sha256).

Lemma outside_users db db' fs' : outside_step db db' fs' -> db_users db' = db_users db.
Proof.
  destruct 1 as [? ? ? ? ? H|?|?|?|?|?|?]; try done.
  unfold login_begin in H. destruct (isValidWalletAddress _); cbn in H; [|by simplify_eq].
  by apply check_limit_db in H as [es ->].
Qed.

Lemma outside_next ids db db' fs' f : outside_step db db' fs' -> f ∈ fs' -> flight_ok sha256 ids f.
Proof. destruct 1; intros Hf; set_solver. Qed.

Lemma minted_change (ids hs : list string) ss ss' :
  session_change ss ss' -> (forall x, x ∈ ss -> as_id x ∈ ids /\ as_tokenHash x ∈ hs) ->
  forall x, x ∈ ss' -> as_id x ∈ ids /\ as_tokenHash x ∈ hs.
Proof. intros Hc Hm x' Hx'. destruct (session_change_from _ _ _ Hc Hx') as (x & Hx & -> & _). auto. Qed.

(** A new row keeps the bookkeeping. *)
Lemma minted_insert (ids hs : list string) ss x :
  (forall x, x ∈ ss -> as_id x ∈ ids /\ as_tokenHash x ∈ hs) ->
  forall y, y ∈ ss ++ [x] -> as_id y ∈ as_id x :: ids /\ as_tokenHash y ∈ as_tokenHash x :: hs.
Proof.
  intros Hm y [Hy| ->%list_elem_of_singleton]%elem_of_app; [|set_solver]. destruct (Hm y Hy). set_solver.
Qed.

Lemma login_session_Ok i u id secret now db db' :
  login_session sha256 i u id secret now db = Ok db' ->
  db_users db' = db_users db /\ db_challenges db' = db_challenges db /\
  insert_session (new_session sha256 (ac_id u) (ac_walletHash u) id secret (deriveDeviceLabel (li_headers i))
    DEFAULT_TTL_SECONDS now) (db_sessions db) = Ok (db_sessions db').
Proof. unfold login_session. intros (ss & Hi & [= <-])%bind_Ok. done. Qed.

Lemma rotate_minted q now (ids hs : list string) ss ss' :
  as_id (pn_new q) <> pn_sessionId q -> rotate_write q now ss = Ok ss' ->
  (forall x, x ∈ ss -> as_id x ∈ ids /\ as_tokenHash x ∈ hs) ->
  forall y, y ∈ ss' -> as_id y ∈ as_id (pn_new q) :: ids /\ as_tokenHash y ∈ as_tokenHash (pn_new q) :: hs.
Proof.
  intros Hne H Hm y Hy. destruct (rotate_write_Ok _ _ _ _ Hne H) as (l1 & x & l2 & -> & _ & _ & _ & _ & ->).
  assert (exists y0, y0 ∈ (l1 ++ x :: l2) ++ [pn_new q] /\ as_core y = as_core y0) as (y0 & Hy0 & ->).
  { rewrite !elem_of_app, elem_of_cons, elem_of_app in Hy. destruct Hy as [Hy|[->|[Hy|Hy]]];
      [exists y|exists x|exists y|exists y]; (split; [set_solver|done]). }
  by eapply minted_insert.
Qed.

Lemma auth_step_inv s s' : auth_step s s' -> auth_inv s -> auth_inv s'.
Proof.
  intros Hs [I1 I2 I3 I4]. destruct Hs as [db fs1 f fs2 ids hs cs os db' fs' Hf|db fs ids hs cs os db' fs' Ho|
    db fs ids hs cs os id w nonce origin client now db' _ Hc|db fs1 i c u fs2 ids hs cs os id sec now db' x -> Hid Hh Hl|
    db fs1 q fs2 ids hs cs os now ss Hid Hh Hr]; cbn in *.
  - pose proof (flight_sessions _ _ _ _ _ _ _ _ _ _ Hf) as Hch.
    assert (flight_ok sha256 ids f) as Hok by (apply I4; set_solver).
    split; cbn; [by eapply flight_users|by eapply session_change_wf|by eapply minted_change|].
    intros f' [Hf'|Hf']%elem_of_app; [|apply I4; set_solver]. eapply flight_next; [exact Hf|done| |done|done].
    intros y Hy. by apply I3.
  - pose proof (outside_sessions _ _ _ _ _ Ho) as Hch.
    split; cbn; [by rewrite (outside_users _ _ _ Ho)|by eapply session_change_wf|by eapply minted_change|].
    intros f' [Hf'|Hf']%elem_of_app; [by eapply outside_next|auto].
  - unfold challenge_create in Hc. run_result. by split.
  - apply login_session_Ok in Hl as (Hu & _ & Hi). pose proof (insert_session_Ok _ _ _ Hi) as (Heq & _ & _).
    split; cbn; [by rewrite Hu|by eapply insert_wf| |].
    + rewrite Heq. by apply minted_insert.
    + intros f Hf. apply flight_ok_more, I4. set_solver.
  - destruct (I4 (FRotate q)) as (Hsid & Hnone & Huser & _); [set_solver|].
    assert (as_id (pn_new q) <> pn_sessionId q) as Hne by (intros E; apply Hid; by rewrite E).
    split; cbn; [done|by eapply rotate_wf|by eapply rotate_minted|].
    intros f Hf. apply flight_ok_more, I4. set_solver.
Qed.

Lemma auth_reachable db s : start_ok sha256 db -> rtc auth_step (auth_init db) s -> auth_inv s.
Proof.
  intros Hok H. eapply (rtc_invariant auth_step auth_inv); [apply auth_step_inv|exact H|by apply auth_init_inv].
Qed.

(** in every reachable state accounts have distinct identifiers and wallets
    and store the digest of their wallet; sessions have distinct identifiers and
    token hashes; a rotated session is revoked, no two sessions were rotated into
    the same one, and a session only leads to a later one of the same account. *)
Theorem accounts_and_sessions_wf db s :
  start_ok sha256 db -> rtc auth_step (auth_init db) s ->
  users_wf sha256 (db_users (sy_db s)) /\ sessions_wf (db_sessions (sy_db s)).
Proof. intros Hok H. by destruct (auth_reachable _ _ Hok H). Qed.

(** ** Finality *)

(** The account has no live session with this token hash. *)
Definition dead (uid h : string) (s : AuthSys) : Prop :=
  forall x, x ∈ db_sessions (sy_db s) -> as_tokenHash x = h -> as_userId x = uid -> is_Some (as_revokedAt x).

(** Once used, a token hash stays used and, once dead, dead; and a revoked account
    stays revoked. *)
Definition settles (s s' : AuthSys) : Prop :=
  (forall h, h ∈ sy_hashes s -> h ∈ sy_hashes s' /\ forall uid, dead uid h s -> dead uid h s') /\
  keeps_revoked (db_users (sy_db s)) (db_users (sy_db s')).

#[local] Instance settles_preorder : PreOrder settles.
Proof.
  split; [intros s; split; [done|intros ???; eauto]|]. intros s1 s2 s3 [H1 K1] [H2 K2]. split.
  - intros h Hh. destruct (H1 h Hh) as [Hh2 D1], (H2 h Hh2) as [Hh3 D2]. auto.
  - intros id u Hu Hs. destruct (K1 id u Hu Hs) as (u2 & Hu2 & Hs2). eauto.
Qed.

Lemma change_settles db db' fs fs' ids hs cs os :
  session_change (db_sessions db) (db_sessions db') -> keeps_revoked (db_users db) (db_users db') ->
  settles {| sy_db := db; sy_flights := fs; sy_ids := ids; sy_hashes := hs; sy_challenged := cs; sy_opened := os |}
          {| sy_db := db'; sy_flights := fs'; sy_ids := ids; sy_hashes := hs; sy_challenged := cs; sy_opened := os |}.
Proof.
  intros Hc Hk. split; [|done]. intros h Hh. split; [done|]. intros uid Hd x' Hx' Hhash Hu. cbn in *.
  destruct (session_change_from _ _ _ Hc Hx') as (x & Hx & Hcore & Hrev). rewrite Hcore in *. by apply Hrev, Hd.
Qed.

Lemma auth_step_settles s s' : auth_step s s' -> auth_inv s -> settles s s'.
Proof.
  intros Hs [I1 I2 I3 I4]. destruct Hs as [db fs1 f fs2 ids hs cs os db' fs' Hf|db fs ids hs cs os db' fs' Ho|
    db fs ids hs cs os id w nonce origin client now db' _ Hc|db fs1 i c u fs2 ids hs cs os id sec now db' x -> Hid Hh Hl|
    db fs1 q fs2 ids hs cs os now ss Hid Hh Hr]; cbn in *.
  - apply change_settles; [by eapply flight_sessions|]. eapply flight_users; [exact Hf| |done]. apply I4. set_solver.
  - apply change_settles; [by eapply outside_sessions|]. rewrite (outside_users _ _ _ Ho). intros ???; eauto.
  - unfold challenge_create in Hc. run_result. split; [done|intros ???; eauto].
  - apply login_session_Ok in Hl as (Hu & _ & Hi). apply insert_session_Ok in Hi as (Heq & _ & _). cbn in Heq.
    split; cbn; [|rewrite Hu; intros ???; eauto]. intros h Hin. split; [set_solver|]. intros uid Hd x Hx Hhash Huid. cbn in Hx.
    rewrite Heq in Hx. apply elem_of_app in Hx as [Hx| ->%list_elem_of_singleton]; [by apply Hd|]. cbn in *. by subst.
  - destruct (I4 (FRotate q)) as (Hsid & Hnone & Huser & _); [set_solver|].
    assert (as_id (pn_new q) <> pn_sessionId q) as Hne by (intros E; apply Hid; by rewrite E).
    destruct (rotate_write_Ok _ _ _ _ Hne Hr) as (l1 & x & l2 & Heq & _ & _ & _ & _ & ->).
    split; cbn; [|intros ???; eauto]. intros h Hin. split; [set_solver|]. intros uid Hd y Hy Hhash Huid. cbn in Hy.
    unfold dead in Hd. cbn in Hd. rewrite Heq in Hd.
    rewrite elem_of_app, elem_of_cons, elem_of_app in Hy. destruct Hy as [Hy|[->|[Hy| ->%list_elem_of_singleton]]];
      [apply Hd; [set_solver|done..]|by eexists|apply Hd; [set_solver|done..]|]. by subst.
Qed.

Lemma auth_run_settles s s' : auth_inv s -> rtc auth_step s s' -> auth_inv s' /\ settles s s'.
Proof.
  intros Hi H. split; [eapply (rtc_invariant auth_step auth_inv); [apply auth_step_inv|exact H|done]|].
  eapply (rtc_preorder auth_step auth_inv settles); [|exact H|exact Hi].
  intros s1 s2 Hs Hi1. split; [by eapply auth_step_inv|by apply auth_step_settles].
Qed.

(** A token whose session is dead is refused. *)
Lemma dead_refused uid token now s x :
  dead uid (sha256 token) s -> validate sha256 token now (db_sessions (sy_db s)) = Ok x -> as_userId x <> uid.
Proof.
  intros Hd H Hu. unfold validate, hashToken in H. destruct (token_wellformed token); [|done].
  destruct (findSessionByHash _ _) as [y|] eqn:Hf; [|done]. apply find_where_Some in Hf as [Hin Hh%String.eqb_eq].
  run_result. reflect_hyps. destruct (Hd _ Hin Hh eq_refl) as [t Ht]. congruence.
Qed.

Lemma validate_hash token now ss x : validate sha256 token now ss = Ok x -> x ∈ ss /\ as_tokenHash x = sha256 token.
Proof.
  unfold validate, hashToken. destruct (token_wellformed token); [|done].
  destruct (findSessionByHash _ _) as [y|] eqn:Hf; [|done]. apply find_where_Some in Hf as [Hin Hh%String.eqb_eq].
  intros H. by run_result.
Qed.

Lemma guard_session_validate header now ss x :
  guard_session sha256 header now ss = Ok x -> exists token, validate sha256 token now ss = Ok x.
Proof. unfold guard_session. destruct header; [|done]. intros H. run_result. eauto. Qed.

(** a revoked session is revoked for good: in every continuation its token is
    refused, also by a guard that runs while the session is rotated, renamed or
    cleaned up. *)
Theorem revoked_token_refused db s s' x token now :
  start_ok sha256 db -> rtc auth_step (auth_init db) s -> x ∈ db_sessions (sy_db s) -> is_Some (as_revokedAt x) ->
  as_tokenHash x = sha256 token -> rtc auth_step s s' ->
  exists e, validate sha256 token now (db_sessions (sy_db s')) = Err e.
Proof.
  intros Hok H Hx Hrev Hh H'. pose proof (auth_reachable _ _ Hok H) as Hi.
  destruct (auth_run_settles _ _ Hi H') as [_ [Hs _]].
  destruct (validate _ _ _ _) as [y|e] eqn:Hv; [|eauto]. exfalso.
  destruct (Hs (as_tokenHash x)) as [_ Hd]; [by apply (iv_minted _ _ Hi)|]. rewrite Hh in Hd.
  eapply (dead_refused (as_userId y)); [|exact Hv|done]. apply Hd. intros x2 Hx2 Hh2 _.
  replace x2 with x; [done|]. eapply (key_unique (fun x => as_tokenHash x)); [apply Hi|done|done|congruence].
Qed.

(** a revoked account is locked out for good: in every continuation the guard
    refuses each of its sessions, whatever was in flight when it was revoked. *)
Theorem revoked_account_locked_out db s s' u x :
  start_ok sha256 db -> rtc auth_step (auth_init db) s -> find_user (ac_id u) (db_users (sy_db s)) = Some u ->
  ac_status u = ResourceStatus.REVOKED -> rtc auth_step s s' -> as_userId x = ac_id u ->
  guard_account x (db_users (sy_db s')) = Err AccountInactive.
Proof.
  intros Hok H Hu Hs H' Hx. destruct (auth_run_settles _ _ (auth_reachable _ _ Hok H) H') as [_ [_ Hk]].
  destruct (Hk _ _ Hu Hs) as (u' & Hu' & Hs'). unfold guard_account. by rewrite Hx, Hu', Hs'.
Qed.

(** *** Sessions ended together *)

Lemma revoke_user_dead uid now ss ss' n x :
  revoke_user_sessions uid now ss = (ss', n) -> x ∈ ss' -> as_userId x = uid -> is_Some (as_revokedAt x).
Proof.
  intros [= <- _] (x0 & Hx0 & ->)%elem_of_update_where Hu.
  destruct (String.eqb (as_userId x0) uid && unrevoked x0) eqn:E; [by eexists|].
  apply andb_false_iff in E as [E|E].
  - apply String.eqb_neq in E. congruence.
  - unfold unrevoked in E. apply bool_decide_eq_false in E. by destruct (as_revokedAt x0).
Qed.

Lemma ended_sessions_refused uid (hs : list string) s1 s2 header now x :
  auth_inv s1 -> (forall h, h ∈ hs -> h ∈ sy_hashes s1) ->
  (forall x, x ∈ db_sessions (sy_db s1) -> as_userId x = uid -> is_Some (as_revokedAt x)) ->
  rtc auth_step s1 s2 -> guard_session sha256 header now (db_sessions (sy_db s2)) = Ok x -> as_userId x = uid ->
  as_tokenHash x ∉ hs.
Proof.
  intros Hi Hhs Hall Hrun (token & Hv)%guard_session_validate Hu Hin.
  destruct (auth_run_settles _ _ Hi Hrun) as [_ [Hs _]]. destruct (Hs _ (Hhs _ Hin)) as [_ Hd].
  pose proof (validate_hash _ _ _ _ Hv) as [_ Hh]. rewrite Hh in Hd.
  eapply (dead_refused uid); [|exact Hv|exact Hu]. apply Hd. intros y Hy _ Huy. auto.
Qed.

Lemma step_hashes s s' : auth_step s s' -> forall h, h ∈ sy_hashes s -> h ∈ sy_hashes s'.
Proof. destruct 1; cbn; set_solver. Qed.

(** suspending, revoking or reinstating an account ends every session it has:
    none of them is accepted again in any continuation, so a reinstatement brings
    no session back. *)
Theorem status_change_ends_sessions db s s1 s2 q now auditId n header t x :
  start_ok sha256 db -> rtc auth_step (auth_init db) s -> auth_step s s1 ->
  status_write q now auditId (sy_db s) = Ok (sy_db s1, n) ->
  transitionRevokesSessions (ph_previous q) (ph_status q) = true -> rtc auth_step s1 s2 ->
  guard_session sha256 header t (db_sessions (sy_db s2)) = Ok x -> as_userId x = ph_userId q ->
  as_tokenHash x ∉ sy_hashes s.
Proof.
  intros Hok H Hstep Hw Ht Hrun Hg Hu.
  eapply ended_sessions_refused; [| | |exact Hrun|exact Hg|exact Hu].
  - eapply auth_step_inv; [exact Hstep|by eapply auth_reachable].
  - by apply step_hashes.
  - unfold status_write in Hw. rewrite Ht in Hw. run_result. destruct (revoke_user_sessions _ _ _) as [ss m] eqn:Hr.
    destruct (create_audit _ _ _ _); [|done]. injection Hw as <- _. cbn. intros y Hy Huy. by eapply revoke_user_dead.
Qed.

(** *** Wallet rotation *)

(** The live sessions of the account name the wallet they were opened with. *)
Definition bound_only (uid : string) (s : AuthSys) : Prop :=
  forall x, x ∈ db_sessions (sy_db s) -> as_userId x = uid -> as_revokedAt x = None ->
    exists w, as_walletHash x = Some (walletHash w).

Lemma bound_only_change uid db db' fs fs' ids hs cs os :
  session_change (db_sessions db) (db_sessions db') ->
  bound_only uid {| sy_db := db; sy_flights := fs; sy_ids := ids; sy_hashes := hs; sy_challenged := cs; sy_opened := os |} ->
  bound_only uid {| sy_db := db'; sy_flights := fs'; sy_ids := ids; sy_hashes := hs; sy_challenged := cs; sy_opened := os |}.
Proof.
  intros Hc Hb x' Hx' Hu Hn. cbn in *. destruct (session_change_from _ _ _ Hc Hx') as (x & Hx & Hcore & Hrev).
  rewrite Hcore in *. apply (Hb x Hx Hu). destruct (as_revokedAt x) eqn:E; [|done]. destruct Hrev; [eauto|congruence].
Qed.

Lemma bound_only_step uid s s' : auth_step s s' -> auth_inv s -> bound_only uid s -> bound_only uid s'.
Proof.
  intros Hs [I1 I2 I3 I4]. destruct Hs as [db fs1 f fs2 ids hs cs os db' fs' Hf|db fs ids hs cs os db' fs' Ho|
    db fs ids hs cs os id w nonce origin client now db' _ Hc|db fs1 i c u fs2 ids hs cs os id sec now db' x -> Hid Hh Hl|
    db fs1 q fs2 ids hs cs os now ss Hid Hh Hr]; cbn in *.
  - apply bound_only_change. by eapply flight_sessions.
  - apply bound_only_change. by eapply outside_sessions.
  - unfold challenge_create in Hc. by run_result.
  - intros Hb. apply login_session_Ok in Hl as (_ & _ & Hi). apply insert_session_Ok in Hi as (Heq & _ & _).
    intros x Hx Hu Hn. cbn in *. rewrite Heq in Hx. apply elem_of_app in Hx as [Hx| ->%list_elem_of_singleton]; [by apply Hb|].
    cbn. exists (li_walletAddress i). f_equal. apply (I4 (FLogin i (LSession c u))). set_solver.
  - intros Hb. destruct (I4 (FRotate q)) as (Hsid & Hnone & Huser & Hw); [set_solver|].
    assert (as_id (pn_new q) <> pn_sessionId q) as Hne by (intros E; apply Hid; by rewrite E).
    destruct (rotate_write_Ok _ _ _ _ Hne Hr) as (l1 & x & l2 & Heq & _ & _ & _ & _ & ->).
    intros y Hy Hu Hn. cbn in *. unfold bound_only in Hb. cbn in Hb. rewrite Heq in Hb.
    rewrite elem_of_app, elem_of_cons, elem_of_app in Hy.
    destruct Hy as [Hy|[->|[Hy| ->%list_elem_of_singleton]]]; [apply Hb; [set_solver|done..]|done|
      apply Hb; [set_solver|done..]|done].
Qed.

Lemma guard_account_bound x us a w :
  guard_account x us = Ok a -> as_walletHash x = Some (walletHash w) -> ats_walletHash a = walletHash w.
Proof.
  unfold guard_account. destruct (find_user _ us) as [u|]; [|done]. intros H Hw. run_result. cbn [ats_walletHash].
  match goal with H : match as_walletHash x with _ => _ end = false |- _ =>
    rewrite Hw in H; change (negb (String.eqb (walletHash w) (ac_walletHash u)) = false) in H;
    by apply negb_false_iff, String.eqb_eq in H end.
Qed.

(** What the guard's second read lets through: a session that names no wallet, or the one
    the account has at that read. *)
Lemma guard_account_wallet x us a :
  guard_account x us = Ok a ->
  as_walletHash x = None \/ as_walletHash x = Some EmptyString \/ as_walletHash x = Some (ats_walletHash a).
Proof.
  unfold guard_account. destruct (find_user _ us) as [u|]; [|done]. intros H. run_result. cbn [ats_walletHash].
  destruct (as_walletHash x) as [[|b h]|]; [by auto| |by auto].
  match goal with H : negb _ = false |- _ => apply negb_false_iff, String.eqb_eq in H; rewrite H; auto end.
Qed.

(** C8: what a wallet rotation ends.  Let a rotation of an account commit, and let a later
    account check of the guard accept a request under one of the account's sessions.
    If the guard read that session after the rotation, the session was opened since and
    is bound to the wallet the account has when the request is accepted: every session of
    the time before is dead.  If the guard had read it before the rotation, the session
    is a legacy one that names no wallet, or the account has by now the wallet the
    session names. *)
Theorem wallet_rotation_ends_sessions db s s1 s3 uid c now auditId n x a :
  start_ok sha256 db -> rtc auth_step (auth_init db) s -> auth_step s s1 ->
  rotation_write sha256 uid c now auditId (sy_db s) = Ok (sy_db s1, n) ->
  as_userId x = uid -> rtc auth_step s1 s3 -> guard_account x (db_users (sy_db s3)) = Ok a ->
  (forall s2 header t, rtc auth_step s1 s2 -> rtc auth_step s2 s3 ->
     guard_session sha256 header t (db_sessions (sy_db s2)) = Ok x ->
     (as_tokenHash x ∉ sy_hashes s) /\ as_walletHash x = Some (ats_walletHash a)) /\
  (forall s0 header t, rtc auth_step (auth_init db) s0 -> rtc auth_step s0 s ->
     guard_session sha256 header t (db_sessions (sy_db s0)) = Ok x ->
     as_walletHash x = None \/ as_walletHash x = Some EmptyString \/ as_walletHash x = Some (ats_walletHash a)).
Proof.
  intros Hok H Hstep Hw Hu Hrun3 Ha. split; [|intros; by eapply guard_account_wallet].
  intros s2 header t Hrun _ Hg.
  assert (auth_inv s1) as Hi by (eapply auth_step_inv; [exact Hstep|by eapply auth_reachable]).
  assert (forall y, y ∈ db_sessions (sy_db s1) -> as_userId y = uid -> is_Some (as_revokedAt y)) as Hall.
  { unfold rotation_write in Hw. run_result. destruct (revoke_user_sessions _ _ _) as [ss m] eqn:Hr. run_result.
    destruct (create_audit _ _ _ _) as [|[]]; [|done..]. injection Hw as <- _. cbn. intros y Hy Huy.
    by eapply revoke_user_dead. }
  split; [eapply ended_sessions_refused; [exact Hi|by apply step_hashes|exact Hall|exact Hrun|exact Hg|exact Hu]|].
  assert (auth_inv s2 /\ bound_only uid s2) as [_ Hb].
  { eapply (rtc_invariant auth_step (fun s => auth_inv s /\ bound_only uid s)); [|exact Hrun|].
    - intros a1 a2 Hs [Hi1 Hb1]. split; [by eapply auth_step_inv|by eapply bound_only_step].
    - split; [done|]. intros y Hy Huy Hn. destruct (Hall y Hy Huy) as [v Hv]. congruence. }
  apply guard_session_validate in Hg as (token & Hv).
  assert (as_revokedAt x = None) as Hn.
  { unfold validate in Hv. destruct (hashToken _ _); [|done]. destruct (findSessionByHash _ _); [|done]. run_result.
    by reflect_hyps. }
  destruct (Hb x) as [w Hx]; [by eapply validate_hash|done|done|]. rewrite Hx. f_equal. symmetry. by eapply guard_account_bound.
Qed.
End system.

(** ** Witnesses *)

Lemma demo_start_sessions st : start_ok demo_digest (demo_accounts st demo_sessions).
Proof. destruct st; split; demo_wf. Qed.

Lemma accounts_and_sessions_wf_witness :
  exists s, length (sy_opened s) = 1%nat /\ users_wf demo_digest (db_users (sy_db s)) /\ sessions_wf (db_sessions (sy_db s)).
Proof.
  destruct demo_sign_in as (s & H & _ & _ & _ & _ & _ & Hl). exists s. split; [exact Hl|].
  eapply (accounts_and_sessions_wf demo_digest demo_url demo_valid demo_verify "https://app" "net"
    (demo_accounts ResourceStatus.ACTIVE [])); [split; demo_wf|exact H].
Defined.

(** The worker signs out. *)
Lemma demo_sign_out :
  exists s x, rtc demo_step (auth_init (demo_accounts ResourceStatus.ACTIVE demo_sessions)) s /\
    x ∈ db_sessions (sy_db s) /\ is_Some (as_revokedAt x) /\
    as_tokenHash x = demo_digest (generateToken demo_digest "session-00000002" demo_secret).1.
Proof.
  eexists _, _. split; [|split].
  - norm_state. request "session-00000002" 1000. flight; [eapply fs_logout with (now := 1001)|]. apply rtc_refl.
  - cbn. right. left.
  - split; [by eexists|reflexivity].
Qed.

Lemma revoked_token_refused_witness :
  exists s e, validate demo_digest (generateToken demo_digest "session-00000002" demo_secret).1 2000
    (db_sessions (sy_db s)) = Err e.
Proof.
  destruct demo_sign_out as (s & x & H & Hx & Hr & Hh). exists s.
  exact (revoked_token_refused demo_digest demo_url demo_valid demo_verify "https://app" "net" _ s s x _ 2000
    (demo_start_sessions _) H Hx Hr Hh (rtc_refl _ _)).
Defined.

Lemma revoked_account_locked_out_witness :
  guard_account (demo_session "worker" "GWORKER" "session-00000002")
    (db_users (demo_accounts ResourceStatus.REVOKED demo_sessions)) = Err AccountInactive.
Proof.
  exact (revoked_account_locked_out demo_digest demo_url demo_valid demo_verify "https://app" "net"
    (demo_accounts ResourceStatus.REVOKED demo_sessions) (auth_init (demo_accounts ResourceStatus.REVOKED demo_sessions))
    (auth_init (demo_accounts ResourceStatus.REVOKED demo_sessions))
    (demo_user "worker" "GWORKER" UserRole.WORKER ResourceStatus.REVOKED)
    (demo_session "worker" "GWORKER" "session-00000002") (demo_start_sessions _) (rtc_refl _ _)
    eq_refl eq_refl (rtc_refl _ _) eq_refl).
Defined.

(** The administrator reinstates the worker, who then signs in. *)
Lemma demo_reinstate :
  exists s s1 s2 q n x, rtc demo_step (auth_init (demo_accounts ResourceStatus.SUSPENDED demo_sessions)) s /\
    demo_step s s1 /\ status_write q 1100 "audit-1" (sy_db s) = Ok (sy_db s1, n) /\
    transitionRevokesSessions (ph_previous q) (ph_status q) = true /\ rtc demo_step s1 s2 /\
    guard_session demo_digest (Some (demo_bearer "session-00000003")) 2000 (db_sessions (sy_db s2)) = Ok x /\
    as_userId x = ph_userId q.
Proof.
  eexists _, _, _, {| ph_actorId := "admin"; ph_userId := "worker"; ph_previous := ResourceStatus.SUSPENDED;
    ph_status := ResourceStatus.ACTIVE; ph_reason := None |}, _, _. split_and!.
  - norm_state. request "session-00000000" 1000.
    flight; [eapply fs_status_read with (uid := "worker") (st := ResourceStatus.ACTIVE) (reason := None); reflexivity|].
    apply rtc_refl.
  - eapply as_flight with (fs1 := []). eapply fs_status_write with (now := 1100) (auditId := "audit-1"). reflexivity.
  - reflexivity.
  - reflexivity.
  - norm_state. sign_in "GWORKER" 1200 "session-00000003". apply rtc_refl.
  - vm_compute. reflexivity.
  - reflexivity.
Qed.

Lemma status_change_ends_sessions_witness :
  exists s s1 x, demo_step s s1 /\ (as_tokenHash x ∉ sy_hashes s).
Proof.
  destruct demo_reinstate as (s & s1 & s2 & q & n & x & H & Hs & Hw & Ht & H2 & Hg & Hu). exists s, s1, x. split; [exact Hs|].
  exact (status_change_ends_sessions demo_digest demo_url demo_valid demo_verify "https://app" "net" _ s s1 s2 q _ _ n _ _ x
    (demo_start_sessions _) H Hs Hw Ht H2 Hg Hu).
Defined.

(** The worker moves to another wallet and signs in with it. *)
Lemma demo_rebind :
  exists s s1 s2 c n x a, rtc demo_step (auth_init (demo_accounts ResourceStatus.ACTIVE demo_sessions)) s /\
    demo_step s s1 /\ rotation_write demo_digest "worker" c 1010 "audit-1" (sy_db s) = Ok (sy_db s1, n) /\
    rtc demo_step s1 s2 /\
    guard_session demo_digest (Some (demo_bearer "session-00000003")) 2000 (db_sessions (sy_db s2)) = Ok x /\
    as_userId x = "worker" /\ guard_account x (db_users (sy_db s2)) = Ok a.
Proof.
  eexists _, _, _, demo_rotation, _, _, _. split_and!.
  - norm_state. request "session-00000002" 1000.
    flight; [eapply fs_initiate with (w := "GOTHER") (origin := None) (rid := "r1") (nonce := "m") (now := 1001); reflexivity|].
    request "session-00000002" 1005.
    flight; [eapply fs_rotation_consume with (rid := "r1") (sig := "GWORKER") (newSig := "GOTHER") (origin := None)
      (now := 1010); reflexivity|].
    flight; [eapply fs_rotation_check; reflexivity|]. flight; [eapply fs_bound; reflexivity|]. apply rtc_refl.
  - eapply as_flight with (fs1 := []). eapply fs_rotation_write with (auditId := "audit-1"). reflexivity.
  - reflexivity.
  - norm_state. sign_in "GOTHER" 1200 "session-00000003". apply rtc_refl.
  - vm_compute. reflexivity.
  - reflexivity.
  - vm_compute. reflexivity.
Qed.

Lemma wallet_rotation_ends_sessions_witness :
  exists s s1 x a, demo_step s s1 /\ (as_tokenHash x ∉ sy_hashes s) /\ as_walletHash x = Some (ats_walletHash a).
Proof.
  destruct demo_rebind as (s & s1 & s2 & c & n & x & a & H & Hs & Hw & H2 & Hg & Hu & Ha). exists s, s1, x, a.
  split; [exact Hs|].
  exact (proj1 (wallet_rotation_ends_sessions demo_digest demo_url demo_valid demo_verify "https://app" "net" _ s s1 s2 _ c _ _ n
    x a (demo_start_sessions _) H Hs Hw Hu H2 Ha) s2 _ _ H2 (rtc_refl _ _) Hg).
Defined.

(** A session of the time before sessions named their wallet. *)
Definition legacy_session : AuthSession :=
  let x := demo_session "worker" "GWORKER" "session-00000009" in
  {| as_core := {| ss_id := as_id x; ss_tokenHash := as_tokenHash x; ss_userId := as_userId x; ss_walletHash := None;
                   ss_createdAt := ss_createdAt (as_core x); ss_expiresAt := as_expiresAt x;
                   ss_firstSeenAt := ss_firstSeenAt (as_core x); ss_deviceFingerprint := None |};
     as_lastUsedAt := None; as_revokedAt := None; as_deviceLabel := as_deviceLabel x; as_lastSeenAt := as_lastSeenAt x;
     as_revocationReason := None; as_rotatedToId := None |}.

(** A request under a legacy session that the guard has read when a rotation commits is
    accepted after it, for the new wallet. *)
Lemma legacy_request_survives_rotation :
  exists s s1 n a,
    rtc demo_step (auth_init (demo_accounts ResourceStatus.ACTIVE (demo_sessions ++ [legacy_session]))) s /\
    FSeen legacy_session ∈ sy_flights s /\ demo_step s s1 /\
    rotation_write demo_digest "worker" demo_rotation 1010 "audit-1" (sy_db s) = Ok (sy_db s1, n) /\
    guard_account legacy_session (db_users (sy_db s1)) = Ok a /\ ats_walletAddress a = "GOTHER".
Proof.
  eexists _, _, _, _. split_and!.
  - norm_state.
    outside; [eapply os_request with (header := Some (demo_bearer "session-00000009")) (now := 1000); reflexivity|].
    request "session-00000002" 1000.
    flight; [eapply fs_initiate with (w := "GOTHER") (origin := None) (rid := "r1") (nonce := "m") (now := 1001); reflexivity|].
    request "session-00000002" 1005.
    flight; [eapply fs_rotation_consume with (rid := "r1") (sig := "GWORKER") (newSig := "GOTHER") (origin := None)
      (now := 1010); reflexivity|].
    flight; [eapply fs_rotation_check; reflexivity|]. flight; [eapply fs_bound; reflexivity|]. apply rtc_refl.
  - cbn. right. left.
  - eapply as_flight with (fs1 := []). eapply fs_rotation_write with (auditId := "audit-1"). reflexivity.
  - reflexivity.
  - vm_compute. reflexivity.
  - reflexivity.
Qed.
