(* ===== verification/AuthRequestFacts.v ===== *)
(** * Single account requests

    What one status change, role change, wallet rotation, sign-in attempt or
    device label does, and what a signed message determines. *)

From S2P Require Import Prelude JsData Encoding Schema IsoDate Canonical AuditChain ProofStore Issuance Accounts Sessions WalletAuth.
From S2P Require Import AuthSystem AuthFacts.
From Stdlib Require Import Ascii.

Local Open Scope string_scope.
Local Open Scope Z_scope.
#[local] Arguments String.append !_ _ : simpl nomatch.

(** ** The shared audit slot *)

(** account changes record their audit row through the transaction's own
    delegate, so once its place is taken no account can be suspended, revoked or
    reinstated, no role changed, and every wallet rotation that gets that far is
    refused with the message that the new wallet is bound to another account. *)
Theorem audit_slot_blocks_account_changes sha256 db q qr uid c now auditId :
  slot_taken (db_store db) ->
  (exists e, status_write q now auditId db = Err e) /\ (exists e, role_write qr now auditId db = Err e) /\
  (exists e, rotation_write sha256 uid c now auditId db = Err e) /\
  (let w u := user_id uid u && user_wallet (wr_currentWalletAddress c) u in
   count_where w (db_users db) = 1%nat ->
   (forall u, u ∈ db_users db -> ac_walletAddress u <> wr_newWalletAddress c) ->
   (forall u, u ∈ db_users db -> ac_walletHash u <> walletHash sha256 (wr_newWalletAddress c)) ->
   count_where (rotation_id (wr_id c)) (db_rotations db) <> 0%nat ->
   rotation_write sha256 uid c now auditId db = Err (Some REPLACEMENT_UNAVAILABLE, ReplacementBound)).
Proof.
  intros Hs. split_and!.
  - unfold status_write. destruct (throw_if _ _); cbn; [|eauto].
    destruct (if transitionRevokesSessions _ _ then _ else _). rewrite create_audit_refused by done. eauto.
  - unfold role_write. destruct (throw_if _ _); cbn; [|eauto]. rewrite create_audit_refused by done. eauto.
  - unfold rotation_write. destruct (throw_if (_ && _) _); cbn; [|eauto].
    destruct (throw_if _ (Some IDENTITY_CHANGED, _)); cbn; [|eauto].
    destruct (throw_if _ (None, _)); cbn; [|eauto]. rewrite create_audit_refused by done. eauto.
  - intros w Hone Hw Hh Hr. unfold rotation_write. fold w. rewrite Hone. cbn [Nat.eqb negb andb].
    rewrite (bool_decide_eq_false_2 (wr_newWalletAddress c ∈ _)).
    2:{ intros (u & Hu & [Hin _]%elem_of_filter_bool)%list_elem_of_fmap. by apply (Hw u Hin). }
    rewrite (bool_decide_eq_false_2 (walletHash sha256 _ ∈ _)).
    2:{ intros (u & Hu & [Hin _]%elem_of_filter_bool)%list_elem_of_fmap. by apply (Hh u Hin). }
    cbn. apply Nat.eqb_neq in Hr. rewrite Hr. cbn. by rewrite create_audit_refused by done.
Qed.

(** ** Wallet rotation *)

(** a wallet rotation that commits gives the account the new wallet and its
    digest, changes no other account, and a second rotation issued for the same
    old wallet can then no longer commit. *)
Theorem wallet_rotation_exclusive sha256 uid c c2 now now2 auditId auditId2 db db1 n :
  users_wf sha256 (db_users db) -> wr_newWalletAddress c <> wr_currentWalletAddress c ->
  rotation_write sha256 uid c now auditId db = Ok (db1, n) ->
  (forall u, u ∈ db_users db1 -> ac_id u = uid -> ac_walletAddress u = wr_newWalletAddress c /\
     ac_walletHash u = walletHash sha256 (wr_newWalletAddress c)) /\
  (forall u, ac_id u <> uid -> u ∈ db_users db1 <-> u ∈ db_users db) /\
  (wr_currentWalletAddress c2 = wr_currentWalletAddress c ->
   rotation_write sha256 uid c2 now2 auditId2 db1 = Err (Some IDENTITY_CHANGED, RotationIdentity)).
Proof.
  intros Hwf Hne H. unfold rotation_write in H. tables.
  match goal with H : negb (_ =? 1)%nat = false |- _ => apply negb_false_iff, Nat.eqb_eq in H as Hone end.
  destruct (count_where_one _ _ Hone) as (l1 & u & l2 & Heq & Hu & Hupd). rewrite Hupd.
  apply andb_true_iff in Hu as [Hid%String.eqb_eq Hw%String.eqb_eq].
  destruct Hwf as [Hids _ _]. rewrite Heq, fmap_app, fmap_cons in Hids. apply NoDup_app in Hids as (_ & Hd & [Hn _]%NoDup_cons).
  assert (forall v, v ∈ l1 \/ v ∈ l2 -> ac_id v <> uid) as Hother.
  { intros v [Hv|Hv] E; [apply (Hd (ac_id v)); [by apply list_elem_of_fmap_2|rewrite E, <- Hid; set_solver]|].
    apply Hn. rewrite Hid, <- E. by apply list_elem_of_fmap_2. }
  split_and!.
  - intros v Hv E. rewrite elem_of_app, elem_of_cons in Hv. destruct Hv as [Hv|[->|Hv]]; [|done|];
      exfalso; by apply (Hother v); auto.
  - intros v E. rewrite Heq, !elem_of_app, !elem_of_cons. split; (intros [Hv|[->|Hv]]; auto); by destruct E.
  - intros Hc2. unfold rotation_write.
    match goal with |- context [count_where ?w ?t] => assert (count_where w t = 0%nat) as ->; [apply count_where_none|done] end.
    cbn [db_users set_users set_sessions set_rotations set_store]. intros v Hv. rewrite Hc2. apply andb_false_iff. rewrite elem_of_app, elem_of_cons in Hv.
    unfold user_id, user_wallet. rewrite !String.eqb_neq. destruct Hv as [Hv|[->|Hv]]; [left; auto|by right|left; auto].
Qed.

(** ** Signed messages *)

Definition newline_free (s : string) : Prop := all_chars (fun c => negb (Ascii.eqb c "010")) s = true.

Lemma line_inj a b x y :
  newline_free a -> newline_free b ->
  String.append a (String.append newline x) = String.append b (String.append newline y) -> a = b /\ x = y.
Proof.
  revert b. induction a as [|c a IH]; intros [|d b] Ha Hb; cbn in *.
  - by intros [= ->].
  - intros [= <- _]. unfold newline_free in Hb. by cbn in Hb.
  - intros [= -> _]. unfold newline_free in Ha. by cbn in Ha.
  - intros [= -> H]. unfold newline_free in *. cbn in Ha, Hb. reflect_hyps.
    destruct (IH b) as [-> ->]; done.
Qed.

Lemma newline_free_append a b : newline_free a -> newline_free b -> newline_free (String.append a b).
Proof.
  unfold newline_free. induction a as [|c a IH]; cbn; [done|]. intros [-> Ha]%andb_true_iff Hb. auto.
Qed.

(** The fields of a binding that come before its expiry, on one line each. *)
Record binding_clean (b : Binding) : Prop := {
  bc_origin : newline_free (bi_origin b);
  bc_user : newline_free (bi_userId b);
  bc_current : newline_free (bi_currentWalletAddress b);
  bc_new : newline_free (bi_newWalletAddress b);
  bc_rotation : newline_free (bi_rotationId b);
  bc_nonce : newline_free (bi_nonce b);
}.

Ltac peel := match goal with H : String.append ?p (String.append newline _) = String.append ?q (String.append newline _) |- _ =>
  apply line_inj in H as [? H]; [|first [done|apply newline_free_append; [done|first [done|match goal with |- context [match ?x with _ => _ end] => by destruct x end]]]..] end.

(** a message signed for a wallet rotation determines the deployment, the role
    of the key, the account, both wallets, the rotation and its nonce; and it is
    never the message of a sign-in. *)
Theorem rotation_message_binds url net b signer url' net' b' signer' :
  newline_free url -> newline_free net -> newline_free url' -> newline_free net' ->
  binding_clean b -> binding_clean b' ->
  (buildMessage url net b signer = buildMessage url' net' b' signer' ->
   url = url' /\ net = net' /\ signer = signer' /\ bi_origin b = bi_origin b' /\ bi_userId b = bi_userId b' /\
   bi_currentWalletAddress b = bi_currentWalletAddress b' /\ bi_newWalletAddress b = bi_newWalletAddress b' /\
   bi_rotationId b = bi_rotationId b' /\ bi_nonce b = bi_nonce b' /\
   iso_text (bi_expiresAt b) = iso_text (bi_expiresAt b')) /\
  (forall wallet nonce expiresAt, buildMessage url net b signer <> login_message url' net' wallet nonce expiresAt).
Proof.
  intros Hu Hn Hu' Hn' [] []. split; [|by intros].
  unfold buildMessage. cbn [String.concat]. intros H. do 10 peel.
  assert (signer = signer') as -> by (by destruct signer, signer').
  repeat match goal with H : String.append ?p _ = String.append ?p _ |- _ => apply append_inj in H end. done.
Qed.

(** ** Rate limits *)

Lemma count_verified_zero sha256 wallet win now es :
  (forall e, e ∈ es -> ev_eventType e <> AuthEventType.CHALLENGE_VERIFIED) ->
  getEventCount sha256 wallet AuthEventType.CHALLENGE_VERIFIED win now es = 0 /\
  getClientEventCount sha256 wallet AuthEventType.CHALLENGE_VERIFIED win now es = 0.
Proof.
  intros H. unfold getEventCount, getClientEventCount. rewrite !count_where_none; [done| |];
    (intros e He; rewrite (bool_decide_eq_false_2 _ (H e He)); by rewrite andb_false_r).
Qed.

(** the limit on verifications counts successful sign-ins only: whatever number
    of failed attempts a wallet or a client has on record, the next attempt is let
    through. *)
Theorem failed_attempts_never_limited sha256 valid cfg i now db :
  valid (li_walletAddress i) = true -> 0 < maxVerifications cfg ->
  (forall e, e ∈ db_events db -> ev_eventType e <> AuthEventType.CHALLENGE_VERIFIED) ->
  login_begin sha256 valid cfg i now db = (db, Ok tt).
Proof.
  intros Hv Hm He. unfold login_begin, checkVerificationLimit, check_limit. rewrite Hv. cbn [negb].
  destruct (count_verified_zero sha256 (li_walletAddress i) (verificationWindowMs cfg) now (db_events db) He) as [-> _].
  rewrite (proj2 (Z.leb_gt _ _) Hm). destruct (li_clientMetadata i) as [[|ch m]|]; [done| |done].
  destruct (count_verified_zero sha256 (String ch m) (verificationWindowMs cfg) now (db_events db) He) as [_ ->].
  by rewrite (proj2 (Z.leb_gt _ _) Hm).
Qed.

(** ** Device labels *)

Definition excludes (bad : list ascii) (s : string) : bool := all_chars (fun c => negb (existsb (Ascii.eqb c) bad)) s.

Lemma excludes_append bad a b : excludes bad a = true -> excludes bad b = true -> excludes bad (String.append a b) = true.
Proof.
  unfold excludes. induction a as [|c a IH]; [done|]. cbn. intros [-> Ha]%andb_true_iff Hb. auto.
Qed.

(** Replacing a character removes it. *)
Lemma replace_excludes c by_ bad s :
  excludes (c :: bad) by_ = true -> excludes bad s = true -> excludes (c :: bad) (replace_all c by_ s) = true.
Proof.
  intros Hb. induction s as [|d s IH]; [done|]. unfold excludes. cbn. intros [Hd Hs]%andb_true_iff. specialize (IH Hs).
  destruct (Ascii.eqb_spec c d) as [->|Hne]; [exact (excludes_append (d :: bad) _ _ Hb IH)|]. cbn.
  destruct (Ascii.eqb_spec d c) as [->|_]; [done|]. cbn. rewrite Hd. exact IH.
Qed.

Lemma excludes_substring bad n s : excludes bad s = true -> excludes bad (String.substring 0 n s) = true.
Proof.
  unfold excludes. revert n. induction s as [|c s IH]; intros [|n]; [done..|]. cbn. intros [-> Hs]%andb_true_iff. by apply IH.
Qed.

Lemma length_substring n s : (String.length (String.substring 0 n s) <= n)%nat.
Proof. revert s. induction n as [|n IH]; intros [|c s]; cbn; [lia..|]. specialize (IH s). lia. Qed.

(** a device label, derived or chosen, is at most eighty characters long and
    has no character that is special in HTML text or attributes except the
    ampersand. *)
Theorem device_label_inert value :
  (String.length (escapeLabel value) <= 80)%nat /\
  excludes [apostrophe; quote; ">"%char; "<"%char] (escapeLabel value) = true.
Proof.
  split; [apply length_substring|]. apply excludes_substring. unfold escape_chars.
  repeat (apply replace_excludes; [reflexivity|]). generalize (replace_all "&" "&amp;" (trim value)).
  intros s. unfold excludes. induction s as [|c s IH]; [done|exact IH].
Qed.

(** ** Witnesses *)

(** The deployment after an administrator's change took the audit slot. *)
Definition demo_taken : AuthDb :=
  set_rotations [{| wr_core := demo_rotation; wr_status := WalletRotationStatus.PENDING; wr_failureReason := None;
                    wr_consumedAt := Some 1010; wr_completedAt := None |}]
    (set_store {| proofs := []; intents := []; audit := [unchained_row "audit-0" 0 (user_audit "user.role_changed" "admin" "worker" JNull)] |}
      (demo_accounts ResourceStatus.ACTIVE demo_sessions)).

Lemma audit_slot_blocks_account_changes_witness :
  rotation_write demo_digest "worker" demo_rotation 1010 "audit-1" demo_taken
    = Err (Some REPLACEMENT_UNAVAILABLE, ReplacementBound).
Proof.
  refine (proj2 (proj2 (proj2 (audit_slot_blocks_account_changes demo_digest demo_taken
    {| ph_actorId := "admin"; ph_userId := "worker"; ph_previous := ResourceStatus.ACTIVE;
       ph_status := ResourceStatus.SUSPENDED; ph_reason := None |}
    {| pl_actorId := "admin"; pl_userId := "worker"; pl_previous := UserRole.WORKER; pl_role := UserRole.ISSUER |}
    "worker" demo_rotation 1010 "audit-1" _))) _ _ _ _).
  - left.
  - reflexivity.
  - intros u Hu. repeat (apply elem_of_cons in Hu as [->|Hu]; [discriminate|]). by apply not_elem_of_nil in Hu.
  - intros u Hu. repeat (apply elem_of_cons in Hu as [->|Hu]; [discriminate|]). by apply not_elem_of_nil in Hu.
  - discriminate.
Defined.

Lemma wallet_rotation_exclusive_witness :
  exists db n, rotation_write demo_digest "worker" demo_rotation 1010 "audit-1"
      (set_store {| proofs := []; intents := []; audit := [] |} demo_taken) = Ok (db, n) /\
    rotation_write demo_digest "worker" demo_rotation 1020 "audit-2" db = Err (Some IDENTITY_CHANGED, RotationIdentity).
Proof.
  eexists _, _. split; [reflexivity|].
  refine (proj2 (proj2 (wallet_rotation_exclusive demo_digest "worker" demo_rotation demo_rotation 1010 1020 "audit-1" "audit-2"
    (set_store {| proofs := []; intents := []; audit := [] |} demo_taken) _ _ _ _ _)) _).
  - demo_wf.
  - discriminate.
  - reflexivity.
  - reflexivity.
Defined.

Lemma rotation_message_binds_witness :
  buildMessage "https://app" "net" demo_binding SignerCurrent <> login_message "https://app" "net" "GWORKER" "n" 0.
Proof.
  refine (proj2 (rotation_message_binds "https://app" "net" demo_binding SignerCurrent "https://app" "net" demo_binding
    SignerCurrent _ _ _ _ _ _) "GWORKER" "n" 0); try reflexivity; by split.
Defined.

Lemma failed_attempts_never_limited_witness :
  let failed := attempt demo_digest AuthEventType.SIGNATURE_INVALID (demo_login "GWORKER") (Some "Invalid signature") 1000 in
  login_begin demo_digest demo_valid default_limits (demo_login "GWORKER") 1001
    (set_events (repeat failed 100) (demo_accounts ResourceStatus.ACTIVE []))
  = (set_events (repeat failed 100) (demo_accounts ResourceStatus.ACTIVE []), Ok tt).
Proof.
  intros failed. apply failed_attempts_never_limited; [reflexivity|reflexivity|].
  intros e He. apply list_elem_of_In, repeat_spec in He as ->. discriminate.
Defined.
