(* ===== verification/RecentAuth.v ===== *)
(** * Recent-authentication assertions

    Model of [src/auth/recent-auth.service.ts] and of the guard
    [src/common/guards/recent-auth.guard.ts].  Each call is one statement on the
    [RecentAuthAssertion] table, apart from the read of the user id after a
    consumption. *)

From S2P Require Import Prelude JsData Encoding Issuance Sessions.

Local Open Scope string_scope.
Local Open Scope list_scope.
Local Open Scope Z_scope.

Inductive DestructiveAction :=
| ORG_DELETE | ISSUER_REVOKE | KEY_REVOKE | SESSION_REVOKE_ALL | KEY_CUTOVER | KEY_INSPECT.
#[export] Instance DestructiveAction_eq_dec : EqDecision DestructiveAction.
Proof. solve_decision. Defined.

Definition DEFAULT_ASSERTION_TTL_SECONDS : Z := 5 * 60.

Record RecentAuthAssertion := {
  ra_tokenHash : string;
  ra_userId : string;
  ra_action : DestructiveAction;
  ra_resourceId : string;
  ra_originHash : string;
  ra_network : string;
  ra_expiresAt : Z;
  ra_usedAt : option Z;
}.

Inductive RecentAuthError := AssertionRequired | AssertionNotYours | AssertionP2002.

Section service.
Context (sha256 : string -> string) (network : string).

Definition issue_assertion (userId : string) (action : DestructiveAction) (resourceId origin rawToken : string)
    (now : Z) (t : list RecentAuthAssertion) : result RecentAuthError (list RecentAuthAssertion) :=
  _ ← throw_if (bool_decide (sha256 rawToken ∈ ra_tokenHash <$> t)) AssertionP2002;
  Ok (t ++ [{| ra_tokenHash := sha256 rawToken; ra_userId := userId; ra_action := action; ra_resourceId := resourceId;
               ra_originHash := sha256 origin; ra_network := network;
               ra_expiresAt := now + DEFAULT_ASSERTION_TTL_SECONDS * 1000; ra_usedAt := None |}]).

(** What the update and the look-up of [verify] both require. *)
Definition usable_assertion (token : string) (action : DestructiveAction) (origin : string) (now : Z)
    (a : RecentAuthAssertion) : bool :=
  String.eqb (ra_tokenHash a) (sha256 token) && bool_decide (ra_action a = action) &&
  String.eqb (ra_originHash a) (sha256 origin) && String.eqb (ra_network a) network &&
  bool_decide (ra_usedAt a = None) && (now <? ra_expiresAt a).

Definition mark_used (now : Z) (a : RecentAuthAssertion) : RecentAuthAssertion :=
  {| ra_tokenHash := ra_tokenHash a; ra_userId := ra_userId a; ra_action := ra_action a;
     ra_resourceId := ra_resourceId a; ra_originHash := ra_originHash a; ra_network := ra_network a;
     ra_expiresAt := ra_expiresAt a; ra_usedAt := Some now |}.

(** [consume]: the table after it, and the user the assertion names. *)
Definition consume (token : string) (action : DestructiveAction) (resourceId origin : string) (now : Z)
    (t : list RecentAuthAssertion) : result RecentAuthError (list RecentAuthAssertion * string) :=
  let w a := usable_assertion token action origin now a && String.eqb (ra_resourceId a) resourceId in
  _ ← throw_if (count_where w t =? 0)%nat AssertionRequired;
  let t := update_where w (mark_used now) t in
  match find_where (fun a => String.eqb (ra_tokenHash a) (sha256 token)) t with
  | Some a => Ok (t, ra_userId a)
  | None => Err AssertionRequired       (* not reached: the row was just updated *)
  end.

Definition verify (token : string) (action : DestructiveAction) (origin : string) (now : Z)
    (t : list RecentAuthAssertion) : result RecentAuthError (string * string) :=
  _ ← throw_if (String.eqb (trim token) EmptyString) AssertionRequired;
  match find_where (usable_assertion token action origin now) t with
  | Some a => Ok (ra_userId a, ra_resourceId a)
  | None => Err AssertionRequired
  end.

Definition purgeExpired (now : Z) (t : list RecentAuthAssertion) : list RecentAuthAssertion :=
  List.filter (fun a => negb (ra_expiresAt a <? now)) t.

(** The guard of a route with an action. *)
Definition recent_guard (sessionUserId : string) (header origin : option string) (action : DestructiveAction)
    (now : Z) (t : list RecentAuthAssertion) : result RecentAuthError string :=
  let token := match header with Some h => trim h | None => EmptyString end in
  _ ← throw_if (String.eqb token EmptyString) AssertionRequired;
  let origin := match origin with
                | Some o => if String.eqb (trim o) EmptyString then "null" else trim o
                | None => "null" end in
  r ← verify token action origin now t;
  _ ← throw_if (negb (String.eqb r.1 sessionUserId)) AssertionNotYours;
  Ok r.1.

(** ** Runs *)

Inductive AssertionCall :=
| RIssue (userId : string) (action : DestructiveAction) (resourceId origin rawToken : string)
| RConsume (token : string) (action : DestructiveAction) (resourceId origin : string)
| RPurge.

(** The table after a call, and the token hash it consumed. *)
Definition assertion_call (now : Z) (c : AssertionCall) (t : list RecentAuthAssertion)
    : list RecentAuthAssertion * list string :=
  match c with
  | RIssue u a r o raw => (match issue_assertion u a r o raw now t with Ok t' => t' | Err _ => t end, [])
  | RConsume token a r o =>
      match consume token a r o now t with Ok (t', _) => (t', [sha256 token]) | Err _ => (t, []) end
  | RPurge => (purgeExpired now t, [])
  end.

Fixpoint assertion_run (calls : list (Z * AssertionCall)) (t : list RecentAuthAssertion)
    : list RecentAuthAssertion * list string :=
  match calls with
  | [] => (t, [])
  | (now, c) :: calls =>
      let r := assertion_call now c t in let r' := assertion_run calls r.1 in (r'.1, r.2 ++ r'.2)
  end.

Definition issued_hashes (calls : list (Z * AssertionCall)) : list string :=
  omap (fun c => match c.2 with RIssue _ _ _ _ raw => Some (sha256 raw) | _ => None end) calls.

(** ** Facts *)

Lemma consume_Ok token action resource origin now t t' u :
  consume token action resource origin now t = Ok (t', u) ->
  t' = update_where (fun a => usable_assertion token action origin now a && String.eqb (ra_resourceId a) resource)
         (mark_used now) t /\
  exists a, a ∈ t /\ usable_assertion token action origin now a = true /\ ra_resourceId a = resource.
Proof.
  unfold consume. intros (x & Hc & H)%bind_Ok. apply throw_if_Ok, Nat.eqb_neq in Hc.
  destruct (find_where _ _) as [b|]; [|done]. injection H as <- _. split; [done|].
  destruct (count_where_pos _ _ Hc) as (a & Ha & [Hu Hr%String.eqb_eq]%andb_true_iff). eauto.
Qed.

(** an assertion is consumed only for the action, resource, origin and network
    it was issued for and before it expires, and the user reported is the one it
    was issued to. *)
Theorem assertion_binds_request token action resource origin now t t' u :
  NoDup (ra_tokenHash <$> t) -> consume token action resource origin now t = Ok (t', u) ->
  exists a, a ∈ t /\ ra_tokenHash a = sha256 token /\ ra_action a = action /\ ra_resourceId a = resource /\
    ra_originHash a = sha256 origin /\ ra_network a = network /\ ra_usedAt a = None /\ now < ra_expiresAt a /\
    ra_userId a = u.
Proof.
  intros Hnd H. pose proof (consume_Ok _ _ _ _ _ _ _ _ H) as (-> & a & Ha & Hu & Hr). exists a.
  unfold usable_assertion in Hu. reflect_hyps. repeat match goal with H : String.eqb _ _ = true |- _ => apply String.eqb_eq in H end.
  split_and!; try done. unfold consume in H. run_result. destruct (find_where _ _) as [b|] eqn:Hf; [|done].
  apply find_where_Some in Hf as [(b0 & Hb0 & ->)%elem_of_update_where Hb%String.eqb_eq]. injection H as <-.
  replace b0 with a; [by destruct (usable_assertion token action origin now a && _)|]. apply (key_unique ra_tokenHash t); [done..|].
  by destruct (usable_assertion _ _ _ _ b0 && _); cbn in Hb; congruence.
Qed.

(** an assertion issued for any resource, which is the default, passes the check
    of the guard for its action, and yet cannot be consumed for any resource. *)
Theorem wildcard_assertion_unusable userId action origin rawToken now t t' resource :
  issue_assertion userId action "*" origin rawToken now t = Ok t' -> trim rawToken <> EmptyString -> resource <> "*" ->
  verify rawToken action origin now t' = Ok (userId, "*") /\
  forall action' origin' now', consume rawToken action' resource origin' now' t' = Err AssertionRequired.
Proof.
  intros H Htrim Hne. unfold issue_assertion in H. run_result. reflect_hyps.
  assert (forall a, a ∈ t -> String.eqb (ra_tokenHash a) (sha256 rawToken) = false) as Hother.
  { intros a Ha. apply String.eqb_neq. intros E. match goal with H : _ ∉ _ |- _ => apply H end. rewrite <- E.
    by apply list_elem_of_fmap_2. }
  split.
  - unfold verify. rewrite (proj2 (String.eqb_neq _ _) Htrim). cbn. rewrite find_where_app.
    rewrite (proj2 (find_where_None _ t)).
    + cbn. unfold usable_assertion. cbn. rewrite !String.eqb_refl, bool_decide_true by done.
      by rewrite (proj2 (Z.ltb_lt now _)) by (unfold DEFAULT_ASSERTION_TTL_SECONDS; lia).
    + apply Forall_forall. intros a Ha. unfold usable_assertion. by rewrite Hother.
  - intros action' origin' now'. unfold consume. rewrite count_where_none; [done|].
    intros a [Ha| ->%list_elem_of_singleton]%elem_of_app; unfold usable_assertion; [by rewrite Hother|].
    cbn [ra_resourceId]. rewrite (proj2 (String.eqb_neq "*" resource)) by congruence. by rewrite andb_false_r.
Qed.

Record assertions_wf (t : list RecentAuthAssertion) (spent : list string) : Prop := {
  aw_hashes : NoDup (ra_tokenHash <$> t);
  aw_spent : forall a, a ∈ t -> ra_tokenHash a ∈ spent -> is_Some (ra_usedAt a);
}.

Lemma call_wf now c t spent :
  (forall h, h ∈ issued_hashes [(now, c)] -> h ∉ spent) -> assertions_wf t spent ->
  let r := assertion_call now c t in
  assertions_wf r.1 (r.2 ++ spent) /\ (forall h, h ∈ r.2 -> h ∉ spent).
Proof.
  intros Hnew [W1 W2]. destruct c as [u a r o raw|token a r o|]; cbn.
  - split; [|set_solver]. unfold issue_assertion. case_bool_decide as Hin; cbn; [by split|]. split.
    + by apply NoDup_fmap_snoc.
    + intros b [Hb| ->%list_elem_of_singleton]%elem_of_app; [auto|]. cbn. intros Hs. exfalso.
      apply (Hnew (sha256 raw)); [|done]. cbn. by left.
  - destruct (consume token a r o now t) as [[t' u]|e] eqn:Hc; cbn; [|split; [by split|set_solver]].
    apply consume_Ok in Hc as (-> & b & Hb & Hu & Hr). set (w := fun _ => _ && _).
    assert (ra_tokenHash b = sha256 token /\ ra_usedAt b = None) as [Hbh Hbu].
    { unfold usable_assertion in Hu. reflect_hyps. split; [by apply String.eqb_eq|done]. }
    split; [split|].
    + replace (ra_tokenHash <$> update_where w (mark_used now) t) with (ra_tokenHash <$> t); [done|].
      unfold update_where. rewrite <- list_fmap_compose. apply list_fmap_ext. intros _ x _. cbn. by destruct (w x).
    + intros x (x0 & Hx0 & ->)%elem_of_update_where Hs.
      destruct (w x0) eqn:E; [by eexists|]. apply elem_of_cons in Hs as [Hs|Hs]; [|auto].
      assert (x0 = b) as -> by (apply (key_unique ra_tokenHash t); [done..|congruence]).
      unfold w in E. by rewrite Hu, Hr, String.eqb_refl in E.
    + intros h ->%list_elem_of_singleton Hs. rewrite <- Hbh in Hs. destruct (W2 b Hb Hs) as [v Hv]. congruence.
  - split; [|set_solver]. split.
    + eapply sublist_NoDup; [exact W1|]. apply fmap_sublist. clear. unfold purgeExpired.
      induction t as [|x t IH]; cbn; [done|]. destruct (negb _); [by apply sublist_skip|by apply sublist_cons].
    + intros x [Hx _]%elem_of_filter_bool. auto.
Qed.

(** The hashes a call adds to the table, and the one it takes from it. *)
Lemma call_hashes now c t :
  (forall h, h ∈ ra_tokenHash <$> (assertion_call now c t).1 -> h ∈ issued_hashes [(now, c)] \/ h ∈ ra_tokenHash <$> t) /\
  (forall h, h ∈ (assertion_call now c t).2 -> h ∈ ra_tokenHash <$> t) /\ NoDup (assertion_call now c t).2.
Proof.
  destruct c as [u a r o raw|token a r o|]; cbn.
  - split_and!; [|set_solver|apply NoDup_nil_2]. unfold issue_assertion. case_bool_decide; cbn; [auto|].
    intros h. rewrite fmap_app. set_solver.
  - destruct (consume token a r o now t) as [[t' u]|e] eqn:Hc; cbn; [|split_and!; [auto|set_solver|apply NoDup_nil_2]].
    apply consume_Ok in Hc as (-> & b & Hb & Hu & _). split_and!; [| |apply NoDup_singleton].
    + intros h (x & -> & (x0 & Hx0 & ->)%elem_of_update_where)%list_elem_of_fmap. right.
      apply list_elem_of_fmap. exists x0. split; [by destruct (_ && _)|done].
    + intros h ->%list_elem_of_singleton. apply list_elem_of_fmap. exists b. split; [|done].
      unfold usable_assertion in Hu. reflect_hyps. symmetry. by apply String.eqb_eq.
  - split_and!; [|set_solver|apply NoDup_nil_2]. intros h (x & -> & [Hx _]%elem_of_filter_bool)%list_elem_of_fmap. right.
    by apply list_elem_of_fmap_2.
Qed.

Lemma run_consumes_once calls t (spent known : list string) :
  NoDup (issued_hashes calls) -> (forall h, h ∈ issued_hashes calls -> h ∉ known) ->
  (forall h, h ∈ ra_tokenHash <$> t \/ h ∈ spent -> h ∈ known) -> assertions_wf t spent ->
  NoDup (assertion_run calls t).2 /\ (forall h, h ∈ (assertion_run calls t).2 -> h ∉ spent).
Proof.
  revert t spent known. induction calls as [|[now c] calls IH]; intros t spent known Hnd Hnew Hk Hwf; cbn;
    [split; [apply NoDup_nil_2|set_solver]|].
  assert (issued_hashes ((now, c) :: calls) = issued_hashes [(now, c)] ++ issued_hashes calls) as Heq
    by (unfold issued_hashes; by destruct c).
  rewrite Heq in Hnd, Hnew. apply NoDup_app in Hnd as (_ & Hd & Hnd).
  destruct (call_wf now c t spent) as [Hwf' Hfresh]; [set_solver|done|].
  destruct (call_hashes now c t) as (Hh & Hc & Hone).
  destruct (IH (assertion_call now c t).1 ((assertion_call now c t).2 ++ spent) (issued_hashes [(now, c)] ++ known))
    as [IH1 IH2]; [done|set_solver| |done|].
  - intros h [Hin|Hin]; [destruct (Hh h Hin); set_solver|]. apply elem_of_app in Hin as [Hin|Hin]; set_solver.
  - split; [apply NoDup_app; split_and!; [done|set_solver|done]|set_solver].
Qed.

(** whatever calls issue, consume and purge assertions, in any order, no token is
    consumed twice, as long as tokens are not generated twice. *)
Theorem assertion_consumed_once calls : NoDup (issued_hashes calls) -> NoDup (assertion_run calls []).2.
Proof.
  intros Hnd. eapply (run_consumes_once calls [] [] []); [done|set_solver|set_solver|].
  split; [apply NoDup_nil_2|set_solver].
Qed.
End service.

(** ** Witnesses *)

Definition demo_hash (s : string) : string := String.append "h:" s.

(** An assertion is consumed, presented again, and another one purged. *)
Definition demo_assertion_calls : list (Z * AssertionCall) :=
  [(0, RIssue "u1" KEY_REVOKE "key-1" "null" "token-1"); (1000, RConsume "token-1" KEY_REVOKE "key-1" "null");
   (1001, RConsume "token-1" KEY_REVOKE "key-1" "null"); (1002, RIssue "u1" ORG_DELETE "org-1" "null" "token-2");
   (900000, RPurge)].

Lemma assertion_consumed_once_witness :
  (assertion_run demo_hash "net" demo_assertion_calls []).2 = ["h:token-1"] /\
  NoDup (assertion_run demo_hash "net" demo_assertion_calls []).2.
Proof.
  split; [reflexivity|]. apply assertion_consumed_once. vm_compute.
  apply NoDup_cons_2; [|apply NoDup_singleton]. intros H. apply list_elem_of_singleton in H. discriminate.
Defined.

Definition demo_assertions : list RecentAuthAssertion :=
  (assertion_run demo_hash "net" (take 1 demo_assertion_calls) []).1.

Lemma assertion_binds_request_witness : exists a, a ∈ demo_assertions /\ ra_userId a = "u1".
Proof.
  destruct (assertion_binds_request demo_hash "net" "token-1" KEY_REVOKE "key-1" "null" 1000 demo_assertions
    (assertion_run demo_hash "net" (take 2 demo_assertion_calls) []).1 "u1") as (a & Ha & H).
  - apply NoDup_singleton.
  - reflexivity.
  - exists a. split; [exact Ha|]. apply H.
Defined.

Lemma wildcard_assertion_unusable_witness :
  exists t, issue_assertion demo_hash "net" "u1" KEY_REVOKE "*" "null" "token-1" 0 [] = Ok t /\
    consume demo_hash "net" "token-1" KEY_REVOKE "key-1" "null" 1000 t = Err AssertionRequired.
Proof.
  eexists. split; [reflexivity|].
  refine (proj2 (wildcard_assertion_unusable demo_hash "net" "u1" KEY_REVOKE "null" "token-1" 0 [] _ "key-1" eq_refl _ _)
    KEY_REVOKE "null" 1000); discriminate.
Defined.
