(* ===== verification/DestinationGuard.v ===== *)
(** * The outbound destination guard

    Model of [src/common/http/destination-guard.ts], which decides whether an
    outbound HTTP request may be sent to a URL, and of its webhook entry point
    [src/webhooks/webhook-ssrf-guard.ts].  Addresses are 32-bit integers and lists
    of eight 16-bit groups, with the language's 32-bit shifts written out.  The
    platform's URL parser and name resolution are parameters. *)

From S2P Require Import Prelude JsData DecimalText Canonical Issuance WalletAuth.
From Stdlib Require Import Ascii.

Local Open Scope string_scope.
Local Open Scope Z_scope.
Local Open Scope list_scope.
#[local] Arguments String.append !_ _ : simpl nomatch.

(** ** Strings *)

(** [s.split(c)] for a one-character separator. *)
Fixpoint split_on (c : ascii) (s : string) : list string :=
  match s with
  | EmptyString => [EmptyString]
  | String d s =>
      if Ascii.eqb c d then EmptyString :: split_on c s
      else match split_on c s with
           | [] => [String d EmptyString]
           | w :: ws => String d w :: ws
           end
  end.

(** [ws.join(c)] *)
Fixpoint join (c : ascii) (ws : list string) : string :=
  match ws with
  | [] => EmptyString
  | [w] => w
  | w :: ws => String.append w (String c (join c ws))
  end.

(** The text up to and including the last [c], and the text after it. *)
Fixpoint cut_last (c : ascii) (s : string) : option (string * string) :=
  match s with
  | EmptyString => None
  | String d r =>
      match cut_last c r with
      | Some (h, t) => Some (String d h, t)
      | None => if Ascii.eqb c d then Some (String d EmptyString, r) else None
      end
  end.

(** The text before the first ["::"] and the text after it. *)
Fixpoint cut_dcolon (s : string) : option (string * string) :=
  match s with
  | String c ((String d r) as s') =>
      if Ascii.eqb ":" c && Ascii.eqb ":" d then Some (EmptyString, r)
      else '(h, t) ← cut_dcolon s'; Some (String c h, t)
  | _ => None
  end.

(** [s.endsWith(suffix)] *)
Fixpoint endsWith (suffix s : string) : bool :=
  bool_decide (s = suffix) || match s with EmptyString => false | String _ s => endsWith suffix s end.

(** ** 32-bit integers *)

Definition int32 (x : Z) : Z := (x + 2 ^ 31) mod 2 ^ 32 - 2 ^ 31.
Definition uint32 (x : Z) : Z := x mod 2 ^ 32.
(** [a << n] on 32-bit integers, and [a >>> n]. *)
Definition shl (a n : Z) : Z := int32 (Z.shiftl a n).
Definition shr (a n : Z) : Z := Z.shiftr (uint32 a) n.

(** ** IPv4 *)

(** [/^\d{1,3}$/], no leading zero, and at most 255. *)
Definition parse_octet (part : string) : option Z :=
  if negb (all_digits part && (1 <=? String.length part)%nat && (String.length part <=? 3)%nat) then None
  else if (1 <? String.length part)%nat && String.prefix "0" part then None
  else let value := dec_value part in if value >? 255 then None else Some value.

Definition pack (o0 o1 o2 o3 : Z) : Z :=
  uint32 (Z.lor (Z.lor (Z.lor (shl o0 24) (shl o1 16)) (shl o2 8)) o3).

Definition parseIPv4 (host : string) : option Z :=
  match split_on "." host with
  | [p0; p1; p2; p3] =>
      o0 ← parse_octet p0; o1 ← parse_octet p1; o2 ← parse_octet p2; o3 ← parse_octet p3;
      Some (pack o0 o1 o2 o3)
  | _ => None
  end.

Definition isBlockedIPv4 (ip : Z) : bool :=
  if shr ip 24 =? 0 then true
  else if shr ip 24 =? 10 then true
  else if shr ip 22 =? shr 0x64400000 22 then true
  else if shr ip 24 =? 127 then true
  else if shr ip 16 =? 0xa9fe then true
  else if shr ip 20 =? shr 0xac100000 20 then true
  else if shr ip 16 =? 0xc0a8 then true
  else if shr ip 17 =? shr 0xc6120000 17 then true
  else if shr ip 8 =? shr 0xc6336400 8 then true
  else if shr ip 8 =? shr 0xcb007100 8 then true
  else if shr ip 28 =? 0xf then true
  else if ip =? 0xffffffff then true
  else bool_decide (parseIPv4 "100.100.100.200" = Some ip).

(** ** IPv6 *)

(** [[0-9a-fA-F]] and its value. *)
Definition hex_char_val (c : ascii) : option Z :=
  let n := Z.of_nat (nat_of_ascii c) in
  if (48 <=? n) && (n <=? 57) then Some (n - 48)
  else if (97 <=? n) && (n <=? 102) then Some (n - 87)
  else if (65 <=? n) && (n <=? 70) then Some (n - 55)
  else None.

Fixpoint hex_value (acc : Z) (s : string) : option Z :=
  match s with
  | EmptyString => Some acc
  | String c s => d ← hex_char_val c; hex_value (16 * acc + d) s
  end.

(** [parseInt(g, 16)] of a group that passes [/^[0-9a-fA-F]{1,4}$/]. *)
Definition parse_group (g : string) : option Z :=
  if (1 <=? String.length g)%nat && (String.length g <=? 4)%nat then hex_value 0 g else None.

(** [n.toString(16)]; [fuel] bounds the digits after the first. *)
Fixpoint hex_string_go (fuel : nat) (n : Z) (acc : string) : string :=
  let acc := String (hex_digit (Z.to_nat (n mod 16))) acc in
  match fuel with
  | S fuel => if n / 16 =? 0 then acc else hex_string_go fuel (n / 16) acc
  | O => acc
  end.
Definition hex_string (n : Z) : string := hex_string_go 3 n EmptyString.

(** A trailing dotted address becomes two groups. *)
Definition expand_tail (host : string) : option string :=
  match cut_last ":" host with
  | None => Some host
  | Some (h, tail) =>
      if has_char "." tail then
        v4 ← parseIPv4 tail;
        let hi := Z.land (shr v4 16) 0xffff in
        let lo := Z.land v4 0xffff in
        Some (String.append h (String.append (hex_string hi) (String ":" (hex_string lo))))
      else Some host
  end.

(** [s ? s.split(":") : []] *)
Definition groups_of (s : string) : list string :=
  match s with EmptyString => [] | _ => split_on ":" s end.

Definition parseIPv6 (host : string) : option (list Z) :=
  if negb (has_char ":" host) then None
  else
    addr ← expand_tail host;
    if bool_decide (addr = "::") then Some (repeat 0 8)
    else match cut_dcolon addr with
    | Some (lft, rgt) =>
        if bool_decide (is_Some (cut_dcolon rgt)) then None
        else
          head ← mapM parse_group (groups_of lft);
          tail ← mapM parse_group (groups_of rgt);
          let missing := (8 - (length head + length tail))%nat in
          if (missing <? 1)%nat then None else Some (head ++ repeat 0 missing ++ tail)
    | None =>
        groups ← mapM parse_group (split_on ":" addr);
        if (length groups =? 8)%nat then Some groups else None
    end.

(** The low 32 bits, read as an IPv4 address. *)
Definition embedded (g6 g7 : Z) : Z := uint32 (Z.lor (shl g6 16) g7).

Definition isBlockedIPv6 (groups : list Z) : bool :=
  let g := fun i => nth i groups 0 in
  let zero := fun i => g i =? 0 in
  if forallb (fun n => n =? 0) groups then true
  else if forallb (fun n => n =? 0) (take 7 groups) && (g 7%nat =? 1) then true
  else if Z.land (g 0%nat) 0xffc0 =? 0xfe80 then true
  else if Z.land (g 0%nat) 0xfe00 =? 0xfc00 then true
  else if zero 0%nat && zero 1%nat && zero 2%nat && zero 3%nat && zero 4%nat && (g 5%nat =? 0xffff) then
    isBlockedIPv4 (embedded (g 6%nat) (g 7%nat))
  else if zero 0%nat && zero 1%nat && zero 2%nat && zero 3%nat && zero 4%nat && zero 5%nat &&
          negb (zero 6%nat && zero 7%nat) && negb (zero 6%nat && (g 7%nat =? 1)) then
    isBlockedIPv4 (embedded (g 6%nat) (g 7%nat))
  else if (g 0%nat =? 0x0064) && (g 1%nat =? 0xff9b) && zero 2%nat && zero 3%nat && zero 4%nat && zero 5%nat then
    isBlockedIPv4 (embedded (g 6%nat) (g 7%nat))
  else false.

(** ** Hosts and destinations *)

Definition isBlockedHost (host : string) : bool :=
  match parseIPv4 host with
  | Some v4 => isBlockedIPv4 v4
  | None =>
      match parseIPv6 host with
      | Some v6 => isBlockedIPv6 v6
      | None =>
          bool_decide (host = "localhost") || endsWith ".localhost" host ||
          endsWith ".local" host || endsWith ".internal" host
      end
  end.

(** Why a destination is refused: [DestinationBlockedError] with its reason, or
    an error of name resolution. *)
Inductive DestinationError :=
| Blocked (reason : string)
| Unresolved (message : string).

#[export] Instance DestinationError_eq_dec : EqDecision DestinationError.
Proof. solve_decision. Defined.

(** [host.startsWith("[") ? host.slice(1, -1) : host] *)
Definition strip_brackets (host : string) : string :=
  match host with
  | String "[" r => String.substring 0 (String.length r - 1) r
  | _ => host
  end.

(** [hostname.replace(/^\[|\]$/g, "")] *)
Definition replace_brackets (host : string) : string :=
  let h := match host with String "[" r => r | _ => host end in
  if endsWith "]" h then String.substring 0 (String.length h - 1) h else h.

Section guard.
Context (parse_url : string -> option Url) (resolve : string -> result string (list string)).

Definition assertSafeDestinationUrl (raw : string) : result DestinationError unit :=
  match parse_url raw with
  | None => Err (Blocked "invalid URL")
  | Some parsed =>
      _ ← throw_if (negb (bool_decide (u_protocol parsed = "https:")))
            (Blocked "only https:// destinations are permitted");
      _ ← throw_if (negb (bool_decide (u_username parsed = EmptyString)) || negb (bool_decide (u_password parsed = EmptyString)))
            (Blocked "URL credentials are not permitted");
      _ ← throw_if (negb (bool_decide (u_port parsed = EmptyString)))
            (Blocked (String.append "explicit port " (String.append (u_port parsed)
               " is not permitted; only the default https port is allowed")));
      let bare := strip_brackets (lower (u_hostname parsed)) in
      throw_if (isBlockedHost bare)
        (Blocked (String.append "destination " (String.append bare " is not routable")))
  end.

Definition assertSafeDestination (raw : string) : result DestinationError unit :=
  _ ← assertSafeDestinationUrl raw;
  match parse_url raw with
  | None => Err (Blocked "invalid URL")
  | Some parsed =>
      let host := replace_brackets (u_hostname parsed) in
      if bool_decide (is_Some (parseIPv4 host)) || bool_decide (is_Some (parseIPv6 host)) then Ok tt
      else
        match resolve host with
        | Err m => Err (Unresolved m)
        | Ok addresses =>
            _ ← throw_if (length addresses =? 0)%nat (Unresolved "Destination did not resolve");
            throw_if (existsb isBlockedHost addresses)
              (Blocked (String.append "destination " (String.append host " resolved to a non-public address")))
        end
  end.

(** [assertSafeWebhookDestination]: a blocked destination is reported with the
    webhook wording, anything else as it is. *)
Definition ssrf_message (reason : string) : string := String.append "SSRF: blocked destination — " reason.

Definition assertSafeWebhookDestination (raw : string) : result DestinationError unit :=
  match assertSafeDestination raw with
  | Err (Blocked reason) => Err (Blocked (ssrf_message reason))
  | r => r
  end.
End guard.
