(* ===== verification/DestinationGuardFacts.v ===== *)
(** * What the destination guard lets through

    The texts it reads as IPv4 and IPv6 addresses, the address ranges it refuses in
    every spelling, and what an accepted destination may connect to. *)

From S2P Require Import Prelude JsData DecimalText Canonical Issuance WalletAuth DestinationGuard.
From Stdlib Require Import Ascii.

Local Open Scope string_scope.
Local Open Scope Z_scope.
Local Open Scope list_scope.
#[local] Arguments String.append !_ _ : simpl nomatch.

(** ** Splitting *)

Lemma split_on_nonempty c s : split_on c s <> [].
Proof. destruct s as [|d s]; cbn; [done|]. destruct (Ascii.eqb c d); [done|]. by destruct (split_on c s). Qed.

Lemma split_on_word c w : has_char c w = false -> split_on c w = [w].
Proof.
  induction w as [|d w IH]; [done|]. cbn. intros [-> Hw]%orb_false_iff. by rewrite (IH Hw).
Qed.

Lemma split_on_cons c w t :
  has_char c w = false -> split_on c (String.append w (String c t)) = w :: split_on c t.
Proof.
  induction w as [|d w IH]; cbn; [by rewrite Ascii.eqb_refl|].
  intros [-> Hw]%orb_false_iff. by rewrite (IH Hw).
Qed.

Lemma join_split c s : join c (split_on c s) = s.
Proof.
  induction s as [|d s IH]; [done|]. cbn. pose proof (split_on_nonempty c s) as Hne.
  destruct (Ascii.eqb c d) eqn:E.
  - apply Ascii.eqb_eq in E as <-. destruct (split_on c s); [done|]. cbn in *. by rewrite IH.
  - destruct (split_on c s) as [|w [|w' ws]]; [done|..]; cbn in *; by rewrite IH.
Qed.

(** A word without [c] is not cut; what follows the last [c] is. *)
Lemma cut_last_word c w : has_char c w = false -> cut_last c w = None.
Proof. induction w as [|d w IH]; [done|]. cbn. intros [-> Hw]%orb_false_iff. by rewrite (IH Hw). Qed.

Lemma cut_last_append c h t :
  has_char c t = false -> cut_last c (String.append h (String c t)) = Some (String.append h (String c EmptyString), t).
Proof.
  intros Ht. induction h as [|d h IH]; cbn; [by rewrite cut_last_word, Ascii.eqb_refl|]. by rewrite IH.
Qed.

Lemma cut_dcolon_word w : has_char ":" w = false -> cut_dcolon w = None.
Proof.
  induction w as [|c w IH]; [done|]. cbn [has_char]. intros [Hc Hw]%orb_false_iff.
  cbn [cut_dcolon]. destruct w; [done|]. by rewrite Hc, (IH Hw).
Qed.

(** ** 32-bit arithmetic *)

Lemma lor_low a b n : 0 <= n -> 0 <= b < 2 ^ n -> Z.lor (a * 2 ^ n) b = a * 2 ^ n + b.
Proof.
  intros Hn Hb. assert (Z.land (a * 2 ^ n) b = 0) as H0.
  { apply Z.bits_inj'. intros i Hi. rewrite Z.land_spec, Z.bits_0.
    destruct (Z.lt_ge_cases i n) as [Hlt|Hge].
    - by rewrite Z.mul_pow2_bits_low.
    - rewrite andb_comm, <- (Z.mod_small b (2 ^ n)), Z.mod_pow2_bits_high by lia. done. }
  rewrite <- Z.lxor_lor by done. by rewrite Z.add_nocarry_lxor.
Qed.

Ltac wrap32 := unfold shl, shr, int32, uint32; rewrite ?Z.shiftl_mul_pow2, ?Z.shiftr_div_pow2 by lia.

Lemma shl_small a n : 0 <= n -> 0 <= a * 2 ^ n < 2 ^ 31 -> shl a n = a * 2 ^ n.
Proof. intros Hn Ha. wrap32. rewrite Z.mod_small; lia. Qed.

Lemma shl_top a : 0 <= a < 256 -> exists b, shl a 24 = b * 2 ^ 24 /\ (b = a \/ b = a - 256).
Proof.
  intros Ha. destruct (Z.lt_ge_cases a 128) as [Hlt|Hge].
  - exists a. split; [apply shl_small; lia|by left].
  - exists (a - 256). split; [|by right]. wrap32.
    replace (a * 2 ^ 24 + 2 ^ 31) with (a * 2 ^ 24 - 2 ^ 31 + 1 * 2 ^ 32) by lia.
    rewrite Z.mod_add, Z.mod_small by lia. lia.
Qed.

Lemma pack_value o0 o1 o2 o3 :
  0 <= o0 < 256 -> 0 <= o1 < 256 -> 0 <= o2 < 256 -> 0 <= o3 < 256 ->
  pack o0 o1 o2 o3 = o0 * 2 ^ 24 + o1 * 2 ^ 16 + o2 * 2 ^ 8 + o3.
Proof.
  intros H0 H1 H2 H3. unfold pack. destruct (shl_top o0 H0) as (b & -> & Hb).
  rewrite (shl_small o1), (shl_small o2) by lia.
  rewrite (lor_low b) by lia. replace (b * 2 ^ 24 + o1 * 2 ^ 16) with ((b * 2 ^ 8 + o1) * 2 ^ 16) by lia.
  rewrite (lor_low (b * 2 ^ 8 + o1)) by lia.
  replace ((b * 2 ^ 8 + o1) * 2 ^ 16 + o2 * 2 ^ 8) with ((b * 2 ^ 16 + o1 * 2 ^ 8 + o2) * 2 ^ 8) by lia.
  rewrite lor_low by lia. unfold uint32. destruct Hb as [-> | ->]; [rewrite Z.mod_small; lia|].
  match goal with |- ?x mod _ = ?y => replace x with (y + (-1) * 2 ^ 32) by lia end.
  rewrite Z.mod_add, Z.mod_small; lia.
Qed.

Lemma embedded_value g6 g7 :
  0 <= g6 < 2 ^ 16 -> 0 <= g7 < 2 ^ 16 -> embedded g6 g7 = g6 * 2 ^ 16 + g7.
Proof.
  intros H6 H7. unfold embedded. destruct (Z.lt_ge_cases g6 (2 ^ 15)) as [Hlt|Hge].
  - rewrite shl_small, lor_low by lia. unfold uint32. apply Z.mod_small. lia.
  - assert (shl g6 16 = (g6 - 2 ^ 16) * 2 ^ 16) as ->.
    { wrap32. replace (g6 * 2 ^ 16 + 2 ^ 31) with (g6 * 2 ^ 16 - 2 ^ 31 + 1 * 2 ^ 32) by lia.
      rewrite Z.mod_add, Z.mod_small by lia. lia. }
    rewrite lor_low by lia. unfold uint32.
    replace ((g6 - 2 ^ 16) * 2 ^ 16 + g7) with (g6 * 2 ^ 16 + g7 + (-1) * 2 ^ 32) by lia.
    rewrite Z.mod_add, Z.mod_small; lia.
Qed.

(** A shift compared with a constant selects an aligned block. *)
Lemma shr_block ip k c :
  0 <= ip < 2 ^ 32 -> 0 <= k -> (shr ip k =? c) = (c * 2 ^ k <=? ip) && (ip <? (c + 1) * 2 ^ k).
Proof.
  intros Hip Hk. wrap32. rewrite Z.mod_small by lia.
  pose proof (Z.div_mod ip (2 ^ k) ltac:(lia)). pose proof (Z.mod_pos_bound ip (2 ^ k) ltac:(lia)).
  apply eq_bool_prop_intro. rewrite !Is_true_true, andb_true_iff, Z.eqb_eq, Z.leb_le, Z.ltb_lt. nia.
Qed.

(** ** IPv4 texts *)

(** The decimal text of an octet, and of an address. *)
Definition dotted4 (o0 o1 o2 o3 : Z) : string :=
  join "." [dec_string o0; dec_string o1; dec_string o2; dec_string o3].
Definition dotted (ip : Z) : string :=
  dotted4 (ip / 2 ^ 24) (ip / 2 ^ 16 mod 256) (ip / 2 ^ 8 mod 256) (ip mod 256).

Lemma parse_octet_dec v : 0 <= v < 256 -> parse_octet (dec_string v) = Some v.
Proof.
  intros Hv. assert (forallb (fun n => bool_decide (parse_octet (dec_string (Z.of_nat n)) = Some (Z.of_nat n)))
    (seq 0 256) = true) as H by by vm_compute.
  rewrite forallb_forall in H. specialize (H (Z.to_nat v)).
  rewrite Z2Nat.id in H by lia. apply bool_decide_eq_true in H; [done|]. apply in_seq. lia.
Qed.

Lemma digit_char c : is_digit c = true -> exists n, (n < 10)%nat /\ c = ascii_of_nat (48 + n).
Proof.
  unfold is_digit. intros [H1 H2]%andb_true_iff. apply Nat.leb_le in H1, H2.
  exists (nat_of_ascii c - 48)%nat. split; [lia|].
  rewrite <- (ascii_nat_embedding c) at 1. f_equal. lia.
Qed.

(** Every digit string of a length. *)
Fixpoint digit_strings (k : nat) : list string :=
  match k with
  | O => [EmptyString]
  | S k => flat_map (fun n => String (ascii_of_nat (48 + n)) <$> digit_strings k) (seq 0 10)
  end.

Lemma elem_of_digit_strings s : all_digits s = true -> In s (digit_strings (String.length s)).
Proof.
  induction s as [|c s IH]; cbn [all_digits String.length digit_strings]; [by left|].
  intros [(n & Hn & ->)%digit_char Hs]%andb_true_iff. apply in_flat_map. exists n.
  split; [apply in_seq; lia|]. apply in_map, IH, Hs.
Qed.

(** The octets the parser accepts are the decimal texts of 0 to 255. *)
Lemma parse_octet_inv s v : parse_octet s = Some v -> 0 <= v < 256 /\ s = dec_string v.
Proof.
  intros Hp. assert (In s (flat_map digit_strings (seq 0 4))) as Hin.
  { unfold parse_octet in Hp. destruct (all_digits s && _ && _) eqn:E in Hp; [|done].
    rewrite !andb_true_iff, !Nat.leb_le in E. destruct E as [[Hd _] Hl].
    apply in_flat_map. exists (String.length s). split; [apply in_seq; lia|by apply elem_of_digit_strings]. }
  assert (forallb (fun s => match parse_octet s with
    | Some v => (0 <=? v) && (v <? 256) && bool_decide (s = dec_string v) | None => true end)
    (flat_map digit_strings (seq 0 4)) = true) as H by by vm_compute.
  rewrite forallb_forall in H. specialize (H s Hin). rewrite Hp in H. reflect_hyps. done.
Qed.

#[local] Hint Resolve dec_string_no_char : core.

Lemma split_dotted4 o0 o1 o2 o3 :
  split_on "." (dotted4 o0 o1 o2 o3) = [dec_string o0; dec_string o1; dec_string o2; dec_string o3].
Proof. unfold dotted4. cbn [join]. by rewrite !split_on_cons, split_on_word by auto. Qed.

Lemma octets_range ip :
  0 <= ip < 2 ^ 32 ->
  0 <= ip / 2 ^ 24 < 256 /\ 0 <= ip / 2 ^ 16 mod 256 < 256 /\ 0 <= ip / 2 ^ 8 mod 256 < 256 /\ 0 <= ip mod 256 < 256 /\
  ip / 2 ^ 24 * 2 ^ 24 + ip / 2 ^ 16 mod 256 * 2 ^ 16 + ip / 2 ^ 8 mod 256 * 2 ^ 8 + ip mod 256 = ip.
Proof. intros H. Z.div_mod_to_equations. lia. Qed.

Lemma parseIPv4_dotted ip : 0 <= ip < 2 ^ 32 -> parseIPv4 (dotted ip) = Some ip.
Proof.
  intros (H0 & H1 & H2 & H3 & Hip)%octets_range. unfold parseIPv4, dotted.
  rewrite split_dotted4, !parse_octet_dec by done. cbn [mbind option_bind]. by rewrite pack_value, Hip.
Qed.

Lemma dotted4_pack o0 o1 o2 o3 :
  0 <= o0 < 256 -> 0 <= o1 < 256 -> 0 <= o2 < 256 -> 0 <= o3 < 256 ->
  dotted (pack o0 o1 o2 o3) = dotted4 o0 o1 o2 o3 /\ 0 <= pack o0 o1 o2 o3 < 2 ^ 32.
Proof.
  intros H0 H1 H2 H3. rewrite pack_value by done. unfold dotted.
  split; [|lia]. f_equal; Z.div_mod_to_equations; lia.
Qed.

(** A text is read as an IPv4 address exactly when it is the canonical
    dotted decimal of that address: octal, hexadecimal, padded and shortened
    spellings are never taken for an address, and each address has one spelling. *)
Lemma parseIPv4_exact s ip : parseIPv4 s = Some ip <-> 0 <= ip < 2 ^ 32 /\ s = dotted ip.
Proof.
  split; [|by intros [Hip ->]; apply parseIPv4_dotted].
  unfold parseIPv4. pose proof (join_split "." s) as Hs.
  destruct (split_on "." s) as [|p0 [|p1 [|p2 [|p3 [|]]]]]; try done.
  intros H. repeat (apply bind_Some in H as (? & ?%parse_octet_inv & H)). injection H as <-. destruct_and?. subst.
  edestruct dotted4_pack as [-> Hr]; [..|split; [exact Hr|done]]; done.
Qed.

(** ** Blocked ranges *)

(** Address blocks, as first address and prefix length. *)
Definition blocks : list (Z * Z) :=
  [ (pack 0 0 0 0, 8); (pack 10 0 0 0, 8); (pack 100 64 0 0, 10); (pack 127 0 0 0, 8);
    (pack 169 254 0 0, 16); (pack 172 16 0 0, 12); (pack 192 168 0 0, 16); (pack 198 18 0 0, 15);
    (pack 198 51 100 0, 24); (pack 203 0 113 0, 24); (pack 240 0 0 0, 4) ].
Definition in_block (ip : Z) '((base, bits) : Z * Z) : bool :=
  (base <=? ip) && (ip <? base + 2 ^ (32 - bits)).
Definition reserved (ip : Z) : bool := existsb (in_block ip) blocks.

Lemma isBlockedIPv4_reserved ip : 0 <= ip < 2 ^ 32 -> isBlockedIPv4 ip = reserved ip.
Proof.
  intros Hip. unfold isBlockedIPv4, reserved.
  assert (blocks = [(0, 8); (167772160, 8); (1681915904, 10); (2130706432, 8); (2851995648, 16);
    (2886729728, 12); (3232235520, 16); (3323068416, 15); (3325256704, 24); (3405803776, 24);
    (4026531840, 4)]) as -> by by vm_compute.
  assert (shr 0x64400000 22 = 401 /\ shr 0xac100000 20 = 2753 /\ shr 0xc6120000 17 = 25353 /\
    shr 0xc6336400 8 = 12989284 /\ shr 0xcb007100 8 = 13303921) as (-> & -> & -> & -> & ->) by by vm_compute.
  assert (bool_decide (parseIPv4 "100.100.100.200" = Some ip) = (1684301000 =? ip)) as ->.
  { assert (parseIPv4 "100.100.100.200" = Some 1684301000) as -> by by vm_compute.
    apply eq_bool_prop_intro. rewrite !Is_true_true, bool_decide_eq_true, Z.eqb_eq. split; congruence. }
  rewrite !shr_block by lia. cbn [existsb in_block].
  repeat match goal with |- context [if ?a then true else ?b] => change (if a then true else b) with (a || b) end.
  apply eq_bool_prop_intro. rewrite !Is_true_true. lia.
Qed.

(** ** Wrapped addresses *)

Lemma hex_digit_val d : 0 <= d < 16 -> hex_char_val (hex_digit (Z.to_nat d)) = Some d.
Proof.
  intros Hd. assert (forallb (fun n => bool_decide (hex_char_val (hex_digit n) = Some (Z.of_nat n))) (seq 0 16) = true)
    as H by by vm_compute.
  rewrite forallb_forall in H. specialize (H (Z.to_nat d)). rewrite Z2Nat.id in H by lia.
  apply bool_decide_eq_true in H; [done|]. apply in_seq. lia.
Qed.

Lemma hex_string_go_value fuel n t :
  0 <= n < 16 ^ Z.of_nat (S fuel) ->
  hex_value 0 (hex_string_go fuel n t) = hex_value n t /\
  (S (String.length t) <= String.length (hex_string_go fuel n t) <= S fuel + String.length t)%nat.
Proof.
  assert (forall n, 0 <= n mod 16 < 16) as Hm by (intros k; apply Z.mod_pos_bound; lia).
  revert n t. induction fuel as [|fuel IH]; intros n t Hn; cbn [hex_string_go].
  - cbn [hex_value String.length]. rewrite hex_digit_val by done. cbn. rewrite Z.mod_small by lia. split; [done|lia].
  - rewrite Nat2Z.inj_succ, Z.pow_succ_r in Hn by lia. destruct (Z.eqb_spec (n / 16) 0) as [H0|H0].
    + cbn [hex_value String.length]. rewrite hex_digit_val by done. cbn [mbind option_bind].
      replace (16 * 0 + n mod 16) with n by (Z.div_mod_to_equations; lia). split; [done|lia].
    + destruct (IH (n / 16) (String (hex_digit (Z.to_nat (n mod 16))) t)) as [-> Hlen].
      { split; [apply Z.div_pos; lia|apply Z.div_lt_upper_bound; lia]. }
      cbn [hex_value String.length] in *. rewrite hex_digit_val by done. cbn [mbind option_bind].
      replace (16 * (n / 16) + n mod 16) with n by (Z.div_mod_to_equations; lia). split; [done|lia].
Qed.

Lemma parse_group_hex v : 0 <= v < 2 ^ 16 -> parse_group (hex_string v) = Some v.
Proof.
  intros Hv. destruct (hex_string_go_value 3 v EmptyString) as [Hval [H1 H2]]; [done|].
  unfold parse_group, hex_string. cbn [String.length Nat.add] in *.
  rewrite (proj2 (Nat.leb_le _ _) H1), (proj2 (Nat.leb_le _ _) H2), Hval. done.
Qed.

Lemma hex_value_no_colon s acc v : hex_value acc s = Some v -> has_char ":" s = false.
Proof.
  revert acc. induction s as [|c s IH]; [done|]. intros acc. cbn [hex_value].
  intros (d & Hd & H)%bind_Some. cbn [has_char]. rewrite (IH _ H), orb_false_r.
  apply Ascii.eqb_neq. by intros <-.
Qed.

Lemma parse_group_word g v : parse_group g = Some v -> has_char ":" g = false /\ g <> EmptyString.
Proof.
  unfold parse_group. intros H. destruct (_ && _) eqn:E in H; [|done]. split.
  - by eapply hex_value_no_colon.
  - by intros ->.
Qed.

Lemma prefix_word c w t :
  w <> EmptyString -> has_char c w = false -> String.prefix (String c EmptyString) (String.append w t) = false.
Proof.
  destruct w as [|d w]; [done|]. intros _. cbn [has_char String.append String.prefix]. intros [H _]%orb_false_iff.
  destruct (ascii_dec c d) as [<-|]; [|done]. by rewrite Ascii.eqb_refl in H.
Qed.

(** The two groups a dotted tail stands for. *)
Definition tail_text (ip : Z) : string :=
  String.append (hex_string (ip / 2 ^ 16)) (String ":" (hex_string (ip mod 2 ^ 16))).

Lemma dotted_words ip :
  has_char ":" (dotted ip) = false /\ has_char "." (dotted ip) = true.
Proof.
  unfold dotted, dotted4. cbn [join]. rewrite !has_char_append. cbn [has_char]. rewrite !has_char_append. cbn [has_char].
  rewrite has_char_append. cbn [has_char]. rewrite !dec_string_no_char by done. done.
Qed.

(** A dotted tail after a colon is replaced by its two groups. *)
Lemma expand_tail_dotted h ip :
  0 <= ip < 2 ^ 32 ->
  expand_tail (String.append h (String ":" (dotted ip))) = Some (String.append h (String ":" (tail_text ip))).
Proof.
  intros Hip. destruct (dotted_words ip) as [Hc Hd]. unfold expand_tail.
  rewrite cut_last_append, Hd, parseIPv4_dotted by done. cbn [mbind option_bind].
  unfold tail_text, shr, uint32. rewrite Z.mod_small, Z.shiftr_div_pow2 by lia.
  change 0xffff with (Z.ones 16). rewrite !Z.land_ones, (Z.mod_small (ip / 2 ^ 16)) by (Z.div_mod_to_equations; lia).
  by rewrite append_assoc.
Qed.

Lemma parseIPv4_colon s : has_char ":" s = true -> parseIPv4 s = None.
Proof.
  intros Hs. destruct (parseIPv4 s) as [ip|] eqn:E; [|done]. apply parseIPv4_exact in E as [_ ->].
  by rewrite (proj1 (dotted_words ip)) in Hs.
Qed.

(** ** IPv6 texts *)

(** The spellings of RFC 4291, section 2.2: eight groups of one to four
    hexadecimal digits; or fewer, with a double colon for the groups of zeros left
    out; and the last two groups, in either form, as a dotted decimal. *)
Definition hex_digit_text (c : ascii) (d : Z) : Prop :=
  0 <= d /\ (String.get (Z.to_nat d) "0123456789abcdef" = Some c \/
             String.get (Z.to_nat d) "0123456789ABCDEF" = Some c).
Definition group_text (t : string) (v : Z) : Prop :=
  exists ds, Forall2 hex_digit_text (String.list_ascii_of_string t) ds /\ v = foldl (fun a d => 16 * a + d) 0 ds /\
    (1 <= length ds)%nat /\ (length ds <= 4)%nat.

Inductive groups_text : list string -> list Z -> Prop :=
| groups_plain ts vs : Forall2 group_text ts vs -> groups_text ts vs
| groups_dotted ts vs ip :
    Forall2 group_text ts vs -> 0 <= ip < 2 ^ 32 ->
    groups_text (ts ++ [dotted ip]) (vs ++ [ip / 2 ^ 16; ip mod 2 ^ 16]).

Inductive ipv6_text : string -> list Z -> Prop :=
| ipv6_full ts vs : groups_text ts vs -> length vs = 8%nat -> ipv6_text (join ":" ts) vs
| ipv6_compressed ls vl rs vr :
    Forall2 group_text ls vl -> groups_text rs vr -> (length vl + length vr <= 7)%nat ->
    ipv6_text (String.append (join ":" ls) (String.append "::" (join ":" rs)))
              (vl ++ repeat 0 (8 - (length vl + length vr)) ++ vr).

(** *** The parser reads every spelling *)

Abbreviation reads := (Forall2 (fun t v => parse_group t = Some v)).
Definition word (t : string) : Prop := has_char ":" t = false /\ has_char "." t = false /\ t <> EmptyString.

Lemma get_beyond s n : (String.length s <= n)%nat -> String.get n s = None.
Proof. revert n. induction s as [|c s IH]; intros [|n] H; cbn in *; [done..|lia|]. apply IH. lia. Qed.

Lemma hex_digit_text_val c d : hex_digit_text c d -> hex_char_val c = Some d.
Proof.
  intros [Hd H]. assert (d < 16) as Hlt.
  { destruct (Z.lt_ge_cases d 16) as [|Hge]; [done|]. exfalso. rewrite !get_beyond in H; [by destruct H|..]; cbn; lia. }
  assert (forallb (fun n => match String.get n "0123456789abcdef", String.get n "0123456789ABCDEF" with
    | Some a, Some b => bool_decide (hex_char_val a = Some (Z.of_nat n)) && bool_decide (hex_char_val b = Some (Z.of_nat n))
    | _, _ => false end) (seq 0 16) = true) as Hall by by vm_compute.
  rewrite forallb_forall in Hall. specialize (Hall (Z.to_nat d)). rewrite in_seq in Hall. specialize (Hall ltac:(lia)).
  destruct (String.get (Z.to_nat d) "0123456789abcdef"), (String.get (Z.to_nat d) "0123456789ABCDEF"); try done.
  rewrite Z2Nat.id in Hall by lia. apply andb_true_iff in Hall as [H1 H2]. reflect_hyps. by destruct H as [[= <-]|[= <-]].
Qed.

Lemma group_text_read t v : group_text t v -> parse_group t = Some v.
Proof.
  intros (ds & Hds & -> & H1 & H4). assert (String.length t = length ds) as Hlen.
  { apply Forall2_length in Hds. rewrite <- Hds. clear. induction t; cbn; auto. }
  unfold parse_group. rewrite Hlen, (proj2 (Nat.leb_le _ _) H1), (proj2 (Nat.leb_le _ _) H4). cbn [andb].
  clear Hlen H1 H4. generalize 0. revert ds Hds. induction t as [|c t IH]; intros ds Hds acc; cbn in Hds |- *.
  - by apply Forall2_nil_inv_l in Hds as ->.
  - apply Forall2_cons_inv_l in Hds as (d & ds' & Hd & Hds & ->). rewrite (hex_digit_text_val _ _ Hd). cbn. by apply IH.
Qed.

Lemma groups_text_reads ts vs : Forall2 group_text ts vs -> reads ts vs.
Proof. intros H. eapply Forall2_impl; [exact H|]. apply group_text_read. Qed.

Lemma hex_value_no_dot s acc v : hex_value acc s = Some v -> has_char "." s = false.
Proof.
  revert acc. induction s as [|c s IH]; [done|]. intros acc. cbn [hex_value].
  intros (d & Hd & H)%bind_Some. cbn [has_char]. rewrite (IH _ H), orb_false_r.
  apply Ascii.eqb_neq. by intros <-.
Qed.

Lemma reads_words ts vs : reads ts vs -> Forall word ts.
Proof.
  induction 1 as [|t v ts vs Ht _ IH]; constructor; [|done]. destruct (parse_group_word _ _ Ht) as [Hc Hn].
  split; [done|]. split; [|done]. unfold parse_group in Ht. destruct (_ && _) in Ht; [|done]. by eapply hex_value_no_dot.
Qed.

Lemma reads_mapM ts vs : reads ts vs -> mapM parse_group ts = Some vs.
Proof. intros H. by apply mapM_Some. Qed.

Lemma join_cons c t ts : ts <> [] -> join c (t :: ts) = String.append t (String c (join c ts)).
Proof. by destruct ts. Qed.

Lemma join_snoc c ts x : ts <> [] -> join c (ts ++ [x]) = String.append (join c ts) (String c x).
Proof.
  induction ts as [|t [|t' ts] IH]; [done..|]. intros _. rewrite <- app_comm_cons, !join_cons by done.
  rewrite IH by done. by rewrite append_assoc.
Qed.

Lemma words_no_dot ts : Forall word ts -> has_char "." (join ":" ts) = false.
Proof.
  induction 1 as [|t ts (_ & Hd & _) Hts IH]; [done|]. destruct ts; [done|]. rewrite join_cons by done.
  rewrite has_char_append, Hd. exact IH.
Qed.

Lemma words_nonempty t ts : Forall word (t :: ts) -> join ":" (t :: ts) <> EmptyString.
Proof. intros [(_ & _ & Hn) _]%Forall_cons. destruct ts; [done|]. rewrite join_cons by done. by destruct t. Qed.

Lemma split_words ts : Forall word ts -> ts <> [] -> split_on ":" (join ":" ts) = ts.
Proof.
  induction 1 as [|t ts (Hc & _) Hts IH]; [done|]. intros _. destruct ts as [|t' ts]; [by apply split_on_word|].
  rewrite join_cons, split_on_cons, IH by done. done.
Qed.

Lemma groups_of_words ts : Forall word ts -> groups_of (join ":" ts) = ts.
Proof.
  intros Hts. destruct ts as [|t ts]; [done|]. pose proof (words_nonempty _ _ Hts) as Hne.
  unfold groups_of. destruct (join ":" (t :: ts)) as [|c r] eqn:E; [done|]. rewrite <- E. by apply split_words.
Qed.

Lemma cut_dcolon_over w t :
  has_char ":" w = false -> cut_dcolon (String.append w t) = (fun x => (String.append w x.1, x.2)) <$> cut_dcolon t.
Proof.
  induction w as [|c w IH]; [cbn [String.append]; by destruct (cut_dcolon t) as [[]|]|]. cbn [has_char]. intros [Hc Hw]%orb_false_iff.
  specialize (IH Hw). cbn [String.append cut_dcolon]. rewrite Hc. cbn [andb].
  destruct (String.append w t) as [|d r] eqn:E.
  - by destruct w, t.
  - rewrite IH. by destruct (cut_dcolon t) as [[]|].
Qed.

Lemma cut_dcolon_colon t :
  String.prefix ":" t = false -> cut_dcolon (String ":" t) = (fun x => (String ":" x.1, x.2)) <$> cut_dcolon t.
Proof.
  destruct t as [|d t]; [done|]. cbn [String.prefix]. intros Hp. cbn [cut_dcolon].
  destruct (Ascii.eqb_spec ":" d) as [<-|Hn]; [by destruct t|]. rewrite andb_false_r.
  by destruct t as [|e t]; [|destruct (cut_dcolon (String e t)) as [[]|]].
Qed.

Lemma words_prefix ts r : Forall word ts -> ts <> [] -> String.prefix ":" (String.append (join ":" ts) r) = false.
Proof.
  intros Hts Hne. destruct ts as [|t ts]; [done|]. apply Forall_cons in Hts as [(Hc & _ & Hn) _].
  destruct ts; [by apply prefix_word|]. rewrite join_cons, append_assoc by done. by apply prefix_word.
Qed.

Lemma cut_words ts r :
  Forall word ts ->
  cut_dcolon (String.append (join ":" ts) (String.append "::" r)) = Some (join ":" ts, r) /\
  cut_dcolon (join ":" ts) = None.
Proof.
  induction 1 as [|t ts (Hc & _) Hts [IH1 IH2]]; [done|]. destruct ts as [|t' ts].
  - cbn [join]. split; [|by apply cut_dcolon_word]. rewrite cut_dcolon_over by done. cbn. by rewrite append_nil_r.
  - rewrite join_cons by done. pose proof (words_prefix (t' :: ts) EmptyString Hts) as Hp. rewrite append_nil_r in Hp.
    split; [|by rewrite cut_dcolon_over, cut_dcolon_colon, IH2 by (done || by apply Hp)].
    rewrite append_assoc, cut_dcolon_over by done. change (String.append (String ":" (join ":" (t' :: ts))) (String.append "::" r))
      with (String ":" (String.append (join ":" (t' :: ts)) (String.append "::" r))).
    by rewrite cut_dcolon_colon, IH1 by by apply words_prefix.
Qed.

(** A text without a dot is left as it is. *)
Lemma cut_last_spec c s h t : cut_last c s = Some (h, t) -> s = String.append h t.
Proof.
  revert h. induction s as [|d s IH]; intros h; [done|]. cbn. destruct (cut_last c s) as [[h' t']|].
  - intros [= <- <-]. cbn. by rewrite <- (IH h').
  - destruct (Ascii.eqb c d); [|done]. by intros [= <- <-].
Qed.

Lemma expand_tail_plain s : has_char "." s = false -> expand_tail s = Some s.
Proof.
  intros Hs. unfold expand_tail. destruct (cut_last ":" s) as [[h t]|] eqn:E; [|done].
  apply cut_last_spec in E as ->. rewrite has_char_append in Hs. by apply orb_false_iff in Hs as [_ ->].
Qed.

Lemma expand_groups h rs vr :
  has_char "." h = false -> groups_text rs vr ->
  exists rs', reads rs' vr /\
    expand_tail (String.append h (String ":" (join ":" rs))) = Some (String.append h (String ":" (join ":" rs'))).
Proof.
  intros Hh [ts vs H|ts vs ip H Hip]; apply groups_text_reads in H.
  - exists ts. split; [done|]. apply expand_tail_plain. rewrite has_char_append, Hh. cbn [has_char orb].
    rewrite words_no_dot by (by eapply reads_words). done.
  - exists (ts ++ [hex_string (ip / 2 ^ 16); hex_string (ip mod 2 ^ 16)]). split.
    { apply Forall2_app; [done|]. repeat constructor; apply parse_group_hex; Z.div_mod_to_equations; lia. }
    destruct (decide (ts = [])) as [->|Hne]; [by apply expand_tail_dotted|].
    rewrite join_snoc by done. change [hex_string (ip / 2 ^ 16); hex_string (ip mod 2 ^ 16)] with
      ([hex_string (ip / 2 ^ 16)] ++ [hex_string (ip mod 2 ^ 16)]).
    rewrite app_assoc, join_snoc, join_snoc by (done || by destruct ts).
    pose proof (expand_tail_dotted (String.append h (String ":" (join ":" ts))) ip Hip) as He.
    unfold tail_text in He. rewrite !append_assoc in He. rewrite !append_assoc. exact He.
Qed.

Lemma colon_inside h r : has_char ":" (String.append h (String ":" r)) = true.
Proof. rewrite has_char_append. cbn. by rewrite orb_true_r. Qed.

Lemma parseIPv6_full ts vs : groups_text ts vs -> length vs = 8%nat -> parseIPv6 (join ":" ts) = Some vs.
Proof.
  intros Ht H8. assert (exists t rs v vr, ts = t :: rs /\ rs <> [] /\ vs = v :: vr /\ group_text t v /\ groups_text rs vr)
    as (t & rs & v & vr & -> & Hne & -> & Hg & Hrs).
  { destruct Ht as [ts vs H|ts vs ip H Hip].
    - destruct H as [|t v ts vs Hg H]; [done|]. exists t, ts, v, vs. split_and!; [done| |done|done|by apply groups_plain].
      intros ->. by apply Forall2_nil_inv_l in H as ->.
    - destruct H as [|t v ts vs Hg H]; [done|]. exists t, (ts ++ [dotted ip]), v, (vs ++ [ip / 2 ^ 16; ip mod 2 ^ 16]).
      split_and!; [done|by destruct ts|done|done|by apply groups_dotted]. }
  apply group_text_read in Hg. assert (Forall word [t]) as [(_ & Hd & _) _]%Forall_cons by (apply (reads_words [t] [v]); by repeat constructor).
  destruct (expand_groups t rs vr Hd Hrs) as (rs' & Hrs' & He). rewrite join_cons by done. unfold parseIPv6.
  rewrite colon_inside, He. cbn [negb mbind option_bind]. assert (reads (t :: rs') (v :: vr)) as Hall by by constructor.
  assert (rs' <> []) as Hne' by (intros ->; by apply Forall2_nil_inv_l in Hrs' as ->). rewrite <- join_cons by done.
  pose proof (reads_words _ _ Hall) as Hw. destruct (cut_words _ EmptyString Hw) as [_ Hc].
  rewrite bool_decide_false by (intros E; by rewrite E in Hc). rewrite Hc, split_words, (reads_mapM _ _ Hall) by done.
  cbn [mbind option_bind]. by rewrite H8.
Qed.

Lemma parseIPv6_compressed ls vl rs vr :
  Forall2 group_text ls vl -> groups_text rs vr -> (length vl + length vr <= 7)%nat ->
  parseIPv6 (String.append (join ":" ls) (String.append "::" (join ":" rs))) =
  Some (vl ++ repeat 0 (8 - (length vl + length vr)) ++ vr).
Proof.
  intros Hl%groups_text_reads Hr H7. pose proof (reads_words _ _ Hl) as Hwl.
  assert (String.append (join ":" ls) (String.append "::" (join ":" rs)) =
          String.append (String.append (join ":" ls) ":") (String ":" (join ":" rs))) as E0 by (by rewrite append_assoc).
  destruct (expand_groups (String.append (join ":" ls) ":") rs vr) as (rs' & Hr' & He); [|done|].
  { by rewrite has_char_append, words_no_dot. }
  pose proof (reads_words _ _ Hr') as Hwr. unfold parseIPv6. rewrite E0, colon_inside, He. cbn [negb mbind option_bind].
  rewrite append_assoc. change (String.append ":" (String ":" (join ":" rs'))) with (String.append "::" (join ":" rs')).
  case_bool_decide as Heq.
  - assert (ls = [] /\ rs' = []) as [-> ->].
    { destruct ls as [|t ls]; [split; [done|]|].
      - destruct rs' as [|t rs']; [done|]. cbn [join String.append] in Heq. injection Heq as Heq. by apply words_nonempty in Heq.
      - pose proof (words_prefix (t :: ls) (String.append "::" (join ":" rs')) Hwl) as Hp. rewrite Heq in Hp. by specialize (Hp ltac:(done)). }
    apply Forall2_nil_inv_l in Hl as ->. by apply Forall2_nil_inv_l in Hr' as ->.
  - rewrite (proj1 (cut_words ls (join ":" rs') Hwl)). destruct (cut_words rs' EmptyString Hwr) as [_ ->].
    rewrite bool_decide_false by (by intros [? ?]). rewrite !groups_of_words, (reads_mapM _ _ Hl), (reads_mapM _ _ Hr') by done.
    cbn [mbind option_bind]. destruct (Nat.ltb_spec (8 - (length vl + length vr)) 1); [lia|done].
Qed.

Lemma parseIPv6_text a gs : ipv6_text a gs -> parseIPv6 a = Some gs /\ has_char ":" a = true /\ length gs = 8%nat.
Proof.
  intros Ha. assert (parseIPv6 a = Some gs) as Hp.
  { destruct Ha; [by apply parseIPv6_full|by apply parseIPv6_compressed]. }
  split; [done|]. split.
  - unfold parseIPv6 in Hp. by destruct (has_char ":" a).
  - destruct Ha as [|ls vl rs vr _ _ H7]; [done|]. rewrite !length_app, repeat_length. lia.
Qed.

Lemma hex_value_range s acc v : hex_value acc s = Some v -> 0 <= acc -> 0 <= v < (acc + 1) * 16 ^ Z.of_nat (String.length s).
Proof.
  revert acc. induction s as [|c s IH]; intros acc; cbn [hex_value String.length]; [intros [= <-]; cbn; lia|].
  intros (d & Hd & H)%bind_Some Hacc. assert (0 <= d < 16) as Hr.
  { unfold hex_char_val in Hd. repeat case_match; simplify_eq; reflect_hyps; lia. }
  specialize (IH _ H ltac:(lia)). rewrite Nat2Z.inj_succ, Z.pow_succ_r by lia.
  assert (0 < 16 ^ Z.of_nat (String.length s)) by (apply Z.pow_pos_nonneg; lia). nia.
Qed.

Lemma group_text_range t v : group_text t v -> 0 <= v < 2 ^ 16.
Proof.
  intros H%group_text_read. unfold parse_group in H. destruct (_ && _) eqn:E in H; [|done].
  apply andb_true_iff in E as [_ E%Nat.leb_le]. apply hex_value_range in H; [|lia].
  assert (16 ^ Z.of_nat (String.length t) <= 16 ^ 4) by (apply Z.pow_le_mono_r; lia). lia.
Qed.

Lemma ipv6_text_range a gs : ipv6_text a gs -> Forall (fun g => 0 <= g < 2 ^ 16) gs.
Proof.
  assert (forall ts vs, Forall2 group_text ts vs -> Forall (fun g => 0 <= g < 2 ^ 16) vs) as H1.
  { induction 1; constructor; [by eapply group_text_range|done]. }
  assert (forall ts vs, groups_text ts vs -> Forall (fun g => 0 <= g < 2 ^ 16) vs) as H2.
  { intros ts vs [? ? H|? ? ip H Hip]; [eauto|]. apply Forall_app. split; [eauto|].
    repeat constructor; Z.div_mod_to_equations; lia. }
  intros [ts vs H _|ls vl rs vr Hl Hr _]; [eauto|]. rewrite !Forall_app. split_and!; [eauto| |eauto].
  apply Forall_forall. intros x Hx%list_elem_of_In%repeat_spec. lia.
Qed.

(** *** Reserved IPv6 addresses *)

(** An address as one integer of 128 bits. *)
Definition value6 (groups : list Z) : Z := foldl (fun a g => a * 2 ^ 16 + g) 0 groups.

(** The unspecified address, loopback, link-local and unique local addresses. *)
Definition blocks6 : list (Z * Z) := [(0, 128); (1, 128); (0xfe80 * 2 ^ 112, 10); (0xfc00 * 2 ^ 112, 7)].
Definition in_block6 (v : Z) '((base, bits) : Z * Z) : bool := (base <=? v) && (v <? base + 2 ^ (128 - bits)).
(** The blocks that carry an IPv4 address in their last 32 bits: mapped, compatible, NAT64. *)
Definition carriers : list Z := [0xffff * 2 ^ 32; 0; 0x64ff9b * 2 ^ 96].
Definition carries_reserved (v base : Z) : bool := (base <=? v) && (v <? base + 2 ^ 32) && reserved (v - base).
Definition reserved6 (v : Z) : bool := existsb (in_block6 v) blocks6 || existsb (carries_reserved v) carriers.

Lemma mask_block g n c :
  0 <= n -> 0 <= g < 2 ^ 16 ->
  (Z.land g (Z.ldiff (Z.ones 16) (Z.ones n)) =? c * 2 ^ n) = (c * 2 ^ n <=? g) && (g <? (c + 1) * 2 ^ n).
Proof.
  intros Hn Hg. assert (Z.land g (Z.ldiff (Z.ones 16) (Z.ones n)) = g / 2 ^ n * 2 ^ n) as ->.
  { rewrite <- Z.shiftr_div_pow2, <- Z.shiftl_mul_pow2, <- Z.ldiff_ones_r by done.
    apply Z.bits_inj'. intros i Hi. rewrite Z.land_spec, !Z.ldiff_spec.
    rewrite <- (Z.mod_small g (2 ^ 16)) by done. rewrite <- Z.land_ones, Z.land_spec by lia.
    by destruct (Z.testbit g i), (Z.testbit (Z.ones 16) i). }
  assert (0 < 2 ^ n) as Hm by (apply Z.pow_pos_nonneg; lia).
  pose proof (Z.div_mod g (2 ^ n) ltac:(lia)) as Hq. pose proof (Z.mod_pos_bound g (2 ^ n) ltac:(lia)) as Hr.
  apply eq_bool_prop_intro. rewrite !Is_true_true, andb_true_iff, Z.eqb_eq, Z.leb_le, Z.ltb_lt.
  set (q := g / 2 ^ n) in *. set (m := 2 ^ n) in *. clearbody q m. split; [intros ->%Z.mul_reg_r; lia|].
  intros [H1 H2]. assert (q = c) as ->; [|done]. assert (c < q + 1) by nia. assert (q < c + 1) by nia. lia.
Qed.

Lemma if_true_orb (a b : bool) : (if a then true else b) = a || b.
Proof. by destruct a. Qed.

(** The IPv4 address carried by an address of one of these blocks. *)
Lemma carried_if base v e (a b : bool) :
  (a = true -> v - base = e) -> (if a then reserved e else b) = (if a then reserved (v - base) else b).
Proof. destruct a; [|done]. by intros ->. Qed.

(** The reserved addresses, tested in the order of the code. *)
Lemma reserved6_tests v :
  0 <= v ->
  in_block6 v (0, 128) || (in_block6 v (1, 128) || (in_block6 v (0xfe80 * 2 ^ 112, 10) || (in_block6 v (0xfc00 * 2 ^ 112, 7) ||
    (if (0xffff * 2 ^ 32 <=? v) && (v <? 0xffff * 2 ^ 32 + 2 ^ 32) then reserved (v - 0xffff * 2 ^ 32)
     else if (2 <=? v) && (v <? 2 ^ 32) then reserved (v - 0)
     else if (0x64ff9b * 2 ^ 96 <=? v) && (v <? 0x64ff9b * 2 ^ 96 + 2 ^ 32) then reserved (v - 0x64ff9b * 2 ^ 96)
     else false)))) = reserved6 v.
Proof.
  intros Hpos. unfold reserved6. cbn [existsb blocks6 carriers]. unfold carries_reserved.
  rewrite !orb_false_r, <- !orb_assoc. destruct (in_block6 v (0, 128)) eqn:E0; [done|].
  destruct (in_block6 v (1, 128)) eqn:E1; [done|]. cbn in E0, E1. cbn [orb].
  do 2 (destruct (in_block6 v _); [done|]). cbn [orb].
  destruct ((0xffff * 2 ^ 32 <=? v) && (v <? 0xffff * 2 ^ 32 + 2 ^ 32)) eqn:E5.
  - replace ((0 <=? v) && (v <? 0 + 2 ^ 32)) with false by lia.
    replace ((0x64ff9b * 2 ^ 96 <=? v) && (v <? 0x64ff9b * 2 ^ 96 + 2 ^ 32)) with false by lia. by rewrite orb_false_r.
  - replace ((2 <=? v) && (v <? 2 ^ 32)) with ((0 <=? v) && (v <? 0 + 2 ^ 32)) by lia. cbn [andb orb].
    destruct ((0 <=? v) && (v <? 0 + 2 ^ 32)) eqn:E6; [|by destruct ((0x64ff9b * 2 ^ 96 <=? v) && _)].
    replace ((0x64ff9b * 2 ^ 96 <=? v) && (v <? 0x64ff9b * 2 ^ 96 + 2 ^ 32)) with false by lia. by rewrite orb_false_r.
Qed.

Lemma isBlockedIPv6_reserved gs :
  length gs = 8%nat -> Forall (fun g => 0 <= g < 2 ^ 16) gs -> isBlockedIPv6 gs = reserved6 (value6 gs).
Proof.
  intros H8 Hr. destruct gs as [|g0 [|g1 [|g2 [|g3 [|g4 [|g5 [|g6 [|g7 [|]]]]]]]]]; try done. clear H8.
  rewrite !Forall_cons in Hr. destruct Hr as (R0 & R1 & R2 & R3 & R4 & R5 & R6 & R7 & _).
  set (v := value6 [g0; g1; g2; g3; g4; g5; g6; g7]).
  assert (v = g0 * 2 ^ 112 + g1 * 2 ^ 96 + g2 * 2 ^ 80 + g3 * 2 ^ 64 + g4 * 2 ^ 48 + g5 * 2 ^ 32 + g6 * 2 ^ 16 + g7) as Hv
    by (unfold v, value6; cbn [foldl]; lia).
  clearbody v. unfold isBlockedIPv6. cbn [nth take forallb].
  change 0xffc0 with (Z.ldiff (Z.ones 16) (Z.ones 6)). change 0xfe80 with (0x3fa * 2 ^ 6).
  change 0xfe00 with (Z.ldiff (Z.ones 16) (Z.ones 9)). change 0xfc00 with (0x7e * 2 ^ 9).
  rewrite !mask_block, !embedded_value, !isBlockedIPv4_reserved by lia. rewrite !if_true_orb.
  set (e := g6 * 2 ^ 16 + g7) in *.
  rewrite (carried_if (0xffff * 2 ^ 32) v e), (carried_if 0 v e), (carried_if (0x64ff9b * 2 ^ 96) v e) by lia.
  (* each test of the groups is a range of the value *)
  repeat match goal with
  | |- context [(1018 * 2 ^ 6 <=? g0) && ?b] =>
      replace ((1018 * 2 ^ 6 <=? g0) && b) with (in_block6 v (0xfe80 * 2 ^ 112, 10)) by (cbn [in_block6]; lia)
  | |- context [(126 * 2 ^ 9 <=? g0) && ?b] =>
      replace ((126 * 2 ^ 9 <=? g0) && b) with (in_block6 v (0xfc00 * 2 ^ 112, 7)) by (cbn [in_block6]; lia)
  | |- context [(g0 =? 0) && (?a && (?b && ?c)) || ?d] =>
      replace ((g0 =? 0) && (a && (b && c))) with (in_block6 v (0, 128)) by (cbn [in_block6]; lia)
  | |- context [?a && (g7 =? 1) || ?d] =>
      replace (a && (g7 =? 1)) with (in_block6 v (1, 128)) by (cbn [in_block6]; lia)
  | |- context [if ?a && (g5 =? 65535) then _ else _] =>
      replace (a && (g5 =? 65535)) with ((0xffff * 2 ^ 32 <=? v) && (v <? 0xffff * 2 ^ 32 + 2 ^ 32)) by lia
  | |- context [if ?a && negb ((g6 =? 0) && (g7 =? 1)) then _ else _] =>
      replace (a && negb ((g6 =? 0) && (g7 =? 1))) with ((2 <=? v) && (v <? 2 ^ 32)) by lia
  | |- context [if ?a && (g5 =? 0) then _ else _] =>
      replace (a && (g5 =? 0)) with ((0x64ff9b * 2 ^ 96 <=? v) && (v <? 0x64ff9b * 2 ^ 96 + 2 ^ 32)) by lia
  end.
  apply reserved6_tests. lia.
Qed.

Lemma blocked_spelling a :
  (forall ip, 0 <= ip < 2 ^ 32 -> a = dotted ip -> isBlockedHost a = reserved ip) /\
  (forall gs, ipv6_text a gs -> isBlockedHost a = reserved6 (value6 gs)).
Proof.
  unfold isBlockedHost. split.
  - intros ip Hip ->. rewrite parseIPv4_dotted by done. by apply isBlockedIPv4_reserved.
  - intros gs Ha. destruct (parseIPv6_text _ _ Ha) as (-> & Hc & Hl). rewrite (parseIPv4_colon _ Hc).
    by apply isBlockedIPv6_reserved; [|eapply ipv6_text_range].
Qed.

(** ** Accepted destinations *)

(** Documented behaviour of the platform's URL parser on the hosts of [https]
    URLs: host names are in lower case, and an IPv6 host is in brackets. *)
Definition whatwg_hosts (parse_url : string -> option Url) : Prop :=
  forall raw u, parse_url raw = Some u ->
    lower (u_hostname u) = u_hostname u /\
    ((exists h, u_hostname u = String "[" (String.append h "]")) \/
     (String.prefix "[" (u_hostname u) = false /\ endsWith "]" (u_hostname u) = false)).

Lemma substring_append s t : String.substring 0 (String.length s) (String.append s t) = s.
Proof. induction s as [|c s IH]; cbn; [by destruct t|]. by rewrite IH. Qed.

Lemma endsWith_append s t : endsWith t (String.append s t) = true.
Proof.
  induction s as [|c s IH]; cbn [String.append].
  - destruct t; cbn [endsWith]; by rewrite bool_decide_true.
  - cbn [endsWith]. rewrite IH. by rewrite orb_true_r.
Qed.

Lemma brackets_agree parse_url raw u :
  whatwg_hosts parse_url -> parse_url raw = Some u ->
  strip_brackets (lower (u_hostname u)) = replace_brackets (u_hostname u).
Proof.
  intros Hok Hu. destruct (Hok raw u Hu) as [-> [[h ->]|[Hp He]]]; unfold strip_brackets, replace_brackets.
  - rewrite endsWith_append, append_length. done.
  - assert (forall A (x : string -> A) y, match u_hostname u with String "[" r => x r | _ => y end = y) as Hm.
    { intros A x y. destruct (u_hostname u) as [|c r]; [done|]. cbn [String.prefix] in Hp.
      destruct (ascii_dec "[" c) as [<-|Hn]; [by destruct r|].
      destruct c as [[] [] [] [] [] [] [] []]; done. }
    by rewrite !Hm, He.
Qed.

(** The addresses a request to [host] may connect to: the literal itself, or
    what the resolver answered. *)
Definition connects (resolve : string -> result string (list string)) (host : string) : list string :=
  if bool_decide (is_Some (parseIPv4 host)) || bool_decide (is_Some (parseIPv6 host)) then [host]
  else match resolve host with Ok addresses => addresses | Err _ => [] end.

(** The names that are never looked up. *)
Definition local_name (host : string) : Prop :=
  host = "localhost" \/
  exists p suffix, suffix ∈ [".localhost"; ".local"; ".internal"] /\ host = String.append p suffix.

Lemma local_blocked host :
  local_name host -> parseIPv4 host = None -> parseIPv6 host = None -> isBlockedHost host = true.
Proof.
  intros Hl H4 H6. unfold isBlockedHost. rewrite H4, H6. destruct Hl as [->|(p & suffix & Hs & ->)]; [done|].
  rewrite !elem_of_cons, elem_of_nil in Hs. destruct Hs as [->|[->|[->|[]]]]; rewrite endsWith_append, ?orb_true_r; done.
Qed.

(** What an accepted destination went through. *)
Lemma accepted_checks parse_url resolve raw :
  whatwg_hosts parse_url -> assertSafeWebhookDestination parse_url resolve raw = Ok tt ->
  exists u, parse_url raw = Some u /\ u_protocol u = "https:" /\ u_username u = EmptyString /\
    u_password u = EmptyString /\ u_port u = EmptyString /\
    let host := replace_brackets (u_hostname u) in
    isBlockedHost host = false /\ connects resolve host <> [] /\
    forall a, a ∈ connects resolve host -> isBlockedHost a = false.
Proof.
  intros Hok Hg. assert (assertSafeDestination parse_url resolve raw = Ok tt) as Hd.
  { unfold assertSafeWebhookDestination in Hg.
    destruct (assertSafeDestination parse_url resolve raw) as [[]|[]]; done. }
  unfold assertSafeDestination, assertSafeDestinationUrl in Hd.
  destruct (parse_url raw) as [u|] eqn:Eu; [|done]. rewrite (brackets_agree _ _ _ Hok Eu) in Hd.
  run_result. reflect_hyps. exists u. cbn zeta. do 5 (split; [done|]). split; [done|]. unfold connects.
  destruct (_ || _) eqn:E; [split; [done|]; by intros a ->%list_elem_of_singleton|].
  destruct (resolve _) as [l|m]; [|done]. run_result. split; [by destruct l|]. intros a Ha.
  match goal with H : existsb _ _ = false |- _ => rewrite <- not_true_iff_false, existsb_exists in H; rename H into Hex end.
  apply not_true_iff_false. intros Hba. apply Hex. exists a. by rewrite <- list_elem_of_In.
Qed.

(** C27: a destination the guard accepts is an [https] URL with no credentials
    and no explicit port; its host, unless it is an address, is not a local name;
    it has at least one address; and none of the addresses the guard saw for it is
    reserved: no IPv4 address in the blocks listed in [blocks], and no IPv6 address,
    in any of the spellings of RFC 4291, that is unspecified, loopback, link-local or
    unique local, or carries such an IPv4 address as a mapped, compatible or NAT64
    address. *)
Theorem accepted_destination_public parse_url resolve raw :
  whatwg_hosts parse_url ->
  assertSafeWebhookDestination parse_url resolve raw = Ok tt ->
  exists u, parse_url raw = Some u /\ u_protocol u = "https:" /\ u_username u = EmptyString /\
    u_password u = EmptyString /\ u_port u = EmptyString /\
    let host := replace_brackets (u_hostname u) in
    (parseIPv4 host = None -> parseIPv6 host = None -> ~ local_name host) /\
    connects resolve host <> [] /\
    forall a, a ∈ connects resolve host ->
      (forall ip, 0 <= ip < 2 ^ 32 -> a = dotted ip -> reserved ip = false) /\
      (forall gs, ipv6_text a gs -> reserved6 (value6 gs) = false).
Proof.
  intros Hok Hg. destruct (accepted_checks _ _ _ Hok Hg) as (u & H1 & H2 & H3 & H4 & H5 & Hb & Hne & Ha).
  exists u. do 5 (split; [done|]). cbn zeta. split; [|split; [done|]].
  - intros H4' H6 Hl. by rewrite (local_blocked _ Hl H4' H6) in Hb.
  - intros a Hin. specialize (Ha a Hin). destruct (blocked_spelling a) as [Hv4 Hv6].
    split; [intros ip Hip E|intros gs Hgs]; by rewrite <- Ha; symmetry; auto.
Qed.

(** A URL parser that knows one URL, and a resolver that knows one name. *)
Definition demo_parse_url (raw : string) : option Url :=
  if bool_decide (raw = "https://hooks.example.com/in") then
    Some {| u_protocol := "https:"; u_username := EmptyString; u_password := EmptyString;
            u_hostname := "hooks.example.com"; u_port := EmptyString |}
  else None.
Definition demo_resolve (host : string) : result string (list string) :=
  if bool_decide (host = "hooks.example.com") then Ok ["93.184.216.34"; "2606:2800:220:1::1"] else Err "ENOTFOUND".

Lemma demo_parse_url_ok : whatwg_hosts demo_parse_url.
Proof.
  intros raw u. unfold demo_parse_url. case_bool_decide; [|done]. intros [= <-].
  split; [done|]. right. by vm_compute.
Qed.

(** A group of lower-case hexadecimal digits. *)
Ltac demo_group := split_and!; [repeat (apply Forall2_cons_2; [split; [lia|by left]|]); constructor|reflexivity|cbn; lia|cbn; lia].

Lemma accepted_destination_public_witness :
  assertSafeWebhookDestination demo_parse_url demo_resolve "https://hooks.example.com/in" = Ok tt /\
  reserved (pack 93 184 216 34) = false /\
  reserved6 (value6 [0x2606; 0x2800; 0x220; 1; 0; 0; 0; 1]) = false.
Proof.
  assert (assertSafeWebhookDestination demo_parse_url demo_resolve "https://hooks.example.com/in" = Ok tt) as H
    by by vm_compute.
  split; [exact H|]. destruct (accepted_destination_public _ _ _ demo_parse_url_ok H) as (u & Hu & _ & _ & _ & _ & _ & _ & Ha).
  injection Hu as <-. split.
  - refine (proj1 (Ha "93.184.216.34" _) _ _ _); [by apply elem_of_cons; left|by vm_compute|by vm_compute].
  - refine (proj2 (Ha "2606:2800:220:1::1" _) _ _); [by apply elem_of_cons; right; left|].
    refine (ipv6_compressed ["2606"; "2800"; "220"; "1"] [0x2606; 0x2800; 0x220; 1] ["1"] [1] _ _ _); [| |cbn; lia].
    + apply Forall2_cons_2; [exists [2; 6; 0; 6]; demo_group|]. apply Forall2_cons_2; [exists [2; 8; 0; 0]; demo_group|].
      apply Forall2_cons_2; [exists [2; 2; 0]; demo_group|]. apply Forall2_cons_2; [exists [1]; demo_group|constructor].
    + apply groups_plain, Forall2_cons_2; [exists [1]; demo_group|constructor].
Defined.

(** What the policy comment lists as refused and the code lets through: the
    first of the three TEST-NET blocks, and the local suffixes when the name is
    written with its final dot. *)
Lemma undetected_destinations :
  isBlockedHost (dotted (pack 192 0 2 1)) = false /\
  isBlockedHost "vault.internal." = false /\ isBlockedHost "localhost." = false.
Proof. by vm_compute. Qed.
