(* ===== verification/Predicates.v ===== *)
(** * Webhook predicates

    Model of [src/webhooks/services/predicate-evaluator.service.ts] and of the
    validators of [src/webhooks/validation/predicate.validators.ts]: the filter an
    endpoint may put on its events, evaluated under a budget of visited nodes.
    Expressions have the declared type of [src/webhooks/predicate.types.ts], with
    one more form for an operator the evaluator does not know; [decode] reads the
    stored JSON as that type. *)

From S2P Require Import Prelude JsData Canonical DestinationGuard.
From Stdlib Require Import Ascii.

Local Open Scope string_scope.
Local Open Scope Z_scope.
Local Open Scope list_scope.

(** ** Expressions *)

Inductive PredicateField := resource | outcome | schemaVersion.
#[export] Instance PredicateField_eq_dec : EqDecision PredicateField.
Proof. solve_decision. Defined.

Record WebhookEventContext := { ctx_resource : string; ctx_outcome : string; ctx_schemaVersion : string }.

Definition context_field (context : WebhookEventContext) (field : PredicateField) : string :=
  match field with
  | resource => ctx_resource context
  | outcome => ctx_outcome context
  | schemaVersion => ctx_schemaVersion context
  end.

Unset Elimination Schemes.
Inductive PredicateExpression :=
| FieldComparison (field : PredicateField) (value : json)
| FieldInList (field : PredicateField) (values : list json)
| AndExpression (expressions : list PredicateExpression)
| OrExpression (expressions : list PredicateExpression)
| NotExpression (expressions : list PredicateExpression)
| UnknownOperator.
Set Elimination Schemes.

Lemma PredicateExpression_ind (P : PredicateExpression -> Prop) :
  (forall f v, P (FieldComparison f v)) -> (forall f vs, P (FieldInList f vs)) ->
  (forall l, Forall P l -> P (AndExpression l)) -> (forall l, Forall P l -> P (OrExpression l)) ->
  (forall l, Forall P l -> P (NotExpression l)) -> P UnknownOperator -> forall e, P e.
Proof.
  intros Hc Hi Ha Ho Hn Hu. fix IH 1. intros [f v|f vs|l|l|l|];
    [apply Hc|apply Hi|apply Ha|apply Ho|apply Hn|exact Hu]; induction l; constructor; auto.
Qed.

(** ** Evaluation *)

Definition maxEvaluationBudget : Z := 256.

Inductive EvaluationReason := NO_MATCH | EVALUATION_BUDGET_EXCEEDED | UNKNOWN_OPERATOR.
#[export] Instance EvaluationReason_eq_dec : EqDecision EvaluationReason.
Proof. solve_decision. Defined.

Record EvaluationResult := { er_match : bool; er_reason : option EvaluationReason; er_visited : Z }.

(** A JSON value equal to a string. *)
Definition is_string (s : string) (v : json) : bool :=
  match v with JStr t => bool_decide (s = t) | _ => false end.

Definition matched_result (matched : bool) (visited : Z) : EvaluationResult :=
  {| er_match := matched; er_reason := if matched then None else Some NO_MATCH; er_visited := visited |}.
Definition exceeded_result (visited : Z) : EvaluationResult :=
  {| er_match := false; er_reason := Some EVALUATION_BUDGET_EXCEEDED; er_visited := visited |}.
Definition is_exceeded (r : EvaluationResult) : bool :=
  bool_decide (er_reason r = Some EVALUATION_BUDGET_EXCEEDED).

Definition evaluateComparison (field : PredicateField) (value : json) (context : WebhookEventContext) : EvaluationResult :=
  matched_result (is_string (context_field context field) value) 1.

Definition evaluateInList (field : PredicateField) (values : list json) (context : WebhookEventContext) : EvaluationResult :=
  matched_result (existsb (is_string (context_field context field)) values) 1.

(** The loops, over the evaluation of a sub-expression; [v] is
    [budget.visited]. *)
Section loops.
Context (eval : PredicateExpression -> Z -> EvaluationResult * Z).

Definition evaluateAnd : list PredicateExpression -> Z -> EvaluationResult * Z :=
  fix go expressions v :=
    match expressions with
    | [] => (matched_result true v, v)
    | e :: rest =>
        if v >=? maxEvaluationBudget then (exceeded_result v, v)
        else
          let '(r, v') := eval e v in
          if is_exceeded r then (r, v')
          else if negb (er_match r) then (r, v')
          else go rest v'
    end.

Definition evaluateOr : list PredicateExpression -> Z -> EvaluationResult * Z :=
  fix go expressions v :=
    match expressions with
    | [] => (matched_result false v, v)
    | e :: rest =>
        if v >=? maxEvaluationBudget then (exceeded_result v, v)
        else
          let '(r, v') := eval e v in
          if is_exceeded r then (r, v')
          else if er_match r then (r, v')
          else go rest v'
    end.

(** Only the first sub-expression counts; [missing] is what an absent one
    evaluates to. *)
Definition evaluateNot (missing : Z -> EvaluationResult * Z) (expressions : list PredicateExpression) (v : Z)
  : EvaluationResult * Z :=
  if v >=? maxEvaluationBudget then (exceeded_result v, v)
  else
    let '(r, v') := match expressions with e :: _ => eval e v | [] => missing v end in
    if is_exceeded r then (r, v')
    else (matched_result (negb (er_match r)) v', v').
End loops.

(** The budget checks around the dispatch on the operator. *)
Definition visit (v : Z) (dispatch : Z -> EvaluationResult * Z) : EvaluationResult * Z :=
  if v >=? maxEvaluationBudget then (exceeded_result v, v)
  else
    let v := v + 1 in
    if v >=? maxEvaluationBudget then (exceeded_result v, v) else dispatch v.

Definition unknown_operator (v : Z) : EvaluationResult * Z :=
  ({| er_match := false; er_reason := Some UNKNOWN_OPERATOR; er_visited := v |}, v).

Fixpoint evaluateExpression (context : WebhookEventContext) (expr : PredicateExpression) (v : Z)
  : EvaluationResult * Z :=
  visit v (fun v =>
    match expr with
    | FieldComparison field value => (evaluateComparison field value context, v)
    | FieldInList field values => (evaluateInList field values context, v)
    | AndExpression l => evaluateAnd (evaluateExpression context) l v
    | OrExpression l => evaluateOr (evaluateExpression context) l v
    | NotExpression l => evaluateNot (evaluateExpression context) (fun v => visit v unknown_operator) l v
    | UnknownOperator => unknown_operator v
    end).

Definition evaluate (logic : PredicateExpression) (context : WebhookEventContext) : EvaluationResult :=
  fst (evaluateExpression context logic 0).

Definition deriveContext (eventType schemaVersion : string) : WebhookEventContext :=
  match split_on "." eventType with
  | [r; o] => {| ctx_resource := r; ctx_outcome := o; ctx_schemaVersion := schemaVersion |}
  | _ => {| ctx_resource := EmptyString; ctx_outcome := EmptyString; ctx_schemaVersion := schemaVersion |}
  end.

(** ** Validation *)

Definition maxDepth : Z := 4.
Definition maxNodes : Z := 32.
Definition maxFieldValueLength : Z := 256.
Definition maxInListSize : nat := 16.

(** [Buffer.byteLength(s, "utf8")] on 8-bit code units. *)
Fixpoint byteLength (s : string) : Z :=
  match s with
  | EmptyString => 0
  | String c s => (if (nat_of_ascii c <? 128)%nat then 1 else 2) + byteLength s
  end.

(** [f(obj[k])] on an own property, [d] without it. *)
Definition with_prop {A} (f : json -> A) (d : A) (k : string) : list (string * json) -> A :=
  fix go kvs :=
    match kvs with
    | [] => d
    | (k', v) :: rest => if bool_decide (k' = k) then f v else go rest
    end.

Definition has_prop (k : string) (kvs : list (string * json)) : bool := with_prop (fun _ => true) false k kvs.
Definition prop (k : string) (kvs : list (string * json)) : option json := with_prop Some None k kvs.

Definition only_keys (allowed : list string) (kvs : list (string * json)) : bool :=
  forallb (fun kv => bool_decide (kv.1 ∈ allowed)) kvs.

(** A string, number, boolean or null, and a string of at most 256 bytes. *)
Definition valid_value (v : json) : bool :=
  match v with
  | JNull | JNum _ | JNonFinite | JBool _ => true
  | JStr s => byteLength s <=? maxFieldValueLength
  | _ => false
  end.

Definition read_field (v : json) : option PredicateField :=
  match v with
  | JStr s =>
      if bool_decide (s = "resource") then Some resource
      else if bool_decide (s = "outcome") then Some outcome
      else if bool_decide (s = "schemaVersion") then Some schemaVersion
      else None
  | _ => None
  end.

Definition known_field (kvs : list (string * json)) : bool :=
  with_prop (fun v => bool_decide (is_Some (read_field v))) false "field" kvs.

Definition isValidAtomicExpression (op : string) (kvs : list (string * json)) : bool :=
  if bool_decide (op = "eq") then
    known_field kvs && with_prop valid_value false "value" kvs && only_keys ["op"; "field"; "value"] kvs
  else if bool_decide (op = "in") then
    known_field kvs &&
    with_prop (fun v => match v with
      | JArr l => (0 <? length l)%nat && (length l <=? maxInListSize)%nat && forallb valid_value l
      | _ => false end) false "values" kvs &&
    only_keys ["op"; "field"; "values"] kvs
  else false.

Definition isValidLogicalExpression (valid : json -> bool) (op : string) (kvs : list (string * json)) : bool :=
  with_prop (fun v => match v with
    | JArr l =>
        (if bool_decide (op = "not") then (length l =? 1)%nat else (2 <=? length l)%nat) && forallb valid l
    | _ => false end) false "expressions" kvs &&
  only_keys ["op"; "expressions"] kvs.

Definition ATOMIC_OPERATORS : list string := ["eq"; "in"].
Definition LOGICAL_OPERATORS : list string := ["and"; "or"; "not"].

Fixpoint isValidExpression (expr : json) : bool :=
  match expr with
  | JObj kvs =>
      match prop "op" kvs with
      | Some (JStr op) =>
          if bool_decide (op ∈ ATOMIC_OPERATORS) then isValidAtomicExpression op kvs
          else if bool_decide (op ∈ LOGICAL_OPERATORS) then isValidLogicalExpression isValidExpression op kvs
          else false
      | _ => false
      end
  | _ => false
  end.

(** [walkExpression]: the greatest depth and the number of nodes so far. *)
Definition walk_list (walk : json -> Z -> Z * Z -> Z * Z) (depth : Z) : list json -> Z * Z -> Z * Z :=
  fix go l state := match l with [] => state | e :: l => go l (walk e depth state) end.

Fixpoint walkExpression (expr : json) (depth : Z) (state : Z * Z) : Z * Z :=
  match expr with
  | JObj kvs =>
      let nodes := state.2 + 1 + (if has_prop "field" kvs then 1 else 0) + (if has_prop "value" kvs then 1 else 0) +
                   with_prop (fun v => match v with JArr l => Z.of_nat (length l) | _ => 0 end) 0 "values" kvs in
      let state := (Z.max state.1 depth, nodes) in
      with_prop (fun v => match v with
        | JArr l => walk_list walkExpression (depth + 1) l
        | _ => fun state => state end) (fun state => state) "expressions" kvs state
  | JArr _ | JDate _ => (Z.max state.1 depth, state.2 + 1)
  | _ => state
  end.

(** The root check of the [logic] field of a predicate. *)
Definition validate_root (value : json) : bool :=
  match value with
  | JObj _ | JArr _ | JDate _ =>
      let '(depth, nodeCount) := walkExpression value 1 (0, 0) in
      if depth >? maxDepth then false
      else if nodeCount >? maxNodes then false
      else isValidExpression value
  | _ => false
  end.

(** The stored JSON as an expression; [None] outside the declared type. *)
Definition decode_list (decode : json -> option PredicateExpression)
    (make : list PredicateExpression -> PredicateExpression) (kvs : list (string * json)) : option PredicateExpression :=
  with_prop (fun v => match v with JArr l => make <$> mapM decode l | _ => None end) None "expressions" kvs.

Fixpoint decode (expr : json) : option PredicateExpression :=
  match expr with
  | JObj kvs =>
      match prop "op" kvs with
      | Some (JStr op) =>
          if bool_decide (op = "eq") then
            f ← with_prop read_field None "field" kvs; FieldComparison f <$> prop "value" kvs
          else if bool_decide (op = "in") then
            f ← with_prop read_field None "field" kvs;
            with_prop (fun v => match v with JArr l => Some (FieldInList f l) | _ => None end) None "values" kvs
          else if bool_decide (op = "and") then decode_list decode AndExpression kvs
          else if bool_decide (op = "or") then decode_list decode OrExpression kvs
          else if bool_decide (op = "not") then decode_list decode NotExpression kvs
          else Some UnknownOperator
      | _ => Some UnknownOperator
      end
  | _ => Some UnknownOperator
  end.

(** ** What a predicate means *)

Fixpoint holds (context : WebhookEventContext) (e : PredicateExpression) : bool :=
  match e with
  | FieldComparison f v => is_string (context_field context f) v
  | FieldInList f vs => existsb (is_string (context_field context f)) vs
  | AndExpression l => forallb (holds context) l
  | OrExpression l => existsb (holds context) l
  | NotExpression l => negb (match l with e :: _ => holds context e | [] => false end)
  | UnknownOperator => false
  end.

(** The nodes an evaluation can visit. *)
Fixpoint nodes (e : PredicateExpression) : Z :=
  match e with
  | AndExpression l | OrExpression l => 1 + foldr (fun e n => nodes e + n) 0 l
  | NotExpression l => 1 + match l with e :: _ => nodes e | [] => 1 end
  | _ => 1
  end.

(** ** Evaluation follows the meaning *)

(** What one evaluation from [v] visited nodes may return: it ran out of budget
    and did not match, or it stayed below and answered [b]. *)
Definition outcome_ok (v : Z) (size : Z) (b : bool) (out : EvaluationResult * Z) : Prop :=
  v <= out.2 <= v + size /\ out.2 <= maxEvaluationBudget /\
  (if is_exceeded out.1 then er_match out.1 = false /\ out.2 = maxEvaluationBudget
   else er_match out.1 = b /\ out.2 < maxEvaluationBudget).

Ltac outcome :=
  unfold outcome_ok, unknown_operator; cbn [fst snd];
  repeat match goal with |- context [is_exceeded ?r] =>
    let b := eval cbv in (is_exceeded r) in progress change (is_exceeded r) with b end;
  cbn [er_match exceeded_result matched_result]; split_and!; done || lia.

Lemma nodes_pos e : 1 <= nodes e.
Proof.
  assert (forall l, Forall (fun e => 1 <= nodes e) l -> 0 <= foldr (fun e n => nodes e + n) 0 l) as Hl.
  { induction 1; cbn; lia. }
  induction e as [| |l IH|l IH|l IH|] using PredicateExpression_ind; cbn [nodes]; [lia|lia|..|lia];
    [apply Hl in IH; lia..|]. destruct IH; lia.
Qed.

Lemma nodes_list_pos l : 0 <= foldr (fun e n => nodes e + n) 0 l.
Proof. induction l as [|e l IH]; cbn [foldr]; [lia|]. pose proof (nodes_pos e). lia. Qed.

Lemma visit_ok v size b dispatch :
  v < maxEvaluationBudget -> 1 <= size ->
  (v + 1 < maxEvaluationBudget -> outcome_ok (v + 1) (size - 1) b (dispatch (v + 1))) ->
  outcome_ok v size b (visit v dispatch).
Proof.
  intros Hv Hs Hd. unfold visit. destruct (Z.geb_spec v maxEvaluationBudget); [lia|].
  destruct (Z.geb_spec (v + 1) maxEvaluationBudget).
  - outcome.
  - specialize (Hd ltac:(lia)). unfold outcome_ok in *. destruct Hd as (? & ? & Hd). split_and!; [lia..|exact Hd].
Qed.

Lemma evaluateAnd_cons eval e l v :
  evaluateAnd eval (e :: l) v =
  if v >=? maxEvaluationBudget then (exceeded_result v, v)
  else let '(r, v') := eval e v in
    if is_exceeded r then (r, v') else if negb (er_match r) then (r, v') else evaluateAnd eval l v'.
Proof. reflexivity. Qed.

Lemma evaluateAnd_ok eval h l v :
  Forall (fun e => forall v, v < maxEvaluationBudget -> outcome_ok v (nodes e) (h e) (eval e v)) l ->
  v < maxEvaluationBudget ->
  outcome_ok v (foldr (fun e n => nodes e + n) 0 l) (forallb h l) (evaluateAnd eval l v).
Proof.
  intros Hl. revert v. induction Hl as [|e l He _ IH]; intros v Hv; cbn [foldr forallb].
  { cbn [evaluateAnd]. outcome. }
  rewrite evaluateAnd_cons.
  destruct (Z.geb_spec v maxEvaluationBudget); [lia|]. specialize (He v Hv).
  pose proof (nodes_list_pos l). unfold outcome_ok in He. destruct (eval e v) as [r v'] eqn:E. cbn [fst snd] in He.
  destruct (is_exceeded r) eqn:Er; [unfold outcome_ok; cbn [fst snd]; rewrite Er; destruct He as (? & ? & ? & ?); split_and!; done || lia|].
  destruct He as (? & ? & Hm & ?). rewrite Hm. destruct (h e); cbn [negb andb].
  - specialize (IH v' ltac:(lia)). unfold outcome_ok in *.
    destruct IH as (? & ? & IH). split_and!; [lia..|exact IH].
  - unfold outcome_ok. cbn [fst snd]. rewrite Er. split_and!; done || lia.
Qed.

Lemma evaluateOr_cons eval e l v :
  evaluateOr eval (e :: l) v =
  if v >=? maxEvaluationBudget then (exceeded_result v, v)
  else let '(r, v') := eval e v in
    if is_exceeded r then (r, v') else if er_match r then (r, v') else evaluateOr eval l v'.
Proof. reflexivity. Qed.

Lemma evaluateOr_ok eval h l v :
  Forall (fun e => forall v, v < maxEvaluationBudget -> outcome_ok v (nodes e) (h e) (eval e v)) l ->
  v < maxEvaluationBudget ->
  outcome_ok v (foldr (fun e n => nodes e + n) 0 l) (existsb h l) (evaluateOr eval l v).
Proof.
  intros Hl. revert v. induction Hl as [|e l He _ IH]; intros v Hv; cbn [foldr existsb].
  { cbn [evaluateOr]. outcome. }
  rewrite evaluateOr_cons.
  destruct (Z.geb_spec v maxEvaluationBudget); [lia|]. specialize (He v Hv).
  pose proof (nodes_list_pos l). unfold outcome_ok in He. destruct (eval e v) as [r v'] eqn:E. cbn [fst snd] in He.
  destruct (is_exceeded r) eqn:Er; [unfold outcome_ok; cbn [fst snd]; rewrite Er; destruct He as (? & ? & ? & ?); split_and!; done || lia|].
  destruct He as (? & ? & Hm & ?). rewrite Hm. destruct (h e); cbn [orb].
  - unfold outcome_ok. cbn [fst snd]. rewrite Er. split_and!; done || lia.
  - specialize (IH v' ltac:(lia)). unfold outcome_ok in *.
    destruct IH as (? & ? & IH). split_and!; [lia..|exact IH].
Qed.

Lemma evaluateNot_ok eval missing h l v n b :
  (forall v, v < maxEvaluationBudget ->
    outcome_ok v n b (match l with e :: _ => eval e v | [] => missing v end)) ->
  v < maxEvaluationBudget -> h = negb b -> outcome_ok v n h (evaluateNot eval missing l v).
Proof.
  intros Hl Hv ->. specialize (Hl v Hv). unfold evaluateNot. destruct (Z.geb_spec v maxEvaluationBudget); [lia|].
  destruct (match l with e :: _ => eval e v | [] => missing v end) as [r v']. unfold outcome_ok in *. cbn [fst snd] in *.
  destruct (is_exceeded r) eqn:Er; cbn [fst snd]; [rewrite Er; done|].
  destruct Hl as (? & ? & -> & ?). by destruct b.
Qed.

Lemma evaluateExpression_ok context e v :
  v < maxEvaluationBudget -> outcome_ok v (nodes e) (holds context e) (evaluateExpression context e v).
Proof.
  revert v. induction e as [f x|f xs|l IH|l IH|l IH|] using PredicateExpression_ind; intros v Hv;
    cbn [evaluateExpression]; (apply visit_ok; [done|apply nodes_pos|]); intros Hv'; cbn [nodes holds];
    rewrite ?Z.add_simpl_l.
  - unfold outcome_ok, evaluateComparison. cbn [fst snd]. destruct (is_string _ _); outcome.
  - unfold outcome_ok, evaluateInList. cbn [fst snd]. destruct (existsb _ _); outcome.
  - by apply evaluateAnd_ok.
  - by apply evaluateOr_ok.
  - eapply evaluateNot_ok; [|done|done]. intros v1 Hv1. destruct IH as [|e l He _]; [|by apply He].
    apply visit_ok; [done|lia|]. intros. outcome.
  - outcome.
Qed.

(** ** Accepted predicates *)

(** *** The documented grammar *)

Definition field_name (f : PredicateField) : string :=
  match f with resource => "resource" | outcome => "outcome" | schemaVersion => "schemaVersion" end.

(** [P] of the elements of two lists of one length. *)
Definition all2 {A B} (P : A -> B -> Prop) : list A -> list B -> Prop :=
  fix go l k := match l, k with [], [] => True | x :: l, y :: k => P x y /\ go l k | _, _ => False end.

(** An object with these properties and no property beside the [allowed]. *)
Definition object_with (allowed : list string) (v : json) (P : list (string * json) -> Prop) : Prop :=
  exists kvs, v = JObj kvs /\ (forall kv, kv ∈ kvs -> kv.1 ∈ allowed) /\ P kvs.

(** The JSON that spells an expression, its properties in any order. *)
Fixpoint spells (e : PredicateExpression) (v : json) : Prop :=
  match e with
  | FieldComparison f x => object_with ["op"; "field"; "value"] v (fun kvs =>
      prop "op" kvs = Some (JStr "eq") /\ prop "field" kvs = Some (JStr (field_name f)) /\ prop "value" kvs = Some x)
  | FieldInList f xs => object_with ["op"; "field"; "values"] v (fun kvs =>
      prop "op" kvs = Some (JStr "in") /\ prop "field" kvs = Some (JStr (field_name f)) /\
      prop "values" kvs = Some (JArr xs))
  | AndExpression es => object_with ["op"; "expressions"] v (fun kvs =>
      prop "op" kvs = Some (JStr "and") /\ exists l, prop "expressions" kvs = Some (JArr l) /\ all2 spells es l)
  | OrExpression es => object_with ["op"; "expressions"] v (fun kvs =>
      prop "op" kvs = Some (JStr "or") /\ exists l, prop "expressions" kvs = Some (JArr l) /\ all2 spells es l)
  | NotExpression es => object_with ["op"; "expressions"] v (fun kvs =>
      prop "op" kvs = Some (JStr "not") /\ exists l, prop "expressions" kvs = Some (JArr l) /\ all2 spells es l)
  | UnknownOperator => False
  end.

(** Null, a number, a boolean, or a string of at most 256 bytes. *)
Definition field_value (v : json) : bool :=
  match v with
  | JNull | JNum _ | JNonFinite | JBool _ => true
  | JStr s => byteLength s <=? 256
  | _ => false
  end.

Fixpoint well_formed (e : PredicateExpression) : bool :=
  match e with
  | FieldComparison _ v => field_value v
  | FieldInList _ vs => (1 <=? length vs)%nat && (length vs <=? 16)%nat && forallb field_value vs
  | AndExpression l | OrExpression l => (2 <=? length l)%nat && forallb well_formed l
  | NotExpression l => (length l =? 1)%nat && forallb well_formed l
  | UnknownOperator => false
  end.

(** The greatest nesting, and the number of operators, fields and values. *)
Fixpoint tree_depth (e : PredicateExpression) : Z :=
  match e with
  | AndExpression l | OrExpression l | NotExpression l => 1 + foldr (fun e n => Z.max (tree_depth e) n) 0 l
  | _ => 1
  end.
Fixpoint tree_nodes (e : PredicateExpression) : Z :=
  match e with
  | FieldComparison _ _ => 3
  | FieldInList _ vs => 2 + Z.of_nat (length vs)
  | AndExpression l | OrExpression l | NotExpression l => 1 + foldr (fun e n => tree_nodes e + n) 0 l
  | UnknownOperator => 1
  end.

(** *** The validator accepts it *)

Lemma with_prop_prop {A} (f : json -> A) d k kvs :
  with_prop f d k kvs = match prop k kvs with Some v => f v | None => d end.
Proof.
  unfold prop. induction kvs as [|[k' v] kvs IH]; [done|]. cbn [with_prop].
  destruct (bool_decide (k' = k)); done.
Qed.

Lemma has_prop_prop k kvs : has_prop k kvs = match prop k kvs with Some _ => true | None => false end.
Proof. apply with_prop_prop. Qed.

Lemma prop_elem k kvs v : prop k kvs = Some v -> (k, v) ∈ kvs.
Proof.
  unfold prop. induction kvs as [|[k' w] kvs IH]; [done|]. cbn [with_prop]. case_bool_decide as E.
  - intros [= ->]. subst. by left.
  - intros H. right. by apply IH.
Qed.

Lemma only_keys_spec allowed kvs : only_keys allowed kvs = true <-> forall kv, kv ∈ kvs -> kv.1 ∈ allowed.
Proof.
  unfold only_keys. rewrite forallb_forall. split; intros H kv Hkv.
  - apply list_elem_of_In, H in Hkv. by apply bool_decide_eq_true in Hkv.
  - apply bool_decide_eq_true, H. by apply list_elem_of_In.
Qed.

Lemma prop_absent (allowed : list string) kvs k :
  (forall kv, kv ∈ kvs -> kv.1 ∈ allowed) -> k ∉ allowed -> prop k kvs = None.
Proof.
  intros Hk Hn. destruct (prop k kvs) as [v|] eqn:E; [|done]. apply prop_elem, Hk in E. done.
Qed.

Lemma read_field_name v f : read_field v = Some f <-> v = JStr (field_name f).
Proof.
  split.
  - unfold read_field. destruct v; try done. repeat case_bool_decide; try done; intros [= <-]; by subst.
  - intros ->. by destruct f.
Qed.

Lemma valid_value_field v : valid_value v = field_value v.
Proof. by destruct v. Qed.

Lemma forallb_values vs : forallb valid_value vs = forallb field_value vs.
Proof. induction vs as [|v vs IH]; [done|]. cbn. by rewrite IH, valid_value_field. Qed.

(** An accepted atomic expression is spelled correctly, and conversely. *)
Lemma atomic_spelled op kvs :
  prop "op" kvs = Some (JStr op) -> op ∈ ATOMIC_OPERATORS -> isValidAtomicExpression op kvs = true ->
  exists e, spells e (JObj kvs) /\ well_formed e = true.
Proof.
  intros Hop Hin H. unfold isValidAtomicExpression, known_field in H. rewrite !with_prop_prop in H.
  assert (op = "eq" \/ op = "in") as [-> | ->] by (unfold ATOMIC_OPERATORS in Hin; set_solver); cbn -[prop only_keys] in H.
  - destruct (prop "field" kvs) as [fv|] eqn:Ef; [|done]. destruct (prop "value" kvs) as [v|] eqn:Ev; [|by rewrite andb_false_r in H].
    apply andb_true_iff in H as [[Hf Hv]%andb_true_iff Hk]. apply bool_decide_eq_true in Hf as [f Hf%read_field_name].
    subst fv. exists (FieldComparison f v). split; [|by rewrite valid_value_field in Hv].
    exists kvs. split; [done|]. by split; [apply only_keys_spec|].
  - destruct (prop "field" kvs) as [fv|] eqn:Ef; [|done].
    apply andb_true_iff in H as [[Hf Hv]%andb_true_iff Hk]. apply bool_decide_eq_true in Hf as [f Hf%read_field_name].
    subst fv. destruct (prop "values" kvs) as [[| | | | |l| | |]|] eqn:Ev; try done.
    exists (FieldInList f l). split; [exists kvs; split; [done|]; by split; [apply only_keys_spec|]|].
    cbn. by rewrite <- forallb_values.
Qed.

Lemma all2_map {A B} (P : A -> B -> Prop) (q : A -> bool) (l : list B) :
  Forall (fun y => exists x, P x y /\ q x = true) l -> exists xs, all2 P xs l /\ forallb q xs = true.
Proof.
  induction 1 as [|y l (x & Hx & Hq) _ (xs & H1 & H2)]; [by exists []|].
  exists (x :: xs). split; [done|]. cbn. by rewrite Hq.
Qed.

Lemma all2_length {A B} (P : A -> B -> Prop) l k : all2 P l k -> length l = length k.
Proof. revert k. induction l as [|x l IH]; intros [|y k]; cbn; try done. intros [_ H]. f_equal. by apply IH. Qed.

Lemma logical_spelled op kvs l es :
  prop "op" kvs = Some (JStr op) -> op ∈ LOGICAL_OPERATORS -> prop "expressions" kvs = Some (JArr l) ->
  only_keys ["op"; "expressions"] kvs = true ->
  (if bool_decide (op = "not") then (length l =? 1)%nat else (2 <=? length l)%nat) = true ->
  all2 spells es l -> forallb well_formed es = true ->
  exists e, spells e (JObj kvs) /\ well_formed e = true.
Proof.
  intros Hop Hin Hl Hk Hlen Hes Hwf. rewrite <- (all2_length _ _ _ Hes) in Hlen. rewrite only_keys_spec in Hk.
  assert (op = "and" \/ op = "or" \/ op = "not") as [-> |[-> | ->]] by (unfold LOGICAL_OPERATORS in Hin; set_solver);
    [exists (AndExpression es)|exists (OrExpression es)|exists (NotExpression es)];
    cbn -[object_with prop bool_decide Nat.leb] in Hlen |- *;
    (split; [exists kvs; by eauto 10|]); rewrite Hwf, andb_true_r; exact Hlen.
Qed.

Lemma valid_spelled v : isValidExpression v = true -> exists e, spells e v /\ well_formed e = true.
Proof.
  set (Q := fun v => isValidExpression v = true -> exists e, spells e v /\ well_formed e = true). change (Q v).
  assert (Q v /\ match v with JArr l => Forall Q l | _ => True end) as [H _]; [|exact H].
  induction v as [| | | | |l IH|kvs IH| |] using json_ind; try done.
  { split; [done|]. eapply Forall_impl; [exact IH|]. by intros v [H _]. }
  split; [|done]. unfold Q. cbn [isValidExpression]. destruct (prop "op" kvs) as [[| | | |op| | | |]|] eqn:Eop; try done.
  case_bool_decide as Ha; [by apply atomic_spelled|]. case_bool_decide as Hl; [|done].
  unfold isValidLogicalExpression. rewrite with_prop_prop.
  destruct (prop "expressions" kvs) as [[| | | | |l| | |]|] eqn:E; try done.
  intros [[Hlen Hval]%andb_true_iff Hk]%andb_true_iff. rewrite Forall_forall in IH.
  destruct (IH _ (prop_elem _ _ _ E)) as [_ Hq]. cbn [snd] in Hq.
  destruct (all2_map spells well_formed l) as (es & Hes & Hwf).
  { rewrite Forall_forall in Hq. apply Forall_forall. intros x Hx. apply Hq; [done|]. rewrite forallb_forall in Hval.
    by apply Hval, list_elem_of_In. }
  by eapply logical_spelled.
Qed.

Ltac spelled := match goal with H : object_with _ _ _ |- _ => destruct H as (kvs & -> & Hkeys & H); destruct H end.

Lemma all2_Forall {A B} (P : A -> B -> Prop) (q : A -> bool) (r : B -> bool) l k :
  Forall (fun x => forall y, P x y -> q x = true -> r y = true) l -> all2 P l k -> forallb q l = true -> forallb r k = true.
Proof.
  intros Hl. revert k. induction Hl as [|x l Hx _ IH]; intros [|y k]; cbn; try done.
  intros [Hp H] [Hq Hl]%andb_true_iff. rewrite (Hx y Hp Hq). by apply IH.
Qed.

Lemma spelled_logical op kvs l :
  op ∈ LOGICAL_OPERATORS -> prop "op" kvs = Some (JStr op) -> prop "expressions" kvs = Some (JArr l) ->
  (forall kv, kv ∈ kvs -> kv.1 ∈ ["op"; "expressions"]) -> forallb isValidExpression l = true ->
  (if bool_decide (op = "not") then (length l =? 1)%nat else (2 <=? length l)%nat) = true ->
  isValidExpression (JObj kvs) = true.
Proof.
  intros Hin Hop Hl Hk Hval Hlen. cbn [isValidExpression]. rewrite Hop. rewrite bool_decide_eq_false_2.
  - rewrite bool_decide_eq_true_2 by done. unfold isValidLogicalExpression. rewrite with_prop_prop, Hl, Hlen, Hval.
    by apply only_keys_spec.
  - unfold ATOMIC_OPERATORS, LOGICAL_OPERATORS in *. set_solver.
Qed.

Lemma spelled_valid e v : spells e v -> well_formed e = true -> isValidExpression v = true.
Proof.
  revert v. induction e as [f x|f xs|l IH|l IH|l IH|] using PredicateExpression_ind; intros v Hs Hw; cbn [spells well_formed] in Hs, Hw; try done.
  - spelled. cbn [isValidExpression]. destruct H0 as [Hf Hv]. rewrite H. change (bool_decide ("eq" ∈ ATOMIC_OPERATORS)) with true. cbn iota.
    unfold isValidAtomicExpression, known_field. rewrite !with_prop_prop, Hf, Hv. cbn -[only_keys valid_value].
    rewrite valid_value_field, Hw, (proj2 (only_keys_spec _ _) Hkeys). by destruct f.
  - spelled. cbn [isValidExpression]. destruct H0 as [Hf Hv]. rewrite H. change (bool_decide ("in" ∈ ATOMIC_OPERATORS)) with true. cbn iota.
    unfold isValidAtomicExpression, known_field. rewrite !with_prop_prop, Hf, Hv. cbn -[only_keys valid_value forallb Nat.leb Nat.ltb].
    rewrite forallb_values, (proj2 (only_keys_spec _ _) Hkeys). apply andb_true_iff in Hw as [[H1 H2]%andb_true_iff H3].
    rewrite H3. unfold maxInListSize. rewrite H2. change ((0 <? length xs)%nat) with ((1 <=? length xs)%nat). rewrite H1. by destruct f.
  - spelled. destruct H0 as (k & Hk & Hall). apply andb_true_iff in Hw as [Hlen Hw]. rewrite (all2_length _ _ _ Hall) in Hlen.
    eapply (spelled_logical "and"); [|done..| |done]; [unfold LOGICAL_OPERATORS; set_solver|]. by eapply all2_Forall.
  - spelled. destruct H0 as (k & Hk & Hall). apply andb_true_iff in Hw as [Hlen Hw]. rewrite (all2_length _ _ _ Hall) in Hlen.
    eapply (spelled_logical "or"); [|done..| |done]; [unfold LOGICAL_OPERATORS; set_solver|]. by eapply all2_Forall.
  - spelled. destruct H0 as (k & Hk & Hall). apply andb_true_iff in Hw as [Hlen Hw]. rewrite (all2_length _ _ _ Hall) in Hlen.
    eapply (spelled_logical "not"); [|done..| |done]; [unfold LOGICAL_OPERATORS; set_solver|]. by eapply all2_Forall.
Qed.

(** *** What the validator measures *)

Lemma walk_object kvs d state :
  walkExpression (JObj kvs) d state =
  (let st := (Z.max state.1 d,
     state.2 + 1 + (if has_prop "field" kvs then 1 else 0) + (if has_prop "value" kvs then 1 else 0) +
     match prop "values" kvs with Some (JArr l) => Z.of_nat (length l) | _ => 0 end) in
   match prop "expressions" kvs with Some (JArr l) => walk_list walkExpression (d + 1) l st | _ => st end).
Proof. cbn [walkExpression]. rewrite !with_prop_prop. by destruct (prop "values" kvs) as [[]|], (prop "expressions" kvs) as [[]|]. Qed.

Definition measured (e : PredicateExpression) (v : json) : Prop :=
  forall d state, walkExpression v d state = (Z.max state.1 (d + tree_depth e - 1), state.2 + tree_nodes e).

Lemma depths_pos l : 0 <= foldr (fun e n => Z.max (tree_depth e) n) 0 l.
Proof. induction l; cbn; lia. Qed.
Lemma tree_depth_pos e : 1 <= tree_depth e.
Proof. destruct e as [| |l|l|l|]; cbn; try pose proof (depths_pos l); lia. Qed.

Lemma walk_list_measured es l d state :
  Forall (fun e => forall v, spells e v -> measured e v) es -> all2 spells es l -> d <= state.1 ->
  walk_list walkExpression (d + 1) l state =
  (Z.max state.1 (d + foldr (fun e n => Z.max (tree_depth e) n) 0 es), state.2 + foldr (fun e n => tree_nodes e + n) 0 es).
Proof.
  intros Hes. revert l state. induction Hes as [|e es He _ IH]; intros [|v l] state; cbn [all2 foldr]; try done.
  - intros _ Hd. destruct state as [a b]. cbn [walk_list fst snd] in *. f_equal; lia.
  - intros [Hv Hall] Hd. change (walk_list walkExpression (d + 1) (v :: l) state) with
      (walk_list walkExpression (d + 1) l (walkExpression v (d + 1) state)). rewrite (He v Hv), IH by (done || cbn; lia).
    cbn [fst snd]. f_equal; lia.
Qed.

Lemma logical_measured op es kvs l d state :
  prop "op" kvs = Some (JStr op) -> prop "expressions" kvs = Some (JArr l) ->
  (forall kv, kv ∈ kvs -> kv.1 ∈ ["op"; "expressions"]) ->
  Forall (fun e => forall v, spells e v -> measured e v) es -> all2 spells es l ->
  walkExpression (JObj kvs) d state =
  (Z.max state.1 (d + (1 + foldr (fun e n => Z.max (tree_depth e) n) 0 es) - 1), state.2 + (1 + foldr (fun e n => tree_nodes e + n) 0 es)).
Proof.
  intros Hop Hl Hk Hes Hall. rewrite walk_object, !has_prop_prop, Hl.
  rewrite !(prop_absent _ kvs _ Hk) by set_solver. cbn zeta iota.
  rewrite (walk_list_measured es) by (done || cbn; lia). cbn [fst snd]. pose proof (depths_pos es). f_equal; lia.
Qed.

Lemma spells_measured e v : spells e v -> measured e v.
Proof.
  revert v. induction e as [f x|f xs|l IH|l IH|l IH|] using PredicateExpression_ind; intros v Hs; cbn [spells] in Hs; try done;
    spelled; intros d state.
  - rewrite walk_object, !has_prop_prop. destruct H0 as [-> ->]. rewrite !(prop_absent _ kvs _ Hkeys) by set_solver.
    cbn. f_equal; lia.
  - rewrite walk_object, !has_prop_prop. destruct H0 as [-> ->]. rewrite !(prop_absent _ kvs _ Hkeys) by set_solver.
    cbn -[Z.add]. f_equal; lia.
  - destruct H0 as (k & Hk & Hall). by eapply logical_measured.
  - destruct H0 as (k & Hk & Hall). by eapply logical_measured.
  - destruct H0 as (k & Hk & Hall). by eapply logical_measured.
Qed.

Lemma validate_spelled e v :
  spells e v -> validate_root v = negb (tree_depth e >? 4) && negb (tree_nodes e >? 32) && isValidExpression v.
Proof.
  intros Hs. assert (exists kvs, v = JObj kvs) as [kvs ->] by (destruct e; try done; destruct Hs as (kvs & -> & _); eauto).
  unfold validate_root. rewrite (spells_measured _ _ Hs). cbn [fst snd]. unfold maxDepth, maxNodes.
  replace (Z.max 0 (1 + tree_depth e - 1)) with (tree_depth e) by (pose proof (tree_depth_pos e); lia). rewrite Z.add_0_l.
  by destruct (tree_depth e >? 4), (tree_nodes e >? 32).
Qed.

Lemma validate_valid v : validate_root v = true -> isValidExpression v = true.
Proof.
  unfold validate_root. destruct v; try done; destruct (walkExpression _ _ _) as [a b];
    destruct (a >? maxDepth); try done; by destruct (b >? maxNodes).
Qed.

(** *** How it is read and evaluated *)

Lemma all2_decode es l :
  Forall (fun e => forall v, spells e v -> decode v = Some e) es -> all2 spells es l -> mapM decode l = Some es.
Proof.
  intros Hes. revert l. induction Hes as [|e es He _ IH]; intros [|v l]; cbn [all2]; try done. intros [Hv Hall].
  change (mapM decode (v :: l)) with (y ← decode v; k ← mapM decode l; mret (y :: k)). by rewrite (He v Hv), (IH l Hall).
Qed.

Lemma spells_decode e v : spells e v -> decode v = Some e.
Proof.
  revert v. induction e as [f x|f xs|l IH|l IH|l IH|] using PredicateExpression_ind; intros v Hs; cbn [spells] in Hs; try done;
    spelled; cbn [decode]; rewrite H; cbn -[prop with_prop decode_list decode].
  - destruct H0 as [Hf Hv]. rewrite with_prop_prop, Hf, Hv. by rewrite (proj2 (read_field_name _ f) eq_refl).
  - destruct H0 as [Hf Hv]. rewrite !with_prop_prop, Hf. rewrite (proj2 (read_field_name _ f) eq_refl). cbn -[prop with_prop].
    by rewrite with_prop_prop, Hv.
  - destruct H0 as (k & Hk & Hall). unfold decode_list. rewrite !with_prop_prop, !Hk. by rewrite (all2_decode l).
  - destruct H0 as (k & Hk & Hall). unfold decode_list. rewrite !with_prop_prop, !Hk. by rewrite (all2_decode l).
  - destruct H0 as (k & Hk & Hall). unfold decode_list. rewrite !with_prop_prop, !Hk. by rewrite (all2_decode l).
Qed.

Lemma nodes_size e : well_formed e = true -> nodes e <= tree_nodes e.
Proof.
  revert e.
  assert (forall l, Forall (fun e => well_formed e = true -> nodes e <= tree_nodes e) l -> forallb well_formed l = true ->
    foldr (fun e n => nodes e + n) 0 l <= foldr (fun e n => tree_nodes e + n) 0 l) as Hl.
  { induction 1 as [|e l He _ IH]; cbn; [done|]. intros [H1 H2]%andb_true_iff. specialize (He H1). specialize (IH H2). lia. }
  intros e. induction e as [f x|f xs|l IH|l IH|l IH|] using PredicateExpression_ind; cbn [well_formed nodes tree_nodes]; try lia;
    intros [Hlen Hw]%andb_true_iff; specialize (Hl l IH Hw); try lia.
  destruct l as [|e [|e' l]]; try done. cbn [foldr] in *. lia.
Qed.

(** an expression matches exactly when it holds of the event and its
    evaluation stays within the budget; out of budget nothing matches, even under
    a negation. *)
Theorem predicate_evaluation_exact context e :
  er_match (evaluate e context) =
  holds context e && negb (is_exceeded (evaluate e context)) /\
  (nodes e < maxEvaluationBudget -> is_exceeded (evaluate e context) = false).
Proof.
  unfold evaluate. destruct (evaluateExpression_ok context e 0) as (Hv & Hmax & H); [done|].
  destruct (is_exceeded _) eqn:E; destruct H as [-> Hlt]; rewrite ?andb_false_r, ?andb_true_r; split; try done. lia.
Qed.

(** A predicate of the documented grammar, within its limits. *)
Definition admissible (logic : json) (e : PredicateExpression) : Prop :=
  spells e logic /\ well_formed e = true /\ tree_depth e <= 4 /\ tree_nodes e <= 32.

(** C34: the API accepts exactly the predicates of the documented grammar within its
    limits: the five operators with their own properties and no others, the three
    fields, values that are null, numbers, booleans or strings of at most 256 bytes,
    lists of 1 to 16 values, at least two operands of [and] and [or] and one of [not],
    a depth of at most 4 and at most 32 operators, fields and values.  An accepted
    predicate is read as the expression it spells, and on every event its evaluation
    stays within the budget and returns what the expression means. *)
Theorem accepted_predicates_exact logic :
  (validate_root logic = true <-> exists e, admissible logic e) /\
  (forall e, admissible logic e ->
    decode logic = Some e /\
    forall context, er_match (evaluate e context) = holds context e /\ is_exceeded (evaluate e context) = false).
Proof.
  split; [split|].
  - intros Hv. destruct (valid_spelled logic (validate_valid _ Hv)) as (e & Hs & Hw). exists e.
    rewrite (validate_spelled e logic Hs) in Hv. unfold admissible. split_and!; [done..|lia|lia].
  - intros (e & Hs & Hw & Hd & Hn). rewrite (validate_spelled e logic Hs), (spelled_valid e logic Hs Hw). lia.
  - intros e (Hs & Hw & _ & Hn). split; [by apply spells_decode|]. intros context.
    pose proof (nodes_size e Hw). unfold evaluate.
    destruct (evaluateExpression_ok context e 0) as (Hvis & Hmax & H'); [done|].
    destruct (is_exceeded _); destruct H' as [-> Hlt]; [|done]. unfold maxEvaluationBudget in *. lia.
Qed.

(** [not] over [and]: proofs that were not revoked. *)
Definition demo_logic : json :=
  JObj [("op", JStr "and"); ("expressions", JArr [
    JObj [("op", JStr "eq"); ("field", JStr "resource"); ("value", JStr "proof")];
    JObj [("op", JStr "not"); ("expressions", JArr [
      JObj [("op", JStr "in"); ("field", JStr "outcome"); ("values", JArr [JStr "revoked"; JNull])]])]])].

Lemma predicate_evaluation_exact_witness :
  let e := NotExpression [FieldComparison outcome (JStr "revoked")] in
  nodes e < maxEvaluationBudget /\ is_exceeded (evaluate e (deriveContext "proof.created" "1")) = false.
Proof. cbn zeta. split; [done|]. apply predicate_evaluation_exact. done. Defined.

Lemma accepted_predicates_exact_witness :
  exists e, admissible demo_logic e /\ decode demo_logic = Some e /\
    er_match (evaluate e (deriveContext "proof.created" "1")) = true /\
    er_match (evaluate e (deriveContext "proof.revoked" "1")) = false.
Proof.
  assert (validate_root demo_logic = true) as H by by vm_compute.
  destruct (accepted_predicates_exact demo_logic) as [[H1 _] H2]. destruct (H1 H) as [e He]. exists e. split; [exact He|].
  destruct (H2 e He) as [Hd Hm]. split; [exact Hd|].
  vm_compute in Hd. injection Hd as <-. split; rewrite (proj1 (Hm _)); by vm_compute.
Defined.
