(* ===== verification/WebhookStore.v ===== *)
(** * Webhook tables

    The rows of [Webhook], [WebhookVerificationChallenge], [WebhookDelivery] and
    [WebhookCircuit] in [prisma/schema.prisma], and the signature of a delivery,
    [src/webhooks/webhook-signing.service.ts]. *)

From S2P Require Import Prelude JsData DecimalText Canonical Schema DestinationGuard Predicates.
From Stdlib Require Import Ascii.

Local Open Scope string_scope.
Local Open Scope Z_scope.
Local Open Scope list_scope.
#[local] Arguments String.append !_ _ : simpl nomatch.

(** ** Endpoints *)

Record Webhook := {
  wh_id : string;
  wh_organizationId : string;
  wh_url : string;
  wh_secretEncrypted : string;
  wh_events : list string;
  wh_predicate : option PredicateExpression;
  wh_status : ResourceStatus.t;
  wh_mtlsRequired : bool;
  wh_payloadVersion : string;
  wh_revision : Z;
}.

Definition has_webhook_id (id : string) (w : Webhook) : bool := bool_decide (wh_id w = id).
Definition find_webhook (id : string) (ws : list Webhook) : option Webhook := find_where (has_webhook_id id) ws.

(** ** Verification challenges *)

Record Challenge := {
  vc_id : string;
  vc_webhookId : string;
  vc_tokenHash : string;
  vc_url : string;
  vc_expiresAt : Z;
  vc_usedAt : option Z;
}.

(** ** Deliveries *)

Module WebhookDeliveryStatus.
Inductive t := PENDING | SUCCESS | FAILED.
#[export] Instance eq_dec : EqDecision t.
Proof. solve_decision. Defined.
End WebhookDeliveryStatus.

Module DeadLetterReason.
Inductive t := MAX_ATTEMPTS_EXHAUSTED | DESTINATION_BLOCKED | SIGNING_SECRET_UNAVAILABLE | ENDPOINT_DISABLED.
#[export] Instance eq_dec : EqDecision t.
Proof. solve_decision. Defined.
End DeadLetterReason.

(** The event a delivery carries: what every retry, replay and redrive copies. *)
Record DeliveryEvent := {
  de_webhookId : string;
  de_eventType : string;
  de_eventId : string;
  de_payload : json;
  de_schemaVersion : string;
  de_payloadBody : string;
}.

(** What an attempt records about the answer it got. *)
Record Attempt := {
  at_statusCode : option Z;
  at_responseBody : option json;
  at_durationMs : option Z;
  at_failureReason : option string;
  at_deliveredAt : option Z;
}.
Definition no_attempt : Attempt :=
  {| at_statusCode := None; at_responseBody := None; at_durationMs := None; at_failureReason := None;
     at_deliveredAt := None |}.

Record Delivery := {
  dl_id : string;
  dl_event : DeliveryEvent;
  dl_predicateSnapshot : option PredicateExpression;
  dl_attempt : Z;
  dl_status : WebhookDeliveryStatus.t;
  dl_result : Attempt;
  dl_replayOf : option string;
  dl_replayedBy : option string;
  dl_replayKey : option string;
  dl_nextRetryAt : option Z;
  dl_deadLettered : option (Z * DeadLetterReason.t);
  dl_redriven : option (Z * string);
  dl_redriveReason : option string;
  dl_createdAt : Z;
}.

Abbreviation dl_webhookId d := (de_webhookId (dl_event d)).
Abbreviation dl_eventId d := (de_eventId (dl_event d)).

Definition has_delivery_id (id : string) (d : Delivery) : bool := bool_decide (dl_id d = id).
Definition find_delivery (id : string) (ds : list Delivery) : option Delivery := find_where (has_delivery_id id) ds.
Definition has_replay_key (k : string) (d : Delivery) : bool := bool_decide (dl_replayKey d = Some k).

(** An insert, with the unique columns [id] and [replayKey]. *)
Definition create_delivery (d : Delivery) (ds : list Delivery) : result DbError (list Delivery) :=
  _ ← throw_if (bool_decide (dl_id d ∈ dl_id <$> ds)
                || match dl_replayKey d with
                   | None => false
                   | Some k => bool_decide (Some k ∈ dl_replayKey <$> ds)
                   end) P2002;
  Ok (ds ++ [d]).

(** ** Circuits *)

Module WebhookCircuitState.
Inductive t := CLOSED | OPEN | HALF_OPEN.
#[export] Instance eq_dec : EqDecision t.
Proof. solve_decision. Defined.
End WebhookCircuitState.

Record Circuit := {
  ct_webhookId : string;
  ct_state : WebhookCircuitState.t;
  ct_failureCount : Z;
  ct_failureThreshold : Z;
  ct_recoveryWindowMs : Z;
  ct_lastFailureAt : option Z;
  ct_lastSuccessAt : option Z;
  ct_openedAt : option Z;
  ct_halfOpenAt : option Z;
}.

Definition has_circuit (id : string) (c : Circuit) : bool := bool_decide (ct_webhookId c = id).
Definition find_circuit (id : string) (cs : list Circuit) : option Circuit := find_where (has_circuit id) cs.

Export (hints) WebhookDeliveryStatus DeadLetterReason WebhookCircuitState.

(** ** Signatures *)

Section signing.
(** [createHmac("sha256", secret).update(text, "utf8").digest("hex")] *)
Context (hmac : string -> string -> string).

Definition base_string (timestamp : Z) (deliveryId : string) (keyId : option string) (body : string) : string :=
  match keyId with
  | Some k => join "." [dec_string timestamp; deliveryId; k; body]
  | None => join "." [dec_string timestamp; deliveryId; body]
  end.

Definition sign (secret : string) (timestamp : Z) (deliveryId : string) (keyId : option string) (body : string) : string :=
  match keyId with
  | Some k => String.append "v1." (String.append k (String "=" (hmac secret (base_string timestamp deliveryId (Some k) body))))
  | None => String.append "v1=" (hmac secret (base_string timestamp deliveryId None body))
  end.

(** [signature.match(/^v1\.([^=]+)=/)] *)
Fixpoint until_equals (s : string) : option string :=
  match s with
  | EmptyString => None
  | String c s => if Ascii.eqb c "=" then Some EmptyString else k ← until_equals s; Some (String c k)
  end.

Definition extractKeyId (signature : string) : option string :=
  match signature with
  | String "v" (String "1" (String "." rest)) =>
      match until_equals rest with Some EmptyString | None => None | k => k end
  | _ => None
  end.

(** [verify(secret, timestamp, deliveryId, body, signature)]; comparing in
    constant time is comparing. *)
Definition verify_signature (secret : string) (timestamp : Z) (deliveryId body signature : string) : bool :=
  bool_decide (sign secret timestamp deliveryId (extractKeyId signature) body = signature).
End signing.
