(* ===== verification/WebhookPayloads.v ===== *)
(** * Webhook payloads

    Model of [src/webhooks/webhook-payload.serializers.ts] on the sources of
    [src/webhooks/webhook-event.types.ts]: the envelope of a domain event, the
    declared fields it is checked against, and its exact bytes. *)

From S2P Require Import Prelude JsData Calendar IsoDate Canonical Issuance.

Local Open Scope string_scope.
Local Open Scope Z_scope.
Local Open Scope list_scope.

(** ** Sources *)

Record ProofCreatedSource := {
  cs_proofId : string;
  cs_proofType : string;
  cs_credentialSchemaVersion : string;
  cs_status : string;
  cs_network : string;
  cs_assetCode : string;
  cs_assetIssuer : option string;
  cs_periodStart : option Z;
  cs_periodEnd : option Z;
  cs_expiresAt : Z;
  cs_credentialHash : string;
  cs_contractTransactionHash : option string;
  cs_issuedAt : Z;
}.
Record ProofRevokedSource := { rs_proofId : string; rs_status : string; rs_revokedAt : Z }.
Record ProofVerifiedSource := { vs_proofId : string; vs_result : string; vs_verifiedAt : Z }.

(** [Date | string] *)
Inductive DateOrText := ADate (t : Z) | AText (s : string).

Record AttestationExpiredSource := {
  as_attestationId : string;
  as_issuerId : string;
  as_subjectWalletHash : string;
  as_previousStatus : string;
  as_effectiveStatus : string;
  as_expiresAt : DateOrText;
  as_reconciledAt : DateOrText;
}.

(** A domain event with its source. *)
Inductive WebhookEventSource :=
| proof_created (s : ProofCreatedSource)
| proof_revoked (s : ProofRevokedSource)
| proof_verified (s : ProofVerifiedSource)
| attestation_expired (s : AttestationExpiredSource).

Definition event_name (e : WebhookEventSource) : string :=
  match e with
  | proof_created _ => "proof.created"
  | proof_revoked _ => "proof.revoked"
  | proof_verified _ => "proof.verified"
  | attestation_expired _ => "attestation.expired"
  end.

(** ** Version 1 *)

Definition WEBHOOK_PAYLOAD_VERSIONS : list string := ["1"].
Definition isSupportedPayloadVersion (version : string) : bool := bool_decide (version ∈ WEBHOOK_PAYLOAD_VERSIONS).

Definition isoOrNull (value : option Z) : json := match value with Some t => jiso t | None => JNull end.
Definition iso_or_text (value : DateOrText) : json := match value with ADate t => jiso t | AText s => JStr s end.

(** The declared fields of a payload, in serialization order. *)
Definition declared_fields (e : WebhookEventSource) : list string :=
  match e with
  | proof_created _ =>
      ["proofId"; "proofType"; "schemaVersion"; "status"; "network"; "assetCode"; "assetIssuer"; "periodStart";
       "periodEnd"; "expiresAt"; "credentialHash"; "contractTransactionHash"; "issuedAt"]
  | proof_revoked _ => ["proofId"; "status"; "revokedAt"]
  | proof_verified _ => ["proofId"; "result"; "verifiedAt"]
  | attestation_expired _ =>
      ["attestationId"; "issuerId"; "subjectWalletHash"; "previousStatus"; "effectiveStatus"; "expiresAt"; "reconciledAt"]
  end.

Definition serialize_data (e : WebhookEventSource) : list (string * json) :=
  match e with
  | proof_created s =>
      [("proofId", JStr (cs_proofId s)); ("proofType", JStr (cs_proofType s));
       ("schemaVersion", JStr (cs_credentialSchemaVersion s)); ("status", JStr (cs_status s));
       ("network", JStr (cs_network s)); ("assetCode", JStr (cs_assetCode s)); ("assetIssuer", jopt (cs_assetIssuer s));
       ("periodStart", isoOrNull (cs_periodStart s)); ("periodEnd", isoOrNull (cs_periodEnd s));
       ("expiresAt", jiso (cs_expiresAt s)); ("credentialHash", JStr (cs_credentialHash s));
       ("contractTransactionHash", jopt (cs_contractTransactionHash s)); ("issuedAt", jiso (cs_issuedAt s))]
  | proof_revoked s =>
      [("proofId", JStr (rs_proofId s)); ("status", JStr (rs_status s)); ("revokedAt", jiso (rs_revokedAt s))]
  | proof_verified s =>
      [("proofId", JStr (vs_proofId s)); ("result", JStr (vs_result s)); ("verifiedAt", jiso (vs_verifiedAt s))]
  | attestation_expired s =>
      [("attestationId", JStr (as_attestationId s)); ("issuerId", JStr (as_issuerId s));
       ("subjectWalletHash", JStr (as_subjectWalletHash s)); ("previousStatus", JStr (as_previousStatus s));
       ("effectiveStatus", JStr (as_effectiveStatus s)); ("expiresAt", iso_or_text (as_expiresAt s));
       ("reconciledAt", iso_or_text (as_reconciledAt s))]
  end.

Definition FORBIDDEN_PAYLOAD_KEYS : list string :=
  ["userid"; "walletaddress"; "wallethash"; "subject"; "thresholdamount"; "thresholdencrypted"; "amount";
   "amountencrypted"; "commitment"; "disclosurepolicy"; "secret"; "secretencrypted"; "signingsecret"; "token";
   "tokenhash"; "memo"; "sourceaddress"; "operationid"; "organizationid"; "webhookid"; "url"].

Inductive PayloadError :=
| UnsupportedVersion (version : string)
| UndeclaredFields
| ForbiddenField (key : string)
| NotFlat (key : string).

Definition flat (v : json) : bool := match v with JNull | JStr _ => true | _ => false end.

Fixpoint check_fields (data : list (string * json)) : result PayloadError unit :=
  match data with
  | [] => Ok tt
  | (key, value) :: rest =>
      _ ← throw_if (bool_decide (lower key ∈ FORBIDDEN_PAYLOAD_KEYS)) (ForbiddenField key);
      _ ← throw_if (negb (flat value)) (NotFlat key);
      check_fields rest
  end.

Definition assertConforms (fields : list string) (data : list (string * json)) : result PayloadError unit :=
  _ ← throw_if (negb (bool_decide (data.*1 = fields))) UndeclaredFields;
  check_fields data.

Record Serialized := { sz_envelope : json; sz_body : string; sz_schemaVersion : string }.

Definition serializeWebhookEvent (e : WebhookEventSource) (eventId : string) (occurredAt : Z) (version : string)
    : result PayloadError Serialized :=
  _ ← throw_if (negb (isSupportedPayloadVersion version)) (UnsupportedVersion version);
  let data := serialize_data e in
  _ ← assertConforms (declared_fields e) data;
  let envelope := JObj [("specVersion", JStr "1"); ("id", JStr eventId); ("event", JStr (event_name e));
    ("schemaVersion", JStr version); ("createdAt", jiso occurredAt); ("data", JObj data)] in
  Ok {| sz_envelope := envelope; sz_body := json_text envelope; sz_schemaVersion := version |}.

(** ** Contracts *)

Lemma serialize_conforms e : assertConforms (declared_fields e) (serialize_data e) = Ok tt.
Proof.
  destruct e as [s|s|s|s]; unfold assertConforms; cbn [serialize_data declared_fields fmap list_fmap fst];
    rewrite bool_decide_true by done; cbn [negb throw_if mbind result_bind].
  - destruct s as [? ? ? ? ? ? [] [] [] ? ? [] ?]; by vm_compute.
  - by vm_compute.
  - by vm_compute.
  - destruct s as [? ? ? ? ? [] []]; by vm_compute.
Qed.

Lemma serialize_version_1 e eventId occurredAt :
  exists sz, serializeWebhookEvent e eventId occurredAt "1" = Ok sz /\
    sz_envelope sz = JObj [("specVersion", JStr "1"); ("id", JStr eventId); ("event", JStr (event_name e));
      ("schemaVersion", JStr "1"); ("createdAt", jiso occurredAt); ("data", JObj (serialize_data e))] /\
    sz_body sz = json_text (sz_envelope sz) /\ sz_schemaVersion sz = "1".
Proof.
  unfold serializeWebhookEvent.
  replace (isSupportedPayloadVersion "1") with true by by vm_compute. cbn [negb throw_if mbind result_bind]. rewrite serialize_conforms. cbn. by eexists.
Qed.

Lemma serialized_version e eventId occurredAt version sz :
  serializeWebhookEvent e eventId occurredAt version = Ok sz -> version = "1".
Proof.
  unfold serializeWebhookEvent, isSupportedPayloadVersion. intros H. run_result. reflect_hyps.
  match goal with H : version ∈ _ |- _ => by apply list_elem_of_singleton in H end.
Qed.

Lemma serialize_data_printable e : printable (JObj (serialize_data e)) = true.
Proof.
  destruct e as [s|s|s|s]; try done; [destruct s as [? ? ? ? ? ? [] [] [] ? ? [] ?]|destruct s as [? ? ? ? ? [] []]]; done.
Qed.

Lemma check_fields_Ok data u :
  check_fields data = Ok u -> forall k v, (k, v) ∈ data -> flat v = true /\ lower k ∉ FORBIDDEN_PAYLOAD_KEYS.
Proof.
  induction data as [|[k v] data IH]; cbn [check_fields]; intros H k' v' Hin; [by apply not_elem_of_nil in Hin|].
  run_result. reflect_hyps. apply elem_of_cons in Hin as [[= -> ->]|Hin]; [done|]. by apply IH.
Qed.

(** a payload is produced for every event, in the supported version only; it
    has exactly the declared fields in their order, each a string or null, and
    none of the names that must never leave the service. *)
Theorem payload_fields_declared e eventId occurredAt version :
  match serializeWebhookEvent e eventId occurredAt version with
  | Ok sz => version = "1" /\ exists data,
      sz_envelope sz = JObj [("specVersion", JStr "1"); ("id", JStr eventId); ("event", JStr (event_name e));
        ("schemaVersion", JStr version); ("createdAt", jiso occurredAt); ("data", JObj data)] /\
      data.*1 = declared_fields e /\
      forall k v, (k, v) ∈ data -> flat v = true /\ lower k ∉ FORBIDDEN_PAYLOAD_KEYS
  | Err err => version <> "1" /\ err = UnsupportedVersion version
  end.
Proof.
  destruct (serializeWebhookEvent e eventId occurredAt version) as [sz|err] eqn:E.
  - pose proof (serialized_version _ _ _ _ _ E) as ->. split; [done|].
    destruct (serialize_version_1 e eventId occurredAt) as (sz' & E' & Henv & _ & _). rewrite E in E'. injection E' as <-.
    exists (serialize_data e). split; [done|]. pose proof (serialize_conforms e) as Hc. unfold assertConforms in Hc.
    run_result. reflect_hyps. split; [done|]. by eapply check_fields_Ok.
  - destruct (decide (version = "1")) as [->|Hv].
    + destruct (serialize_version_1 e eventId occurredAt) as (sz' & E' & _). by rewrite E in E'.
    + split; [done|]. unfold serializeWebhookEvent, isSupportedPayloadVersion in E.
      rewrite bool_decide_false in E by (by intros ?%list_elem_of_singleton). by injection E as <-.
Qed.

(** the bytes of a body determine the event: its identifier, its type, its
    payload and the time it occurred, so that no two events share a body. *)
Theorem webhook_body_determines_event e1 id1 t1 v1 e2 id2 t2 v2 a b :
  serializeWebhookEvent e1 id1 t1 v1 = Ok a -> serializeWebhookEvent e2 id2 t2 v2 = Ok b ->
  sz_body a = sz_body b ->
  id1 = id2 /\ event_name e1 = event_name e2 /\ serialize_data e1 = serialize_data e2 /\
  (Z.abs t1 <= MAX_TIME -> Z.abs t2 <= MAX_TIME -> t1 = t2).
Proof.
  intros E1 E2 Hb. pose proof (serialized_version _ _ _ _ _ E1) as ->. pose proof (serialized_version _ _ _ _ _ E2) as ->.
  destruct (serialize_version_1 e1 id1 t1) as (a' & E1' & Ha & Hab & _). rewrite E1 in E1'. injection E1' as <-.
  destruct (serialize_version_1 e2 id2 t2) as (b' & E2' & Hbe & Hbb & _). rewrite E2 in E2'. injection E2' as <-.
  rewrite Hab, Hbb, Ha, Hbe in Hb. apply json_text_inj in Hb.
  - injection Hb as -> He Ht Hd. split_and!; [done..|]. intros Ht1 Ht2. by apply iso_text_inj.
  - pose proof (serialize_data_printable e1) as Hp. cbn -[serialize_data] in *. by rewrite Hp.
  - pose proof (serialize_data_printable e2) as Hp. cbn -[serialize_data] in *. by rewrite Hp.
Qed.

Definition demo_revoked : WebhookEventSource :=
  proof_revoked {| rs_proofId := "p1"; rs_status := "REVOKED"; rs_revokedAt := 1700000000000 |}.

Lemma webhook_body_determines_event_witness :
  exists a, serializeWebhookEvent demo_revoked "e1" 1700000000000 "1" = Ok a /\ ("e1" = "e1" :> string).
Proof.
  destruct (serializeWebhookEvent demo_revoked "e1" 1700000000000 "1") as [a|err] eqn:E; [|by vm_compute in E].
  exists a. split; [done|]. exact (proj1 (webhook_body_determines_event _ _ _ _ _ _ _ _ _ _ E E eq_refl)).
Defined.
