(* ===== verification/WebhookEndpoints.v ===== *)
(** * Webhook endpoints

    Model of [src/webhooks/webhooks.service.ts], the life of an endpoint, and of
    [src/webhooks/webhook-verification.service.ts], which proves control of its
    destination.  An operation reads the row, then writes; each [await] between
    them is a point where other operations run, so an operation in flight is a
    value of [Flight] and the service is a transition system.  [es_acks] and
    [es_enabled] record the acknowledged challenges and the calls to [enable].
    The secret's retrieval receipt is not modelled. *)

From S2P Require Import Prelude JsData Canonical Schema AuditChain Predicates WebhookStore.

Local Open Scope string_scope.
Local Open Scope Z_scope.
Local Open Scope list_scope.

Inductive EndpointError :=
| WebhookNotFound                (* 404 *)
| WebhookForbidden               (* 403 *)
| NotAwaitingVerification        (* 400 *)
| InvalidVerificationToken       (* 400 *)
| WebhookConflict (revision : Z) (* 409 *)
| WebhookQuotaExceeded           (* 429 *)
| EndpointDb (e : DbError).

(** ** Rows *)

Definition set_url (url : string) (revision : Z) (w : Webhook) : Webhook :=
  {| wh_id := wh_id w; wh_organizationId := wh_organizationId w; wh_url := url;
     wh_secretEncrypted := wh_secretEncrypted w; wh_events := wh_events w; wh_predicate := wh_predicate w;
     wh_status := ResourceStatus.PENDING; wh_mtlsRequired := wh_mtlsRequired w;
     wh_payloadVersion := wh_payloadVersion w; wh_revision := revision |}.
Definition set_webhook_status (st : ResourceStatus.t) (revision : Z) (w : Webhook) : Webhook :=
  {| wh_id := wh_id w; wh_organizationId := wh_organizationId w; wh_url := wh_url w;
     wh_secretEncrypted := wh_secretEncrypted w; wh_events := wh_events w; wh_predicate := wh_predicate w;
     wh_status := st; wh_mtlsRequired := wh_mtlsRequired w;
     wh_payloadVersion := wh_payloadVersion w; wh_revision := revision |}.
Definition set_secret (secretEncrypted : string) (revision : Z) (w : Webhook) : Webhook :=
  {| wh_id := wh_id w; wh_organizationId := wh_organizationId w; wh_url := wh_url w;
     wh_secretEncrypted := secretEncrypted; wh_events := wh_events w; wh_predicate := wh_predicate w;
     wh_status := wh_status w; wh_mtlsRequired := wh_mtlsRequired w;
     wh_payloadVersion := wh_payloadVersion w; wh_revision := revision |}.
Definition set_events (events : list string) (revision : Z) (w : Webhook) : Webhook :=
  {| wh_id := wh_id w; wh_organizationId := wh_organizationId w; wh_url := wh_url w;
     wh_secretEncrypted := wh_secretEncrypted w; wh_events := events; wh_predicate := wh_predicate w;
     wh_status := wh_status w; wh_mtlsRequired := wh_mtlsRequired w;
     wh_payloadVersion := wh_payloadVersion w; wh_revision := revision |}.

Definition set_challenge_used (now : Z) (c : Challenge) : Challenge :=
  {| vc_id := vc_id c; vc_webhookId := vc_webhookId c; vc_tokenHash := vc_tokenHash c; vc_url := vc_url c;
     vc_expiresAt := vc_expiresAt c; vc_usedAt := Some now |}.

Record EndpointDb_ := {
  ep_webhooks : list Webhook;
  ep_challenges : list Challenge;
  ep_circuits : list Circuit;
  ep_audit : list AuditRow;
}.

Definition set_webhooks (ws : list Webhook) (d : EndpointDb_) : EndpointDb_ :=
  {| ep_webhooks := ws; ep_challenges := ep_challenges d; ep_circuits := ep_circuits d; ep_audit := ep_audit d |}.
Definition set_challenges (cs : list Challenge) (d : EndpointDb_) : EndpointDb_ :=
  {| ep_webhooks := ep_webhooks d; ep_challenges := cs; ep_circuits := ep_circuits d; ep_audit := ep_audit d |}.
Definition set_circuits (cs : list Circuit) (d : EndpointDb_) : EndpointDb_ :=
  {| ep_webhooks := ep_webhooks d; ep_challenges := ep_challenges d; ep_circuits := cs; ep_audit := ep_audit d |}.

(** [webhook.update({ where: { id }, data })] *)
Definition edit_webhook (id : string) (f : Webhook -> Webhook) (d : EndpointDb_) : EndpointDb_ :=
  set_webhooks (update_where (has_webhook_id id) f (ep_webhooks d)) d.

(** ** Operations *)

(** [assertOwnedWebhook], [assertOwnedWebhookFull] and [getForOrg]. *)
Definition assertOwnedWebhook (organizationId webhookId : string) (d : EndpointDb_) : result EndpointError Webhook :=
  match find_webhook webhookId (ep_webhooks d) with
  | None => Err WebhookNotFound
  | Some w =>
      _ ← throw_if (negb (bool_decide (wh_organizationId w = organizationId))) WebhookForbidden;
      Ok w
  end.

(** [[...new Set(events)]] *)
Fixpoint unique_events (seen events : list string) : list string :=
  match events with
  | [] => []
  | e :: rest => if bool_decide (e ∈ seen) then unique_events seen rest else e :: unique_events (e :: seen) rest
  end.

Record CreateWebhookDto := {
  cw_url : string;
  cw_events : list string;
  cw_payloadVersion : option string;
  cw_predicate : option PredicateExpression;
}.

Definition CURRENT_WEBHOOK_PAYLOAD_VERSION : string := "1".

(** The row the creation inserts; [dto.predicate] is not among its columns. *)
Definition new_webhook (id organizationId secretEncrypted : string) (dto : CreateWebhookDto) : Webhook :=
  {| wh_id := id; wh_organizationId := organizationId; wh_url := cw_url dto; wh_secretEncrypted := secretEncrypted;
     wh_events := unique_events [] (cw_events dto); wh_predicate := None; wh_status := ResourceStatus.PENDING;
     wh_mtlsRequired := false;
     wh_payloadVersion := default CURRENT_WEBHOOK_PAYLOAD_VERSION (cw_payloadVersion dto); wh_revision := 0 |}.

(** [assertCapacity(tx, organizationId, "webhooks")] *)
Definition capacity_left (limit : nat) (organizationId : string) (ws : list Webhook) : bool :=
  (count_where (fun w => bool_decide (wh_organizationId w = organizationId) &&
     negb (bool_decide (wh_status w = ResourceStatus.DELETED))) ws <? limit)%nat.

Definition created_audit (organizationId : string) (w : Webhook) : AuditArgs :=
  {| aa_organizationId := Some organizationId; aa_actorType := "user"; aa_actorId := None;
     aa_action := "webhook.created"; aa_resourceType := "webhook"; aa_resourceId := Some (wh_id w);
     aa_metadata := Some (JObj [("url", JStr (wh_url w)); ("events", JArr (JStr <$> wh_events w))]);
     aa_createdAt := None |}.

(** The transaction of [create]. *)
Definition create_write (limit : nat) (id auditId organizationId secretEncrypted : string) (dto : CreateWebhookDto)
    (now : Z) (d : EndpointDb_) : result EndpointError EndpointDb_ :=
  _ ← throw_if (negb (capacity_left limit organizationId (ep_webhooks d))) WebhookQuotaExceeded;
  let w := new_webhook id organizationId secretEncrypted dto in
  _ ← throw_if (bool_decide (id ∈ wh_id <$> ep_webhooks d)) (EndpointDb P2002);
  match createUnchained auditId now (created_audit organizationId w) (ep_audit d) with
  | Err e => Err (EndpointDb e)
  | Ok rows => Ok {| ep_webhooks := ep_webhooks d ++ [w]; ep_challenges := ep_challenges d;
                     ep_circuits := ep_circuits d; ep_audit := rows |}
  end.

(** [initializeCircuit(id)] with the default configuration. *)
Definition DEFAULT_FAILURE_THRESHOLD : Z := 5.
Definition DEFAULT_RECOVERY_WINDOW_MS : Z := 300000.

Definition configure (threshold window : Z) (c : Circuit) : Circuit :=
  {| ct_webhookId := ct_webhookId c; ct_state := ct_state c; ct_failureCount := ct_failureCount c;
     ct_failureThreshold := threshold; ct_recoveryWindowMs := window; ct_lastFailureAt := ct_lastFailureAt c;
     ct_lastSuccessAt := ct_lastSuccessAt c; ct_openedAt := ct_openedAt c; ct_halfOpenAt := ct_halfOpenAt c |}.

Definition new_circuit (webhookId : string) (threshold window : Z) : Circuit :=
  {| ct_webhookId := webhookId; ct_state := WebhookCircuitState.CLOSED; ct_failureCount := 0;
     ct_failureThreshold := threshold; ct_recoveryWindowMs := window; ct_lastFailureAt := None;
     ct_lastSuccessAt := None; ct_openedAt := None; ct_halfOpenAt := None |}.

Definition initializeCircuit (webhookId : string) (threshold window : option Z) (cs : list Circuit) : list Circuit :=
  let threshold := default DEFAULT_FAILURE_THRESHOLD threshold in
  let window := default DEFAULT_RECOVERY_WINDOW_MS window in
  match find_circuit webhookId cs with
  | Some _ => update_where (has_circuit webhookId) (configure threshold window) cs
  | None => cs ++ [new_circuit webhookId threshold window]
  end.

Definition deleteCircuitState (webhookId : string) (cs : list Circuit) : list Circuit :=
  List.filter (fun c => negb (has_circuit webhookId c)) cs.

(** ** Challenges *)

Definition CHALLENGE_TTL_MS : Z := 5 * 60 * 1000.

(** [updateMany({ where: { webhookId, usedAt: null }, data: { usedAt } })] *)
Definition challenge_invalidate (webhookId : string) (now : Z) (cs : list Challenge) : list Challenge :=
  update_where (fun c => bool_decide (vc_webhookId c = webhookId) && bool_decide (vc_usedAt c = None))
    (set_challenge_used now) cs.

Definition challenge_create (id webhookId tokenHash url : string) (now : Z) (cs : list Challenge)
    : result EndpointError (list Challenge) :=
  _ ← throw_if (bool_decide (id ∈ vc_id <$> cs) || bool_decide (tokenHash ∈ vc_tokenHash <$> cs)) (EndpointDb P2002);
  Ok (cs ++ [{| vc_id := id; vc_webhookId := webhookId; vc_tokenHash := tokenHash; vc_url := url;
                vc_expiresAt := now + CHALLENGE_TTL_MS; vc_usedAt := None |}]).

Definition acknowledgeable (webhookId tokenHash : string) (now : Z) (c : Challenge) : bool :=
  bool_decide (vc_webhookId c = webhookId) && bool_decide (vc_tokenHash c = tokenHash) &&
  bool_decide (vc_usedAt c = None) && (now <? vc_expiresAt c).

Definition verifyChallenge (webhookId tokenHash : string) (now : Z) (cs : list Challenge)
    : result EndpointError (list Challenge) :=
  let valid := acknowledgeable webhookId tokenHash now in
  _ ← throw_if (count_where valid cs =? 0)%nat InvalidVerificationToken;
  Ok (update_where valid (set_challenge_used now) cs).

(** ** The transition system *)

(** What remains of an operation after an [await]. *)
Inductive Flight :=
| FCircuit (webhookId url : string)                  (* create: initializeCircuit *)
| FUpdateUrl (w : Webhook) (url : string)
| FDecrypt (w : Webhook) (url : string)              (* updateUrl: the secret, before the challenge *)
| FInvalidate (webhookId url : string)               (* issueChallenge *)
| FChallenge (webhookId url : string)
| FConsume (w : Webhook) (token : string)            (* verify *)
| FActivate (w : Webhook)
| FStatus (w : Webhook) (st : ResourceStatus.t)      (* disable, enable, delete *)
| FDropCircuit (webhookId : string)                  (* delete *)
| FEvents (w : Webhook) (events : list string) (expected : Z)
| FRotate (w : Webhook) (secretEncrypted : string).

(** An acknowledged challenge. *)
Record Ack := { ak_webhookId : string; ak_tokenHash : string; ak_url : string; ak_at : Z }.

Record EndpointSys := {
  es_db : EndpointDb_;
  es_flights : list Flight;
  es_acks : list Ack;
  es_enabled : list string;
}.

Definition with_db (d : EndpointDb_) (fs : list Flight) (s : EndpointSys) : EndpointSys :=
  {| es_db := d; es_flights := fs; es_acks := es_acks s; es_enabled := es_enabled s |}.

(** The acknowledgements an update of the table records. *)
Definition acks_of (webhookId tokenHash : string) (now : Z) (cs : list Challenge) : list Ack :=
  (fun c => {| ak_webhookId := webhookId; ak_tokenHash := tokenHash; ak_url := vc_url c; ak_at := now |}) <$>
    List.filter (acknowledgeable webhookId tokenHash now) cs.

Section system.
Context (sha256 : string -> string) (decrypt : string -> option string) (maxWebhooks : nat).

(** One [await] of an operation in flight: the rest of it, and the new state. *)
Inductive flight_step (s : EndpointSys) : Flight -> list Flight -> EndpointSys -> Prop :=
| step_circuit id url :
    flight_step s (FCircuit id url) [FInvalidate id url]
      (with_db (set_circuits (initializeCircuit id None None (ep_circuits (es_db s))) (es_db s)) (es_flights s) s)
| step_updateUrl w url :
    flight_step s (FUpdateUrl w url) [FDecrypt w url]
      (with_db (edit_webhook (wh_id w) (set_url url (wh_revision w + 1)) (es_db s)) (es_flights s) s)
| step_decrypt w url :
    flight_step s (FDecrypt w url)
      (match decrypt (wh_secretEncrypted w) with Some _ => [FInvalidate (wh_id w) url] | None => [] end) s
| step_invalidate id url now :
    flight_step s (FInvalidate id url) [FChallenge id url]
      (with_db (set_challenges (challenge_invalidate id now (ep_challenges (es_db s))) (es_db s)) (es_flights s) s)
| step_challenge id url cid token now cs :
    challenge_create cid id (sha256 token) url now (ep_challenges (es_db s)) = Ok cs ->
    flight_step s (FChallenge id url) [] (with_db (set_challenges cs (es_db s)) (es_flights s) s)
| step_challenge_taken id url cid token now e :
    challenge_create cid id (sha256 token) url now (ep_challenges (es_db s)) = Err e ->
    flight_step s (FChallenge id url) [] s
| step_consume w token now cs :
    verifyChallenge (wh_id w) (sha256 token) now (ep_challenges (es_db s)) = Ok cs ->
    flight_step s (FConsume w token) [FActivate w]
      {| es_db := set_challenges cs (es_db s); es_flights := es_flights s;
         es_acks := es_acks s ++ acks_of (wh_id w) (sha256 token) now (ep_challenges (es_db s));
         es_enabled := es_enabled s |}
| step_refuse w token now e :
    verifyChallenge (wh_id w) (sha256 token) now (ep_challenges (es_db s)) = Err e ->
    flight_step s (FConsume w token) [] s
| step_activate w :
    flight_step s (FActivate w) []
      (with_db (edit_webhook (wh_id w) (set_webhook_status ResourceStatus.ACTIVE (wh_revision w + 1)) (es_db s))
        (es_flights s) s)
| step_status w st :
    flight_step s (FStatus w st)
      (if bool_decide (st = ResourceStatus.DELETED) then [FDropCircuit (wh_id w)] else [])
      (with_db (edit_webhook (wh_id w) (set_webhook_status st (wh_revision w + 1)) (es_db s)) (es_flights s) s)
| step_drop_circuit id :
    flight_step s (FDropCircuit id) []
      (with_db (set_circuits (deleteCircuitState id (ep_circuits (es_db s))) (es_db s)) (es_flights s) s)
| step_events w events expected :
    flight_step s (FEvents w events expected) []
      (with_db (set_webhooks (update_where
         (fun r => has_webhook_id (wh_id w) r && (wh_revision r =? expected))
         (set_events (unique_events [] events) (expected + 1)) (ep_webhooks (es_db s))) (es_db s)) (es_flights s) s)
| step_rotate w secret :
    flight_step s (FRotate w secret) []
      (with_db (edit_webhook (wh_id w) (set_secret secret (wh_revision w + 1)) (es_db s)) (es_flights s) s).

(** A new operation, up to its first [await] after the row is read. *)
Inductive start_step (s : EndpointSys) : list Flight -> EndpointSys -> Prop :=
| start_create org id auditId secret dto now d :
    create_write maxWebhooks id auditId org secret dto now (es_db s) = Ok d ->
    start_step s [FCircuit id (cw_url dto)] (with_db d (es_flights s) s)
| start_updateUrl org id url w :
    assertOwnedWebhook org id (es_db s) = Ok w -> start_step s [FUpdateUrl w url] s
| start_resend org id w :
    assertOwnedWebhook org id (es_db s) = Ok w -> wh_status w = ResourceStatus.PENDING ->
    start_step s (match decrypt (wh_secretEncrypted w) with Some _ => [FInvalidate id (wh_url w)] | None => [] end) s
| start_verify org id token w :
    assertOwnedWebhook org id (es_db s) = Ok w -> start_step s [FConsume w token] s
| start_disable org id w :
    assertOwnedWebhook org id (es_db s) = Ok w -> start_step s [FStatus w ResourceStatus.SUSPENDED] s
| start_enable org id w :
    assertOwnedWebhook org id (es_db s) = Ok w ->
    start_step s [FStatus w ResourceStatus.ACTIVE]
      {| es_db := es_db s; es_flights := es_flights s; es_acks := es_acks s; es_enabled := es_enabled s ++ [id] |}
| start_delete org id w :
    assertOwnedWebhook org id (es_db s) = Ok w -> start_step s [FStatus w ResourceStatus.DELETED] s
| start_events org id events expected w :
    assertOwnedWebhook org id (es_db s) = Ok w -> start_step s [FEvents w events expected] s
| start_rotate org id secret w :
    assertOwnedWebhook org id (es_db s) = Ok w -> start_step s [FRotate w secret] s.

Definition set_flights (fs : list Flight) (s : EndpointSys) : EndpointSys := with_db (es_db s) fs s.

Inductive endpoint_step (s : EndpointSys) : EndpointSys -> Prop :=
| endpoint_start fs s' :
    start_step s fs s' -> endpoint_step s (set_flights (es_flights s ++ fs) s')
| endpoint_flight l1 f l2 fs s' :
    es_flights s = l1 ++ f :: l2 -> flight_step s f fs s' -> endpoint_step s (set_flights (l1 ++ fs ++ l2) s')
| endpoint_fail l1 f l2 :                    (* a failed query or a crash ends the operation *)
    es_flights s = l1 ++ f :: l2 -> endpoint_step s (set_flights (l1 ++ l2) s).

(** Operations one after the other: a new one starts when none is in flight,
    and none is cut short. *)
Inductive sequential_step (s : EndpointSys) : EndpointSys -> Prop :=
| sequential_start fs s' :
    es_flights s = [] -> start_step s fs s' -> sequential_step s (set_flights fs s')
| sequential_flight f fs s' :
    es_flights s = [f] -> flight_step s f fs s' -> sequential_step s (set_flights fs s').
End system.

Definition endpoints_empty : EndpointSys :=
  {| es_db := {| ep_webhooks := []; ep_challenges := []; ep_circuits := []; ep_audit := [] |};
     es_flights := []; es_acks := []; es_enabled := [] |}.
