(* ===== verification/WebhookEndpointsFacts.v ===== *)
(** * What activates a webhook endpoint

    The invariant of the endpoint operations under every interleaving, the
    binding of a verification to the destination it was sent to when operations
    run one after the other, and the runs in which that binding is lost. *)

From S2P Require Import Prelude JsData Canonical Schema AuditChain Predicates WebhookStore WebhookEndpoints.

Local Open Scope string_scope.
Local Open Scope Z_scope.
Local Open Scope list_scope.

(** ** Challenges *)

(** A table of challenges changes by consuming unused ones and adding new ones. *)
Definition challenges_grow (cs cs' : list Challenge) : Prop :=
  forall c, c ∈ cs -> exists c', c' ∈ cs' /\ vc_tokenHash c' = vc_tokenHash c /\ vc_webhookId c' = vc_webhookId c /\
    vc_url c' = vc_url c /\ vc_expiresAt c' = vc_expiresAt c /\ (vc_usedAt c = None \/ vc_usedAt c' = vc_usedAt c).

Lemma challenges_grow_refl cs : challenges_grow cs cs.
Proof. intros c Hc. exists c. auto 10. Qed.

(** An update that consumes rows of a selection of unused ones. *)
Lemma consume_grow p now cs :
  (forall c, p c = true -> vc_usedAt c = None) ->
  challenges_grow cs (update_where p (set_challenge_used now) cs) /\
  vc_tokenHash <$> update_where p (set_challenge_used now) cs = vc_tokenHash <$> cs.
Proof.
  intros Hp. split; [|by apply update_where_keys]. intros c Hc.
  exists (if p c then set_challenge_used now c else c).
  split; [apply elem_of_update_where; by exists c|]. destruct (p c) eqn:E; cbn; [|auto 10].
  split_and!; auto.
Qed.

Lemma invalidate_grow id now cs :
  challenges_grow cs (challenge_invalidate id now cs) /\
  vc_tokenHash <$> challenge_invalidate id now cs = vc_tokenHash <$> cs.
Proof. apply consume_grow. intros c H. by reflect_hyps. Qed.

Lemma create_grow cid id h url now cs cs' :
  challenge_create cid id h url now cs = Ok cs' ->
  challenges_grow cs cs' /\ (NoDup (vc_tokenHash <$> cs) -> NoDup (vc_tokenHash <$> cs')).
Proof.
  unfold challenge_create. intros H. run_result. reflect_hyps. split.
  - intros c Hc. exists c. split; [set_solver|auto 10].
  - intros Hd. by apply NoDup_fmap_snoc.
Qed.

Lemma acknowledgeable_unused id h now c : acknowledgeable id h now c = true -> vc_usedAt c = None.
Proof. unfold acknowledgeable. intros H. by reflect_hyps. Qed.

(** An acknowledgement consumes exactly one challenge. *)
Lemma verify_one id h now cs cs' :
  NoDup (vc_tokenHash <$> cs) -> verifyChallenge id h now cs = Ok cs' ->
  exists c, c ∈ cs /\ acknowledgeable id h now c = true /\ set_challenge_used now c ∈ cs' /\
    List.filter (acknowledgeable id h now) cs = [c] /\ challenges_grow cs cs' /\
    vc_tokenHash <$> cs' = vc_tokenHash <$> cs.
Proof.
  intros Hd. unfold verifyChallenge. intros H. run_result.
  assert (exists c, List.filter (acknowledgeable id h now) cs = [c]) as [c Hf].
  { unfold count_where in *. destruct (List.filter (acknowledgeable id h now) cs) as [|c [|c' l]] eqn:E; [done|by exists c|].
    exfalso. assert (NoDup (List.filter (acknowledgeable id h now) cs)) as Hn.
    { apply NoDup_filter_bool. by apply NoDup_fmap_1 in Hd. }
    assert (c ∈ List.filter (acknowledgeable id h now) cs /\ c' ∈ List.filter (acknowledgeable id h now) cs) as [Hc Hc']
      by (rewrite E; set_solver).
    rewrite E in Hn. apply elem_of_filter_bool in Hc as [Hc Ha], Hc' as [Hc' Ha'].
    assert (c = c') as ->; [|apply NoDup_cons in Hn as [Hn _]; set_solver].
    apply (key_unique vc_tokenHash cs); [done..|]. unfold acknowledgeable in Ha, Ha'. reflect_hyps. congruence. }
  assert (c ∈ List.filter (acknowledgeable id h now) cs) as [Hc Ha]%elem_of_filter_bool by (rewrite Hf; by left).
  exists c. split_and!; [done..| |done| |].
  - apply elem_of_update_where. exists c. by rewrite Ha.
  - apply consume_grow, acknowledgeable_unused.
  - apply consume_grow, acknowledgeable_unused.
Qed.

(** ** The invariant *)

Definition acknowledged (id : string) (s : EndpointSys) : Prop := exists a, a ∈ es_acks s /\ ak_webhookId a = id.

Definition endpoint_flight_ok (s : EndpointSys) (f : Flight) : Prop :=
  match f with
  | FActivate w => acknowledged (wh_id w) s
  | FStatus w ResourceStatus.ACTIVE => wh_id w ∈ es_enabled s
  | _ => True
  end.

(** The row an acknowledgement consumed. *)
Definition ack_ok (cs : list Challenge) (a : Ack) : Prop :=
  exists c, c ∈ cs /\ vc_tokenHash c = ak_tokenHash a /\ vc_webhookId c = ak_webhookId a /\ vc_url c = ak_url a /\
    vc_usedAt c = Some (ak_at a) /\ ak_at a < vc_expiresAt c.

Record endpoint_inv (s : EndpointSys) : Prop := {
  ei_hashes : NoDup (vc_tokenHash <$> ep_challenges (es_db s));
  ei_acks : NoDup (ak_tokenHash <$> es_acks s);
  ei_rows : Forall (ack_ok (ep_challenges (es_db s))) (es_acks s);
  ei_active : forall w, w ∈ ep_webhooks (es_db s) -> wh_status w = ResourceStatus.ACTIVE ->
    wh_id w ∈ es_enabled s \/ acknowledged (wh_id w) s;
  ei_flights : Forall (endpoint_flight_ok s) (es_flights s);
}.

Lemma ack_ok_grow cs cs' a : challenges_grow cs cs' -> ack_ok cs a -> ack_ok cs' a.
Proof.
  intros Hg (c & Hc & H1 & H2 & H3 & H4 & H5). destruct (Hg c Hc) as (c' & Hc' & E1 & E2 & E3 & E4 & E5).
  exists c'. split_and!; try congruence. destruct E5; congruence.
Qed.

Lemma flight_ok_grow s s' f :
  (forall a, a ∈ es_acks s -> a ∈ es_acks s') -> (forall i, i ∈ es_enabled s -> i ∈ es_enabled s') ->
  endpoint_flight_ok s f -> endpoint_flight_ok s' f.
Proof.
  intros Ha He. destruct f as [| | | | | | |w st| | |]; try done; cbn.
  - intros (a & H & <-). exists a. auto.
  - destruct st; auto.
Qed.

(** Rewriting endpoint rows without activating one. *)
Lemma edit_active (p : Webhook -> bool) f ws (P : string -> Prop) :
  (forall w, wh_id (f w) = wh_id w) ->
  (forall w, w ∈ ws -> p w = true -> wh_status (f w) = ResourceStatus.ACTIVE ->
     P (wh_id w) \/ wh_status w = ResourceStatus.ACTIVE) ->
  (forall w, w ∈ ws -> wh_status w = ResourceStatus.ACTIVE -> P (wh_id w)) ->
  forall w, w ∈ update_where p f ws -> wh_status w = ResourceStatus.ACTIVE -> P (wh_id w).
Proof.
  intros Hid Hf Hold w (w0 & Hw0 & ->)%elem_of_update_where. destruct (p w0) eqn:Ep; [|by apply Hold].
  rewrite Hid. intros Hst. destruct (Hf w0 Hw0 Ep Hst); auto.
Qed.

Section steps.
Context (sha256 : string -> string) (decrypt : string -> option string) (maxWebhooks : nat).
Abbreviation fstep := (flight_step sha256 decrypt).
Abbreviation sstep := (start_step decrypt maxWebhooks).
Abbreviation estep := (endpoint_step sha256 decrypt maxWebhooks).

(** What a step leaves: the invariant apart from the flights, the flights it
    starts, and longer histories. *)
Record kept (s s' : EndpointSys) (fs : list Flight) : Prop := {
  kp_inv : endpoint_inv (set_flights [] s');
  kp_new : Forall (endpoint_flight_ok s') fs;
  kp_acks : forall a, a ∈ es_acks s -> a ∈ es_acks s';
  kp_enabled : forall i, i ∈ es_enabled s -> i ∈ es_enabled s';
}.

(** Steps that leave the acknowledgements as they are. *)
Lemma kept_db s d fs :
  endpoint_inv s ->
  challenges_grow (ep_challenges (es_db s)) (ep_challenges d) -> NoDup (vc_tokenHash <$> ep_challenges d) ->
  (forall w, w ∈ ep_webhooks d -> wh_status w = ResourceStatus.ACTIVE ->
     wh_id w ∈ es_enabled s \/ acknowledged (wh_id w) s) ->
  Forall (endpoint_flight_ok s) fs -> kept s (with_db d (es_flights s) s) fs.
Proof.
  intros [Hh Ha Hr Hact Hfl] Hg Hd Hw Hfs. split; [|done|done|done].
  split; cbn; [done|done| |done|constructor].
  eapply Forall_impl; [exact Hr|]. intros a. by apply ack_ok_grow.
Qed.

Lemma kept_same s fs : endpoint_inv s -> Forall (endpoint_flight_ok s) fs -> kept s s fs.
Proof.
  intros Hi Hfs. split; [|done|done|done]. destruct Hi as [Hh Ha Hr Hact Hfl]. split; cbn; [done..|constructor].
Qed.

(** Editing the endpoints alone. *)
Lemma kept_edit s p f fs :
  endpoint_inv s -> (forall w, wh_id (f w) = wh_id w) ->
  (forall w, w ∈ ep_webhooks (es_db s) -> p w = true -> wh_status (f w) = ResourceStatus.ACTIVE ->
     (wh_id w ∈ es_enabled s \/ acknowledged (wh_id w) s) \/ wh_status w = ResourceStatus.ACTIVE) ->
  Forall (endpoint_flight_ok s) fs ->
  kept s (with_db (set_webhooks (update_where p f (ep_webhooks (es_db s))) (es_db s)) (es_flights s) s) fs.
Proof.
  intros Hi Hid Hf Hfs. apply kept_db; [done|apply challenges_grow_refl|apply Hi| |done].
  cbn. apply (edit_active p f _ (fun i => i ∈ es_enabled s \/ acknowledged i s)); [done|done|apply Hi].
Qed.

Lemma consume_kept s w token now cs :
  endpoint_inv s -> verifyChallenge (wh_id w) (sha256 token) now (ep_challenges (es_db s)) = Ok cs ->
  kept s {| es_db := set_challenges cs (es_db s); es_flights := es_flights s;
            es_acks := es_acks s ++ acks_of (wh_id w) (sha256 token) now (ep_challenges (es_db s));
            es_enabled := es_enabled s |} [FActivate w].
Proof.
  intros [Hh Ha Hr Hact Hfl] Hv.
  destruct (verify_one _ _ _ _ _ Hh Hv) as (c & Hc & Hack & Hc' & Hf & Hg & Hk).
  unfold acks_of. rewrite Hf. cbn [fmap list_fmap].
  set (a := {| ak_webhookId := wh_id w; ak_tokenHash := sha256 token; ak_url := vc_url c; ak_at := now |}).
  assert (acknowledgeable (wh_id w) (sha256 token) now c = true) as Hack' by done.
  unfold acknowledgeable in Hack'. reflect_hyps.
  assert (ak_tokenHash a ∉ ak_tokenHash <$> es_acks s) as Hnew.
  { intros (b & Hb & Hbin)%list_elem_of_fmap. rewrite Forall_forall in Hr.
    destruct (Hr b Hbin) as (c2 & Hc2 & E1 & _ & _ & E4 & _).
    assert (c2 = c) as ->; [|congruence]. apply (key_unique vc_tokenHash (ep_challenges (es_db s))); [done..|].
    cbn in Hb. congruence. }
  split; cbn; [|repeat constructor; exists a; split; [set_solver|done]|set_solver|done].
  split; cbn.
  - by rewrite Hk.
  - by apply NoDup_fmap_snoc.
  - apply Forall_app. split; [eapply Forall_impl; [exact Hr|]; intros b; by apply ack_ok_grow|].
    repeat constructor. exists (set_challenge_used now c). cbn. split_and!; done || congruence.
  - intros x Hx Hst. destruct (Hact x Hx Hst) as [He|(b & Hb & Hbi)]; [by left|right].
    exists b. cbn. split; [set_solver|done].
  - constructor.
Qed.

Lemma flight_step_kept s f fs s' :
  endpoint_inv s -> endpoint_flight_ok s f -> fstep s f fs s' -> kept s s' fs.
Proof.
  intros Hi Hf Hs. pose proof Hi as [Hh Ha Hr Hact Hfl].
  destruct Hs as [id url|w url|w url|id url now|id url cid token now cs Hc|id url cid token now e He|w token now cs Hv
                 |w token now e He|w|w st|id|w events expected|w secret].
  - apply kept_db; [done|apply challenges_grow_refl|done|done|]. by repeat constructor.
  - apply kept_edit; [done|done|done|]. by repeat constructor.
  - apply kept_same; [done|]. destruct (decrypt _); repeat constructor.
  - destruct (invalidate_grow id now (ep_challenges (es_db s))) as [Hg Hk].
    apply kept_db; [done|exact Hg|cbn; by rewrite Hk|done|by repeat constructor].
  - destruct (create_grow _ _ _ _ _ _ _ Hc) as [Hg Hk]. apply kept_db; [done|exact Hg|auto|done|constructor].
  - apply kept_same; [done|constructor].
  - by apply consume_kept.
  - apply kept_same; [done|constructor].
  - apply kept_edit; [done|done| |constructor]. intros w' Hw' Hid _. left. right.
    unfold has_webhook_id in Hid. reflect_hyps. rewrite Hid. exact Hf.
  - apply kept_edit; [done|done| |case_bool_decide; repeat constructor]. intros w' Hw' Hid Hst. cbn in Hst. subst st. left. left.
    unfold has_webhook_id in Hid. reflect_hyps. rewrite Hid. exact Hf.
  - apply kept_db; [done|apply challenges_grow_refl|done|done|constructor].
  - apply kept_edit; [done|done| |constructor]. intros w' _ _ H. by right.
  - apply kept_edit; [done|done| |constructor]. intros w' _ _ H. by right.
Qed.

Lemma start_step_kept s fs s' : endpoint_inv s -> sstep s fs s' -> kept s s' fs.
Proof.
  intros Hi Hs. pose proof Hi as [Hh Ha Hr Hact Hfl].
  destruct Hs as [org id auditId secret dto now d Hc|org id url w Hw|org id w Hw Hst|org id token w Hw|org id w Hw|org id w Hw
                 |org id w Hw|org id events expected w Hw|org id secret w Hw];
    try (apply kept_same; [done|by repeat constructor]).
  - unfold create_write in Hc. run_result.
    destruct (createUnchained _ _ _ _) as [rows|]; [|done]. run_result.
    apply kept_db; [done|apply challenges_grow_refl|done| |by repeat constructor]. cbn.
    intros w [Hw|Hw%list_elem_of_singleton]%elem_of_app Hst; [auto|by subst].
  - apply kept_same; [done|]. destruct (decrypt _); by repeat constructor.
  - assert (wh_id w = id) as <-.
    { unfold assertOwnedWebhook, find_webhook in Hw. destruct (find_where _ _) as [w'|] eqn:E; [|done].
      run_result. apply find_where_Some in E as [_ E]. unfold has_webhook_id in E. by reflect_hyps. }
    split; cbn; [|repeat constructor; cbn; set_solver|done|set_solver].
    split; cbn; [done..| |constructor]. intros x Hx Hst. destruct (Hact x Hx Hst); [left; set_solver|by right].
Qed.

Lemma kept_step s s' l1 l2 fs :
  kept s s' fs -> Forall (endpoint_flight_ok s) l1 -> Forall (endpoint_flight_ok s) l2 ->
  endpoint_inv (set_flights (l1 ++ fs ++ l2) s').
Proof.
  intros [[Hh Ha Hr Hact _] Hn Hak Hen] H1 H2. split; cbn in *; [done..|].
  assert (forall l, Forall (endpoint_flight_ok s) l -> Forall (endpoint_flight_ok (set_flights (l1 ++ fs ++ l2) s')) l) as Hl.
  { intros l Hl. eapply Forall_impl; [exact Hl|]. intros f. by apply flight_ok_grow. }
  rewrite !Forall_app. split_and!; auto.
Qed.

Lemma endpoint_step_inv s s' : estep s s' -> endpoint_inv s -> endpoint_inv s'.
Proof.
  intros Hs Hi. pose proof (ei_flights s Hi) as Hfl. destruct Hs as [fs s' Hs|l1 f l2 fs s' Hf Hs|l1 f l2 Hf].
  - pose proof (kept_step _ _ (es_flights s) [] fs (start_step_kept _ _ _ Hi Hs) Hfl (Forall_nil_2 _)) as H.
    by rewrite app_nil_r in H.
  - rewrite Hf, Forall_app, Forall_cons in Hfl. destruct Hfl as (H1 & Hf' & H2).
    eapply kept_step; [by eapply flight_step_kept|done|done].
  - rewrite Hf, Forall_app, Forall_cons in Hfl. destruct Hfl as (H1 & _ & H2).
    apply (kept_step s s l1 l2 []); [apply kept_same; [done|constructor]|done|done].
Qed.
End steps.

(** A service with endpoints none of which is active, and nothing in flight. *)
Record endpoints_fresh (s : EndpointSys) : Prop := {
  ef_inactive : Forall (fun w => wh_status w <> ResourceStatus.ACTIVE) (ep_webhooks (es_db s));
  ef_ids : NoDup (wh_id <$> ep_webhooks (es_db s));
  ef_challenges : ep_challenges (es_db s) = [];
  ef_flights : es_flights s = [];
  ef_acks : es_acks s = [];
}.

Lemma fresh_inv s : endpoints_fresh s -> endpoint_inv s.
Proof.
  intros [Hi _ Hc Hf Ha]. split; rewrite ?Hc, ?Ha, ?Hf; [constructor|constructor|constructor| |constructor].
  intros w Hw Hst. rewrite Forall_forall in Hi. by destruct (Hi w Hw).
Qed.

(** An acknowledgement of the endpoint, and the challenge it consumed in time. *)
Record consumed (s : EndpointSys) (w : Webhook) (a : Ack) (c : Challenge) : Prop := {
  cd_ack : a ∈ es_acks s;
  cd_row : c ∈ ep_challenges (es_db s);
  cd_webhook : ak_webhookId a = wh_id w /\ vc_webhookId c = wh_id w;
  cd_token : vc_tokenHash c = ak_tokenHash a;
  cd_url : vc_url c = ak_url a;
  cd_used : vc_usedAt c = Some (ak_at a) /\ ak_at a < vc_expiresAt c;
}.

Lemma endpoints_reachable sha256 decrypt maxWebhooks s0 s :
  endpoints_fresh s0 -> rtc (endpoint_step sha256 decrypt maxWebhooks) s0 s -> endpoint_inv s.
Proof.
  intros Hf Hr. eapply rtc_invariant; [|exact Hr|by apply fresh_inv]. intros ???. by eapply endpoint_step_inv.
Qed.

Lemma ack_consumed s w a :
  endpoint_inv s -> a ∈ es_acks s -> ak_webhookId a = wh_id w -> exists c, consumed s w a c.
Proof.
  intros [_ _ Hrows _ _] Ha Hid. rewrite Forall_forall in Hrows.
  destruct (Hrows a Ha) as (c & Hc & H1 & H2 & H3 & H4 & H5). exists c. split; [done..| |done|done|done].
  split; congruence.
Qed.

(** ** One operation at a time *)

(** The endpoint exists and has this destination. *)
Definition row_url (id url : string) (s : EndpointSys) : Prop :=
  (id ∈ wh_id <$> ep_webhooks (es_db s)) /\
  forall w, w ∈ ep_webhooks (es_db s) -> wh_id w = id -> wh_url w = url.

(** A challenge sent to this destination was acknowledged. *)
Definition acked_at (id url : string) (s : EndpointSys) : Prop :=
  exists a, a ∈ es_acks s /\ ak_webhookId a = id /\ ak_url a = url.

(** The destination changed and the old challenges are still to be consumed. *)
Definition reissuing (fs : list Flight) (id : string) : Prop :=
  match fs with
  | [FDecrypt w _] => wh_id w = id
  | [FInvalidate i _] => i = id
  | _ => False
  end.

Definition seq_flight_ok (s : EndpointSys) (f : Flight) : Prop :=
  match f with
  | FCircuit id url | FInvalidate id url => row_url id url s
  | FUpdateUrl w _ => wh_id w ∈ wh_id <$> ep_webhooks (es_db s)
  | FDecrypt w url => row_url (wh_id w) url s
  | FChallenge id url => row_url id url s /\
      (forall c, c ∈ ep_challenges (es_db s) -> vc_webhookId c = id -> vc_usedAt c <> None)
  | FActivate w => forall w', w' ∈ ep_webhooks (es_db s) -> wh_id w' = wh_id w -> acked_at (wh_id w) (wh_url w') s
  | FStatus w ResourceStatus.ACTIVE => wh_id w ∈ es_enabled s
  | _ => True
  end.

(** The part of the invariant about the tables; [pending] are the endpoints
    whose challenges are being reissued. *)
Record seq_tables (pending : string -> Prop) (s : EndpointSys) : Prop := {
  sq_ids : NoDup (wh_id <$> ep_webhooks (es_db s));
  sq_hashes : NoDup (vc_tokenHash <$> ep_challenges (es_db s));
  sq_bound : forall c, c ∈ ep_challenges (es_db s) -> vc_usedAt c = None ->
    row_url (vc_webhookId c) (vc_url c) s \/ pending (vc_webhookId c);
  sq_active : forall w, w ∈ ep_webhooks (es_db s) -> wh_status w = ResourceStatus.ACTIVE ->
    wh_id w ∈ es_enabled s \/ acked_at (wh_id w) (wh_url w) s;
}.

Definition seq_inv (s : EndpointSys) : Prop :=
  seq_tables (reissuing (es_flights s)) s /\ Forall (seq_flight_ok s) (es_flights s).

Section sequential.
Context (sha256 : string -> string) (decrypt : string -> option string) (maxWebhooks : nat).
Hypothesis decrypts : forall c, decrypt c <> None.
Abbreviation fstep := (flight_step sha256 decrypt).
Abbreviation sstep := (start_step decrypt maxWebhooks).

(** A step that keeps the endpoints' identities and destinations, and the
    challenges. *)
Lemma seq_edit_tables P s p f :
  seq_tables P s -> (forall w, wh_id (f w) = wh_id w) -> (forall w, wh_url (f w) = wh_url w) ->
  (forall w, w ∈ ep_webhooks (es_db s) -> p w = true -> wh_status (f w) = ResourceStatus.ACTIVE ->
     (wh_id w ∈ es_enabled s \/ acked_at (wh_id w) (wh_url w) s) \/ wh_status w = ResourceStatus.ACTIVE) ->
  seq_tables P (with_db (set_webhooks (update_where p f (ep_webhooks (es_db s))) (es_db s)) (es_flights s) s) /\
  forall id url, row_url id url s ->
    row_url id url (with_db (set_webhooks (update_where p f (ep_webhooks (es_db s))) (es_db s)) (es_flights s) s).
Proof.
  intros [Hids Hh Hb Hact] Hid Hurl Hf.
  assert (wh_id <$> update_where p f (ep_webhooks (es_db s)) = wh_id <$> ep_webhooks (es_db s)) as Hk
    by by apply update_where_keys.
  assert (forall id url, row_url id url s -> row_url id url
    (with_db (set_webhooks (update_where p f (ep_webhooks (es_db s))) (es_db s)) (es_flights s) s)) as Hrow.
  { intros id url [Hin Hall]. split; cbn; [by rewrite Hk|]. intros w (w0 & Hw0 & ->)%elem_of_update_where.
    destruct (p w0); rewrite ?Hid, ?Hurl; auto. }
  split; [|done]. split; cbn.
  - by rewrite Hk.
  - done.
  - intros c Hc Hu. destruct (Hb c Hc Hu) as [Hr|]; [left; by apply Hrow|by right].
  - intros w (w0 & Hw0 & ->)%elem_of_update_where. destruct (p w0) eqn:Ep; [|by apply Hact].
    rewrite Hid, Hurl. intros Hst. destruct (Hf w0 Hw0 Ep Hst); auto.
Qed.

Lemma seq_tables_weaken (P Q : string -> Prop) s : (forall i, P i -> Q i) -> seq_tables P s -> seq_tables Q s.
Proof.
  intros HPQ [Hids Hh Hb Hact]. split; [done..| |done]. intros c Hc Hu. destruct (Hb c Hc Hu); auto.
Qed.

Lemma seq_set_flights P fs s : seq_tables P s -> seq_tables P (set_flights fs s).
Proof. intros [Hids Hh Hb Hact]. by split. Qed.

Lemma seq_set_circuits P cs fs s : seq_tables P s -> seq_tables P (with_db (set_circuits cs (es_db s)) fs s).
Proof. intros [Hids Hh Hb Hact]. by split. Qed.

(** A step that rewrites the challenges alone. *)
Lemma seq_challenges P (Q : string -> Prop) s s' :
  ep_webhooks (es_db s') = ep_webhooks (es_db s) -> es_enabled s' = es_enabled s ->
  seq_tables P s -> NoDup (vc_tokenHash <$> ep_challenges (es_db s')) -> (forall a, a ∈ es_acks s -> a ∈ es_acks s') ->
  (forall c, c ∈ ep_challenges (es_db s') -> vc_usedAt c = None ->
     row_url (vc_webhookId c) (vc_url c) s \/ Q (vc_webhookId c)) ->
  seq_tables Q s'.
Proof.
  intros Ew Ee [Hids Hh Hb Hact] Hd Ha HQ. split; unfold row_url in *; rewrite ?Ew, ?Ee; [done|done|exact HQ|].
  intros w Hw Hst. destruct (Hact w Hw Hst) as [?|(a & Hin & Ht)]; [by left|right]. exists a. auto.
Qed.

Lemma seq_update_url s w url :
  seq_tables (fun _ => False) s -> wh_id w ∈ wh_id <$> ep_webhooks (es_db s) ->
  let s' := with_db (edit_webhook (wh_id w) (set_url url (wh_revision w + 1)) (es_db s)) (es_flights s) s in
  seq_tables (fun i => wh_id w = i) s' /\ row_url (wh_id w) url s'.
Proof.
  intros [Hids Hh Hb Hact] Hin s'.
  assert (wh_id <$> ep_webhooks (es_db s') = wh_id <$> ep_webhooks (es_db s)) as Hk
    by (cbn; by apply update_where_keys).
  split; [split|split]; rewrite ?Hk; [done|done| | |done|].
  - intros c Hc Hu. destruct (Hb c Hc Hu) as [[Hci Hall]|[]]. destruct (decide (wh_id w = vc_webhookId c)) as [|Hne]; [by right|].
    left. split; [by rewrite Hk|]. intros x (x0 & Hx0 & ->)%elem_of_update_where. unfold has_webhook_id.
    case_bool_decide; cbn; [congruence|auto].
  - intros x (x0 & Hx0 & ->)%elem_of_update_where. unfold has_webhook_id. case_bool_decide; [done|]. by apply Hact.
  - intros x (x0 & Hx0 & ->)%elem_of_update_where. unfold has_webhook_id. case_bool_decide; cbn; [done|congruence].
Qed.

Lemma seq_flight_step s f fs s' :
  es_flights s = [f] -> seq_inv s -> fstep s f fs s' -> seq_inv (set_flights fs s').
Proof.
  intros Hfl [Ht Hok] Hs. rewrite Hfl in Ht, Hok. apply Forall_cons in Hok as [Hf _].
  pose proof (sq_hashes _ _ Ht) as Hh.
  destruct Hs as [id url|w url|w url|id url now|id url cid token now cs Hc|id url cid token now e He|w token now cs Hv
                 |w token now e He|w|w st|id|w events expected|w secret]; cbn [reissuing] in Ht.
  - split; [|by apply Forall_singleton]. apply (seq_tables_weaken (fun _ => False)); [done|].
    by apply seq_set_flights, seq_set_circuits.
  - destruct (seq_update_url s w url Ht Hf) as [Ht' Hr]. split; [by apply seq_set_flights|by apply Forall_singleton].
  - destruct (decrypt (wh_secretEncrypted w)) eqn:E; [|by destruct (decrypts (wh_secretEncrypted w))].
    split; [by apply seq_set_flights|by apply Forall_singleton].
  - destruct (invalidate_grow id now (ep_challenges (es_db s))) as [_ Hk].
    assert (forall c, c ∈ challenge_invalidate id now (ep_challenges (es_db s)) -> vc_usedAt c = None ->
      c ∈ ep_challenges (es_db s) /\ vc_webhookId c <> id) as Hunused.
    { intros c (c0 & Hc0 & ->)%elem_of_update_where. destruct (_ && _) eqn:E; [done|]. intros Hu. split; [done|].
      intros Hid. rewrite !bool_decide_true in E by done. done. }
    split.
    + eapply (seq_challenges _ _ s); [done|done|exact Ht|cbn; by rewrite Hk|done|].
      intros c Hc Hu. destruct (Hunused c Hc Hu) as [Hc' Hne]. destruct (sq_bound _ _ Ht c Hc' Hu) as [|?]; [by left|congruence].
    + apply Forall_singleton. split; [exact Hf|]. intros c Hc Hid Hu. by destruct (Hunused c Hc Hu).
  - destruct (create_grow _ _ _ _ _ _ _ Hc) as [_ Hd]. unfold challenge_create in Hc. run_result. split; [|constructor].
    eapply (seq_challenges _ _ s); [done|done|exact Ht|auto|done|]. destruct Hf as [Hrow _].
    intros c [Hc|Hc%list_elem_of_singleton]%elem_of_app Hu; [by apply (sq_bound _ _ Ht)|subst c; by left].
  - split; [by apply seq_set_flights|constructor].
  - destruct (verify_one _ _ _ _ _ Hh Hv) as (c & Hc & Hack & Hc' & Hfil & Hg & Hk).
    unfold verifyChallenge in Hv. run_result. split.
    + eapply (seq_challenges _ _ s); [done|done|exact Ht|cbn; by rewrite Hk|cbn; set_solver|].
      intros k (k0 & Hk0 & ->)%elem_of_update_where. destruct (acknowledgeable _ _ _ k0); [done|]. by apply (sq_bound _ _ Ht).
    + apply Forall_singleton. cbn. intros w' Hw' Hid. unfold acks_of. rewrite Hfil. cbn.
      unfold acknowledgeable in Hack. reflect_hyps. destruct (sq_bound _ _ Ht c Hc) as [[_ Hrow]|[]]; [done|].
      eexists. split; [apply elem_of_app; right; by left|]. cbn. split; [done|]. symmetry. apply Hrow; congruence.
  - split; [by apply seq_set_flights|constructor].
  - split; [|constructor]. apply seq_set_flights, (seq_edit_tables _ _ (has_webhook_id (wh_id w))); [exact Ht|done|done|].
    intros w' Hw' Hid _. left. right. unfold has_webhook_id in Hid. reflect_hyps. rewrite Hid. by apply Hf.
  - assert (seq_tables (fun _ => False) (with_db (edit_webhook (wh_id w) (set_webhook_status st (wh_revision w + 1)) (es_db s)) (es_flights s) s)) as H.
    { apply (seq_edit_tables _ _ (has_webhook_id (wh_id w))); [exact Ht|done|done|].
      intros w' Hw' Hid Hst. cbn in Hst. subst st. left. left. unfold has_webhook_id in Hid. reflect_hyps. by rewrite Hid. }
    destruct (bool_decide _); (split; [by apply seq_set_flights|by repeat constructor]).
  - split; [by apply seq_set_flights, seq_set_circuits|constructor].
  - split; [|constructor]. apply seq_set_flights, (seq_edit_tables _ _ (fun r => has_webhook_id (wh_id w) r && (wh_revision r =? expected)));
      [exact Ht|done|done|]. intros w' _ _ H. by right.
  - split; [|constructor]. apply seq_set_flights, (seq_edit_tables _ _ (has_webhook_id (wh_id w))); [exact Ht|done|done|]. intros w' _ _ H. by right.
Qed.

Lemma owned_row org id d w :
  assertOwnedWebhook org id d = Ok w -> w ∈ ep_webhooks d /\ wh_id w = id /\ wh_organizationId w = org.
Proof.
  unfold assertOwnedWebhook, find_webhook. destruct (find_where _ _) as [w'|] eqn:E; [|done]. intros H.
  run_result. reflect_hyps. apply find_where_Some in E as [Hin E]. unfold has_webhook_id in E. by reflect_hyps.
Qed.

Lemma seq_create s id auditId org secret dto now d :
  seq_tables (fun _ => False) s -> create_write maxWebhooks id auditId org secret dto now (es_db s) = Ok d ->
  seq_tables (fun _ => False) (with_db d (es_flights s) s) /\ row_url id (cw_url dto) (with_db d (es_flights s) s).
Proof.
  intros [Hids Hh Hb Hact] Hc. unfold create_write in Hc. run_result. reflect_hyps.
  destruct (createUnchained _ _ _ _) as [rows|]; [|done]. run_result. split; [split|split]; cbn.
  - by apply NoDup_fmap_snoc.
  - done.
  - intros c Hc Hu. destruct (Hb c Hc Hu) as [[Hin Hall]|[]]. left. split; cbn; [rewrite fmap_app; set_solver|].
    intros w [Hw|Hw%list_elem_of_singleton]%elem_of_app Hid; [auto|]. subst w. cbn in Hid. subst id. done.
  - intros w [Hw|Hw%list_elem_of_singleton]%elem_of_app Hst; [by apply Hact|by subst w].
  - rewrite fmap_app. set_solver.
  - intros w [Hw|Hw%list_elem_of_singleton]%elem_of_app Hid; [|by subst w].
    match goal with H : id ∉ _ |- _ => destruct H; rewrite <- Hid; apply list_elem_of_fmap; by exists w end.
Qed.

Lemma seq_start_step s fs s' :
  es_flights s = [] -> seq_inv s -> sstep s fs s' -> seq_inv (set_flights fs s').
Proof.
  intros Hfl [Ht _] Hs. rewrite Hfl in Ht. change (seq_tables (fun _ => False) s) in Ht.
  assert (forall P, seq_tables P s) as Hany by (intros P; by eapply seq_tables_weaken; [|exact Ht]).
  destruct Hs as [org id auditId secret dto now d Hc|org id url w Hw|org id w Hw Hst|org id token w Hw|org id w Hw|org id w Hw
                 |org id w Hw|org id events expected w Hw|org id secret w Hw];
    try (split; [by apply seq_set_flights|by repeat constructor]).
  - destruct (seq_create _ _ _ _ _ _ _ _ Ht Hc) as [Ht' Hrow].
    split; [apply seq_set_flights; by eapply seq_tables_weaken; [|exact Ht']|by apply Forall_singleton].
  - apply owned_row in Hw as (Hin & _ & _). split; [by apply seq_set_flights|]. apply Forall_singleton. cbn.
    apply list_elem_of_fmap. by exists w.
  - apply owned_row in Hw as (Hin & <- & _). destruct (decrypt _); (split; [by apply seq_set_flights|]); [|constructor].
    apply Forall_singleton. split; cbn; [apply list_elem_of_fmap; by exists w|]. intros w' Hw' Hid. f_equal.
    by apply (key_unique wh_id (ep_webhooks (es_db s))); [apply Ht|..].
  - apply owned_row in Hw as (Hin & <- & _). split; [|apply Forall_singleton; cbn; set_solver]. destruct Ht as [Hids Hh Hb Hact].
    split; cbn; [done..|]. intros w' Hw' Hst. destruct (Hact w' Hw' Hst); [left; set_solver|by right].
Qed.

Lemma sequential_step_inv s s' : sequential_step sha256 decrypt maxWebhooks s s' -> seq_inv s -> seq_inv s'.
Proof. intros [fs s1 Hf Hs|f fs s1 Hf Hs] Hi; [by eapply seq_start_step|by eapply seq_flight_step]. Qed.

(** when operations run one after the other, an active endpoint that no
    [enable] put back delivers to the very destination that acknowledged: a
    challenge sent to its current URL was consumed. *)
Theorem sequential_verification_binds_url s0 s w :
  endpoints_fresh s0 -> rtc (sequential_step sha256 decrypt maxWebhooks) s0 s ->
  w ∈ ep_webhooks (es_db s) -> wh_status w = ResourceStatus.ACTIVE -> wh_id w ∉ es_enabled s ->
  exists a, a ∈ es_acks s /\ ak_webhookId a = wh_id w /\ ak_url a = wh_url w.
Proof.
  intros [Hi Hids Hc Hf Ha] Hr Hw Hst Hen. assert (seq_inv s) as [Ht _].
  { eapply rtc_invariant; [|exact Hr|].
    - intros ???. by eapply sequential_step_inv.
    - unfold seq_inv. rewrite Hf. split; [|constructor]. split; rewrite ?Hc; [done|constructor|set_solver|].
      intros x Hx Hsx. rewrite Forall_forall in Hi. by destruct (Hi x Hx). }
  by destruct (sq_active _ _ Ht w Hw Hst) as [?|Hack].
Qed.
End sequential.

Lemma sequential_reachable sha256 decrypt maxWebhooks s0 s :
  rtc (sequential_step sha256 decrypt maxWebhooks) s0 s -> rtc (endpoint_step sha256 decrypt maxWebhooks) s0 s.
Proof.
  induction 1 as [|s0 s1 s2 Hs _ IH]; [done|]. eapply rtc_l; [|exact IH]. destruct Hs as [fs s' Hf Hs|f fs s' Hf Hs].
  - pose proof (endpoint_start sha256 decrypt maxWebhooks _ _ _ Hs) as H. by rewrite Hf in H.
  - pose proof (endpoint_flight sha256 decrypt maxWebhooks _ [] f [] _ _ Hf Hs) as H. by rewrite app_nil_r in H.
Qed.

(** C26: an endpoint that no call to [enable] put back is active only when somebody
    presented the token of a challenge sent for it, before that challenge expired,
    and each challenge is acknowledged at most once: under every interleaving,
    failures included.  When operations run one after the other, none is cut short
    and stored secrets decrypt, that challenge was sent to the very URL the endpoint
    delivers to. *)
Theorem activation_needs_acknowledgement sha256 decrypt maxWebhooks s0 s w :
  endpoints_fresh s0 -> w ∈ ep_webhooks (es_db s) -> wh_status w = ResourceStatus.ACTIVE -> wh_id w ∉ es_enabled s ->
  (rtc (endpoint_step sha256 decrypt maxWebhooks) s0 s ->
   NoDup (ak_tokenHash <$> es_acks s) /\ exists a c, consumed s w a c) /\
  (rtc (sequential_step sha256 decrypt maxWebhooks) s0 s -> (forall x, decrypt x <> None) ->
   exists a c, consumed s w a c /\ vc_url c = wh_url w).
Proof.
  intros Hf Hw Hst Hen. split.
  - intros Hi%endpoints_reachable; [|done]. split; [by apply Hi|].
    destruct (ei_active _ Hi w Hw Hst) as [?|(a & Ha & Hid)]; [done|]. exists a. by apply ack_consumed.
  - intros Hr Hd. pose proof (endpoints_reachable _ _ _ _ _ Hf (sequential_reachable _ _ _ _ _ Hr)) as Hi.
    destruct (sequential_verification_binds_url _ _ _ Hd _ _ _ Hf Hr Hw Hst Hen) as (a & Ha & Hid & Hu).
    destruct (ack_consumed s w a Hi Ha Hid) as [c Hc]. exists a, c. split; [done|]. by rewrite (cd_url _ _ _ _ Hc).
Qed.

(** ** Runs *)

Definition demo_sha (token : string) : string := String.append "h:" token.
Definition demo_webhook : Webhook :=
  {| wh_id := "w1"; wh_organizationId := "o1"; wh_url := "https://a.example"; wh_secretEncrypted := "enc";
     wh_events := ["proof.created"]; wh_predicate := None; wh_status := ResourceStatus.PENDING;
     wh_mtlsRequired := false; wh_payloadVersion := "1"; wh_revision := 0 |}.
Definition demo_endpoints : EndpointSys :=
  {| es_db := {| ep_webhooks := [demo_webhook]; ep_challenges := []; ep_circuits := []; ep_audit := [] |};
     es_flights := []; es_acks := []; es_enabled := [] |}.

Lemma demo_fresh : endpoints_fresh demo_endpoints.
Proof. split; try done; cbn; repeat constructor; set_solver. Qed.

Ltac begin_seq t := eapply rtc_l; [eapply sequential_start; [reflexivity|eapply t; reflexivity]|].
Ltac advance_seq t := eapply rtc_l; [eapply sequential_flight; [reflexivity|eapply t; reflexivity]|].
Ltac begin_op t := eapply rtc_l; [eapply endpoint_start; eapply t; reflexivity|].
(** Advance the operation number [n] in flight. *)
Ltac advance_op l1 t := eapply rtc_l; [eapply (endpoint_flight _ _ _ _ l1); [reflexivity|eapply t; reflexivity]|].

(** A challenge is sent to the endpoint and acknowledged. *)
Definition demo_verified : EndpointSys :=
  {| es_db := {| ep_webhooks := [set_webhook_status ResourceStatus.ACTIVE 1 demo_webhook];
       ep_challenges := [{| vc_id := "c1"; vc_webhookId := "w1"; vc_tokenHash := demo_sha "tok"; vc_url := "https://a.example";
                            vc_expiresAt := 20 + CHALLENGE_TTL_MS; vc_usedAt := Some 30 |}];
       ep_circuits := []; ep_audit := [] |};
     es_flights := [];
     es_acks := [{| ak_webhookId := "w1"; ak_tokenHash := demo_sha "tok"; ak_url := "https://a.example"; ak_at := 30 |}];
     es_enabled := [] |}.

Lemma demo_verification : rtc (sequential_step demo_sha Some 10) demo_endpoints demo_verified.
Proof.
  begin_seq (start_resend Some 10%nat demo_endpoints "o1" "w1" demo_webhook).
  advance_seq (fun s id url => step_invalidate demo_sha Some s id url 10).
  advance_seq (fun s => step_challenge demo_sha Some s "w1" "https://a.example" "c1" "tok" 20).
  begin_seq (fun s => start_verify Some 10%nat s "o1" "w1" "tok").
  advance_seq (fun s w => step_consume demo_sha Some s w "tok" 30). advance_seq (step_activate demo_sha Some).
  apply rtc_refl.
Qed.

Lemma activation_needs_acknowledgement_witness :
  let w := set_webhook_status ResourceStatus.ACTIVE 1 demo_webhook in
  NoDup (ak_tokenHash <$> es_acks demo_verified) /\
  exists a c, consumed demo_verified w a c /\ vc_url c = "https://a.example".
Proof.
  pose proof (activation_needs_acknowledgement demo_sha Some 10 demo_endpoints demo_verified
    (set_webhook_status ResourceStatus.ACTIVE 1 demo_webhook) demo_fresh) as H.
  destruct H as [H1 H2]; [by left|done|apply not_elem_of_nil|]. split.
  - apply H1, sequential_reachable, demo_verification.
  - apply H2; [apply demo_verification|discriminate].
Defined.

Lemma sequential_verification_binds_url_witness :
  exists a, a ∈ es_acks demo_verified /\ ak_webhookId a = "w1" /\ ak_url a = "https://a.example".
Proof.
  apply (sequential_verification_binds_url demo_sha Some 10 (fun c H => eq_ind (Some c) (fun o => match o with Some _ => True | None => False end) I None H)
    demo_endpoints demo_verified (set_webhook_status ResourceStatus.ACTIVE 1 demo_webhook) demo_fresh demo_verification);
    [by left|done|apply not_elem_of_nil].
Defined.

(** *** What defeats verification *)

(** [enable] activates an endpoint in any state, whether or not its destination
    was ever verified. *)
Lemma enable_skips_verification sha256 decrypt maxWebhooks s org id w :
  assertOwnedWebhook org id (es_db s) = Ok w ->
  exists s', rtc (endpoint_step sha256 decrypt maxWebhooks) s s' /\ es_acks s' = es_acks s /\
    ep_challenges (es_db s') = ep_challenges (es_db s) /\
    exists w', w' ∈ ep_webhooks (es_db s') /\ wh_id w' = id /\ wh_url w' = wh_url w /\
      wh_status w' = ResourceStatus.ACTIVE.
Proof.
  intros Hw. pose proof (owned_row _ _ _ _ Hw) as (Hin & <- & _). eexists. split_and!.
  - eapply rtc_l; [eapply endpoint_start; by eapply start_enable|].
    eapply rtc_l; [eapply (endpoint_flight _ _ _ _ (es_flights s)); [reflexivity|by eapply step_status]|]. apply rtc_refl.
  - done.
  - done.
  - exists (set_webhook_status ResourceStatus.ACTIVE (wh_revision w + 1) w). split; [|done].
    apply elem_of_update_where. exists w. unfold has_webhook_id. by rewrite bool_decide_true.
Qed.

(** A change of URL between the acknowledgement of a challenge and the write
    that activates the endpoint leaves it active at a destination that never
    acknowledged anything. *)
Lemma racing_update_unverified :
  exists s w, rtc (endpoint_step demo_sha Some 10) demo_endpoints s /\ w ∈ ep_webhooks (es_db s) /\
    wh_status w = ResourceStatus.ACTIVE /\ es_enabled s = [] /\ Forall (fun a => ak_url a <> wh_url w) (es_acks s).
Proof.
  eexists _, _. split.
  - begin_op (start_resend Some 10%nat demo_endpoints "o1" "w1" demo_webhook).
    advance_op (@nil Flight) (fun s id url => step_invalidate demo_sha Some s id url 10).
    advance_op (@nil Flight) (fun s => step_challenge demo_sha Some s "w1" "https://a.example" "c1" "tok" 20).
    begin_op (fun s => start_verify Some 10%nat s "o1" "w1" "tok").
    advance_op (@nil Flight) (fun s w => step_consume demo_sha Some s w "tok" 30).
    begin_op (fun s => start_updateUrl Some 10%nat s "o1" "w1" "https://evil.example").
    advance_op [FActivate demo_webhook] (step_updateUrl demo_sha Some).
    advance_op (@nil Flight) (step_activate demo_sha Some). apply rtc_refl.
  - cbn. split; [by left|]. split; [reflexivity|]. split; [done|]. by repeat constructor.
Qed.

(** The revision that guards [updateEvents] can go back: a slow [disable] writes
    the successor of the revision it read, after two later changes. *)
Lemma revision_goes_back :
  exists s1 s2, rtc (endpoint_step demo_sha Some 10) demo_endpoints s1 /\
    rtc (endpoint_step demo_sha Some 10) s1 s2 /\
    (wh_revision <$> ep_webhooks (es_db s1) = [2]) /\ (wh_revision <$> ep_webhooks (es_db s2) = [1]).
Proof.
  eexists _, _. split; [|split].
  - begin_op (start_disable Some 10%nat demo_endpoints "o1" "w1").
    begin_op (fun s => start_events Some 10%nat s "o1" "w1" ["proof.revoked"] 0).
    advance_op [FStatus demo_webhook ResourceStatus.SUSPENDED] (step_events demo_sha Some).
    begin_op (fun s => start_events Some 10%nat s "o1" "w1" ["proof.verified"] 1).
    advance_op [FStatus demo_webhook ResourceStatus.SUSPENDED] (step_events demo_sha Some). apply rtc_refl.
  - advance_op (@nil Flight) (step_status demo_sha Some). apply rtc_refl.
  - by vm_compute.
Qed.

(** The place that unchained audit records share is taken once. *)
Lemma unchained_slot_taken id now args rows :
  (SYSTEM_CHAIN_KEY, 0) ∈ row_key <$> rows -> createUnchained id now args rows = Err P2002.
Proof.
  intros Hs. unfold createUnchained, insert_audit. rewrite (bool_decide_true (row_key _ ∈ _)) by exact Hs. by rewrite orb_true_r.
Qed.

(** Once it is taken, no endpoint can be created. *)
Lemma audit_slot_blocks_webhooks limit id auditId org secret dto now d :
  (SYSTEM_CHAIN_KEY, 0) ∈ row_key <$> ep_audit d -> exists e, create_write limit id auditId org secret dto now d = Err e.
Proof.
  intros Hs. unfold create_write. destruct (capacity_left _ _ _); [|by eexists]. cbn [negb throw_if mbind result_bind].
  destruct (bool_decide (id ∈ _)); [by eexists|]. cbn [throw_if mbind result_bind].
  rewrite unchained_slot_taken by done. by eexists.
Qed.
