(* ===== verification/WebhookResponse.v ===== *)
(** * Receiver responses

    Model of [src/webhooks/webhook-response-safety.ts]: the response body of a
    receiver, redacted, hashed and truncated before it is stored.  The two regular
    expressions are deterministic at every position and are written as matchers. *)

From S2P Require Import Prelude JsData DecimalText Encoding Canonical Issuance.
From Stdlib Require Import Ascii.

Local Open Scope string_scope.
Local Open Scope list_scope.
#[local] Arguments String.append !_ _ : simpl nomatch.

Definition MAX_RESPONSE_BODY_BYTES : nat := 1024.

(** ** Matching *)

(** The longest prefix of characters in a class, and what follows. *)
Fixpoint span (f : ascii -> bool) (s : string) : string * string :=
  match s with
  | String c r => if f c then let '(w, t) := span f r in (String c w, t) else (EmptyString, s)
  | EmptyString => (EmptyString, EmptyString)
  end.

(** A literal in any case: what it matched and what follows. *)
Fixpoint literal_i (lit s : string) : option (string * string) :=
  match lit, s with
  | EmptyString, _ => Some (EmptyString, s)
  | String l lit, String c s =>
      if Ascii.eqb l (lower_char c) then '(w, t) ← literal_i lit s; Some (String c w, t) else None
  | _, _ => None
  end.

Definition is_quote (c : ascii) : bool := Ascii.eqb c "034" || Ascii.eqb c "'".

(** An optional quotation mark. *)
Definition optional_quote (s : string) : string * string :=
  match s with
  | String c r => if is_quote c then (String c EmptyString, r) else (EmptyString, s)
  | EmptyString => (EmptyString, EmptyString)
  end.

(** [[A-Za-z0-9._~+/=-]] *)
Definition token_char (c : ascii) : bool :=
  is_digit c || ((97 <=? nat_of_ascii (lower_char c))%nat && (nat_of_ascii (lower_char c) <=? 122)%nat
                 && (nat_of_ascii c <? 128)%nat) ||
  existsb (Ascii.eqb c) ["."%char; "_"%char; "~"%char; "+"%char; "/"%char; "="%char; "-"%char].

(** [/Bearer\s+[A-Za-z0-9._~+/=-]+/i] at the start of the text: what follows. *)
Definition match_bearer (s : string) : option string :=
  '(_, s) ← literal_i "bearer" s;
  match span is_space s with
  | (EmptyString, _) => None
  | (_, s) => match span token_char s with (EmptyString, _) => None | (_, s) => Some s end
  end.

(** [api[_-]?key] *)
Definition match_api_key (s : string) : option (string * string) :=
  '(w, s) ← literal_i "api" s;
  let '(sep, s) :=
    match s with
    | String c r => if Ascii.eqb c "_" || Ascii.eqb c "-" then (String c EmptyString, r) else (EmptyString, s)
    | EmptyString => (EmptyString, EmptyString)
    end in
  '(k, s) ← literal_i "key" s; Some (String.append w (String.append sep k), s).

Definition match_keyword (s : string) : option (string * string) :=
  match literal_i "authorization" s with
  | Some r => Some r
  | None =>
      match literal_i "password" s with
      | Some r => Some r
      | None =>
          match literal_i "secret" s with
          | Some r => Some r
          | None => match literal_i "token" s with Some r => Some r | None => match_api_key s end
          end
      end
  end.

(** Neither a quotation mark, white space, a comma nor a closing brace. *)
Definition value_char (c : ascii) : bool :=
  negb (is_quote c || is_space c || Ascii.eqb c "," || Ascii.eqb c "}").

(** The key-value pattern at the start of the text: its first group, and what
    follows the value. *)
Definition match_key_value (s : string) : option (string * string) :=
  let '(q1, s) := optional_quote s in
  '(k, s) ← match_keyword s;
  let '(q2, s) := optional_quote s in
  let '(w1, s) := span is_space s in
  match s with
  | String c s =>
      if Ascii.eqb c ":" || Ascii.eqb c "=" then
        let '(w2, s) := span is_space s in
        let '(q3, s) := optional_quote s in
        let '(_, s) := span value_char s in
        Some (String.append q1 (String.append k (String.append q2 (String.append w1 (String c
               (String.append w2 q3))))), s)
      else None
  | EmptyString => None
  end.

(** [replace(/…/g, …)]: [fuel] is the length of the text. *)
Fixpoint replace_all_with (m : string -> option (string * string)) (fuel : nat) (s : string) : string :=
  match fuel, s with
  | S fuel, String c r =>
      match m s with
      | Some (by_, rest) => String.append by_ (replace_all_with m fuel rest)
      | None => String c (replace_all_with m fuel r)
      end
  | _, _ => s
  end.

Definition redactSensitiveResponse (value : string) : string :=
  let bearer s := rest ← match_bearer s; Some ("Bearer [REDACTED]", rest) in
  let key_value s := '(g, rest) ← match_key_value s; Some (String.append g "[REDACTED]", rest) in
  let value := replace_all_with bearer (String.length value) value in
  replace_all_with key_value (String.length value) value.

(** ** The stored response *)

Record SafeWebhookResponse := {
  sr_truncatedBody : string;
  sr_contentHash : string;
  sr_wasTruncated : bool;
  sr_hadEncodingIssue : bool;
}.

Section response.
Context (sha256 : string -> string).

(** On a text, as [response.text()] returns one. *)
Definition processWebhookResponse (responseText : string) : SafeWebhookResponse :=
  let redacted := redactSensitiveResponse responseText in
  let long := (MAX_RESPONSE_BODY_BYTES <? String.length redacted)%nat in
  {| sr_truncatedBody := if long then String.substring 0 MAX_RESPONSE_BODY_BYTES redacted else redacted;
     sr_contentHash := sha256 redacted; sr_wasTruncated := long; sr_hadEncodingIssue := false |}.

Definition response_json (r : SafeWebhookResponse) : json :=
  JObj [("truncatedBody", JStr (sr_truncatedBody r)); ("contentHash", JStr (sr_contentHash r));
        ("wasTruncated", JBool (sr_wasTruncated r)); ("hadEncodingIssue", JBool (sr_hadEncodingIssue r))].
End response.

(** ** Bounds *)

(** What follows a match is shorter than the text. *)
Definition consumes (m : string -> option (string * string)) : Prop :=
  forall s by_ rest, m s = Some (by_, rest) -> (String.length rest < String.length s)%nat.

(** The length of the text is enough fuel. *)
Lemma replace_all_fuel m s n k :
  consumes m -> (String.length s <= n)%nat -> replace_all_with m (n + k) s = replace_all_with m n s.
Proof.
  intros Hm. revert s. induction n as [|n IH]; intros s Hn.
  - destruct s; cbn in Hn; [by destruct k|lia].
  - destruct s as [|c r]; [done|]. cbn [replace_all_with Nat.add]. cbn [String.length] in Hn.
    destruct (m (String c r)) as [[by_ rest]|] eqn:E; rewrite IH; try done; [|lia].
    apply Hm in E. cbn in E. lia.
Qed.

Lemma replace_all_match m n s by_ rest :
  m s = Some (by_, rest) -> s <> EmptyString ->
  replace_all_with m (S n) s = String.append by_ (replace_all_with m n rest).
Proof. destruct s as [|c s]; [done|]. cbn [replace_all_with]. by intros ->. Qed.

Lemma span_length f s : (String.length (span f s).2 <= String.length s)%nat.
Proof.
  induction s as [|c s IH]; [done|]. cbn. destruct (f c); [|done]. destruct (span f s). cbn in *. lia.
Qed.

Lemma literal_i_length lit s w t :
  literal_i lit s = Some (w, t) -> (String.length t + String.length lit = String.length s)%nat.
Proof.
  revert s w t. induction lit as [|l lit IH]; intros s w t; [cbn; intros [= <- <-]; lia|]. destruct s as [|c s]; [done|].
  cbn [literal_i]. destruct (Ascii.eqb l (lower_char c)); [|done].
  intros ([w1 t1] & H & [= _ <-])%bind_Some. apply IH in H. cbn. lia.
Qed.

Definition bearer_rule (s : string) : option (string * string) :=
  rest ← match_bearer s; Some ("Bearer [REDACTED]", rest).
Definition key_value_rule (s : string) : option (string * string) :=
  '(g, rest) ← match_key_value s; Some (String.append g "[REDACTED]", rest).

Lemma bearer_consumes : consumes bearer_rule.
Proof.
  intros s by_ rest (r & H & [= _ <-])%bind_Some. unfold match_bearer in H.
  apply bind_Some in H as ([w t] & Hl & H). apply literal_i_length in Hl.
  pose proof (span_length is_space t) as H1. destruct (span is_space t) as [[|c w1] t1]; [done|].
  pose proof (span_length token_char t1) as H2. destruct (span token_char t1) as [[|c2 w2] t2]; [done|].
  injection H as <-. cbn in *. lia.
Qed.

Lemma span_word f w t :
  forallb f (String.list_ascii_of_string w) = true -> match t with String c _ => f c = false | EmptyString => True end ->
  span f (String.append w t) = (w, t).
Proof.
  intros Hw Ht. induction w as [|c w IH]; cbn in *.
  - destruct t as [|c t]; [done|]. cbn. by rewrite Ht.
  - apply andb_true_iff in Hw as [-> Hw]. by rewrite (IH Hw).
Qed.

(** A word of token characters. *)
Definition bearer_token (t : string) : Prop :=
  t <> EmptyString /\ forallb token_char (String.list_ascii_of_string t) = true.
Definition after_token (rest : string) : Prop :=
  match rest with String c _ => token_char c = false | EmptyString => True end.

Lemma redact_bearer t rest :
  bearer_token t -> after_token rest ->
  replace_all_with bearer_rule (String.length (String.append "Bearer " (String.append t rest)))
    (String.append "Bearer " (String.append t rest)) =
  String.append "Bearer [REDACTED]" (replace_all_with bearer_rule (String.length rest) rest).
Proof.
  intros [Hne Ht] Hr. set (text := String.append "Bearer " (String.append t rest)).
  assert (bearer_rule text = Some ("Bearer [REDACTED]", rest)) as Hm.
  { destruct t as [|c t]; [done|]. unfold bearer_rule, match_bearer.
    change (literal_i "bearer" text) with
      (Some ("Bearer", String.append " " (String.append (String c t) rest))). cbn [mbind option_bind].
    rewrite (span_word is_space " "); [|done|].
    - by rewrite span_word.
    - cbn in Ht |- *. apply andb_true_iff in Ht as [Hc _]. clear -Hc.
      destruct c as [[] [] [] [] [] [] [] []]; by vm_compute in Hc |- *. }
  assert (String.length text = S (String.length rest + (6 + String.length t))) as ->.
  { unfold text. rewrite !append_length. cbn. lia. }
  rewrite (replace_all_match bearer_rule _ _ _ _ Hm), (replace_all_fuel bearer_rule rest) by auto using bearer_consumes.
  done.
Qed.

(** what is stored of a receiver's response is bounded, it says whether it
    was cut, and a bearer token at its start leaves no trace in it: the stored
    body and digest are the same whatever the token was. *)
Theorem stored_response_safe sha256 t1 t2 rest text :
  bearer_token t1 -> bearer_token t2 -> after_token rest ->
  (String.length (sr_truncatedBody (processWebhookResponse sha256 text)) <= MAX_RESPONSE_BODY_BYTES)%nat /\
  (sr_wasTruncated (processWebhookResponse sha256 text) = false ->
     sr_truncatedBody (processWebhookResponse sha256 text) = redactSensitiveResponse text) /\
  processWebhookResponse sha256 (String.append "Bearer " (String.append t1 rest)) =
  processWebhookResponse sha256 (String.append "Bearer " (String.append t2 rest)).
Proof.
  intros H1 H2 Hr. split_and!.
  - unfold processWebhookResponse. cbn [sr_truncatedBody]. destruct (Nat.ltb_spec MAX_RESPONSE_BODY_BYTES
      (String.length (redactSensitiveResponse text))); [rewrite substring_length; lia|done].
  - unfold processWebhookResponse. cbn [sr_truncatedBody sr_wasTruncated]. by intros ->.
  - assert (redactSensitiveResponse (String.append "Bearer " (String.append t1 rest)) =
      redactSensitiveResponse (String.append "Bearer " (String.append t2 rest))) as Heq.
    { unfold redactSensitiveResponse. fold bearer_rule key_value_rule. by rewrite !redact_bearer. }
    unfold processWebhookResponse. by rewrite Heq.
Qed.

Lemma stored_response_safe_witness :
  sr_truncatedBody (processWebhookResponse (fun s => s) "Bearer abc.def") =
  sr_truncatedBody (processWebhookResponse (fun s => s) "Bearer XYZ").
Proof.
  assert (bearer_token "abc.def" /\ bearer_token "XYZ") as [H1 H2] by (split; split; done).
  exact (f_equal sr_truncatedBody
    (proj2 (proj2 (stored_response_safe (fun s => s) "abc.def" "XYZ" EmptyString EmptyString H1 H2 I)))).
Defined.
