(* ===== verification/WebhookDelivery.v ===== *)
(** * Webhook delivery

    Model of [src/webhooks/webhook-delivery.service.ts], of the circuit breaker
    [src/webhooks/webhook-circuit-breaker.service.ts] and of the dead-letter redrive
    [src/webhooks/webhook-dead-letter.service.ts].  One process runs the jobs of an
    endpoint in the order they were scheduled; every [await] of a job or of a
    request handler is a step of its own, apart from the circuit breaker's read and
    write, which are one step.  A restart forgets the jobs and the handlers and
    schedules the pending rows again.  [ds_sends] records the requests that left and
    [ds_unretried] the rows marked failed whose retry the database did not take.  Rows
    are not deleted during a run.  The clock, the answers of
    receivers, the resolver's answers and new identifiers are arguments of steps. *)

From S2P Require Import Prelude JsData DecimalText Canonical Schema AuditChain WalletAuth DestinationGuard.
From S2P Require Import Predicates WebhookPayloads WebhookResponse WebhookStore WebhookEndpoints.
From Stdlib Require Import Ascii.

Local Open Scope string_scope.
Local Open Scope Z_scope.
Local Open Scope list_scope.

(** ** The circuit breaker *)

Definition set_circuit_state (st : WebhookCircuitState.t) (count : Z) (failed succeeded opened half : option Z)
    (c : Circuit) : Circuit :=
  {| ct_webhookId := ct_webhookId c; ct_state := st; ct_failureCount := count;
     ct_failureThreshold := ct_failureThreshold c; ct_recoveryWindowMs := ct_recoveryWindowMs c;
     ct_lastFailureAt := failed; ct_lastSuccessAt := succeeded; ct_openedAt := opened; ct_halfOpenAt := half |}.

Definition getOrCreateCircuitState (id : string) (cs : list Circuit) : Circuit * list Circuit :=
  match find_circuit id cs with
  | Some c => (c, cs)
  | None => (new_circuit id DEFAULT_FAILURE_THRESHOLD DEFAULT_RECOVERY_WINDOW_MS, initializeCircuit id None None cs)
  end.

Definition shouldTransitionToHalfOpen (now : Z) (c : Circuit) : bool :=
  match ct_openedAt c with None => false | Some t => now - t >=? ct_recoveryWindowMs c end.

Definition transitionToHalfOpen (id : string) (now : Z) (cs : list Circuit) : list Circuit :=
  update_where (fun c => has_circuit id c && bool_decide (ct_state c = WebhookCircuitState.OPEN))
    (fun c => set_circuit_state WebhookCircuitState.HALF_OPEN (ct_failureCount c) (ct_lastFailureAt c)
       (ct_lastSuccessAt c) (ct_openedAt c) (Some now) c) cs.

Definition canAttemptDelivery (id : string) (now : Z) (cs : list Circuit) : bool * list Circuit :=
  let '(c, cs) := getOrCreateCircuitState id cs in
  match ct_state c with
  | WebhookCircuitState.CLOSED => (true, cs)
  | WebhookCircuitState.OPEN =>
      if shouldTransitionToHalfOpen now c then (true, transitionToHalfOpen id now cs) else (false, cs)
  | WebhookCircuitState.HALF_OPEN => (true, cs)
  end.

Definition recordSuccess (id : string) (now : Z) (cs : list Circuit) : list Circuit :=
  let '(_, cs) := getOrCreateCircuitState id cs in
  update_where (has_circuit id) (fun c =>
    set_circuit_state WebhookCircuitState.CLOSED 0 (ct_lastFailureAt c) (Some now) (ct_openedAt c) None c) cs.

Definition recordFailure (id : string) (isPermanentFailure : bool) (now : Z) (cs : list Circuit) : list Circuit :=
  if isPermanentFailure then cs
  else
    let '(circuit, cs) := getOrCreateCircuitState id cs in
    let newFailureCount := ct_failureCount circuit + 1 in
    let shouldOpen := newFailureCount >=? ct_failureThreshold circuit in
    update_where (has_circuit id) (fun c =>
      match ct_state circuit with
      | WebhookCircuitState.HALF_OPEN =>
          set_circuit_state WebhookCircuitState.OPEN newFailureCount (Some now) (ct_lastSuccessAt c) (Some now) None c
      | WebhookCircuitState.CLOSED =>
          if shouldOpen then
            set_circuit_state WebhookCircuitState.OPEN newFailureCount (Some now) (ct_lastSuccessAt c) (Some now)
              (ct_halfOpenAt c) c
          else set_circuit_state (ct_state c) newFailureCount (Some now) (ct_lastSuccessAt c) (ct_openedAt c)
                 (ct_halfOpenAt c) c
      | WebhookCircuitState.OPEN =>
          set_circuit_state (ct_state c) newFailureCount (Some now) (ct_lastSuccessAt c) (ct_openedAt c)
            (ct_halfOpenAt c) c
      end) cs.

Definition updateConfig (id : string) (failureThreshold recoveryWindowMs : option Z) (cs : list Circuit) : list Circuit :=
  let '(circuit, cs) := getOrCreateCircuitState id cs in
  update_where (has_circuit id) (fun c =>
    let close := match failureThreshold with
      | Some t => bool_decide (ct_state circuit = WebhookCircuitState.OPEN) && (ct_failureCount circuit <? t)
      | None => false
      end in
    configure (default (ct_failureThreshold c) failureThreshold) (default (ct_recoveryWindowMs c) recoveryWindowMs)
      (if close then set_circuit_state WebhookCircuitState.CLOSED (ct_failureCount c) (ct_lastFailureAt c)
                       (ct_lastSuccessAt c) None (ct_halfOpenAt c) c
       else c)) cs.

(** ** Rows *)

(** [undefined] in an update leaves a column as it is. *)
Definition merge_attempt (new old : Attempt) : Attempt :=
  let pick {A} (x y : option A) := match x with Some _ => x | None => y end in
  {| at_statusCode := pick (at_statusCode new) (at_statusCode old);
     at_responseBody := pick (at_responseBody new) (at_responseBody old);
     at_durationMs := pick (at_durationMs new) (at_durationMs old);
     at_failureReason := pick (at_failureReason new) (at_failureReason old);
     at_deliveredAt := pick (at_deliveredAt new) (at_deliveredAt old) |}.

Definition set_result (st : WebhookDeliveryStatus.t) (a : Attempt) (dead : option (Z * DeadLetterReason.t))
    (d : Delivery) : Delivery :=
  {| dl_id := dl_id d; dl_event := dl_event d; dl_predicateSnapshot := dl_predicateSnapshot d;
     dl_attempt := dl_attempt d; dl_status := st; dl_result := merge_attempt a (dl_result d);
     dl_replayOf := dl_replayOf d; dl_replayedBy := dl_replayedBy d; dl_replayKey := dl_replayKey d;
     dl_nextRetryAt := dl_nextRetryAt d;
     dl_deadLettered := match dead with Some _ => dead | None => dl_deadLettered d end;
     dl_redriven := dl_redriven d; dl_redriveReason := dl_redriveReason d; dl_createdAt := dl_createdAt d |}.

Definition set_redriven (now : Z) (operatorId : string) (d : Delivery) : Delivery :=
  {| dl_id := dl_id d; dl_event := dl_event d; dl_predicateSnapshot := dl_predicateSnapshot d;
     dl_attempt := dl_attempt d; dl_status := dl_status d; dl_result := dl_result d;
     dl_replayOf := dl_replayOf d; dl_replayedBy := dl_replayedBy d; dl_replayKey := dl_replayKey d;
     dl_nextRetryAt := dl_nextRetryAt d; dl_deadLettered := dl_deadLettered d;
     dl_redriven := Some (now, operatorId); dl_redriveReason := dl_redriveReason d; dl_createdAt := dl_createdAt d |}.

(** A pending row for an event. *)
Definition pending_row (id : string) (ev : DeliveryEvent) (snapshot : option PredicateExpression) (attempt : Z)
    (replayOf replayedBy replayKey : option string) (nextRetryAt : option Z) (redriveReason : option string)
    (now : Z) : Delivery :=
  {| dl_id := id; dl_event := ev; dl_predicateSnapshot := snapshot; dl_attempt := attempt;
     dl_status := WebhookDeliveryStatus.PENDING; dl_result := no_attempt; dl_replayOf := replayOf;
     dl_replayedBy := replayedBy; dl_replayKey := replayKey; dl_nextRetryAt := nextRetryAt;
     dl_deadLettered := None; dl_redriven := None; dl_redriveReason := redriveReason; dl_createdAt := now |}.

Record DeliveryDb := {
  dd_webhooks : list Webhook;
  dd_deliveries : list Delivery;
  dd_circuits : list Circuit;
  dd_archived : list string;
  dd_audit : AuditDb;
}.

Definition set_deliveries (ds : list Delivery) (b : DeliveryDb) : DeliveryDb :=
  {| dd_webhooks := dd_webhooks b; dd_deliveries := ds; dd_circuits := dd_circuits b;
     dd_archived := dd_archived b; dd_audit := dd_audit b |}.
Definition set_delivery_circuits (cs : list Circuit) (b : DeliveryDb) : DeliveryDb :=
  {| dd_webhooks := dd_webhooks b; dd_deliveries := dd_deliveries b; dd_circuits := cs;
     dd_archived := dd_archived b; dd_audit := dd_audit b |}.
Definition set_delivery_audit (a : AuditDb) (b : DeliveryDb) : DeliveryDb :=
  {| dd_webhooks := dd_webhooks b; dd_deliveries := dd_deliveries b; dd_circuits := dd_circuits b;
     dd_archived := dd_archived b; dd_audit := a |}.
Definition edit_delivery (id : string) (f : Delivery -> Delivery) (b : DeliveryDb) : DeliveryDb :=
  set_deliveries (update_where (has_delivery_id id) f (dd_deliveries b)) b.

(** ** Fan-out *)

(** The endpoints an event of these organisations may go to; an event of a user
    goes to the organisations of the user that are not archived. *)
Definition active_hooks (orgIds : list string) (b : DeliveryDb) : list Webhook :=
  List.filter (fun w => bool_decide (wh_organizationId w ∈ orgIds) && bool_decide (wh_status w = ResourceStatus.ACTIVE))
    (dd_webhooks b).

Definition user_organizations (orgIds : list string) (b : DeliveryDb) : list string :=
  List.filter (fun o => negb (bool_decide (o ∈ dd_archived b))) orgIds.

(** What the loop of [enqueueForOrganizations] does with one endpoint: the event
    to deliver, or nothing. *)
Definition fan_out (hook : Webhook) (e : WebhookEventSource) (eventId : string) (occurredAt : Z) : option DeliveryEvent :=
  if negb (bool_decide (event_name e ∈ wh_events hook)) then None
  else if match wh_predicate hook with
          | None => false
          | Some p => negb (er_match (evaluate p (deriveContext (event_name e) (wh_payloadVersion hook))))
          end then None
  else match serializeWebhookEvent e eventId occurredAt (wh_payloadVersion hook) with
       | Err _ => None
       | Ok sz => Some {| de_webhookId := wh_id hook; de_eventType := event_name e; de_eventId := eventId;
                          de_payload := sz_envelope sz; de_schemaVersion := sz_schemaVersion sz;
                          de_payloadBody := sz_body sz |}
       end.

(** ** One attempt *)

Record Request := {
  rq_url : string;
  rq_timestamp : Z;
  rq_eventId : string;
  rq_eventType : string;
  rq_schemaVersion : string;
  rq_body : string;
  rq_signature : string;
}.

(** How an early exit of [runDelivery] ends the row. *)
Inductive Ending :=
| EArchived
| EDead (reason : DeadLetterReason.t) (failureReason : string).

Inductive ReadOutcome :=
| RSkip
| RError
| REnd (e : Ending)
| RSend (d : Delivery) (w : Webhook) (rq : Request).

(** What a receiver, or the platform, answers. *)
Inductive Answer :=
| Responded (status : Z) (text : string)
| TextFailed (status : Z) (timeout : bool)      (* the body could not be read *)
| NoAnswer (timeout : bool).

(** [selectActiveCertificate] *)
Inductive CertLookup := CertFound | CertNone | CertError.

Inductive SendResult :=
| SBlocked (reason : string) (a : Attempt)
| SDone (success : bool) (a : Attempt).

Definition error_reason (timeout : bool) : string :=
  if timeout then "delivery request timed out" else "delivery request failed".

Definition backoffMs (attempt : Z) : Z := if attempt <=? 1 then 0 else 1000 * 2 ^ (attempt - 2).

Section delivery.
Context (sha256 : string -> string) (hmac : string -> string -> string) (decrypt : string -> option string).
Context (parse_url : string -> option Url) (maxAttempts : Z).

Definition make_request (secret : string) (now : Z) (d : Delivery) (w : Webhook) : Request :=
  let ev := dl_event d in
  let timestamp := now / 1000 in
  {| rq_url := wh_url w; rq_timestamp := timestamp; rq_eventId := de_eventId ev; rq_eventType := de_eventType ev;
     rq_schemaVersion := de_schemaVersion ev; rq_body := de_payloadBody ev;
     rq_signature := sign hmac secret timestamp (de_eventId ev) None (de_payloadBody ev) |}.

(** [runDelivery] up to the request: the row and its endpoint are read, and the
    checks are made in this order. *)
Definition run_read (id : string) (now : Z) (b : DeliveryDb) : ReadOutcome :=
  match find_delivery id (dd_deliveries b) with
  | None => RSkip
  | Some d =>
      match find_webhook (dl_webhookId d) (dd_webhooks b) with
      | None => RError                           (* not reached: a foreign key *)
      | Some w =>
          if bool_decide (wh_organizationId w ∈ dd_archived b) then REnd EArchived
          else if negb (bool_decide (dl_status d = WebhookDeliveryStatus.PENDING)) then RSkip
          else if negb (bool_decide (wh_status w = ResourceStatus.ACTIVE)) then
            REnd (EDead DeadLetterReason.ENDPOINT_DISABLED "webhook endpoint disabled before delivery")
          else if dl_attempt d >? maxAttempts then
            REnd (EDead DeadLetterReason.MAX_ATTEMPTS_EXHAUSTED "retry threshold reached before dispatch")
          else match decrypt (wh_secretEncrypted w) with
               | None => REnd (EDead DeadLetterReason.SIGNING_SECRET_UNAVAILABLE "signing secret decryption failure")
               | Some secret => RSend d w (make_request secret now d w)
               end
      end
  end.

Definition end_row (e : Ending) (now : Z) (d : Delivery) : Delivery :=
  let because r := {| at_statusCode := None; at_responseBody := None; at_durationMs := None;
                      at_failureReason := Some r; at_deliveredAt := None |} in
  match e with
  | EArchived => set_result WebhookDeliveryStatus.FAILED (because "organization archived before delivery") None d
  | EDead reason r => set_result WebhookDeliveryStatus.FAILED (because r) (Some (now, reason)) d
  end.

(** The request itself: whether it left, and what came of it.  [cert] is the
    lookup of a client certificate, [guard] the destination check. *)
Definition send (w : Webhook) (cert : CertLookup) (guard : result DestinationError unit) (answer : Answer) (durationMs now : Z)
  : bool * SendResult :=
  let failed code r := SDone false {| at_statusCode := code; at_responseBody := None; at_durationMs := Some durationMs;
                                      at_failureReason := Some r; at_deliveredAt := Some now |} in
  match (if wh_mtlsRequired w then cert else CertFound), guard with
  | CertNone, _ => (false, failed None "no active client certificate available for mTLS delivery")
  | CertError, _ => (false, failed None (error_reason false))
  | CertFound, Err (Blocked reason) =>
      (false, SBlocked reason {| at_statusCode := None; at_responseBody := None; at_durationMs := Some durationMs;
                                 at_failureReason := Some reason; at_deliveredAt := Some now |})
  | CertFound, Err (Unresolved _) => (false, failed None (error_reason false))
  | CertFound, Ok _ =>
      (true, match answer with
        | NoAnswer timeout => failed None (error_reason timeout)
        | TextFailed status timeout => failed (Some status) (error_reason timeout)
        | Responded status text =>
            let ok := (200 <=? status) && (status <=? 299) in
            SDone ok {| at_statusCode := Some status;
                        at_responseBody := Some (response_json (processWebhookResponse sha256 text));
                        at_durationMs := Some durationMs;
                        at_failureReason := if ok then None else Some (String.append "HTTP " (num_text status));
                        at_deliveredAt := Some now |}
        end)
  end.

(** The last attempt stores the answer as text. *)
Definition stringify_body (a : Attempt) : Attempt :=
  {| at_statusCode := at_statusCode a; at_responseBody := (fun r => JStr (json_text r)) <$> at_responseBody a;
     at_durationMs := at_durationMs a; at_failureReason := at_failureReason a; at_deliveredAt := at_deliveredAt a |}.

(** ** Jobs *)

Inductive Phase :=
| Queued                                         (* behind others, or its timer runs *)
| Allowed                                        (* the circuit lets it through *)
| Closing (e : Ending)                           (* an early exit to be written *)
| Prepared (d : Delivery) (w : Webhook) (rq : Request)
| Answered (d : Delivery) (r : SendResult)
| Failing (d : Delivery)                         (* marked failed, the retry row is next *)
| Recording (success : bool) (retry : option (string * Z)).

Record Job := { jb_delivery : string; jb_webhook : string; jb_delay : Z; jb_phase : Phase }.

Definition schedule (deliveryId webhookId : string) (delayMs : Z) : Job :=
  {| jb_delivery := deliveryId; jb_webhook := webhookId; jb_delay := delayMs; jb_phase := Queued |}.

Definition in_phase (p : Phase) (j : Job) : Job :=
  {| jb_delivery := jb_delivery j; jb_webhook := jb_webhook j; jb_delay := jb_delay j; jb_phase := p |}.

Record Send := { sd_delivery : string; sd_attempt : Z; sd_request : Request }.

(** The row a failed attempt is retried with. *)
Definition retry_row (id : string) (now : Z) (d : Delivery) : Delivery :=
  let nextAttempt := dl_attempt d + 1 in
  pending_row id (dl_event d) None nextAttempt (dl_replayOf d) None None (Some (now + backoffMs nextAttempt)) None now.

(** One step of a running job: the new tables, what becomes of the job, the
    requests that left, and the jobs it schedules. *)
Inductive job_step (b : DeliveryDb) (j : Job) : DeliveryDb -> option Phase -> list Send -> list Job -> Prop :=
| job_allowed now cs :
    jb_phase j = Queued -> canAttemptDelivery (jb_webhook j) now (dd_circuits b) = (true, cs) ->
    job_step b j (set_delivery_circuits cs b) (Some Allowed) [] []
| job_read now d w rq :
    jb_phase j = Allowed -> run_read (jb_delivery j) now b = RSend d w rq ->
    job_step b j b (Some (Prepared d w rq)) [] []
| job_close now e :
    jb_phase j = Allowed -> run_read (jb_delivery j) now b = REnd e -> job_step b j b (Some (Closing e)) [] []
| job_skip now :
    jb_phase j = Allowed -> run_read (jb_delivery j) now b = RSkip -> job_step b j b None [] []
| job_closed e now :
    jb_phase j = Closing e -> job_step b j (edit_delivery (jb_delivery j) (end_row e now) b) None [] []
| job_send d w rq cert resolve answer durationMs now left result :
    jb_phase j = Prepared d w rq ->
    send w cert (assertSafeWebhookDestination parse_url resolve (wh_url w)) answer durationMs now = (left, result) ->
    job_step b j b (Some (Answered d result))
      (if left : bool then [{| sd_delivery := jb_delivery j; sd_attempt := dl_attempt d; sd_request := rq |}] else []) []
| job_succeeded d a :
    jb_phase j = Answered d (SDone true a) ->
    job_step b j (edit_delivery (jb_delivery j) (set_result WebhookDeliveryStatus.SUCCESS a None) b)
      (Some (Recording true None)) [] []
| job_blocked d reason a now :
    jb_phase j = Answered d (SBlocked reason a) ->
    job_step b j (edit_delivery (jb_delivery j)
        (set_result WebhookDeliveryStatus.FAILED a (Some (now, DeadLetterReason.DESTINATION_BLOCKED))) b) None [] []
| job_exhausted d a now :
    jb_phase j = Answered d (SDone false a) -> maxAttempts <= dl_attempt d ->
    job_step b j (edit_delivery (jb_delivery j)
        (set_result WebhookDeliveryStatus.FAILED (stringify_body a) (Some (now, DeadLetterReason.MAX_ATTEMPTS_EXHAUSTED))) b)
      (Some (Recording false None)) [] []
| job_failed d a :
    jb_phase j = Answered d (SDone false a) -> dl_attempt d < maxAttempts ->
    job_step b j (edit_delivery (jb_delivery j) (set_result WebhookDeliveryStatus.FAILED a None) b)
      (Some (Failing d)) [] []
| job_retry d id now ds :
    jb_phase j = Failing d -> create_delivery (retry_row id now d) (dd_deliveries b) = Ok ds ->
    job_step b j (set_deliveries ds b) (Some (Recording false (Some (id, backoffMs (dl_attempt d + 1))))) [] []
| job_recorded success retry now :
    jb_phase j = Recording success retry ->
    job_step b j
      (set_delivery_circuits
        (if success : bool then recordSuccess (jb_webhook j) now (dd_circuits b)
         else recordFailure (jb_webhook j) false now (dd_circuits b)) b) None []
      (match retry with Some (id, delay) => [schedule id (jb_webhook j) delay] | None => [] end).

(** The circuit is open, or a query failed: the job ends and its row stays as it
    is. *)
Inductive job_drop (b : DeliveryDb) (j : Job) : DeliveryDb -> Prop :=
| drop_open now cs :
    jb_phase j = Queued -> canAttemptDelivery (jb_webhook j) now (dd_circuits b) = (false, cs) ->
    job_drop b j (set_delivery_circuits cs b)
| drop_error : job_drop b j b.

(** ** Replay and redrive *)

Inductive ReplayError :=
| DeliveryNotFound               (* 404 *)
| DeliveryForbidden              (* 403 *)
| ReplayDisabled                 (* 400 *)
| ReplayDb (e : DbError).

(** [WebhooksService.replayDelivery], before it hands over to [replay]. *)
Definition replayDelivery_read (organizationId id : string) (b : DeliveryDb) : result ReplayError Delivery :=
  match find_delivery id (dd_deliveries b) with
  | None => Err DeliveryNotFound
  | Some d =>
      match find_webhook (dl_webhookId d) (dd_webhooks b) with
      | None => Err DeliveryNotFound             (* not reached: a foreign key *)
      | Some w => _ ← throw_if (negb (bool_decide (wh_organizationId w = organizationId))) DeliveryForbidden; Ok d
      end
  end.

Definition replay_audit (d : Delivery) (replayedBy : string) : AuditArgs :=
  {| aa_organizationId := None; aa_actorType := "user"; aa_actorId := Some replayedBy;
     aa_action := "webhook.delivery.replayed"; aa_resourceType := "webhookDelivery"; aa_resourceId := Some (dl_id d);
     aa_metadata := Some (JObj [("webhookId", JStr (dl_webhookId d)); ("eventType", JStr (de_eventType (dl_event d)));
       ("eventId", JStr (dl_eventId d)); ("originalAttempt", JNum (dl_attempt d))]);
     aa_createdAt := None |}.

(** [replay], up to its first query for an earlier replay. *)
Definition replay_read (id : string) (b : DeliveryDb) : result ReplayError Delivery :=
  match find_delivery id (dd_deliveries b) with
  | None => Err DeliveryNotFound
  | Some d =>
      match find_webhook (dl_webhookId d) (dd_webhooks b) with
      | None => Err DeliveryNotFound             (* not reached: a foreign key *)
      | Some w => _ ← throw_if (negb (bool_decide (wh_status w = ResourceStatus.ACTIVE))) ReplayDisabled; Ok d
      end
  end.

Definition replayKey (originalId replayedBy : string) : string := String.append originalId (String ":"%char replayedBy).
Definition redriveKey (deadLetterId : string) : string := String.append "redrive:" deadLetterId.

Definition replay_row (id : string) (original : Delivery) (replayedBy : string) (now : Z) : Delivery :=
  pending_row id (dl_event original) None 1 (Some (dl_id original)) (Some replayedBy)
    (Some (replayKey (dl_id original) replayedBy)) None None now.

Inductive RedriveOutcome := redriven | already_redriven | not_found | not_dead_lettered | webhook_disabled | webhook_deleted.
#[export] Instance RedriveOutcome_eq_dec : EqDecision RedriveOutcome.
Proof. solve_decision. Defined.

Definition webhookBlock (st : ResourceStatus.t) : option RedriveOutcome :=
  match st with
  | ResourceStatus.DELETED => Some webhook_deleted
  | ResourceStatus.ACTIVE => None
  | _ => Some webhook_disabled
  end.

(** [redrive] up to its transaction. *)
Definition redrive_read (organizationId id : string) (b : DeliveryDb) : result RedriveOutcome Delivery :=
  match find_delivery id (dd_deliveries b) with
  | None => Err not_found
  | Some d =>
      match find_webhook (dl_webhookId d) (dd_webhooks b) with
      | None => Err not_found
      | Some w =>
          _ ← throw_if (negb (bool_decide (wh_organizationId w = organizationId))) not_found;
          _ ← throw_if (bool_decide (dl_deadLettered d = None)) not_dead_lettered;
          _ ← throw_if (negb (bool_decide (dl_redriven d = None))) already_redriven;
          match webhookBlock (wh_status w) with Some o => Err o | None => Ok d end
      end
  end.

Definition redrive_row (id : string) (deadLetter : Delivery) (operatorId reason : string) (now : Z) : Delivery :=
  pending_row id (dl_event deadLetter) None 1 (Some (dl_id deadLetter)) (Some operatorId)
    (Some (redriveKey (dl_id deadLetter))) None (Some reason) now.

Definition reason_text (r : DeadLetterReason.t) : string :=
  match r with
  | DeadLetterReason.MAX_ATTEMPTS_EXHAUSTED => "max_attempts_exhausted"
  | DeadLetterReason.DESTINATION_BLOCKED => "destination_blocked"
  | DeadLetterReason.SIGNING_SECRET_UNAVAILABLE => "signing_secret_unavailable"
  | DeadLetterReason.ENDPOINT_DISABLED => "endpoint_disabled"
  end.

Definition redrive_audit (organizationId operatorId reason id : string) (deadLetter : Delivery) : AuditArgs :=
  {| aa_organizationId := None; aa_actorType := "user"; aa_actorId := Some operatorId;
     aa_action := "webhook.delivery.redriven"; aa_resourceType := "webhookDelivery"; aa_resourceId := Some (dl_id deadLetter);
     aa_metadata := Some (JObj [("organizationId", JStr organizationId); ("webhookId", JStr (dl_webhookId deadLetter));
       ("eventId", JStr (dl_eventId deadLetter)); ("eventType", JStr (de_eventType (dl_event deadLetter)));
       ("deadLetterReason", match dl_deadLettered deadLetter with Some (_, r) => JStr (reason_text r) | None => JNull end);
       ("redriveDeliveryId", JStr id); ("reason", JStr reason)]);
     aa_createdAt := None |}.

Definition redrivable (deadLetter : Delivery) (d : Delivery) : bool :=
  has_delivery_id (dl_id deadLetter) d && negb (bool_decide (dl_deadLettered d = None)) &&
  bool_decide (dl_redriven d = None).

(** The transaction; an error rolls all of it back. *)
Definition redrive_write (organizationId : string) (deadLetter : Delivery) (operatorId reason id auditId : string) (now : Z)
    (b : DeliveryDb) : result RedriveOutcome DeliveryDb :=
  _ ← throw_if (negb (count_where (redrivable deadLetter) (dd_deliveries b) =? 1)%nat) already_redriven;
  let ds := update_where (redrivable deadLetter) (set_redriven now operatorId) (dd_deliveries b) in
  match match find_webhook (dl_webhookId deadLetter) (dd_webhooks b) with
        | Some w => webhookBlock (wh_status w)
        | None => Some webhook_deleted
        end with
  | Some late => Err late
  | None =>
      match create_delivery (redrive_row id deadLetter operatorId reason now) ds with
      | Err _ => Err already_redriven
      | Ok ds =>
          match createUnchained auditId now (redrive_audit organizationId operatorId reason id deadLetter)
                  (auditRows (dd_audit b)) with
          | Err _ => Err already_redriven
          | Ok rows => Ok {| dd_webhooks := dd_webhooks b; dd_deliveries := ds; dd_circuits := dd_circuits b;
                             dd_archived := dd_archived b;
                             dd_audit := {| auditRows := rows; cursors := cursors (dd_audit b) |} |}
          end
      end
  end.

(** ** Request handlers *)

Inductive Handler :=
| HFanOut (hooks : list Webhook) (e : WebhookEventSource) (eventId : string) (occurredAt : Z)
| HCreated (deliveryId : string) (hook : Webhook) (rest : list Webhook) (e : WebhookEventSource) (eventId : string) (occurredAt : Z)
| HReplayAudit (d : Delivery) (replayedBy : string)
| HReplayStart (originalId replayedBy : string)
| HReplay (original : Delivery) (replayedBy : string)
| HReplayNew (original : Delivery) (replayedBy : string)
| HRedrive (organizationId : string) (deadLetter : Delivery) (operatorId reason : string)
| HDispatch (deliveryId webhookId : string).

Inductive handler_step (b : DeliveryDb) : Handler -> DeliveryDb -> option Handler -> list Job -> Prop :=
| fan_done e eventId at_ : handler_step b (HFanOut [] e eventId at_) b None []
| fan_skip hook rest e eventId at_ :
    fan_out hook e eventId at_ = None ->
    handler_step b (HFanOut (hook :: rest) e eventId at_) b (Some (HFanOut rest e eventId at_)) []
| fan_create hook rest e eventId at_ ev id now ds :
    fan_out hook e eventId at_ = Some ev ->
    create_delivery (pending_row id ev (wh_predicate hook) 1 None None None None None now) (dd_deliveries b) = Ok ds ->
    handler_step b (HFanOut (hook :: rest) e eventId at_) (set_deliveries ds b)
      (Some (HCreated id hook rest e eventId at_)) []
| fan_schedule id hook rest e eventId at_ :
    handler_step b (HCreated id hook rest e eventId at_)
      (set_delivery_circuits (initializeCircuit (wh_id hook) None None (dd_circuits b)) b)
      (Some (HFanOut rest e eventId at_)) [schedule id (wh_id hook) 0]
| replay_audited d by_ id now a :              (* outside a transaction: through the chain writer *)
    appendAuditLog sha256 id now (replay_audit d by_) (dd_audit b) = Ok a ->
    handler_step b (HReplayAudit d by_) (set_delivery_audit a b) (Some (HReplayStart (dl_id d) by_)) []
| replay_start id by_ d :
    replay_read id b = Ok d -> handler_step b (HReplayStart id by_) b (Some (HReplay d by_)) []
| replay_known original by_ d :
    find_where (has_replay_key (replayKey (dl_id original) by_)) (dd_deliveries b) = Some d ->
    handler_step b (HReplay original by_) b None []
| replay_new original by_ :
    find_where (has_replay_key (replayKey (dl_id original) by_)) (dd_deliveries b) = None ->
    handler_step b (HReplay original by_) b (Some (HReplayNew original by_)) []
| replay_create original by_ id now ds :
    create_delivery (replay_row id original by_ now) (dd_deliveries b) = Ok ds ->
    handler_step b (HReplayNew original by_) (set_deliveries ds b) (Some (HDispatch id (dl_webhookId original))) []
| redrive_commit org deadLetter op reason id auditId now b' :
    redrive_write org deadLetter op reason id auditId now b = Ok b' ->
    handler_step b (HRedrive org deadLetter op reason) b' (Some (HDispatch id (dl_webhookId deadLetter))) []
| redrive_refused org deadLetter op reason id auditId now o :
    redrive_write org deadLetter op reason id auditId now b = Err o ->
    handler_step b (HRedrive org deadLetter op reason) b None []
| dispatch id webhookId : handler_step b (HDispatch id webhookId) b None [schedule id webhookId 0].

(** ** The system *)

Record DeliverySys := {
  ds_db : DeliveryDb;
  ds_jobs : list Job;                            (* in the order they were scheduled *)
  ds_handlers : list Handler;
  ds_sends : list Send;
  ds_unretried : list string;
}.

Definition created_asc (d d' : Delivery) : bool := dl_createdAt d <=? dl_createdAt d'.

(** [onModuleInit] *)
Definition recover (now : Z) (b : DeliveryDb) : list Job :=
  (fun d => schedule (dl_id d) (dl_webhookId d)
     match dl_nextRetryAt d with Some t => Z.max 0 (t - now) | None => 0 end) <$>
  js_sort created_asc (List.filter (fun d => bool_decide (dl_status d = WebhookDeliveryStatus.PENDING)) (dd_deliveries b)).

(** The service before its first event. *)
Definition fresh_service (b : DeliveryDb) : DeliverySys :=
  {| ds_db := set_deliveries [] b; ds_jobs := []; ds_handlers := []; ds_sends := []; ds_unretried := [] |}.

(** A process that starts on a database, and the process after a change of the
    database. *)
Definition started (now : Z) (b : DeliveryDb) : DeliverySys :=
  {| ds_db := b; ds_jobs := recover now b; ds_handlers := []; ds_sends := []; ds_unretried := [] |}.
Definition on_db (b : DeliveryDb) (s : DeliverySys) : DeliverySys :=
  {| ds_db := b; ds_jobs := ds_jobs s; ds_handlers := ds_handlers s; ds_sends := ds_sends s; ds_unretried := ds_unretried s |}.

(** Every identifier of an event the service still knows. *)
Definition handler_events (h : Handler) : list string :=
  match h with HFanOut _ _ eventId _ | HCreated _ _ _ _ eventId _ => [eventId] | _ => [] end.
Definition event_ids (s : DeliverySys) : list string :=
  ((fun d => dl_eventId d) <$> dd_deliveries (ds_db s)) ++ flat_map handler_events (ds_handlers s).

(** What the rest of the service may do to the tables: endpoints come and change
    but keep their primary key, organisations are archived, circuits are
    configured or deleted, audit rows come.  Delivery rows stay: the deletion of an
    organization and the retention sweep, which remove them, are not steps. *)
Definition outside_change (b b' : DeliveryDb) : Prop :=
  NoDup (wh_id <$> dd_webhooks b') /\ dd_deliveries b' = dd_deliveries b.

(** The row a job has marked failed, with the retry still to be inserted. *)
Definition failing_job (j : Job) : list string := match jb_phase j with Failing _ => [jb_delivery j] | _ => [] end.
(** The rows only a handler knows to be due. *)
Definition handler_tokens (h : Handler) : list string :=
  match h with HCreated id _ _ _ _ _ | HDispatch id _ => [id] | _ => [] end.

(** Steps of the running process. *)
Inductive work_step (s : DeliverySys) : DeliverySys -> Prop :=
| work_job l1 j l2 b phase sends jobs :
    ds_jobs s = l1 ++ j :: l2 -> Forall (fun i => jb_webhook i <> jb_webhook j) l1 ->
    job_step (ds_db s) j b phase sends jobs ->
    work_step s {| ds_db := b;
      ds_jobs := l1 ++ (match phase with Some p => [in_phase p j] | None => [] end) ++ l2 ++ jobs;
      ds_handlers := ds_handlers s; ds_sends := ds_sends s ++ sends; ds_unretried := ds_unretried s |}
| work_drop l1 j l2 b :
    ds_jobs s = l1 ++ j :: l2 -> Forall (fun i => jb_webhook i <> jb_webhook j) l1 -> job_drop (ds_db s) j b ->
    work_step s {| ds_db := b; ds_jobs := l1 ++ l2; ds_handlers := ds_handlers s; ds_sends := ds_sends s;
                   ds_unretried := ds_unretried s ++ failing_job j |}
| work_handler l1 h l2 b next jobs :
    ds_handlers s = l1 ++ h :: l2 -> handler_step (ds_db s) h b next jobs ->
    work_step s {| ds_db := b; ds_jobs := ds_jobs s ++ jobs;
      ds_handlers := l1 ++ (match next with Some h' => [h'] | None => [] end) ++ l2;
      ds_sends := ds_sends s; ds_unretried := ds_unretried s |}
| work_handler_error l1 h l2 :
    ds_handlers s = l1 ++ h :: l2 ->             (* the request is refused, or a query failed *)
    work_step s {| ds_db := ds_db s; ds_jobs := ds_jobs s; ds_handlers := l1 ++ l2; ds_sends := ds_sends s;
                   ds_unretried := ds_unretried s |}
| work_event orgIds e eventId now :
    eventId ∉ event_ids s ->
    work_step s {| ds_db := ds_db s; ds_jobs := ds_jobs s;
      ds_handlers := ds_handlers s ++ [HFanOut (active_hooks orgIds (ds_db s)) e eventId now];
      ds_sends := ds_sends s; ds_unretried := ds_unretried s |}
| work_replay org id by_ d :
    replayDelivery_read org id (ds_db s) = Ok d ->
    work_step s {| ds_db := ds_db s; ds_jobs := ds_jobs s; ds_handlers := ds_handlers s ++ [HReplayAudit d by_];
                   ds_sends := ds_sends s; ds_unretried := ds_unretried s |}
| work_redrive org id op reason d :
    redrive_read org id (ds_db s) = Ok d ->
    work_step s {| ds_db := ds_db s; ds_jobs := ds_jobs s; ds_handlers := ds_handlers s ++ [HRedrive org d op reason];
                   ds_sends := ds_sends s; ds_unretried := ds_unretried s |}
| work_outside b :
    outside_change (ds_db s) b ->
    work_step s {| ds_db := b; ds_jobs := ds_jobs s; ds_handlers := ds_handlers s; ds_sends := ds_sends s;
                   ds_unretried := ds_unretried s |}.

Definition restart (now : Z) (s : DeliverySys) : DeliverySys :=
  {| ds_db := ds_db s; ds_jobs := recover now (ds_db s); ds_handlers := []; ds_sends := ds_sends s;
     ds_unretried := ds_unretried s |}.

Inductive delivery_step (s : DeliverySys) : DeliverySys -> Prop :=
| step_work s' : work_step s s' -> delivery_step s s'
| step_restart now : delivery_step s (restart now s).
End delivery.
