(* ===== verification/WebhookDeliveryRuns.v ===== *)
(** * Runs of webhook delivery

    Concrete runs of the delivery service: an event delivered at its second
    attempt, and the runs in which an event is sent twice, by one process or by two,
    is lost, waits for a restart or is overtaken. *)

From S2P Require Import Prelude JsData Canonical Schema AuditChain WalletAuth DestinationGuard.
From S2P Require Import Predicates WebhookPayloads WebhookStore WebhookEndpoints WebhookEndpointsFacts WebhookDelivery.

Local Open Scope string_scope.
Local Open Scope Z_scope.
Local Open Scope list_scope.

(** ** A concrete run *)

Module DemoDelivery.
Definition hook : Webhook :=
  {| wh_id := "w1"; wh_organizationId := "o1"; wh_url := "https://hooks.example.com/in"; wh_secretEncrypted := "sealed";
     wh_events := ["proof.revoked"]; wh_predicate := None; wh_status := ResourceStatus.ACTIVE; wh_mtlsRequired := false;
     wh_payloadVersion := "1"; wh_revision := 1 |}.

Definition db : DeliveryDb :=
  {| dd_webhooks := [hook]; dd_deliveries := []; dd_circuits := []; dd_archived := []; dd_audit := {| auditRows := []; cursors := [] |} |}.

Definition url (_ : string) : option Url :=
  Some {| u_protocol := "https:"; u_username := EmptyString; u_password := EmptyString;
          u_hostname := "hooks.example.com"; u_port := EmptyString |}.
Definition resolve (_ : string) : result string (list string) := Ok ["93.184.216.34"].
Definition digest (s : string) : string := s.
Definition mac (k s : string) : string := String.append k s.
Definition unseal (_ : string) : option string := Some "secret".
Definition event : WebhookEventSource :=
  proof_revoked {| rs_proofId := "p1"; rs_status := "REVOKED"; rs_revokedAt := 1700000000000 |}.

Abbreviation step := (delivery_step digest mac unseal url 2).
Abbreviation work := (work_step digest mac unseal url 2).
End DemoDelivery.

(** The head job, or the only handler, makes a step. *)
Ltac job_moves := eapply (work_job _ _ _ _ _ _ []); [reflexivity|by constructor|].
Ltac handler_moves := eapply (work_handler _ _ _ _ _ _ []); [reflexivity|].

(** The steps of the runs below. *)
Ltac event_arrives id at_ :=
  apply (work_event _ _ _ _ _ _ ["o1"] DemoDelivery.event id at_); apply (bool_decide_unpack _); vm_compute; exact I.
Ltac row_created id at_ := handler_moves; eapply (fan_create _ _ _ _ _ _ _ _ id at_); computes.
Ltac row_scheduled := handler_moves; apply fan_schedule.
Ltac fan_out_ends := handler_moves; apply fan_done.
Ltac circuit_allows at_ := job_moves; apply (job_allowed _ _ _ _ _ _ _ at_); computes.
Ltac row_read at_ := job_moves; apply (job_read _ _ _ _ _ _ _ at_); computes.
Ltac receiver_answers answer at_ :=
  job_moves; eapply (job_send _ _ _ _ _ _ _ _ _ _ CertNone DemoDelivery.resolve answer 20 at_); computes.
Ltac failure_stored := job_moves; eapply job_failed; computes.
Ltac success_stored := job_moves; eapply job_succeeded; computes.
Ltac retry_created id at_ := job_moves; eapply (job_retry _ _ _ _ _ _ _ _ id at_); computes.
Ltac circuit_updated at_ := job_moves; eapply (job_recorded _ _ _ _ _ _ _ _ _ at_); computes.

(** An event is delivered at its second attempt. *)
Lemma demo_delivery :
  exists s, rtc DemoDelivery.work (fresh_service DemoDelivery.db) s /\
    (sd_delivery <$> ds_sends s) = ["d1"; "d2"] /\ ds_jobs s = [] /\
    ((fun d => (dl_id d, dl_attempt d, dl_status d)) <$> dd_deliveries (ds_db s)) =
      [("d1", 1, WebhookDeliveryStatus.FAILED); ("d2", 2, WebhookDeliveryStatus.SUCCESS)].
Proof.
  eexists. split.
  { run_step (event_arrives "e1" 1700000000000).
  run_step (row_created "d1" 1700000000000).
  run_step row_scheduled.
  run_step fan_out_ends.
  run_step (circuit_allows 1700000000001).
  run_step (row_read 1700000000001).
  run_step (receiver_answers (Responded 503 "busy") 1700000000021).
  run_step failure_stored.
  run_step (retry_created "d2" 1700000000030).
  run_step (circuit_updated 1700000000031).
  run_step (circuit_allows 1700000001031).
  run_step (row_read 1700000001031).
  run_step (receiver_answers (Responded 200 "ok") 1700000001051).
  run_step success_stored.
  run_step (circuit_updated 1700000001052).
  apply rtc_refl. }
  by vm_compute.
Qed.

(** The process stops between the answer and the update: after the restart the
    row is still pending and is sent again. *)
Lemma crash_sends_twice :
  exists s, rtc DemoDelivery.step (fresh_service DemoDelivery.db) s /\
    (sd_delivery <$> ds_sends s) = ["d1"; "d1"] /\ (sd_attempt <$> ds_sends s) = [1; 1].
Proof.
  eexists. split.
  { run_step (apply step_work; event_arrives "e1" 1700000000000).
  run_step (apply step_work; row_created "d1" 1700000000000).
  run_step (apply step_work; row_scheduled).
  run_step (apply step_work; circuit_allows 1700000000001).
  run_step (apply step_work; row_read 1700000000001).
  run_step (apply step_work; receiver_answers (Responded 200 "ok") 1700000000021).
  run_step (apply (step_restart _ _ _ _ _ _ 1700000100000)).
  run_step (apply step_work; circuit_allows 1700000100001).
  run_step (apply step_work; row_read 1700000100001).
  run_step (apply step_work; receiver_answers (Responded 200 "ok") 1700000100021).
  apply rtc_refl. }
  by vm_compute.
Qed.

(** Two processes of the service on one database, and the start of the second. *)
Inductive replica_step : relation (DeliverySys * DeliverySys) :=
| replica_first s s' t : DemoDelivery.work s s' -> replica_step (s, t) (s', on_db (ds_db s') t)
| replica_second s t t' : DemoDelivery.work t t' -> replica_step (s, t) (on_db (ds_db t') s, t')
| replica_starts s t now : replica_step (s, t) (s, started now (ds_db s)).

(** A process that starts takes up the rows another one has queued: both send the
    attempt, though neither crashes. *)
Lemma replicas_send_twice :
  exists s t, rtc replica_step (fresh_service DemoDelivery.db, fresh_service DemoDelivery.db) (s, t) /\
    (sd_delivery <$> ds_sends s) = ["d1"] /\ (sd_delivery <$> ds_sends t) = ["d1"].
Proof.
  eexists _, _. split.
  { run_step (apply replica_first; event_arrives "e1" 1700000000000).
  run_step (apply replica_first; row_created "d1" 1700000000000).
  run_step (apply replica_first; row_scheduled).
  run_step (apply (replica_starts _ _ 1700000000001)).
  run_step (apply replica_first; circuit_allows 1700000000002).
  run_step (apply replica_first; row_read 1700000000002).
  run_step (apply replica_second; circuit_allows 1700000000003).
  run_step (apply replica_second; row_read 1700000000003).
  run_step (apply replica_first; receiver_answers (Responded 200 "ok") 1700000000021).
  run_step (apply replica_second; receiver_answers (Responded 200 "ok") 1700000000022).
  apply rtc_refl. }
  by vm_compute.
Qed.

(** An event whose fan-out fails before the first row leaves nothing behind. *)
Lemma failed_fan_out_leaves_nothing :
  exists s1 s2, rtc DemoDelivery.work (fresh_service DemoDelivery.db) s1 /\
    ds_handlers s1 = [HFanOut [DemoDelivery.hook] DemoDelivery.event "e1" 1700000000000] /\
    DemoDelivery.work s1 s2 /\ s2 = fresh_service DemoDelivery.db.
Proof.
  eexists _, _. split.
  { run_step (event_arrives "e1" 1700000000000). apply rtc_refl. }
  split; [by vm_compute|]. split; [eapply (work_handler_error _ _ _ _ _ _ []); reflexivity|by vm_compute].
Qed.

(** The process stops between the update to FAILED and the insert of the retry:
    the event has one failed attempt of two, is not dead-lettered, and nothing is
    left that would send it. *)
Lemma crash_loses_retry :
  exists s, rtc DemoDelivery.step (fresh_service DemoDelivery.db) s /\ ds_jobs s = [] /\ ds_handlers s = [] /\
    ((fun d => (dl_id d, dl_attempt d, dl_status d, dl_deadLettered d)) <$> dd_deliveries (ds_db s)) =
      [("d1", 1, WebhookDeliveryStatus.FAILED, None)].
Proof.
  eexists. split.
  { run_step (apply step_work; event_arrives "e1" 1700000000000).
  run_step (apply step_work; row_created "d1" 1700000000000).
  run_step (apply step_work; row_scheduled).
  run_step (apply step_work; circuit_allows 1700000000001).
  run_step (apply step_work; row_read 1700000000001).
  run_step (apply step_work; receiver_answers (Responded 503 "busy") 1700000000021).
  run_step (apply step_work; failure_stored).
  run_step (apply (step_restart _ _ _ _ _ _ 1700000100000)).
  apply rtc_refl. }
  by vm_compute.
Qed.

(** With its circuit open, a delivery ends without an attempt and without a timer:
    the row is pending and nothing in the process would send it. *)
Definition open_circuit : Circuit :=
  {| ct_webhookId := "w1"; ct_state := WebhookCircuitState.OPEN; ct_failureCount := 5; ct_failureThreshold := 5;
     ct_recoveryWindowMs := 300000; ct_lastFailureAt := Some 1699999999000; ct_lastSuccessAt := None;
     ct_openedAt := Some 1699999999000; ct_halfOpenAt := None |}.

Lemma open_circuit_strands :
  exists s, rtc DemoDelivery.work (fresh_service (set_delivery_circuits [open_circuit] DemoDelivery.db)) s /\
    ds_jobs s = [] /\ ds_handlers s = [] /\ ds_sends s = [] /\
    ((fun d => (dl_id d, dl_status d)) <$> dd_deliveries (ds_db s)) = [("d1", WebhookDeliveryStatus.PENDING)].
Proof.
  eexists. split.
  { run_step (event_arrives "e1" 1700000000000).
  run_step (row_created "d1" 1700000000000).
  run_step row_scheduled.
  run_step fan_out_ends.
  run_step (eapply (work_drop _ _ _ _ _ _ []); [reflexivity|by constructor|];
    eapply (drop_open _ _ 1700000000001); computes).
  apply rtc_refl. }
  by vm_compute.
Qed.

(** A retry waits behind the events that came meanwhile: the receiver accepts the
    second event before the first. *)
Lemma retry_is_overtaken :
  exists s, rtc DemoDelivery.work (fresh_service DemoDelivery.db) s /\
    ((fun x => rq_eventId (sd_request x)) <$> ds_sends s) = ["e1"; "e2"; "e1"] /\
    ((fun d => (dl_eventId d, dl_status d)) <$> dd_deliveries (ds_db s)) =
      [("e1", WebhookDeliveryStatus.FAILED); ("e2", WebhookDeliveryStatus.SUCCESS); ("e1", WebhookDeliveryStatus.PENDING)].
Proof.
  eexists. split.
  { run_step (event_arrives "e1" 1700000000000).
  run_step (row_created "d1" 1700000000000).
  run_step row_scheduled.
  run_step fan_out_ends.
  run_step (event_arrives "e2" 1700000000005).
  run_step (row_created "d2" 1700000000005).
  run_step row_scheduled.
  run_step (circuit_allows 1700000000006).
  run_step (row_read 1700000000006).
  run_step (receiver_answers (Responded 503 "busy") 1700000000021).
  run_step failure_stored.
  run_step (retry_created "d3" 1700000000030).
  run_step (circuit_updated 1700000000031).
  run_step (circuit_allows 1700000000032).
  run_step (row_read 1700000000032).
  run_step (receiver_answers (Responded 200 "ok") 1700000000051).
  run_step success_stored.
  run_step (circuit_updated 1700000000052).
  run_step (circuit_allows 1700000001052).
  run_step (row_read 1700000001052).
  run_step (receiver_answers (Responded 200 "ok") 1700000001071).
  apply rtc_refl. }
  by vm_compute.
Qed.

(** Every enqueued event writes the default configuration over the configured
    one. *)
Lemma enqueue_resets_configuration id cs c :
  find_circuit id cs = Some c ->
  find_circuit id (initializeCircuit id None None cs) =
    Some (configure DEFAULT_FAILURE_THRESHOLD DEFAULT_RECOVERY_WINDOW_MS c).
Proof.
  intros H. unfold initializeCircuit. rewrite H. unfold find_circuit in *. rewrite find_where_update by done. rewrite H. cbn.
  apply find_where_Some in H as [_ ->]. done.
Qed.

(** Once an unchained audit row is stored no dead letter is redriven any more: the
    transaction rolls back, and the answer says [already_redriven] unless the
    endpoint is blocked. *)
Lemma audit_slot_blocks_redrive org d op reason id auditId now b :
  (SYSTEM_CHAIN_KEY, 0) ∈ row_key <$> auditRows (dd_audit b) ->
  redrive_write org d op reason id auditId now b = Err already_redriven \/
  exists o, redrive_write org d op reason id auditId now b = Err o /\ o ∈ [webhook_disabled; webhook_deleted].
Proof.
  intros Hslot. unfold redrive_write.
  destruct (negb (count_where _ _ =? 1)%nat); [by left|]. cbn.
  destruct (find_webhook _ _) as [w|]; [|right; exists webhook_deleted; set_solver].
  destruct (webhookBlock (wh_status w)) as [o|] eqn:Eb.
  { right. exists o. split; [done|]. destruct (wh_status w); cbn in Eb; try discriminate Eb; injection Eb as <-; set_solver. }
  left. destruct (create_delivery _ _); [|done].
  assert (createUnchained auditId now (redrive_audit org op reason id d) (auditRows (dd_audit b)) = Err P2002) as ->; [|done].
  by apply unchained_slot_taken.
Qed.
