(* ===== verification/WebhookDeliveryFacts.v ===== *)
(** * What webhook deliveries carry

    The part of a delivery row that never changes, where rows come from, and the
    requests that leave: for every run with retries, replays, redrives, restarts
    and failures at any point. *)

From S2P Require Import Prelude JsData DecimalText Canonical Schema AuditChain WalletAuth DestinationGuard.
From S2P Require Import Predicates WebhookPayloads WebhookResponse WebhookStore WebhookEndpoints WebhookDelivery WebhookDeliveryRuns.

Local Open Scope string_scope.
Local Open Scope Z_scope.
Local Open Scope list_scope.

(** ** The immutable part of a row *)

Record Core := {
  co_id : string;
  co_event : DeliveryEvent;
  co_attempt : Z;
  co_replayOf : option string;
  co_replayKey : option string;
  co_redriveReason : option string;
}.

Definition core (d : Delivery) : Core :=
  {| co_id := dl_id d; co_event := dl_event d; co_attempt := dl_attempt d; co_replayOf := dl_replayOf d;
     co_replayKey := dl_replayKey d; co_redriveReason := dl_redriveReason d |}.

Abbreviation cores b := (core <$> dd_deliveries b).

Lemma core_set_result st a dead d : core (set_result st a dead d) = core d.
Proof. done. Qed.
Lemma core_end_row e now d : core (end_row e now d) = core d.
Proof. by destruct e. Qed.
Lemma core_set_redriven now op d : core (set_redriven now op d) = core d.
Proof. done. Qed.

Lemma edit_cores id f b : (forall d, core (f d) = core d) -> cores (edit_delivery id f b) = cores b.
Proof. intros H. by apply update_where_keys. Qed.

Lemma ids_of_cores (ds : list Delivery) : dl_id <$> ds = co_id <$> (core <$> ds).
Proof. by rewrite <- list_fmap_compose. Qed.

Lemma create_delivery_Ok d ds ds' :
  create_delivery d ds = Ok ds' ->
  ds' = ds ++ [d] /\ (dl_id d ∉ dl_id <$> ds) /\ (forall k, dl_replayKey d = Some k -> Some k ∉ dl_replayKey <$> ds).
Proof.
  unfold create_delivery. intros H. run_result. reflect_hyps. split_and!; [done..|].
  intros k Hk. rewrite Hk in *. by reflect_hyps.
Qed.

(** The row and the core of it that another step may have changed in between. *)
Lemma find_delivery_Some id ds d : find_delivery id ds = Some d -> d ∈ ds /\ dl_id d = id.
Proof. intros [H1 H2]%find_where_Some. unfold has_delivery_id in H2. by reflect_hyps. Qed.

Lemma find_webhook_id id ws w : find_webhook id ws = Some w -> w ∈ ws /\ wh_id w = id.
Proof. intros [H1 H2]%find_where_Some. unfold has_webhook_id in H2. by reflect_hyps. Qed.

Lemma elem_of_cores d b : d ∈ dd_deliveries b -> core d ∈ cores b.
Proof. apply list_elem_of_fmap_2. Qed.

(** ** Where events come from *)

Lemma fan_out_key hook e eventId at_ ev :
  fan_out hook e eventId at_ = Some ev -> de_webhookId ev = wh_id hook /\ de_eventId ev = eventId.
Proof.
  unfold fan_out. intros H. destruct (negb _); [done|]. destruct (match wh_predicate hook with None => _ | _ => _ end); [done|].
  destruct (serializeWebhookEvent _ _ _ _); [|done]. by injection H as <-.
Qed.

(** One event per identifier and endpoint. *)
Definition one_event (cs : list Core) : Prop :=
  forall c c', c ∈ cs -> c' ∈ cs -> de_eventId (co_event c) = de_eventId (co_event c') ->
    de_webhookId (co_event c) = de_webhookId (co_event c') -> co_event c = co_event c'.

(** The endpoints a fan-out has still to reach have no row of the event. *)
Definition not_reached (cs : list Core) (eventId : string) (hooks : list Webhook) : Prop :=
  NoDup (wh_id <$> hooks) /\
  forall c, c ∈ cs -> de_eventId (co_event c) = eventId -> de_webhookId (co_event c) ∉ wh_id <$> hooks.

(** A new row is of an event already stored, or of an event and an endpoint that
    have no row. *)
Definition from_stored (cs : list Core) (c : Core) : Prop := exists c0, c0 ∈ cs /\ co_event c0 = co_event c.

Lemma one_event_stored cs c : one_event cs -> from_stored cs c -> one_event (cs ++ [c]).
Proof.
  intros H (c0 & Hc0 & He) x y Hx Hy. rewrite elem_of_app, list_elem_of_singleton in Hx, Hy.
  destruct Hx as [Hx| ->], Hy as [Hy| ->]; [by apply H|rewrite <- He; by apply H..|done].
Qed.

Lemma not_reached_stored cs c eventId hooks :
  not_reached cs eventId hooks -> from_stored cs c -> not_reached (cs ++ [c]) eventId hooks.
Proof.
  intros [Hd H] (c0 & Hc0 & He). split; [done|]. intros x Hx. rewrite elem_of_app, list_elem_of_singleton in Hx.
  destruct Hx as [Hx| ->]; [by apply H|]. rewrite <- He. by apply H.
Qed.

Lemma one_event_fan cs c hook rest :
  one_event cs -> not_reached cs (de_eventId (co_event c)) (hook :: rest) -> de_webhookId (co_event c) = wh_id hook ->
  one_event (cs ++ [c]).
Proof.
  intros H [_ Hn] Hw x y Hx Hy. rewrite elem_of_app, list_elem_of_singleton in Hx, Hy.
  assert (forall z, z ∈ cs -> de_eventId (co_event z) = de_eventId (co_event c) ->
    de_webhookId (co_event z) = de_webhookId (co_event c) -> False) as Hno.
  { intros z Hz E E'. apply (Hn z Hz E). rewrite E', Hw, fmap_cons. set_solver. }
  destruct Hx as [Hx| ->], Hy as [Hy| ->]; [by apply H| |..|done].
  - intros E E'. by destruct (Hno x).
  - intros E E'. by destruct (Hno y).
Qed.

(** The fan-out that made the row goes on. *)
Lemma not_reached_next cs c eventId hook rest :
  not_reached cs eventId (hook :: rest) -> de_webhookId (co_event c) = wh_id hook ->
  not_reached (cs ++ [c]) eventId rest.
Proof.
  intros [Hd H] Hw. rewrite fmap_cons in *. apply NoDup_cons in Hd as [Hn Hd]. split; [done|].
  intros x Hx He. rewrite elem_of_app, list_elem_of_singleton in Hx. destruct Hx as [Hx| ->].
  - specialize (H x Hx He). set_solver.
  - by rewrite Hw.
Qed.

(** Another fan-out has another event. *)
Lemma not_reached_other cs c eventId hooks :
  not_reached cs eventId hooks -> de_eventId (co_event c) <> eventId -> not_reached (cs ++ [c]) eventId hooks.
Proof.
  intros [Hd H] Hne. split; [done|]. intros x Hx. rewrite elem_of_app, list_elem_of_singleton in Hx.
  destruct Hx as [Hx| ->]; [by apply H|done].
Qed.

Section facts.
Context (sha256 : string -> string) (hmac : string -> string -> string) (decrypt : string -> option string).
Context (parse_url : string -> option Url) (maxAttempts : Z).

Abbreviation handler_step := (handler_step sha256).
Abbreviation job_step := (job_step sha256 hmac decrypt parse_url maxAttempts).
Abbreviation work_step := (work_step sha256 hmac decrypt parse_url maxAttempts).
Abbreviation delivery_step := (delivery_step sha256 hmac decrypt parse_url maxAttempts).

(** ** Requests *)

(** A request carries the stored bytes of the event, under a signature that the
    holder of the endpoint's secret accepts. *)
Definition carries (ev : DeliveryEvent) (rq : Request) : Prop :=
  rq_body rq = de_payloadBody ev /\ rq_eventId rq = de_eventId ev /\ rq_eventType rq = de_eventType ev /\
  rq_schemaVersion rq = de_schemaVersion ev /\
  exists w secret, wh_id w = de_webhookId ev /\ wh_status w = ResourceStatus.ACTIVE /\ rq_url rq = wh_url w /\
    decrypt (wh_secretEncrypted w) = Some secret /\
    verify_signature hmac secret (rq_timestamp rq) (rq_eventId rq) (rq_body rq) (rq_signature rq) = true.

Lemma run_read_carries id now b d w rq :
  run_read hmac decrypt maxAttempts id now b = RSend d w rq ->
  d ∈ dd_deliveries b /\ dl_id d = id /\ dl_status d = WebhookDeliveryStatus.PENDING /\ w ∈ dd_webhooks b /\
  rq_url rq = wh_url w /\ dl_attempt d <= maxAttempts /\ carries (dl_event d) rq.
Proof.
  unfold run_read. intros H. destruct (find_delivery id _) as [d0|] eqn:Ed; [|done].
  apply find_delivery_Some in Ed as [Hin Hid]. destruct (find_webhook _ _) as [w0|] eqn:Ew; [|done].
  apply find_webhook_id in Ew as [Hw Hwid]. destruct (bool_decide (wh_organizationId _ ∈ _)); [done|].
  destruct (negb _) eqn:Hp; [done|]. destruct (negb (bool_decide (wh_status _ = _))) eqn:Hs; [done|].
  destruct (_ >? _) eqn:Ha; [done|]. destruct (decrypt _) as [secret|] eqn:Hk; [|done].
  injection H as -> -> <-. reflect_hyps. split_and!; [done..|]. unfold carries. split_and!; [done..|].
  exists w, secret. split_and!; [done..|]. by apply bool_decide_eq_true.
Qed.

(** What a recorded request says. *)
Definition send_ok (cs : list Core) (x : Send) : Prop :=
  exists c, c ∈ cs /\ co_id c = sd_delivery x /\ co_attempt c = sd_attempt x /\ co_attempt c <= maxAttempts /\
    carries (co_event c) (sd_request x) /\
    exists resolve, assertSafeWebhookDestination parse_url resolve (rq_url (sd_request x)) = Ok tt.

Definition job_ok (cs : list Core) (j : Job) : Prop :=
  match jb_phase j with
  | Prepared d w rq =>
      core d ∈ cs /\ dl_id d = jb_delivery j /\ dl_attempt d <= maxAttempts /\ rq_url rq = wh_url w /\ carries (dl_event d) rq
  | Answered d _ | Failing d => core d ∈ cs /\ dl_id d = jb_delivery j
  | _ => True
  end.

Definition handler_ok (cs : list Core) (h : Handler) : Prop :=
  match h with
  | HFanOut hooks _ eventId _ | HCreated _ _ hooks _ eventId _ => not_reached cs eventId hooks
  | HReplayAudit d _ | HReplay d _ | HReplayNew d _ | HRedrive _ d _ _ => core d ∈ cs
  | HReplayStart _ _ | HDispatch _ _ => True
  end.

Lemma send_ok_app cs c x : send_ok cs x -> send_ok (cs ++ [c]) x.
Proof. intros (c0 & H & ?). exists c0. split; [set_solver|done]. Qed.

Lemma job_ok_app cs c j : job_ok cs j -> job_ok (cs ++ [c]) j.
Proof. unfold job_ok. destruct (jb_phase j); set_solver. Qed.

Lemma handler_ok_stored cs c h : handler_ok cs h -> from_stored cs c -> handler_ok (cs ++ [c]) h.
Proof. intros H Hc. destruct h; cbn in *; first [done | by apply not_reached_stored | set_solver]. Qed.

Lemma handler_ok_other cs c h :
  handler_ok cs h -> de_eventId (co_event c) ∉ handler_events h -> handler_ok (cs ++ [c]) h.
Proof.
  intros H Hc. destruct h; cbn in *; first [done | apply not_reached_other; set_solver | set_solver].
Qed.

(** ** What a step does to the rows *)

Lemma job_rows b j b' phase sends jobs :
  job_step b j b' phase sends jobs ->
  dd_webhooks b' = dd_webhooks b /\
  (cores b' = cores b \/
   exists d id now, jb_phase j = Failing d /\ cores b' = cores b ++ [core (retry_row id now d)] /\
     id ∉ dl_id <$> dd_deliveries b).
Proof.
  intros H. split; [by destruct H|].
  destruct H; try (left; first [done | by apply edit_cores; intros; first [apply core_end_row | done]]).
  match goal with Hc : create_delivery (retry_row ?i ?n ?d) _ = _ |- _ =>
    apply create_delivery_Ok in Hc as (-> & Hid & _); right; exists d, i, n end.
  split; [done|]. split; [|done]. cbn [set_deliveries dd_deliveries]. by rewrite fmap_app.
Qed.

(** The row a handler's snapshot stands for. *)
Definition snapshot (h : Handler) : option Delivery :=
  match h with HReplayAudit d _ | HReplay d _ | HReplayNew d _ | HRedrive _ d _ _ => Some d | _ => None end.

Definition new_of_handler (h : Handler) (c : Core) : Prop :=
  co_attempt c = 1 /\
  ((exists d, snapshot h = Some d /\ co_event c = dl_event d) \/
   exists hook rest e eventId at_, h = HFanOut (hook :: rest) e eventId at_ /\
     de_webhookId (co_event c) = wh_id hook /\ de_eventId (co_event c) = eventId).

Lemma redrive_write_Ok org d op reason id auditId now b b' :
  redrive_write org d op reason id auditId now b = Ok b' ->
  count_where (redrivable d) (dd_deliveries b) = 1%nat /\ dd_webhooks b' = dd_webhooks b /\
  dd_deliveries b' =
    update_where (redrivable d) (set_redriven now op) (dd_deliveries b) ++ [redrive_row id d op reason now] /\
  (id ∉ dl_id <$> dd_deliveries b) /\ Some (redriveKey (dl_id d)) ∉ dl_replayKey <$> dd_deliveries b.
Proof.
  unfold redrive_write. intros H. run_result. reflect_hyps.
  match goal with Hc : (_ =? 1)%nat = true |- _ => apply Nat.eqb_eq in Hc end.
  destruct (match find_webhook _ _ with Some _ => _ | None => _ end); [done|].
  destruct (create_delivery _ _) as [ds|] eqn:Hc; [|done]. destruct (createUnchained _ _ _ _); [|done]. run_result.
  apply create_delivery_Ok in Hc as (-> & Hid & Hk). rewrite update_where_keys in Hid by done.
  split_and!; [done..|]. specialize (Hk _ eq_refl). by rewrite update_where_keys in Hk.
Qed.

Lemma handler_rows b h b' next jobs :
  handler_step b h b' next jobs ->
  dd_webhooks b' = dd_webhooks b /\
  (cores b' = cores b \/
   exists c, cores b' = cores b ++ [c] /\ (co_id c ∉ dl_id <$> dd_deliveries b) /\ new_of_handler h c).
Proof.
  intros H. destruct H; try (split; [done|by left]).
  - apply create_delivery_Ok in H0 as (-> & Hid & _). split; [done|]. right. eexists. split_and!.
    + cbn [set_deliveries dd_deliveries]. by rewrite fmap_app.
    + done.
    + split; [done|]. right. eexists _, _, _, _, _. split; [done|]. by apply fan_out_key in H.
  - apply create_delivery_Ok in H as (-> & Hid & _). split; [done|]. right. eexists. split_and!.
    + cbn [set_deliveries dd_deliveries]. by rewrite fmap_app.
    + done.
    + split; [done|]. left. by exists original.
  - apply redrive_write_Ok in H as (_ & Hw & Hr & Hid & _). split; [done|]. right. eexists. split_and!.
    + rewrite Hr, fmap_app. by rewrite update_where_keys.
    + done.
    + split; [done|]. left. by exists deadLetter.
Qed.

(** ** The invariant *)

Record Prov (s : DeliverySys) : Prop := {
  pv_ids : NoDup (co_id <$> cores (ds_db s));
  pv_hooks : NoDup (wh_id <$> dd_webhooks (ds_db s));
  pv_events : one_event (cores (ds_db s));
  pv_attempts : Forall (fun c => 1 <= co_attempt c) (cores (ds_db s));
  pv_handlers : Forall (handler_ok (cores (ds_db s))) (ds_handlers s);
  pv_handler_events : NoDup (flat_map handler_events (ds_handlers s));
  pv_jobs : Forall (job_ok (cores (ds_db s))) (ds_jobs s);
  pv_sends : Forall (send_ok (cores (ds_db s))) (ds_sends s);
}.

(** A job's next phase, and what it sent, in the tables it started from. *)
Lemma job_phase_ok b j b' phase sends jobs :
  job_step b j b' phase sends jobs -> job_ok (cores b) j ->
  (forall p, phase = Some p -> job_ok (cores b) (in_phase p j)) /\ Forall (send_ok (cores b)) sends /\
  Forall (fun i => jb_phase i = Queued) jobs.
Proof.
  intros H Hj. unfold job_ok in Hj. destruct H as [| now d w rq Hp Hr | | | |
    d w rq cert resolve answer durationMs now left result Hp Hs | d a Hp | | | d a Hp | | success [[id delay]|] now Hp].
  all: split_and!; [intros p Ep; try discriminate Ep; try injection Ep as <-; unfold job_ok; cbn; try done| |].
  all: try (by constructor).
  all: try rewrite Hp in Hj; try done.
  - apply run_read_carries in Hr as (Hd & Hid & _ & _ & Hu & Ha & Hc). split_and!; [by apply elem_of_cores|done..].
  - by destruct Hj as (? & ? & _).
  - destruct left; [|constructor]. apply Forall_singleton. destruct Hj as (Hin & Hid & Ha & Hu & Hc).
    exists (core d). split_and!; [done..|]. exists resolve. cbn [sd_request]. rewrite Hu.
    unfold send in Hs. destruct (if wh_mtlsRequired w then cert else CertFound); [|discriminate Hs..].
    destruct (assertSafeWebhookDestination _ _ _) as [[]|[]] eqn:E; [done|discriminate Hs..].
Qed.

Definition with_delivery_db (b : DeliveryDb) (s : DeliverySys) : DeliverySys :=
  {| ds_db := b; ds_jobs := ds_jobs s; ds_handlers := ds_handlers s; ds_sends := ds_sends s; ds_unretried := ds_unretried s |}.

Lemma prov_same s b :
  Prov s -> cores b = cores (ds_db s) -> NoDup (wh_id <$> dd_webhooks b) -> Prov (with_delivery_db b s).
Proof. intros [] Hc Hw. by constructor; cbn; rewrite ?Hc. Qed.

Lemma prov_stored s b c :
  Prov s -> cores b = cores (ds_db s) ++ [c] -> dd_webhooks b = dd_webhooks (ds_db s) ->
  co_id c ∉ co_id <$> cores (ds_db s) -> 1 <= co_attempt c -> from_stored (cores (ds_db s)) c ->
  Prov (with_delivery_db b s).
Proof.
  intros [Hi Hw He Ha Hh Hhe Hj Hs] Hc Hws Hid Hatt Hst. constructor; cbn; rewrite ?Hc, ?Hws; try done.
  - by apply NoDup_fmap_snoc.
  - by apply one_event_stored.
  - by apply Forall_app_2; [|apply Forall_singleton].
  - eapply Forall_impl; [exact Hh|]. intros h ?. by apply handler_ok_stored.
  - eapply Forall_impl; [exact Hj|]. intros j ?. by apply job_ok_app.
  - eapply Forall_impl; [exact Hs|]. intros x ?. by apply send_ok_app.
Qed.

(** Replacing a job by its next phase, and adding fresh ones. *)
Lemma prov_jobs s jobs sends unretried :
  Prov s -> Forall (job_ok (cores (ds_db s))) jobs -> Forall (send_ok (cores (ds_db s))) sends ->
  Prov {| ds_db := ds_db s; ds_jobs := jobs; ds_handlers := ds_handlers s; ds_sends := ds_sends s ++ sends;
          ds_unretried := unretried |}.
Proof. intros [] ??. constructor; cbn; try done. by apply Forall_app_2. Qed.

Lemma queued_ok cs jobs : Forall (fun i => jb_phase i = Queued) jobs -> Forall (job_ok cs) jobs.
Proof. intros H. eapply Forall_impl; [exact H|]. intros j Hj. unfold job_ok. by rewrite Hj. Qed.

Lemma prov_job s l1 j l2 b phase sends jobs :
  Prov s -> ds_jobs s = l1 ++ j :: l2 -> job_step (ds_db s) j b phase sends jobs ->
  Prov {| ds_db := b; ds_jobs := l1 ++ (match phase with Some p => [in_phase p j] | None => [] end) ++ l2 ++ jobs;
          ds_handlers := ds_handlers s; ds_sends := ds_sends s ++ sends; ds_unretried := ds_unretried s |}.
Proof.
  intros Hp Hjs Hstep. pose proof (pv_jobs s Hp) as Hall. rewrite Hjs in Hall.
  apply Forall_app in Hall as [H1 [Hj H2]%Forall_cons]. destruct (job_phase_ok _ _ _ _ _ _ Hstep Hj) as (Hph & Hsd & Hq).
  assert (Prov (with_delivery_db b s) /\ (forall i, job_ok (cores (ds_db s)) i -> job_ok (cores b) i) /\
    forall x, send_ok (cores (ds_db s)) x -> send_ok (cores b) x) as (Hp' & Hjo & Hso).
  { destruct (job_rows _ _ _ _ _ _ Hstep) as [Hw [Hc|(d & id & now & Hf & Hc & Hid)]].
    - split_and!; [|by rewrite Hc..]. apply prov_same; [done..|]. rewrite Hw. apply Hp.
    - unfold job_ok in Hj. rewrite Hf in Hj. destruct Hj as [Hin _].
      split_and!; [|rewrite Hc; by intros ??; apply job_ok_app|rewrite Hc; by intros ??; apply send_ok_app].
      eapply prov_stored; [done..| | |].
      + by rewrite <- ids_of_cores.
      + pose proof (pv_attempts s Hp) as Ha. rewrite Forall_forall in Ha. specialize (Ha _ Hin). cbn in *. lia.
      + by exists (core d). }
  apply (prov_jobs (with_delivery_db b s)); [done|cbn..].
  - repeat apply Forall_app_2; [|destruct phase as [p|]; [apply Forall_singleton|constructor]| |by apply queued_ok].
    + eapply Forall_impl; [exact H1|done].
    + by apply Hjo, Hph.
    + eapply Forall_impl; [exact H2|done].
  - eapply Forall_impl; [exact Hsd|done].
Qed.

Lemma replay_read_in id b d : replay_read id b = Ok d -> d ∈ dd_deliveries b /\ dl_id d = id.
Proof.
  unfold replay_read. intros H. destruct (find_delivery id _) as [d0|] eqn:E; [|done]. destruct (find_webhook _ _); [|done].
  run_result. by apply find_delivery_Some.
Qed.

Lemma replayDelivery_read_in org id b d : replayDelivery_read org id b = Ok d -> d ∈ dd_deliveries b.
Proof.
  unfold replayDelivery_read. intros H. destruct (find_delivery id _) as [d0|] eqn:E; [|done].
  destruct (find_webhook _ _); [|done]. run_result. by apply find_delivery_Some in E as [? _].
Qed.

Lemma redrive_read_in org id b d : redrive_read org id b = Ok d -> d ∈ dd_deliveries b.
Proof.
  unfold redrive_read. intros H. destruct (find_delivery id _) as [d0|] eqn:E; [|done].
  destruct (find_webhook _ _); [|done]. run_result. destruct (webhookBlock _); [done|]. run_result.
  by apply find_delivery_Some in E as [? _].
Qed.

(** A handler's successor keeps its event. *)
Lemma handler_next_ok b h b' h' jobs :
  handler_step b h b' (Some h') jobs -> handler_ok (cores b) h -> handler_events h' = handler_events h /\ handler_ok (cores b') h'.
Proof.
  intros H Hok. inversion H; subst; cbn in *; split; try done.
  - destruct Hok as [Hd Hn]. rewrite fmap_cons in *. apply NoDup_cons in Hd as [_ Hd]. split; [done|].
    intros c Hc He. specialize (Hn c Hc He). set_solver.
  - match goal with Hc : create_delivery _ _ = _ |- _ => apply create_delivery_Ok in Hc as (-> & _) end.
    rewrite fmap_app. eapply not_reached_next; [done|]. cbn.
    match goal with Hf : fan_out _ _ _ _ = _ |- _ => by destruct (fan_out_key _ _ _ _ _ Hf) end.
  - match goal with Hr : replay_read _ _ = _ |- _ => by apply replay_read_in in Hr as [?%elem_of_cores _] end.
Qed.

Lemma handler_jobs b h b' next jobs : handler_step b h b' next jobs -> Forall (fun i => jb_phase i = Queued) jobs.
Proof. intros H. destruct H; first [done | apply Forall_nil_2 | by apply Forall_singleton]. Qed.

Lemma prov_handlers s handlers jobs unretried :
  Prov s -> Forall (handler_ok (cores (ds_db s))) handlers -> NoDup (flat_map handler_events handlers) ->
  Forall (job_ok (cores (ds_db s))) jobs ->
  Prov {| ds_db := ds_db s; ds_jobs := jobs; ds_handlers := handlers; ds_sends := ds_sends s; ds_unretried := unretried |}.
Proof. intros [] ???. by constructor. Qed.

(** The other handlers when one has created a row. *)
Lemma prov_handler_rows s l1 h l2 b next jobs :
  Prov s -> ds_handlers s = l1 ++ h :: l2 -> handler_step (ds_db s) h b next jobs ->
  Forall (handler_ok (cores b)) (l1 ++ l2) /\ Forall (job_ok (cores b)) (ds_jobs s) /\
  Prov {| ds_db := b; ds_jobs := ds_jobs s; ds_handlers := []; ds_sends := ds_sends s; ds_unretried := ds_unretried s |}.
Proof.
  intros [Hi Hw He Ha Hh Hhe Hj Hs] Hl Hstep. rewrite Hl in Hh, Hhe.
  apply Forall_app in Hh as [H1 [Hok H2]%Forall_cons]. assert (Forall (handler_ok (cores (ds_db s))) (l1 ++ l2)) as Ho
    by by apply Forall_app_2. rewrite flat_map_app in Hhe. cbn [flat_map] in Hhe.
  destruct (handler_rows _ _ _ _ _ Hstep) as [Hws [Hc|(c & Hc & Hid & Hatt & Hnew)]].
  { split_and!; [by rewrite Hc..|]. by constructor; cbn; rewrite ?Hc, ?Hws; try constructor. }
  rewrite ids_of_cores in Hid.
  assert (Forall (handler_ok (cores (ds_db s) ++ [c])) (l1 ++ l2) /\ one_event (cores (ds_db s) ++ [c])) as [Ho' He'].
  { destruct Hnew as [(d & Hsn & Hd)|(hook & rest & e & eventId & at_ & -> & Hwid & Heid)].
    - assert (from_stored (cores (ds_db s)) c) as Hst.
      { exists (core d). split; [|done]. destruct h; try done; cbn in *; by injection Hsn as ->. }
      split; [|by apply one_event_stored]. eapply Forall_impl; [exact Ho|]. intros h' ?. by apply handler_ok_stored.
    - cbn in Hok. subst eventId. split; [|by eapply one_event_fan]. rewrite Forall_forall in Ho |- *. intros h' Hh'.
      apply handler_ok_other; [by apply Ho|]. intros Hin. apply NoDup_app in Hhe as (_ & Hx & [Hy _]%NoDup_cons).
      apply elem_of_app in Hh' as [Hh'|Hh'].
      + apply (Hx (de_eventId (co_event c))); [|cbn; set_solver]. apply list_elem_of_In, in_flat_map. exists h'.
        by rewrite <- !list_elem_of_In.
      + apply Hy. apply list_elem_of_In, in_flat_map. exists h'. by rewrite <- !list_elem_of_In. }
  split_and!; [by rewrite Hc|rewrite Hc; eapply Forall_impl; [exact Hj|intros; by apply job_ok_app]|].
  constructor; cbn; rewrite ?Hc, ?Hws; try done; try constructor.
  - by apply NoDup_fmap_snoc.
  - apply Forall_app_2; [done|]. apply Forall_singleton. lia.
  - eapply Forall_impl; [exact Hj|intros; by apply job_ok_app].
  - eapply Forall_impl; [exact Hs|intros; by apply send_ok_app].
Qed.

Lemma prov_handler s l1 h l2 b next jobs :
  Prov s -> ds_handlers s = l1 ++ h :: l2 -> handler_step (ds_db s) h b next jobs ->
  Prov {| ds_db := b; ds_jobs := ds_jobs s ++ jobs;
          ds_handlers := l1 ++ (match next with Some h' => [h'] | None => [] end) ++ l2;
          ds_sends := ds_sends s; ds_unretried := ds_unretried s |}.
Proof.
  intros Hp Hl Hstep. destruct (prov_handler_rows _ _ _ _ _ _ _ Hp Hl Hstep) as ([H1 H2]%Forall_app & Hj & Hp').
  pose proof (pv_handlers s Hp) as Hh. pose proof (pv_handler_events s Hp) as Hhe. rewrite Hl in Hh, Hhe.
  apply Forall_app in Hh as [_ [Hok _]%Forall_cons]. rewrite flat_map_app in Hhe. cbn [flat_map] in Hhe.
  apply (prov_handlers {| ds_db := b; ds_jobs := ds_jobs s; ds_handlers := []; ds_sends := ds_sends s;
    ds_unretried := ds_unretried s |}); [done|..].
  - cbn. destruct next as [h'|]; [|by apply Forall_app_2]. apply Forall_app_2; [done|]. apply Forall_cons.
    split; [|done]. by eapply handler_next_ok.
  - rewrite !flat_map_app. destruct next as [h'|]; cbn [flat_map].
    + rewrite (proj1 (handler_next_ok _ _ _ _ _ Hstep Hok)). by rewrite app_nil_r.
    + cbn. apply NoDup_app in Hhe as (Ha & Hx & (_ & _ & Hb)%NoDup_app). apply NoDup_app. split_and!; [done| |done].
      intros x Hx1 Hx2. apply (Hx x Hx1). apply elem_of_app. by right.
  - cbn. apply Forall_app_2; [done|]. by apply queued_ok, (handler_jobs _ _ _ _ _ Hstep).
Qed.

Lemma prov_work s s' : work_step s s' -> Prov s -> Prov s'.
Proof.
  intros H Hp. destruct H as [l1 j l2 b phase sends jobs Hl _ Hj | l1 j l2 b Hl _ Hd | l1 h l2 b next jobs Hl Hh
    | l1 h l2 Hl | orgIds e eventId now Hf | org id by_ d Hr | org id op reason d Hr | b [Hw Hc]].
  - by apply prov_job.
  - pose proof (pv_jobs s Hp) as Hall. rewrite Hl in Hall. apply Forall_app in Hall as [H1 [_ H2]%Forall_cons].
    assert (dd_webhooks b = dd_webhooks (ds_db s) /\ dd_deliveries b = dd_deliveries (ds_db s)) as [Hw Hb]
      by by destruct Hd. assert (Prov (with_delivery_db b s)) as Hp'.
    { apply prov_same; [done|by rewrite Hb|]. rewrite Hw. apply Hp. }
    destruct Hp' as [? ? ? ? ? ? _ ?]. constructor; cbn; try done. rewrite Hb. by apply Forall_app_2.
  - by eapply prov_handler.
  - pose proof (pv_handlers s Hp) as Hh. pose proof (pv_handler_events s Hp) as He. rewrite Hl in Hh, He.
    apply Forall_app in Hh as [H1 [_ H2]%Forall_cons]. rewrite flat_map_app in He. cbn [flat_map] in He.
    apply prov_handlers; [done|by apply Forall_app_2| |apply Hp]. rewrite flat_map_app.
    rewrite app_assoc, (Permutation_app_comm _ (handler_events h)), <- app_assoc in He. by apply NoDup_app in He as (_ & _ & He).
  - assert (eventId ∉ flat_map handler_events (ds_handlers s)) as Hf' by (unfold event_ids in Hf; set_solver).
    apply prov_handlers; [done|..|apply Hp].
    + apply Forall_app_2; [apply Hp|]. apply Forall_singleton. split.
      * apply NoDup_fmap_filter, Hp.
      * intros c (d & -> & Hd)%list_elem_of_fmap He. destruct Hf. unfold event_ids. apply elem_of_app. left.
        apply list_elem_of_fmap. exists d. by rewrite <- He.
    + rewrite flat_map_app. cbn. apply NoDup_app. split_and!; [apply Hp| |apply NoDup_singleton].
      intros x Hx Hx'. apply list_elem_of_singleton in Hx'. by subst x.
  - apply prov_handlers; [done|..|apply Hp].
    + apply Forall_app_2; [apply Hp|]. apply Forall_singleton. by eapply elem_of_cores, replayDelivery_read_in.
    + rewrite flat_map_app. cbn. rewrite app_nil_r. apply Hp.
  - apply prov_handlers; [done|..|apply Hp].
    + apply Forall_app_2; [apply Hp|]. apply Forall_singleton. by eapply elem_of_cores, redrive_read_in.
    + rewrite flat_map_app. cbn. rewrite app_nil_r. apply Hp.
  - apply (prov_same s b); [done| |done]. by rewrite Hc.
Qed.

Lemma recover_queued now b : Forall (fun i => jb_phase i = Queued) (recover now b).
Proof. apply Forall_fmap, Forall_true. done. Qed.

Lemma prov_step s s' : delivery_step s s' -> Prov s -> Prov s'.
Proof.
  intros [s1 H|now] Hp; [by eapply prov_work|]. destruct Hp. constructor; cbn; try done; [constructor..|].
  apply queued_ok, recover_queued.
Qed.

Lemma prov_fresh b : NoDup (wh_id <$> dd_webhooks b) -> Prov (fresh_service b).
Proof. intros H. constructor; cbn; try constructor; try done; by intros ? ? ?%not_elem_of_nil. Qed.

Lemma prov_run b s : NoDup (wh_id <$> dd_webhooks b) -> rtc delivery_step (fresh_service b) s -> Prov s.
Proof. intros Hd Hr. eapply (rtc_invariant delivery_step Prov); [apply prov_step|done|by apply prov_fresh]. Qed.

Lemma work_runs s s' : rtc work_step s s' -> rtc delivery_step s s'.
Proof. apply rtc_subrel. intros ???. by apply step_work. Qed.

(** C9: every row of the same event and endpoint, whether it is the first attempt,
    a retry, a replay or a redrive, carries the same event with the same bytes; and
    every request that left carried the stored bytes and identifiers of its row,
    under a signature the holder of the endpoint's secret accepts, to an URL the
    destination guard accepted, with an attempt number between one and the
    configured maximum.  This holds after any interleaving of events, jobs,
    replays, redrives, failures and restarts. *)
Theorem every_attempt_carries_the_event b s :
  NoDup (wh_id <$> dd_webhooks b) -> rtc delivery_step (fresh_service b) s ->
  (forall d d', d ∈ dd_deliveries (ds_db s) -> d' ∈ dd_deliveries (ds_db s) ->
     dl_eventId d = dl_eventId d' -> dl_webhookId d = dl_webhookId d' -> dl_event d = dl_event d') /\
  (forall x, x ∈ ds_sends s -> exists d, d ∈ dd_deliveries (ds_db s) /\ dl_id d = sd_delivery x /\
     dl_attempt d = sd_attempt x /\ 1 <= sd_attempt x <= maxAttempts /\ carries (dl_event d) (sd_request x) /\
     exists resolve, assertSafeWebhookDestination parse_url resolve (rq_url (sd_request x)) = Ok tt).
Proof.
  intros Hd Hr. destruct (prov_run b s Hd Hr) as [_ _ He Ha _ _ _ Hs]. split.
  - intros d d' Hin Hin' E E'. by apply (He (core d) (core d')); [apply elem_of_cores..| |].
  - intros x Hx. rewrite Forall_forall in Hs. rewrite Forall_forall in Ha. destruct (Hs x Hx) as (c & Hc & Hid & Hat & Hm & Hca & Hg).
    pose proof (Ha c Hc) as Hone. apply list_elem_of_fmap in Hc as (d & -> & Hin). cbn in *.
    exists d. rewrite <- Hat. by split_and!.
Qed.
End facts.

Lemma every_attempt_carries_the_event_witness :
  exists s x, rtc DemoDelivery.step (fresh_service DemoDelivery.db) s /\ x ∈ ds_sends s /\ sd_delivery x = "d2" /\
    1 <= sd_attempt x <= 2.
Proof.
  destruct demo_delivery as (s & Hr & Hs & _). apply work_runs in Hr.
  destruct (ds_sends s) as [|y [|x l]] eqn:E; [discriminate Hs..|]. injection Hs as Hy Hx Hl.
  exists s, x. assert (x ∈ ds_sends s) as Hin by (rewrite E; set_solver).
  destruct (every_attempt_carries_the_event _ _ _ _ _ DemoDelivery.db s ltac:(apply NoDup_singleton) Hr) as [_ Hsend].
  destruct (Hsend x Hin) as (d & _ & _ & _ & Hn & _). by split_and!; [..|apply Hn|apply Hn].
Defined.
