(* ===== verification/WebhookDispatchFacts.v ===== *)
(** * What becomes of a delivery

    Within one process no row is sent twice, whatever other processes do, no row is
    lost without a trace, and an endpoint has one delivery in progress at a time. *)

From S2P Require Import Prelude JsData Canonical Schema AuditChain WalletAuth DestinationGuard.
From S2P Require Import WebhookPayloads WebhookStore WebhookEndpoints WebhookDelivery WebhookDeliveryRuns WebhookDeliveryFacts.

Local Open Scope string_scope.
Local Open Scope Z_scope.
Local Open Scope list_scope.

Abbreviation ids b := (dl_id <$> dd_deliveries b).

Section dispatch.
Context (sha256 : string -> string) (hmac : string -> string -> string) (decrypt : string -> option string).
Context (parse_url : string -> option Url) (maxAttempts : Z).

Abbreviation handler_step := (handler_step sha256).
Abbreviation job_step := (job_step sha256 hmac decrypt parse_url maxAttempts).
Abbreviation work_step := (work_step sha256 hmac decrypt parse_url maxAttempts).
Abbreviation delivery_step := (delivery_step sha256 hmac decrypt parse_url maxAttempts).
Abbreviation Prov := (Prov hmac decrypt parse_url maxAttempts).

(** ** At most one request per row *)

(** The rows a job may still send. *)
Definition waiting_job (j : Job) : list string :=
  match jb_phase j with
  | Queued | Allowed | Closing _ | Prepared _ _ _ => [jb_delivery j]
  | Answered _ _ | Failing _ => []
  | Recording _ retry => match retry with Some (id, _) => [id] | None => [] end
  end.

Definition waiting (s : DeliverySys) : list string :=
  flat_map waiting_job (ds_jobs s) ++ flat_map handler_tokens (ds_handlers s).

(** What may be sent and what was sent after the first [n] requests. *)
Definition ledger (n : nat) (s : DeliverySys) : list string := waiting s ++ (sd_delivery <$> drop n (ds_sends s)).

(** The identifiers of the rows a step adds. *)
Definition adds (b b' : DeliveryDb) (new : list string) : Prop :=
  ids b' = ids b ++ new /\ NoDup new /\ (forall id, id ∈ new -> id ∉ ids b).

Lemma adds_nothing b b' : ids b' = ids b -> adds b b' [].
Proof. intros H. split_and!; [by rewrite app_nil_r|constructor|]. by intros id ?%not_elem_of_nil. Qed.

Lemma adds_row d b ds : create_delivery d (dd_deliveries b) = Ok ds -> adds b (set_deliveries ds b) [dl_id d].
Proof.
  intros (-> & Hn & _)%create_delivery_Ok. split_and!; [cbn [set_deliveries dd_deliveries]; by rewrite fmap_app|apply NoDup_singleton|].
  by intros id ->%list_elem_of_singleton.
Qed.

Lemma job_ledger b j b' phase sends jobs :
  job_step b j b' phase sends jobs ->
  exists new, adds b b' new /\
    flat_map waiting_job (match phase with Some p => [in_phase p j] | None => [] end) ++ flat_map waiting_job jobs ++
      (sd_delivery <$> sends) ⊆+ new ++ waiting_job j.
Proof.
  intros H. unfold waiting_job at 3.
  destruct H as [now cs Hp|now d w rq Hp|now e Hp|now Hp|e now Hp|d w rq cert resolve answer dur now left_ r Hp
    |d a Hp|d reason a now Hp|d a now Hp|d a Hp|d id now ds Hp Hc|success [[id delay]|] now Hp]; rewrite Hp.
  all: try (exists []; split; [apply adds_nothing; first [done | by apply update_where_keys]|cbn]).
  all: try (try destruct left_; cbn; solve_submseteq).
  - exists []. split; [apply adds_nothing, update_where_keys; intros; by destruct e|]. cbn. solve_submseteq.
  - exists [id]. split; [by apply (adds_row (retry_row id now d))|]. cbn. solve_submseteq.
Qed.

Lemma handler_ledger b h b' next jobs :
  handler_step b h b' next jobs ->
  exists new, adds b b' new /\
    flat_map handler_tokens (match next with Some h' => [h'] | None => [] end) ++ flat_map waiting_job jobs ⊆+
      new ++ handler_tokens h.
Proof.
  intros H. destruct H; try (exists []; split; [by apply adds_nothing|cbn; solve_submseteq]).
  - exists [id]. split; [by eapply (adds_row (pending_row id ev (wh_predicate hook) 1 None None None None None now))|].
    cbn. solve_submseteq.
  - exists [id]. split; [by eapply (adds_row (replay_row id original by_ now))|]. cbn. solve_submseteq.
  - exists [id]. split; [|cbn; solve_submseteq]. apply redrive_write_Ok in H as (_ & _ & Hr & Hid & _).
    split_and!; [|apply NoDup_singleton|by intros ? ->%list_elem_of_singleton].
    rewrite Hr, fmap_app. by rewrite update_where_keys.
Qed.

(** A step moves identifiers along or drops them, and adds those of new rows. *)
Lemma work_ledger n s s' :
  (n <= length (ds_sends s))%nat -> work_step s s' ->
  (n <= length (ds_sends s'))%nat /\
  exists new, adds (ds_db s) (ds_db s') new /\ ledger n s' ⊆+ new ++ ledger n s.
Proof.
  intros Hn H. unfold ledger, waiting. destruct H as [l1 j l2 b phase sends jobs Hl _ Hj | l1 j l2 b Hl _ Hd
    | l1 h l2 b next jobs Hl Hh | l1 h l2 Hl | orgIds e eventId now Hf | | | b [_ Hc]]; cbn [ds_sends ds_jobs ds_handlers ds_db].
  1: { rewrite length_app. split; [lia|]. destruct (job_ledger _ _ _ _ _ _ Hj) as (new & Ha & Hs). exists new. split; [done|].
    rewrite drop_app_le by done. rewrite Hl, !flat_map_app, fmap_app. cbn [flat_map].
    apply (submseteq_frame _ _ _ _ (flat_map waiting_job l1 ++ flat_map waiting_job l2 ++
      flat_map handler_tokens (ds_handlers s) ++ (sd_delivery <$> drop n (ds_sends s))) Hs); solve_Permutation. }
  all: split; [done|].
  - exists []. split; [apply adds_nothing; by destruct Hd|]. rewrite Hl, !flat_map_app. cbn [flat_map]. solve_submseteq.
  - destruct (handler_ledger _ _ _ _ _ Hh) as (new & Ha & Hs). exists new. split; [done|].
    rewrite Hl, !flat_map_app. cbn [flat_map]. apply (submseteq_frame _ _ _ _ (flat_map waiting_job (ds_jobs s) ++
      flat_map handler_tokens l1 ++ flat_map handler_tokens l2 ++ (sd_delivery <$> drop n (ds_sends s))) Hs); solve_Permutation.
  - exists []. split; [by apply adds_nothing|]. rewrite Hl, !flat_map_app. cbn [flat_map]. solve_submseteq.
  - exists []. split; [by apply adds_nothing|]. rewrite !flat_map_app. cbn. solve_submseteq.
  - exists []. split; [by apply adds_nothing|]. rewrite !flat_map_app. cbn. solve_submseteq.
  - exists []. split; [by apply adds_nothing|]. rewrite !flat_map_app. cbn. solve_submseteq.
  - exists []. split; [apply adds_nothing; by rewrite Hc|]. done.
Qed.

(** [boot] are the rows the process found, [n] the requests made before. *)
Record Once (boot : list Delivery) (n : nat) (s : DeliverySys) : Prop := {
  on_length : (n <= length (ds_sends s))%nat;
  on_nodup : NoDup (ledger n s);
  on_known : Forall (fun id => id ∈ ids (ds_db s)) (ledger n s);
  on_boot : Forall (fun d => dl_id d ∈ ids (ds_db s)) boot;
  on_pending : Forall (fun id => forall d, d ∈ boot -> dl_id d = id -> dl_status d = WebhookDeliveryStatus.PENDING) (ledger n s);
}.

Lemma once_step boot n s s' : work_step s s' -> Once boot n s -> Once boot n s'.
Proof.
  intros H [Hl Hd Hk Hb Hp]. destruct (work_ledger n s s' Hl H) as (Hl' & new & (Hids & Hnd & Hfresh) & Hsub).
  constructor; [done|..].
  - eapply NoDup_of_submseteq; [exact Hsub|]. apply NoDup_app. split_and!; [done| |done].
    intros id Hin Hin'. rewrite Forall_forall in Hk. by apply (Hfresh id Hin), Hk.
  - apply (Forall_submseteq_app _ _ new (ledger n s)); [|eapply Forall_impl; [exact Hk|]|done]; rewrite Hids.
    + apply Forall_forall. set_solver.
    + set_solver.
  - eapply Forall_impl; [exact Hb|]. rewrite Hids. set_solver.
  - apply (Forall_submseteq_app _ _ new (ledger n s)); [|done..]. apply Forall_forall. intros id Hin d Hd' <-.
    rewrite Forall_forall in Hb. by destruct (Hfresh _ Hin (Hb d Hd')).
Qed.

Definition pending (d : Delivery) : bool := bool_decide (dl_status d = WebhookDeliveryStatus.PENDING).

(** A restart takes up the pending rows, each once. *)
Lemma recover_waiting now b :
  flat_map waiting_job (recover now b) ≡ₚ dl_id <$> List.filter pending (dd_deliveries b).
Proof.
  unfold recover. rewrite flat_map_fmap. change (fun x => waiting_job _) with (fun d : Delivery => [dl_id d]).
  rewrite flat_map_singleton. by rewrite js_sort_perm.
Qed.

(** The process makes a step, or somebody else, such as another process of the
    service, changes the tables in any way that removes no delivery row. *)
Inductive shared_step (s : DeliverySys) : DeliverySys -> Prop :=
| shared_work s' : work_step s s' -> shared_step s s'
| shared_foreign b : ids (ds_db s) ⊆ ids b -> shared_step s (on_db b s).

(** The steps of another process of the service are such changes. *)
Lemma foreign_work s t t' : ds_db t = ds_db s -> work_step t t' -> shared_step s (on_db (ds_db t') s).
Proof.
  intros E H. apply shared_foreign. rewrite <- E.
  destruct (work_ledger 0 t t' ltac:(lia) H) as (_ & new & (-> & _) & _). set_solver.
Qed.

Lemma once_shared boot n s s' : shared_step s s' -> Once boot n s -> Once boot n s'.
Proof.
  intros [s1 H|b Hb] Ho; [by eapply once_step|]. destruct Ho as [Hl Hd Hk Hbt Hp].
  constructor; [done|done|eapply Forall_impl; [exact Hk|]|eapply Forall_impl; [exact Hbt|]|done]; intros x; apply (Hb _).
Qed.

Lemma once_started now b : NoDup (ids b) -> Once (dd_deliveries b) 0 (started now b).
Proof.
  intros Hd. assert (ledger 0 (started now b) ≡ₚ dl_id <$> List.filter pending (dd_deliveries b)) as Hl.
  { unfold ledger, waiting. cbn. by rewrite !app_nil_r, recover_waiting. }
  constructor; [cbn; lia|..]; try rewrite Hl.
  - by apply NoDup_fmap_filter.
  - apply Forall_fmap, Forall_forall. intros d [Hin _]%elem_of_filter_bool. by apply list_elem_of_fmap_2.
  - apply Forall_forall. intros d Hin. by apply list_elem_of_fmap_2.
  - apply Forall_fmap, Forall_forall. intros d [Hin Hp]%elem_of_filter_bool d' Hin' E. cbn in E.
    assert (d' = d) as -> by by apply (key_unique dl_id (dd_deliveries b)). unfold pending in Hp. by reflect_hyps.
Qed.

(** C20: one process of the service sends no delivery row twice, and of the rows it
    found when it started only the pending ones, whatever other processes of the
    service do to the tables meanwhile, as long as no delivery row is deleted.  Two
    processes may each send a row. *)
Theorem row_sent_once_per_start b now s :
  NoDup (ids b) -> rtc shared_step (started now b) s ->
  NoDup (sd_delivery <$> ds_sends s) /\
  forall x d, x ∈ ds_sends s -> d ∈ dd_deliveries b -> dl_id d = sd_delivery x ->
    dl_status d = WebhookDeliveryStatus.PENDING.
Proof.
  intros Hid Hr. assert (Once (dd_deliveries b) 0 s) as [_ Hd _ _ Hp].
  { eapply (rtc_invariant shared_step (Once _ _)); [apply once_shared|exact Hr|by apply once_started]. }
  unfold ledger in *. rewrite drop_0 in *. apply NoDup_app in Hd as (_ & _ & Hd).
  apply Forall_app in Hp as [_ Hp]. split; [done|]. intros x d Hx Hin E. rewrite Forall_forall in Hp.
  apply (Hp (sd_delivery x)); [by apply list_elem_of_fmap_2|done..].
Qed.

(** ** No row is lost without a trace *)

Abbreviation failing s := (flat_map failing_job (ds_jobs s)).

Definition archived (d : Delivery) : Prop :=
  at_failureReason (dl_result d) = Some "organization archived before delivery".

(** The row the next attempt is made with. *)
Definition retry_of (c r : Core) : Prop := co_event r = co_event c /\ co_attempt r = co_attempt c + 1.

(** Where a row stands: pending, successful, dead or retried, or about to be; or the
    database did not take its retry. *)
Definition row_state (cs : list Core) (fails unretried : list string) (d : Delivery) : Prop :=
  dl_status d = WebhookDeliveryStatus.FAILED ->
  dl_deadLettered d <> None \/ archived d \/ dl_id d ∈ fails \/ dl_id d ∈ unretried \/ exists c, c ∈ cs /\ retry_of (core d) c.

Lemma row_state_mono cs cs' fails fails' unretried unretried' d :
  row_state cs fails unretried d -> cs ⊆ cs' -> unretried ⊆ unretried' ->
  (dl_id d ∈ fails -> dl_id d ∈ fails' \/ dl_id d ∈ unretried' \/ exists c, c ∈ cs' /\ retry_of (core d) c) ->
  row_state cs' fails' unretried' d.
Proof.
  intros H Hc Hd Hf Hst. destruct (H Hst) as [?|[?|[Hin|[?|(c & ? & ?)]]]]; [auto|auto|destruct (Hf Hin) as [?|[?|?]]; auto| |].
  - right; right; right; left. by apply Hd.
  - right; right; right; right. exists c. auto.
Qed.

(** All rows but those in [old] are accounted for, by rows that are not in [old]. *)
Definition new_cores (old : list string) (b : DeliveryDb) : list Core :=
  List.filter (fun c => negb (bool_decide (co_id c ∈ old))) (cores b).

Definition accounted (old : list string) (b : DeliveryDb) (fails unretried : list string) : Prop :=
  forall d, d ∈ dd_deliveries b -> dl_id d ∉ old -> row_state (new_cores old b) fails unretried d.

Lemma new_cores_mono old b b' : cores b ⊆ cores b' -> new_cores old b ⊆ new_cores old b'.
Proof. intros H c [??]%elem_of_filter_bool. apply elem_of_filter_bool. auto. Qed.

Lemma accounted_same old b b' fails fails' unretried :
  dd_deliveries b' = dd_deliveries b -> accounted old b fails unretried -> fails ⊆ fails' -> accounted old b' fails' unretried.
Proof.
  intros Hb Ha Hf d Hd Ho. unfold accounted, new_cores in *. rewrite Hb in *.
  eapply row_state_mono; [by apply Ha|done..|]; intros; left; auto.
Qed.

(** One row gets a result. *)
Lemma accounted_edit old b id f fails fails' unretried :
  accounted old b fails unretried -> (forall d, core (f d) = core d) ->
  (forall d, dl_id d = id -> row_state (new_cores old b) fails' unretried (f d)) -> fails ⊆ fails' ->
  accounted old (edit_delivery id f b) fails' unretried.
Proof.
  intros Ha Hc Hown Hf d' (d & Hd & ->)%elem_of_update_where Ho. unfold new_cores. rewrite edit_cores by done.
  unfold has_delivery_id in *. case_bool_decide as E; [by apply Hown|].
  eapply row_state_mono; [by apply Ha|done..|]; intros; left; auto.
Qed.

(** A pending row comes. *)
Lemma accounted_new old b ds r fails fails' unretried :
  accounted old b fails unretried -> dd_deliveries b ++ [r] = ds -> dl_status r = WebhookDeliveryStatus.PENDING ->
  dl_id r ∉ old ->
  (forall d, d ∈ dd_deliveries b -> dl_id d ∈ fails -> dl_id d ∈ fails' \/ retry_of (core d) (core r)) ->
  accounted old (set_deliveries ds b) fails' unretried.
Proof.
  intros Ha <- Hr Hnew Hf d Hd Ho. cbn in Hd. apply elem_of_app in Hd as [Hd| ->%list_elem_of_singleton].
  - eapply row_state_mono; [by apply Ha|apply new_cores_mono; cbn; rewrite fmap_app; set_solver|done|].
    intros Hdf. destruct (Hf d Hd Hdf) as [?|?]; [by left|]. right; right. exists (core r). split; [|done].
    apply elem_of_filter_bool. cbn [set_deliveries dd_deliveries]. rewrite fmap_app. split; [set_solver|].
    by apply negb_true_iff, bool_decide_eq_false.
  - intros Hst. congruence.
Qed.

Abbreviation next_jobs j phase := (match phase with Some p => [in_phase p j] | None => [] end).

Lemma job_accounts old b j b' phase sends jobs fails unretried :
  job_step b j b' phase sends jobs -> NoDup (ids b) -> old ⊆ ids b -> job_ok hmac decrypt maxAttempts (cores b) j ->
  accounted old b (failing_job j ++ fails) unretried ->
  accounted old b' (flat_map failing_job (next_jobs j phase) ++ fails) unretried.
Proof.
  intros H Hid Hold Hok Ha. unfold job_ok in Hok. unfold failing_job at 1 in Ha.
  destruct H as [now cs Hp|now d w rq Hp Hr|now e Hp Hr|now Hp Hr|e now Hp|d w rq cert resolve answer dur now left_ r Hp
    |d a Hp|d reason a now Hp|d a now Hp|d a Hp|d id now ds Hp Hc|success retry now Hp]; rewrite Hp in *.
  - eapply accounted_same; [done|done|cbn; set_solver].
  - eapply accounted_same; [done|done|cbn; set_solver].
  - eapply accounted_same; [done|done|cbn; set_solver].
  - by eapply accounted_same.
  - eapply accounted_edit; [done|apply core_end_row| |done]. intros d _ _. destruct e; cbn; [right; left|left]; done.
  - eapply accounted_same; [done|done|destruct left_; cbn; set_solver].
  - by eapply accounted_edit.
  - eapply accounted_edit; [done|done|by left|done].
  - eapply accounted_edit; [done|done|by left|done].
  - eapply accounted_edit; [done|done| |cbn; set_solver]. intros d' E _. right; right; left. cbn. rewrite E. set_solver.
  - apply create_delivery_Ok in Hc as (-> & Hn & _). eapply accounted_new; [done|reflexivity|done|by intros ?%Hold|].
    intros d' Hd' [E|?]%elem_of_app; [|by left]. right. destruct Hok as [Hin E']. apply list_elem_of_singleton in E.
    apply list_elem_of_fmap in Hin as (d0 & Hc0 & Hd0). assert (d' = d0) as ->.
    { apply (key_unique dl_id (dd_deliveries b)); [done..|]. rewrite E, <- E'. by injection Hc0. }
    unfold retry_of. rewrite <- Hc0. done.
  - by eapply accounted_same.
Qed.

Lemma handler_accounts old b h b' next jobs fails unretried :
  handler_step b h b' next jobs -> old ⊆ ids b -> accounted old b fails unretried -> accounted old b' fails unretried.
Proof.
  intros H Hold Ha. destruct H; try done.
  - apply create_delivery_Ok in H0 as (-> & Hn & _). eapply accounted_new; [done|reflexivity|done|by intros ?%Hold|by left].
  - apply create_delivery_Ok in H as (-> & Hn & _). eapply accounted_new; [done|reflexivity|done|by intros ?%Hold|by left].
  - apply redrive_write_Ok in H as (_ & _ & Hr & _ & _).
    assert (new_cores old b ⊆ new_cores old b') as Hcs
      by (apply new_cores_mono; rewrite Hr, fmap_app, update_where_keys by done; set_solver).
    intros d Hd Ho. rewrite Hr in Hd. apply elem_of_app in Hd as [(d0 & Hd0 & ->)%elem_of_update_where|Hd].
    + assert (row_state (new_cores old b') fails unretried d0) as Hrs.
      { eapply row_state_mono; [apply Ha; [done|]|done|done|by left]. by destruct (redrivable _ _). }
      by destruct (redrivable _ _).
    + by apply list_elem_of_singleton in Hd as ->.
Qed.

Lemma accounted_incl old b fails fails' unretried unretried' :
  accounted old b fails unretried -> fails ⊆ fails' ++ unretried' -> unretried ⊆ unretried' -> accounted old b fails' unretried'.
Proof.
  intros Ha Hf Hd d Hin Ho. eapply row_state_mono; [by apply Ha|done|done|].
  intros Hi. apply Hf, elem_of_app in Hi as [?|?]; auto.
Qed.

Record Acc (old : list string) (s : DeliverySys) : Prop := {
  ac_prov : Prov s;
  ac_old : old ⊆ ids (ds_db s);
  ac_rows : accounted old (ds_db s) (failing s) (ds_unretried s);
}.

Lemma queued_not_failing jobs : Forall (fun i => jb_phase i = Queued) jobs -> flat_map failing_job jobs = [].
Proof. induction 1 as [|j jobs Hj _ IH]; [done|]. cbn. unfold failing_job at 1. by rewrite Hj. Qed.

Lemma acc_job old s l1 j l2 b phase sends jobs :
  Acc old s -> ds_jobs s = l1 ++ j :: l2 -> job_step (ds_db s) j b phase sends jobs ->
  accounted old b (flat_map failing_job (l1 ++ next_jobs j phase ++ l2 ++ jobs)) (ds_unretried s).
Proof.
  intros [Hp Hold Ha] Hl H. pose proof (pv_jobs _ _ _ _ _ Hp) as Hok. rewrite Hl in Hok.
  apply Forall_app in Hok as [_ [Hok _]%Forall_cons].
  pose proof (pv_ids _ _ _ _ _ Hp) as Hid. rewrite <- ids_of_cores in Hid.
  assert (accounted old (ds_db s) (failing_job j ++ flat_map failing_job l1 ++ flat_map failing_job l2) (ds_unretried s)) as Ha'.
  { eapply accounted_incl; [exact Ha|..]; rewrite ?Hl, ?flat_map_app; cbn [flat_map]; set_solver. }
  eapply accounted_incl; [by eapply job_accounts|..]; rewrite ?flat_map_app; set_solver.
Qed.

Lemma acc_step old s s' : work_step s s' -> Acc old s -> Acc old s'.
Proof.
  intros H Hacc. assert (Prov s') as Hp' by (eapply prov_work; [done|apply Hacc]). constructor; [done| |].
  1: { etrans; [apply Hacc|]. destruct (work_ledger 0 s s' ltac:(lia) H) as (_ & new & (-> & _) & _). set_solver. }
  destruct H as [l1 j l2 b phase sends jobs Hl _ Hj | l1 j l2 b Hl _ Hd | l1 h l2 b next jobs Hl Hh | l1 h l2 Hl
    | orgIds e eventId now Hf | org id by_ d Hr | org id op reason d Hr | b [_ Hb]];
    cbn [ds_db ds_jobs ds_handlers ds_unretried]; [by eapply acc_job|..].
  all: destruct Hacc as [Hp Hold Ha]; try exact Ha.
  - assert (dd_deliveries b = dd_deliveries (ds_db s)) as Hb by by destruct Hd.
    assert (accounted old b (failing s) (ds_unretried s)) as Ha' by by eapply accounted_same.
    eapply accounted_incl; [exact Ha'|..]; rewrite ?Hl, ?flat_map_app; cbn [flat_map]; set_solver.
  - rewrite flat_map_app, (queued_not_failing jobs), app_nil_r by by eapply handler_jobs. by eapply handler_accounts.
  - by eapply accounted_same.
Qed.

(** The rows that have their result when the service starts. *)
Definition finished (b : DeliveryDb) : list string := dl_id <$> List.filter (fun d => negb (pending d)) (dd_deliveries b).

Lemma acc_restart now s : Prov s -> Acc (finished (ds_db s)) (restart now s).
Proof.
  intros Hp. constructor.
  - by eapply prov_step; [apply (step_restart sha256)|].
  - intros id (d & -> & [Hd _]%elem_of_filter_bool)%list_elem_of_fmap. by apply list_elem_of_fmap_2.
  - intros d Hd Ho Hst. destruct Ho. apply list_elem_of_fmap_2, elem_of_filter_bool. split; [done|].
    unfold pending. by rewrite Hst.
Qed.

(** The next start of the service schedules the row again. *)
Definition rescheduled (b : DeliveryDb) (r : Delivery) : Prop :=
  forall now, exists j, j ∈ recover now b /\ jb_delivery j = dl_id r /\ jb_webhook j = dl_webhookId r.

Lemma pending_rescheduled b r :
  r ∈ dd_deliveries b -> dl_status r = WebhookDeliveryStatus.PENDING -> rescheduled b r.
Proof.
  intros Hr Hst now. eexists. split; [apply list_elem_of_fmap; exists r; split; [reflexivity|]|split; reflexivity].
  rewrite js_sort_perm. apply elem_of_filter_bool. by rewrite Hst.
Qed.

(** Where the last row of a chain of attempts stands. *)
Definition resolved (s : DeliverySys) (r : Delivery) : Prop :=
  dl_status r = WebhookDeliveryStatus.SUCCESS \/ dl_deadLettered r <> None \/ archived r \/
  (dl_status r = WebhookDeliveryStatus.PENDING /\ rescheduled (ds_db s) r) \/
  (exists j d, j ∈ ds_jobs s /\ jb_delivery j = dl_id r /\ jb_phase j = Failing d) \/
  dl_id r ∈ ds_unretried s.

Lemma failing_job_of jobs id :
  id ∈ flat_map failing_job jobs -> exists j d, j ∈ jobs /\ jb_delivery j = id /\ jb_phase j = Failing d.
Proof.
  intros (j & Hj%list_elem_of_In & Hid%list_elem_of_In)%list_elem_of_In%in_flat_map. unfold failing_job in Hid.
  destruct (jb_phase j) eqn:E; set_solver.
Qed.

Lemma attempts_bounded (ds : list Delivery) : exists m, forall d, d ∈ ds -> dl_attempt d <= m.
Proof.
  induction ds as [|d ds [m IH]]; [by exists 0; intros ? ?%not_elem_of_nil|]. exists (Z.max (dl_attempt d) m).
  intros x [->|Hx]%elem_of_cons; [lia|]. specialize (IH x Hx). lia.
Qed.

Lemma acc_descendant old s : Acc old s -> forall n d, d ∈ dd_deliveries (ds_db s) -> dl_id d ∉ old ->
  (forall x, x ∈ dd_deliveries (ds_db s) -> dl_attempt x <= dl_attempt d + Z.of_nat n) ->
  exists r, r ∈ dd_deliveries (ds_db s) /\ dl_event r = dl_event d /\ dl_attempt d <= dl_attempt r /\ resolved s r.
Proof.
  intros [_ _ Ha] n. induction n as [|n IH]; intros d Hd Ho Hb.
  all: pose proof (Ha d Hd Ho) as Hs; unfold row_state in Hs.
  all: assert (resolved s d \/ exists c, c ∈ new_cores old (ds_db s) /\ retry_of (core d) c) as [Hr|(c & Hc & He & Hn)];
    [|exists d; split_and!; done + lia|].
  1, 3: unfold resolved; destruct (dl_status d) eqn:E; [pose proof (pending_rescheduled _ _ Hd E); tauto|tauto|];
    destruct (Hs eq_refl) as [?|[?|[?%failing_job_of|[?|?]]]]; tauto.
  all: apply elem_of_filter_bool in Hc as [(r & -> & Hr)%list_elem_of_fmap Hro]; cbn in He, Hn, Hro; reflect_hyps.
  - specialize (Hb r Hr). lia.
  - destruct (IH r Hr Hro) as (r' & Hr' & He' & Ha' & Hres).
    { intros x Hx. specialize (Hb x Hx). lia. }
    exists r'. split_and!; [done|congruence|lia|done].
Qed.

(** C10: no delivery row is lost while one process of the service runs and no row is
    deleted: every row that was pending when it started, or came since, has a row of
    the same event, itself or a later attempt, that the receiver accepted, that is
    dead-lettered, that was refused because its organisation is archived, that is
    still pending, so that the next start of the service schedules it again, that is
    marked failed by a running job which inserts the next attempt, or whose next
    attempt the database did not take.  Of an event that has no row yet it says
    nothing. *)
Theorem no_delivery_row_lost b now s s' d :
  NoDup (wh_id <$> dd_webhooks b) -> rtc delivery_step (fresh_service b) s -> rtc work_step (restart now s) s' ->
  d ∈ dd_deliveries (ds_db s') -> dl_id d ∉ finished (ds_db s) ->
  exists r, r ∈ dd_deliveries (ds_db s') /\ dl_event r = dl_event d /\ dl_attempt d <= dl_attempt r /\ resolved s' r.
Proof.
  intros Hw Hr Hr' Hd Ho. pose proof (prov_run _ _ _ _ _ b s Hw Hr) as Hp.
  assert (Acc (finished (ds_db s)) s') as Hacc.
  { eapply (rtc_invariant work_step (Acc _)); [apply acc_step|exact Hr'|by apply acc_restart]. }
  destruct (attempts_bounded (dd_deliveries (ds_db s'))) as [m Hm].
  apply (acc_descendant _ _ Hacc (Z.to_nat (m - dl_attempt d))); [done..|]. intros x Hx.
  pose proof (Hm x Hx). pose proof (Hm d Hd). lia.
Qed.

(** ** One delivery in progress per endpoint *)

(** A job behind another of its endpoint has not started. *)
Definition behind (i j : Job) : Prop := jb_webhook i = jb_webhook j -> jb_phase j = Queued.

Lemma queued_behind jobs : Forall (fun i => jb_phase i = Queued) jobs -> StronglySorted behind jobs.
Proof.
  induction 1 as [|j jobs Hj Hjs IH]; constructor; [done|]. eapply Forall_impl; [exact Hjs|]. by intros i Hi _.
Qed.

Lemma serial_app_queued l jobs :
  StronglySorted behind l -> Forall (fun i => jb_phase i = Queued) jobs -> StronglySorted behind (l ++ jobs).
Proof.
  intros Hl Hj. apply StronglySorted_app_inv. split_and!; [done|by apply queued_behind|]. intros i j _ Hin _.
  rewrite Forall_forall in Hj. auto.
Qed.

Lemma job_new_queued b j b' phase sends jobs :
  job_step b j b' phase sends jobs -> Forall (fun i => jb_phase i = Queued) jobs.
Proof. intros H. destruct H as [| | | | | | | | | | |? [[]|]]; first [apply Forall_nil_2 | by apply Forall_singleton]. Qed.

Lemma serial_step s s' : delivery_step s s' -> StronglySorted behind (ds_jobs s) -> StronglySorted behind (ds_jobs s').
Proof.
  intros [s1 H|now] Hs; [|apply queued_behind, recover_queued].
  destruct H as [l1 j l2 b phase sends jobs Hl Hfirst Hj | l1 j l2 b Hl _ Hd | l1 h l2 b next jobs Hl Hh | | | | |];
    cbn [ds_jobs]; try done.
  - rewrite Hl in Hs. apply StronglySorted_app_inv in Hs as (H1 & [H2 Hj2]%StronglySorted_inv & H3).
    replace (l1 ++ next_jobs j phase ++ l2 ++ jobs) with ((l1 ++ next_jobs j phase ++ l2) ++ jobs) by by rewrite <- !app_assoc.
    apply serial_app_queued; [|by eapply job_new_queued]. apply StronglySorted_app_inv. split_and!; [done| |].
    + destruct phase as [p|]; [|done]. by constructor.
    + intros x y Hx [Hy|Hy]%elem_of_app; [|apply H3; set_solver]. destruct phase as [p|]; [|by apply not_elem_of_nil in Hy].
      apply list_elem_of_singleton in Hy as ->. rewrite Forall_forall in Hfirst. intros E. by destruct (Hfirst x Hx).
  - rewrite Hl in Hs. apply StronglySorted_app_inv in Hs as (H1 & [H2 _]%StronglySorted_inv & H3).
    apply StronglySorted_app_inv. split_and!; [done..|]. intros x y Hx Hy. apply H3; set_solver.
  - apply serial_app_queued; [done|]. by eapply handler_jobs.
Qed.

(** an endpoint has at most one delivery in progress: of the jobs of one
    endpoint only the one scheduled first has started, so its deliveries run one
    after the other in the order they were scheduled. *)
Theorem one_delivery_in_progress b s l1 i l2 j l3 :
  rtc delivery_step (fresh_service b) s -> ds_jobs s = l1 ++ i :: l2 ++ j :: l3 -> jb_webhook i = jb_webhook j ->
  jb_phase j = Queued.
Proof.
  intros Hr Hj E. assert (StronglySorted behind (ds_jobs s)) as Hs.
  { eapply (rtc_invariant delivery_step (fun s => StronglySorted behind (ds_jobs s)));
      [apply serial_step|exact Hr|constructor]. }
  rewrite Hj in Hs. apply StronglySorted_app_inv in Hs as (_ & [_ Hf]%StronglySorted_inv & _).
  apply Forall_app in Hf as [_ [Hb _]%Forall_cons]. by apply Hb.
Qed.
End dispatch.

(** ** Witnesses *)

Abbreviation demo_shared := (shared_step DemoDelivery.digest DemoDelivery.mac DemoDelivery.unseal DemoDelivery.url 2).

Lemma row_sent_once_per_start_witness :
  exists s', rtc demo_shared (started 0 DemoDelivery.db) s' /\ length (ds_sends s') = 2%nat /\
    NoDup (sd_delivery <$> ds_sends s').
Proof.
  destruct demo_delivery as (s' & Hr & Hs & _). assert (rtc demo_shared (started 0 DemoDelivery.db) s') as Hr'.
  { revert Hr. apply (rtc_congruence id). intros x y. apply shared_work. }
  exists s'. split; [exact Hr'|]. split; [by rewrite <- (length_fmap sd_delivery), Hs|].
  exact (proj1 (row_sent_once_per_start _ _ _ _ _ DemoDelivery.db 0 s' ltac:(apply NoDup_nil_2) Hr')).
Defined.

Lemma no_delivery_row_lost_witness :
  exists s' d r, rtc DemoDelivery.work (restart 0 (fresh_service DemoDelivery.db)) s' /\ d ∈ dd_deliveries (ds_db s') /\
    dl_id d = "d1" /\ r ∈ dd_deliveries (ds_db s') /\ dl_event r = dl_event d /\ resolved s' r.
Proof.
  destruct demo_delivery as (s' & Hr & _ & _ & Hd). destruct (dd_deliveries (ds_db s')) as [|d l] eqn:E; [discriminate Hd|].
  injection Hd as Hid _ _ _. assert (d ∈ dd_deliveries (ds_db s')) as Hin by (rewrite E; set_solver).
  destruct (no_delivery_row_lost _ _ _ _ _ DemoDelivery.db 0 (fresh_service DemoDelivery.db) s' d
    ltac:(apply NoDup_singleton) ltac:(apply rtc_refl) Hr Hin ltac:(apply not_elem_of_nil)) as (r & Hrin & He & _ & Hres).
  exists s', d, r. by split_and!.
Defined.

(** Two rows wait while the first is being read. *)
Lemma one_delivery_in_progress_witness :
  exists s l1 i l2 j l3, rtc DemoDelivery.step (fresh_service DemoDelivery.db) s /\ ds_jobs s = l1 ++ i :: l2 ++ j :: l3 /\
    jb_webhook i = jb_webhook j /\ jb_phase i = Allowed /\ jb_phase j = Queued.
Proof.
  assert (exists s i j, rtc DemoDelivery.step (fresh_service DemoDelivery.db) s /\ ds_jobs s = [i; j] /\
    jb_webhook i = jb_webhook j /\ jb_phase i = Allowed) as (s & i & j & Hr & Hj & E & Hp).
  { eexists _, _, _. split.
    { run_step (apply step_work; event_arrives "e1" 1700000000000).
      run_step (apply step_work; row_created "d1" 1700000000000).
      run_step (apply step_work; row_scheduled).
      run_step (apply step_work; fan_out_ends).
      run_step (apply step_work; event_arrives "e2" 1700000000005).
      run_step (apply step_work; row_created "d2" 1700000000005).
      run_step (apply step_work; row_scheduled).
      run_step (apply step_work; circuit_allows 1700000000006).
      apply rtc_refl. }
    split; [reflexivity|]. by vm_compute. }
  exists s, [], i, [], j, []. split_and!; [done..|].
  exact (one_delivery_in_progress _ _ _ _ _ DemoDelivery.db s [] i [] j [] Hr Hj E).
Defined.
