(* ===== verification/WebhookRedriveFacts.v ===== *)
(** * Dead letters and circuits

    A dead letter is redriven at most once, and the mark on it and the row that
    redrives it come together; and what the circuit breaker of an endpoint lets
    through. *)

From S2P Require Import Prelude JsData Canonical Schema AuditChain WalletAuth DestinationGuard.
From S2P Require Import WebhookPayloads WebhookStore WebhookEndpoints WebhookDelivery WebhookDeliveryRuns WebhookDeliveryFacts.

Local Open Scope string_scope.
Local Open Scope Z_scope.
Local Open Scope list_scope.
#[local] Arguments String.append !_ _ : simpl nomatch.

(** ** Redrive *)

(** [r] is the delivery that redrives [d]; a retry of it copies [replayOf] but not
    the reason. *)
Definition redrives (r d : Delivery) : Prop := dl_redriveReason r <> None /\ dl_replayOf r = Some (dl_id d).

Record RedriveOk (ds : list Delivery) : Prop := {
  ro_marked : forall d, d ∈ ds -> dl_redriven d <> None ->
    exists r, r ∈ ds /\ redrives r d /\ dl_event r = dl_event d;
  ro_keys : forall r, r ∈ ds -> dl_redriveReason r <> None ->
    exists d, d ∈ ds /\ dl_replayOf r = Some (dl_id d) /\ dl_replayKey r = Some (redriveKey (dl_id d)) /\
      dl_redriven d <> None /\ dl_deadLettered d <> None;
  ro_unique : forall r r' k, r ∈ ds -> r' ∈ ds -> dl_replayKey r = Some k -> dl_replayKey r' = Some k -> dl_id r = dl_id r';
}.

(** A result is written into a row. *)
Lemma redrive_edit p f ds :
  (forall d, core (f d) = core d) -> (forall d, dl_redriven (f d) = dl_redriven d) ->
  (forall d, dl_deadLettered d <> None -> dl_deadLettered (f d) <> None) ->
  RedriveOk ds -> RedriveOk (update_where p f ds).
Proof.
  intros Hc Hr Hd [Hm Hk Hu].
  assert (forall d, core (if p d then f d else d) = core d) as Hc' by (intros d; by destruct (p d)).
  assert (forall d, d ∈ ds -> (if p d then f d else d) ∈ update_where p f ds) as Hin
    by (intros d Hd'; apply elem_of_update_where; by exists d).
  constructor.
  - intros d' (d & Hd' & ->)%elem_of_update_where Hred. pose proof (Hc' d) as E. injection E as Ei Ee _ _ _ _.
    destruct (Hm d Hd') as (r & Hr' & [Hrr Hro] & He); [by destruct (p d); rewrite ?Hr in Hred|].
    exists (if p r then f r else r). pose proof (Hc' r) as E. injection E as _ Ee' _ Ero _ Ern.
    split; [by apply Hin|]. unfold redrives. by rewrite Ern, Ero, Ei, Ee, Ee'.
  - intros r' (r & Hr' & ->)%elem_of_update_where. pose proof (Hc' r) as E. injection E as _ _ _ Ero Erk Ern.
    rewrite Ern, Ero, Erk. intros Hn. destruct (Hk r Hr' Hn) as (d & Hd' & ? & ? & ? & ?).
    exists (if p d then f d else d). split; [by apply Hin|]. pose proof (Hc' d) as E. injection E as Ei _ _ _ _ _.
    rewrite Ei. split_and!; [done..| |]; destruct (p d); rewrite ?Hr; auto.
  - intros r1 r2 k (r & Hr1 & ->)%elem_of_update_where (r' & Hr2 & ->)%elem_of_update_where.
    pose proof (Hc' r) as E. injection E as Ei _ _ _ Ek _. pose proof (Hc' r') as E. injection E as Ei' _ _ _ Ek' _.
    rewrite Ek, Ek', Ei, Ei'. by apply Hu.
Qed.

(** A row that redrives nothing comes. *)
Lemma redrive_new ds r :
  dl_redriveReason r = None -> dl_redriven r = None -> (forall k, dl_replayKey r = Some k -> Some k ∉ dl_replayKey <$> ds) ->
  RedriveOk ds -> RedriveOk (ds ++ [r]).
Proof.
  intros Hr Hn Hf [Hm Hk Hu]. constructor.
  - intros d [Hd| ->%list_elem_of_singleton]%elem_of_app Hred; [|done]. destruct (Hm d Hd Hred) as (x & Hx & ?).
    exists x. split; [set_solver|done].
  - intros x [Hx| ->%list_elem_of_singleton]%elem_of_app Hred; [|done]. destruct (Hk x Hx Hred) as (d & Hd & ?).
    exists d. split; [set_solver|done].
  - intros x y k [Hx| ->%list_elem_of_singleton]%elem_of_app [Hy| ->%list_elem_of_singleton]%elem_of_app E E'; [by eapply Hu| | |done].
    + destruct (Hf k E'). rewrite <- E. by apply list_elem_of_fmap_2.
    + destruct (Hf k E). rewrite <- E'. by apply list_elem_of_fmap_2.
Qed.

(** The redrive transaction. *)
Lemma redrive_redriven ds d op reason id now :
  RedriveOk ds -> core d ∈ core <$> ds -> NoDup (dl_id <$> ds) -> count_where (redrivable d) ds = 1%nat ->
  Some (redriveKey (dl_id d)) ∉ dl_replayKey <$> ds ->
  RedriveOk (update_where (redrivable d) (set_redriven now op) ds ++ [redrive_row id d op reason now]).
Proof.
  intros [Hm Hk Hu] Hcore Hids Hone Hkey.
  assert (forall x, x ∈ ds -> dl_id x = dl_id d -> dl_event x = dl_event d) as Hev.
  { intros x Hx E. apply list_elem_of_fmap in Hcore as (x0 & Hc & Hx0). injection Hc as Hi He _ _ _ _.
    assert (x = x0) as -> by (apply (key_unique dl_id ds); [done..|by rewrite E]). done. }
  assert (forall x, x ∈ ds -> (if redrivable d x then set_redriven now op x else x) ∈
    update_where (redrivable d) (set_redriven now op) ds ++ [redrive_row id d op reason now]) as Hin
    by (intros x Hx; apply elem_of_app; left; apply elem_of_update_where; by exists x).
  constructor.
  - intros x' [(x & Hx & ->)%elem_of_update_where| ->%list_elem_of_singleton]%elem_of_app Hred; [|done].
    destruct (redrivable d x) eqn:E.
    + exists (redrive_row id d op reason now). split; [set_solver|]. unfold redrivable, has_delivery_id in E. reflect_hyps.
      cbn. split; [split; cbn; [done|congruence]|]. symmetry. by apply Hev.
    + destruct (Hm x Hx Hred) as (r & Hr & Hrr & He). exists (if redrivable d r then set_redriven now op r else r).
      split; [by apply Hin|]. by destruct (redrivable d r).
  - intros r' [(r & Hr & ->)%elem_of_update_where| ->%list_elem_of_singleton]%elem_of_app Hn.
    + destruct (Hk r Hr) as (x & Hx & H1 & H2 & H3 & H4); [by destruct (redrivable d r)|].
      exists (if redrivable d x then set_redriven now op x else x). split; [by apply Hin|].
      destruct (redrivable d r), (redrivable d x); cbn; by split_and!.
    + destruct (count_where_pos (redrivable d) ds) as (x & Hx & E); [lia|]. exists (set_redriven now op x).
      split; [specialize (Hin x Hx); by rewrite E in Hin|]. unfold redrivable, has_delivery_id in E. reflect_hyps. cbn.
      split_and!; [congruence..|done|done].
  - intros x y k Hx Hy E E'. apply elem_of_app in Hx as [(r & Hr & ->)%elem_of_update_where|Hx];
      apply elem_of_app in Hy as [(r' & Hr' & ->)%elem_of_update_where|Hy].
    all: try (apply list_elem_of_singleton in Hx as ->); try (apply list_elem_of_singleton in Hy as ->); try done.
    + assert (dl_replayKey r = Some k) by by destruct (redrivable d r).
      assert (dl_replayKey r' = Some k) by by destruct (redrivable d r').
      assert (dl_id r = dl_id r') by by eapply Hu. by destruct (redrivable d r), (redrivable d r').
    + assert (Some (redriveKey (dl_id d)) = Some k) as Ek by exact E'. destruct Hkey. rewrite Ek. replace (Some k) with (dl_replayKey r) by by destruct (redrivable d r).
      by apply list_elem_of_fmap_2.
    + assert (Some (redriveKey (dl_id d)) = Some k) as Ek by exact E. destruct Hkey. rewrite Ek. replace (Some k) with (dl_replayKey r') by by destruct (redrivable d r').
      by apply list_elem_of_fmap_2.
Qed.

Section redrive.
Context (sha256 : string -> string) (hmac : string -> string -> string) (decrypt : string -> option string).
Context (parse_url : string -> option Url) (maxAttempts : Z).
Abbreviation handler_step := (handler_step sha256).
Abbreviation job_step := (job_step sha256 hmac decrypt parse_url maxAttempts).
Abbreviation delivery_step := (delivery_step sha256 hmac decrypt parse_url maxAttempts).
Abbreviation Prov := (Prov hmac decrypt parse_url maxAttempts).

Lemma job_redrive b j b' phase sends jobs :
  job_step b j b' phase sends jobs -> RedriveOk (dd_deliveries b) -> RedriveOk (dd_deliveries b').
Proof.
  intros H Hr. destruct H; try done.
  all: try (apply redrive_edit; [intros; first [done | by destruct e]..|done]).
  match goal with Hc : create_delivery _ _ = _ |- _ => apply create_delivery_Ok in Hc as (-> & _ & Hk) end.
  by apply redrive_new.
Qed.

Lemma handler_redrive b h b' next jobs :
  handler_step b h b' next jobs -> NoDup (dl_id <$> dd_deliveries b) -> handler_ok (cores b) h ->
  RedriveOk (dd_deliveries b) -> RedriveOk (dd_deliveries b').
Proof.
  intros H Hid Hok Hr. destruct H; try done.
  - apply create_delivery_Ok in H0 as (-> & _ & Hk). by apply redrive_new.
  - apply create_delivery_Ok in H as (-> & _ & Hk). by apply redrive_new.
  - apply redrive_write_Ok in H as (Hone & _ & -> & _ & Hkey). by apply redrive_redriven.
Qed.

Lemma redrive_step s s' :
  delivery_step s s' -> Prov s /\ RedriveOk (dd_deliveries (ds_db s)) -> Prov s' /\ RedriveOk (dd_deliveries (ds_db s')).
Proof.
  intros H [Hp Hr]. split; [by eapply prov_step|]. destruct H as [s1 H|now]; [|done]. destruct H; try done.
  - by eapply job_redrive.
  - match goal with Hd : job_drop _ _ _ |- _ => by destruct Hd end.
  - pose proof (pv_handlers _ _ _ _ _ Hp) as Hh. pose proof (pv_ids _ _ _ _ _ Hp) as Hid. rewrite <- ids_of_cores in Hid.
    match goal with Hl : ds_handlers s = _ |- _ => rewrite Hl in Hh end. apply Forall_app in Hh as [_ [Hok _]%Forall_cons].
    by eapply handler_redrive.
  - match goal with Ho : outside_change _ _ |- _ => destruct Ho as [_ Hb] end. cbn. by rewrite Hb.
Qed.

(** C19: a dead letter is redriven at most once.  A row carries the mark of a
    redrive exactly when a delivery redrives it; that delivery is the only one,
    carries the same event, and the row is a dead letter; whatever redrives,
    replays, retries, failures and restarts ran concurrently. *)
Theorem dead_letter_redriven_once b s d :
  NoDup (wh_id <$> dd_webhooks b) -> rtc delivery_step (fresh_service b) s -> d ∈ dd_deliveries (ds_db s) ->
  (dl_redriven d <> None <-> exists r, r ∈ dd_deliveries (ds_db s) /\ redrives r d) /\
  (forall r, r ∈ dd_deliveries (ds_db s) -> redrives r d -> dl_event r = dl_event d /\ dl_deadLettered d <> None) /\
  (forall r r', r ∈ dd_deliveries (ds_db s) -> r' ∈ dd_deliveries (ds_db s) -> redrives r d -> redrives r' d -> r = r').
Proof.
  intros Hw Hr Hd. assert (Prov s /\ RedriveOk (dd_deliveries (ds_db s))) as [Hp [Hm Hk Hu]].
  { eapply (rtc_invariant delivery_step (fun s => Prov s /\ RedriveOk (dd_deliveries (ds_db s)))); [apply redrive_step|exact Hr|].
    split; [by apply prov_fresh|]. constructor; cbn; intros; by exfalso; eapply not_elem_of_nil. }
  pose proof (pv_ids _ _ _ _ _ Hp) as Hid. rewrite <- ids_of_cores in Hid.
  assert (forall r, r ∈ dd_deliveries (ds_db s) -> redrives r d ->
    dl_replayKey r = Some (redriveKey (dl_id d)) /\ dl_redriven d <> None /\ dl_deadLettered d <> None) as Hkd.
  { intros r Hr' [Hn Ho]. destruct (Hk r Hr' Hn) as (x & Hx & Ho' & Hkx & Hrx & Hdx).
    assert (x = d) as -> by (apply (key_unique dl_id (dd_deliveries (ds_db s))); [done..|congruence]). done. }
  assert (forall r r', r ∈ dd_deliveries (ds_db s) -> r' ∈ dd_deliveries (ds_db s) -> redrives r d -> redrives r' d -> r = r') as Huq.
  { intros r r' Hi Hi' H H'. apply (key_unique dl_id (dd_deliveries (ds_db s))); [done..|].
    eapply Hu; [done|done|by apply Hkd|by apply Hkd]. }
  split_and!; [split|..]; [| |intros r Hi H; destruct (Hkd r Hi H) as (_ & Hred & Hdead)|done].
  - intros Hred. destruct (Hm d Hd Hred) as (r & ? & ? & _). by exists r.
  - intros (r & Hi & H). by destruct (Hkd r Hi H) as (_ & ? & _).
  - destruct (Hm d Hd Hred) as (r' & Hi' & H' & He). by rewrite (Huq r r' Hi Hi' H H').
Qed.
End redrive.

(** An event whose two attempts fail is dead-lettered and redriven. *)
Lemma demo_redrive :
  exists s, rtc DemoDelivery.step (fresh_service DemoDelivery.db) s /\
    ((fun d => (dl_id d, bool_decide (is_Some (dl_deadLettered d)), bool_decide (is_Some (dl_redriven d)), dl_replayOf d))
       <$> dd_deliveries (ds_db s)) =
      [("d1", false, false, None); ("d2", true, true, None); ("d3", false, false, Some "d2")].
Proof.
  eexists. split.
  { run_step (apply step_work; event_arrives "e1" 1700000000000).
    run_step (apply step_work; row_created "d1" 1700000000000).
    run_step (apply step_work; row_scheduled).
    run_step (apply step_work; fan_out_ends).
    run_step (apply step_work; circuit_allows 1700000000001).
    run_step (apply step_work; row_read 1700000000001).
    run_step (apply step_work; receiver_answers (Responded 503 "busy") 1700000000021).
    run_step (apply step_work; failure_stored).
    run_step (apply step_work; retry_created "d2" 1700000000030).
    run_step (apply step_work; circuit_updated 1700000000031).
    run_step (apply step_work; circuit_allows 1700000001031).
    run_step (apply step_work; row_read 1700000001031).
    run_step (apply step_work; receiver_answers (NoAnswer true) 1700000011051).
    run_step (apply step_work; job_moves; eapply (job_exhausted _ _ _ _ _ _ _ _ _ 1700000011052); [computes|by vm_compute]).
    run_step (apply step_work; circuit_updated 1700000011053).
    run_step (apply step_work; eapply (work_redrive _ _ _ _ _ _ "o1" "d2" "op" "receiver is back"); computes).
    run_step (apply step_work; handler_moves; eapply (redrive_commit _ _ _ _ _ _ "d3" "a1" 1700000020000); computes).
    apply rtc_refl. }
  by vm_compute.
Qed.

Lemma dead_letter_redriven_once_witness :
  exists s d r, rtc DemoDelivery.step (fresh_service DemoDelivery.db) s /\ d ∈ dd_deliveries (ds_db s) /\
    dl_redriven d <> None /\ r ∈ dd_deliveries (ds_db s) /\ redrives r d.
Proof.
  destruct demo_redrive as (s & Hr & Hd). destruct (dd_deliveries (ds_db s)) as [|d1 [|d l]] eqn:E; [discriminate Hd..|].
  injection Hd as _ _ _ _ Hid _ Hred _ _. assert (d ∈ dd_deliveries (ds_db s)) as Hin by (rewrite E; set_solver).
  assert (dl_redriven d <> None) as Hred'.
  { intros Hn. rewrite Hn in Hred. by rewrite bool_decide_false in Hred by by intros [? ?]. }
  destruct (dead_letter_redriven_once _ _ _ _ _ DemoDelivery.db s d ltac:(apply NoDup_singleton) Hr Hin) as [[Hm _] _].
  destruct (Hm Hred') as (r & Hrin & Hrr). exists s, d, r. by split_and!.
Defined.

(** ** The circuit breaker *)

(** The automaton an endpoint's circuit implements. *)
Inductive Gate := GClosed (failures : Z) | GOpen (failures since : Z) | GHalfOpen (failures : Z).

Definition gate_allows (window now : Z) (g : Gate) : bool * Gate :=
  match g with
  | GOpen n since => if now - since >=? window then (true, GHalfOpen n) else (false, g)
  | _ => (true, g)
  end.

Definition gate_failure (threshold now : Z) (g : Gate) : Gate :=
  match g with
  | GClosed n => if n + 1 >=? threshold then GOpen (n + 1) now else GClosed (n + 1)
  | GOpen n since => GOpen (n + 1) since
  | GHalfOpen n => GOpen (n + 1) now
  end.

(** A stored circuit as a state of the automaton with its configuration; an
    endpoint without one has a closed circuit. *)
Definition gate_of (c : Circuit) : Gate :=
  match ct_state c with
  | WebhookCircuitState.CLOSED => GClosed (ct_failureCount c)
  | WebhookCircuitState.OPEN => GOpen (ct_failureCount c) (default 0 (ct_openedAt c))
  | WebhookCircuitState.HALF_OPEN => GHalfOpen (ct_failureCount c)
  end.

Definition gate_at (id : string) (cs : list Circuit) : Gate * Z * Z :=
  let c := default (new_circuit id DEFAULT_FAILURE_THRESHOLD DEFAULT_RECOVERY_WINDOW_MS) (find_circuit id cs) in
  (gate_of c, ct_failureThreshold c, ct_recoveryWindowMs c).

(** An open circuit knows since when. *)
Definition circuits_ok (cs : list Circuit) : Prop :=
  Forall (fun c => ct_state c = WebhookCircuitState.OPEN -> ct_openedAt c <> None) cs.

Lemma has_circuit_true id c : has_circuit id c = true <-> ct_webhookId c = id.
Proof. apply bool_decide_eq_true. Qed.

(** Everything but the circuit of one endpoint. *)
Definition untouched (id : string) (cs cs' : list Circuit) : Prop :=
  forall id', id' <> id -> find_circuit id' cs' = find_circuit id' cs.

Lemma find_update_other id id' p f cs :
  (forall c, ct_webhookId (f c) = ct_webhookId c) -> (forall c, p c = true -> has_circuit id c = true) -> id' <> id ->
  find_circuit id' (update_where p f cs) = find_circuit id' cs.
Proof.
  intros Hf Hp Hne. unfold find_circuit. rewrite find_where_update by (intros c; unfold has_circuit; by rewrite Hf).
  destruct (find_where (has_circuit id') cs) as [c|] eqn:E; [|done]. cbn. destruct (p c) eqn:Epc; [|done].
  apply find_where_Some in E as [_ E]. apply has_circuit_true in E. apply Hp, has_circuit_true in Epc. congruence.
Qed.

Lemma find_update_own id p f cs c :
  (forall c, ct_webhookId (f c) = ct_webhookId c) -> find_circuit id cs = Some c -> p c = true ->
  find_circuit id (update_where p f cs) = Some (f c).
Proof.
  intros Hf Hc Hp. unfold find_circuit in *. rewrite find_where_update by (intros x; unfold has_circuit; by rewrite Hf).
  rewrite Hc. cbn. by rewrite Hp.
Qed.

Lemma circuits_ok_update p f cs :
  circuits_ok cs ->
  (forall c, c ∈ cs -> (ct_state c = WebhookCircuitState.OPEN -> ct_openedAt c <> None) ->
     ct_state (f c) = WebhookCircuitState.OPEN -> ct_openedAt (f c) <> None) ->
  circuits_ok (update_where p f cs).
Proof.
  intros Hok Hf. apply Forall_forall. intros c' (c & Hc & ->)%elem_of_update_where. unfold circuits_ok in Hok.
  rewrite Forall_forall in Hok. destruct (p c); [|by apply Hok]. apply Hf; [done|by apply Hok].
Qed.

(** [getOrCreateCircuitState] finds or adds the closed default. *)
Lemma getOrCreate_spec id cs c cs' :
  getOrCreateCircuitState id cs = (c, cs') -> circuits_ok cs ->
  find_circuit id cs' = Some c /\ ct_webhookId c = id /\ gate_at id cs = (gate_of c, ct_failureThreshold c, ct_recoveryWindowMs c) /\
  untouched id cs cs' /\ circuits_ok cs' /\ (ct_state c = WebhookCircuitState.OPEN -> ct_openedAt c <> None).
Proof.
  unfold getOrCreateCircuitState, gate_at. intros H Hok. destruct (find_circuit id cs) as [c0|] eqn:E; injection H as <- <-.
  - pose proof E as Hin. apply find_where_Some in Hin as [Hin Hid%has_circuit_true]. split_and!; [done..|].
    unfold circuits_ok in Hok. rewrite Forall_forall in Hok. by apply Hok.
  - unfold initializeCircuit. rewrite E. cbn. split_and!; [|done|done| | |done].
    + unfold find_circuit in *. rewrite find_where_app, E. cbn. unfold has_circuit. by rewrite bool_decide_true.
    + intros id' Hne. unfold find_circuit. rewrite find_where_app. destruct (find_where (has_circuit id') cs); [done|]. cbn.
      unfold has_circuit. by rewrite bool_decide_false by (cbn; congruence).
    + apply Forall_app_2; [done|]. by apply Forall_singleton.
Qed.

Lemma attempt_refines id now c cs :
  find_circuit id cs = Some c -> ct_webhookId c = id -> circuits_ok cs ->
  (ct_state c = WebhookCircuitState.OPEN -> ct_openedAt c <> None) ->
  let '(allowed, cs') := match ct_state c with
    | WebhookCircuitState.OPEN =>
        if shouldTransitionToHalfOpen now c then (true, transitionToHalfOpen id now cs) else (false, cs)
    | _ => (true, cs)
    end in
  let g := gate_allows (ct_recoveryWindowMs c) now (gate_of c) in
  (allowed, gate_at id cs') = (g.1, (g.2, ct_failureThreshold c, ct_recoveryWindowMs c)) /\
  untouched id cs cs' /\ circuits_ok cs'.
Proof.
  intros Hf Hid Hok Hop. destruct (ct_state c) eqn:Es; cbn.
  - unfold gate_at, gate_of. rewrite Hf. cbn. rewrite Es. done.
  - unfold gate_of. rewrite Es. cbn. destruct (ct_openedAt c) as [t|] eqn:Et; [|by destruct Hop].
    unfold shouldTransitionToHalfOpen. rewrite Et. cbn. destruct (now - t >=? ct_recoveryWindowMs c) eqn:Ew.
    + split_and!.
      * unfold gate_at, transitionToHalfOpen. erewrite find_update_own; [done|done|done|].
        apply andb_true_iff. split; [by apply has_circuit_true|by apply bool_decide_eq_true].
      * intros id' Hne. apply (find_update_other id); [done| |done]. by intros x [? _]%andb_true_iff.
      * by apply circuits_ok_update.
    + unfold gate_at. rewrite Hf. unfold gate_of. cbn. by rewrite Es, Et.
  - unfold gate_at, gate_of. rewrite Hf. cbn. rewrite Es. done.
Qed.

(** C33: each operation of the circuit breaker, run by itself, implements its
    automaton.  A delivery is refused exactly when the circuit of its endpoint is open
    and was opened less than the recovery window ago; the first one after that makes
    it half open, and a half-open circuit refuses none, so that every delivery until
    the next recorded outcome is let through and not one probe; a success closes the
    circuit and resets the count; a failure counts, opens a closed circuit at the
    threshold and a half-open one at once.  No operation touches the circuit of
    another endpoint, and an open circuit always knows when it was opened. *)
Theorem circuit_refines_gate id now cs g threshold window :
  circuits_ok cs -> gate_at id cs = (g, threshold, window) ->
  (let '(allowed, cs') := canAttemptDelivery id now cs in
   (allowed, gate_at id cs') = ((gate_allows window now g).1, ((gate_allows window now g).2, threshold, window)) /\
   untouched id cs cs' /\ circuits_ok cs') /\
  (gate_at id (recordSuccess id now cs) = (GClosed 0, threshold, window) /\
   untouched id cs (recordSuccess id now cs) /\ circuits_ok (recordSuccess id now cs)) /\
  (gate_at id (recordFailure id false now cs) = (gate_failure threshold now g, threshold, window) /\
   untouched id cs (recordFailure id false now cs) /\ circuits_ok (recordFailure id false now cs)).
Proof.
  intros Hok Hg. destruct (getOrCreateCircuitState id cs) as [c cs1] eqn:E.
  destruct (getOrCreate_spec id cs c cs1 E Hok) as (Hf & Hid & Hga & Hun & Hok1 & Hop). rewrite Hg in Hga.
  injection Hga as -> -> ->. split_and!.
  - unfold canAttemptDelivery. rewrite E.
    pose proof (attempt_refines id now c cs1 Hf Hid Hok1 Hop) as H. destruct (ct_state c);
      [|destruct (shouldTransitionToHalfOpen now c)|]; cbn in H |- *; destruct H as (H1 & H2 & H3);
      split_and!; try done; intros id' Hne; rewrite (H2 id' Hne); by apply Hun.
  - unfold recordSuccess. rewrite E. unfold gate_at. by erewrite find_update_own by (done || by apply has_circuit_true).
  - unfold recordSuccess. rewrite E. intros id' Hne. rewrite (find_update_other id) by done. by apply Hun.
  - unfold recordSuccess. rewrite E. by apply circuits_ok_update.
  - unfold recordFailure. rewrite E. unfold gate_at.
    erewrite find_update_own; [|intros x; destruct (ct_state c); [by destruct (_ >=? _)|done|done]|done|by apply has_circuit_true].
    unfold gate_of. destruct (ct_state c) eqn:Es; cbn; [destruct (_ >=? _) eqn:Et|..]; cbn; by rewrite ?Es.
  - unfold recordFailure. rewrite E. intros id' Hne. rewrite (find_update_other id); [by apply Hun| |done|done].
    intros x. destruct (ct_state c); [by destruct (_ >=? _)|done|done].
  - unfold recordFailure. rewrite E. apply circuits_ok_update; [done|]. intros x _ Hx. destruct (ct_state c); [|exact Hx|done].
    by destruct (_ >=? _).
Qed.

(** Attempts one after the other, with no outcome recorded in between. *)
Fixpoint attempts (id : string) (nows : list Z) (cs : list Circuit) : list bool :=
  match nows with
  | [] => []
  | now :: nows => let '(allowed, cs') := canAttemptDelivery id now cs in allowed :: attempts id nows cs'
  end.

(** A half-open circuit lets every attempt through, whatever their number. *)
Lemma half_open_admits_all id nows cs c :
  find_circuit id cs = Some c -> ct_state c = WebhookCircuitState.HALF_OPEN -> Forall (eq true) (attempts id nows cs).
Proof.
  intros Hf Hs. induction nows as [|now nows IH]; cbn; [constructor|].
  assert (canAttemptDelivery id now cs = (true, cs)) as ->; [|by constructor].
  unfold canAttemptDelivery, getOrCreateCircuitState. by rewrite Hf, Hs.
Qed.

Lemma circuit_refines_gate_witness :
  circuits_ok [open_circuit] /\ gate_at "w1" [open_circuit] = (GOpen 5 1699999999000, 5, 300000) /\
  (canAttemptDelivery "w1" 1700000000000 [open_circuit]).1 = false /\
  gate_at "w1" (recordFailure "w1" false 1700000000000 [open_circuit]) = (GOpen 6 1699999999000, 5, 300000).
Proof.
  assert (circuits_ok [open_circuit]) as Hok by by apply Forall_singleton.
  assert (gate_at "w1" [open_circuit] = (GOpen 5 1699999999000, 5, 300000)) as Hg by by vm_compute.
  destruct (circuit_refines_gate "w1" 1700000000000 [open_circuit] _ _ _ Hok Hg) as (Ha & _ & Hf & _).
  split_and!; [done..| |exact Hf]. destruct (canAttemptDelivery _ _ _) as [a cs']. destruct Ha as [Ha _]. by injection Ha as ->.
Defined.
