(* ===== verification/Anchoring.v ===== *)
(** * Anchoring of proofs on the contract

    Model of [src/jobs/anchoring-worker.service.ts] (claiming, executing and
    retrying intents), of the operator decisions [retryProofAnchoring] and
    [abandonProofAnchoring] of [src/proofs/proofs.service.ts], and of the three
    jobs that compare the database with the contract:
    [src/jobs/anchoring-reconciler.service.ts],
    [src/proofs/proof-reconciliation.service.ts] and
    [src/jobs/revocation-propagation-reconciler.service.ts].  An execution reads
    its intent, calls the contract and writes the outcome; other workers may act
    between these steps, so each is a definition of its own. *)

From S2P Require Import Prelude JsData DecimalText Calendar Schema Canonical AuditChain EmployerPayment.
From S2P Require Import ProofStore Credentials Issuance CircuitBreaker Contract.
From Stdlib Require Import Ascii.

Local Open Scope string_scope.
Local Open Scope Z_scope.
#[local] Arguments String.append !_ _ : simpl nomatch.

(** ** Constants and error classes *)

Definition MAX_ATTEMPTS : Z := 10.
Definition BACKOFF_BASE_MS : Z := 30000.
Definition BACKOFF_CAP_MS : Z := 60 * 60000.
Definition BATCH_SIZE : nat := 5.
Definition STALE_PROCESSING_THRESHOLD_MS : Z := 5 * 60000.

Definition POISON_INPUT_PATTERNS : list string :=
  ["proof not found"; "invalid contract id"; "contract not found"].
Definition CHAIN_REJECTED_PATTERNS : list string :=
  ["already registered"; "already exists"; "unauthorized"; "access denied"].
Definition PERMANENT_ERROR_PATTERNS : list string :=
  (POISON_INPUT_PATTERNS ++ CHAIN_REJECTED_PATTERNS)%list.

Definition isPermanentError (message : string) : bool := matches_any PERMANENT_ERROR_PATTERNS message.
Definition isPoisonInput (message : string) : bool := matches_any POISON_INPUT_PATTERNS message.

Definition computeNextRetryAt (now attemptCount : Z) : Z :=
  now + Z.min (BACKOFF_BASE_MS * 2 ^ (attemptCount - 1)) BACKOFF_CAP_MS.

(** ** Row updates *)

(** [data] of the updates: status, retry time, and the fields they set besides. *)
Definition to_pending (nextRetryAt : Z) (i : Intent) : Intent :=
  {| i_core := i_core i; i_status := AnchoringStatus.PENDING; i_attemptCount := i_attemptCount i;
     i_lastAttemptAt := i_lastAttemptAt i; i_nextRetryAt := Some nextRetryAt;
     i_transactionHash := i_transactionHash i; i_ledger := i_ledger i;
     i_lastErrorSafe := i_lastErrorSafe i; i_permanentError := i_permanentError i;
     i_quarantinedAt := i_quarantinedAt i; i_quarantineReasonCode := i_quarantineReasonCode i;
     i_quarantineDecision := i_quarantineDecision i; i_decidedById := i_decidedById i;
     i_decidedAt := i_decidedAt i |}.

Definition to_processing (now : Z) (i : Intent) : Intent :=
  {| i_core := i_core i; i_status := AnchoringStatus.PROCESSING; i_attemptCount := i_attemptCount i;
     i_lastAttemptAt := Some now; i_nextRetryAt := i_nextRetryAt i;
     i_transactionHash := i_transactionHash i; i_ledger := i_ledger i;
     i_lastErrorSafe := i_lastErrorSafe i; i_permanentError := i_permanentError i;
     i_quarantinedAt := i_quarantinedAt i; i_quarantineReasonCode := i_quarantineReasonCode i;
     i_quarantineDecision := i_quarantineDecision i; i_decidedById := i_decidedById i;
     i_decidedAt := i_decidedAt i |}.

Definition to_confirmed (attempts now : Z) (txHash : string) (ledger : option string) (i : Intent) : Intent :=
  {| i_core := i_core i; i_status := AnchoringStatus.CONFIRMED; i_attemptCount := attempts;
     i_lastAttemptAt := Some now; i_nextRetryAt := i_nextRetryAt i;
     i_transactionHash := Some txHash; i_ledger := ledger;
     i_lastErrorSafe := None; i_permanentError := false;
     i_quarantinedAt := i_quarantinedAt i; i_quarantineReasonCode := i_quarantineReasonCode i;
     i_quarantineDecision := i_quarantineDecision i; i_decidedById := i_decidedById i;
     i_decidedAt := i_decidedAt i |}.

Definition to_quarantined (attempts now : Z) (error : string) (reason : QuarantineReasonCode.t)
    (i : Intent) : Intent :=
  {| i_core := i_core i; i_status := AnchoringStatus.QUARANTINED; i_attemptCount := attempts;
     i_lastAttemptAt := Some now; i_nextRetryAt := None;
     i_transactionHash := i_transactionHash i; i_ledger := i_ledger i;
     i_lastErrorSafe := Some error; i_permanentError := true;
     i_quarantinedAt := Some now; i_quarantineReasonCode := Some reason;
     i_quarantineDecision := QuarantineDecision.PENDING; i_decidedById := i_decidedById i;
     i_decidedAt := i_decidedAt i |}.

Definition to_retry (attempts now nextRetryAt : Z) (error : string) (i : Intent) : Intent :=
  {| i_core := i_core i; i_status := AnchoringStatus.PENDING; i_attemptCount := attempts;
     i_lastAttemptAt := Some now; i_nextRetryAt := Some nextRetryAt;
     i_transactionHash := i_transactionHash i; i_ledger := i_ledger i;
     i_lastErrorSafe := Some error; i_permanentError := false;
     i_quarantinedAt := i_quarantinedAt i; i_quarantineReasonCode := i_quarantineReasonCode i;
     i_quarantineDecision := i_quarantineDecision i; i_decidedById := i_decidedById i;
     i_decidedAt := i_decidedAt i |}.

Definition copy_confirmed (txHash ledger : option string) (i : Intent) : Intent :=
  {| i_core := i_core i; i_status := AnchoringStatus.CONFIRMED; i_attemptCount := i_attemptCount i;
     i_lastAttemptAt := i_lastAttemptAt i; i_nextRetryAt := i_nextRetryAt i;
     i_transactionHash := txHash; i_ledger := ledger;
     i_lastErrorSafe := None; i_permanentError := i_permanentError i;
     i_quarantinedAt := i_quarantinedAt i; i_quarantineReasonCode := i_quarantineReasonCode i;
     i_quarantineDecision := i_quarantineDecision i; i_decidedById := i_decidedById i;
     i_decidedAt := i_decidedAt i |}.

Definition to_redriven (now : Z) (by_ : string) (i : Intent) : Intent :=
  {| i_core := i_core i; i_status := AnchoringStatus.PENDING; i_attemptCount := i_attemptCount i;
     i_lastAttemptAt := i_lastAttemptAt i; i_nextRetryAt := Some now;
     i_transactionHash := i_transactionHash i; i_ledger := i_ledger i;
     i_lastErrorSafe := i_lastErrorSafe i; i_permanentError := false;
     i_quarantinedAt := i_quarantinedAt i; i_quarantineReasonCode := i_quarantineReasonCode i;
     i_quarantineDecision := QuarantineDecision.REDRIVEN; i_decidedById := Some by_;
     i_decidedAt := Some now |}.

Definition to_abandoned (now : Z) (by_ : string) (i : Intent) : Intent :=
  {| i_core := i_core i; i_status := i_status i; i_attemptCount := i_attemptCount i;
     i_lastAttemptAt := i_lastAttemptAt i; i_nextRetryAt := i_nextRetryAt i;
     i_transactionHash := i_transactionHash i; i_ledger := i_ledger i;
     i_lastErrorSafe := i_lastErrorSafe i; i_permanentError := i_permanentError i;
     i_quarantinedAt := i_quarantinedAt i; i_quarantineReasonCode := i_quarantineReasonCode i;
     i_quarantineDecision := QuarantineDecision.ABANDONED; i_decidedById := Some by_;
     i_decidedAt := Some now |}.

Definition to_requeued (now : Z) (i : Intent) : Intent :=
  {| i_core := i_core i; i_status := AnchoringStatus.PENDING; i_attemptCount := i_attemptCount i;
     i_lastAttemptAt := i_lastAttemptAt i; i_nextRetryAt := Some now;
     i_transactionHash := i_transactionHash i; i_ledger := i_ledger i;
     i_lastErrorSafe := None; i_permanentError := false;
     i_quarantinedAt := i_quarantinedAt i; i_quarantineReasonCode := i_quarantineReasonCode i;
     i_quarantineDecision := i_quarantineDecision i; i_decidedById := i_decidedById i;
     i_decidedAt := i_decidedAt i |}.

(** ** The worker *)

(** Which operations may be claimed, and how many intents. *)
Definition claimPlan (register revoke : CircuitState.t) : list AnchoringOperation.t * nat :=
  let operations :=
    ((if bool_decide (register = CircuitState.open) then [] else [AnchoringOperation.REGISTER]) ++
     (if bool_decide (revoke = CircuitState.open) then [] else [AnchoringOperation.REVOKE]))%list in
  if (length operations =? 0)%nat then (operations, O) else
  let probing :=
    (bool_decide (register = CircuitState.half_open) &&
     bool_decide (AnchoringOperation.REGISTER ∈ operations)) ||
    (bool_decide (revoke = CircuitState.half_open) &&
     bool_decide (AnchoringOperation.REVOKE ∈ operations)) in
  (operations, if probing then 1%nat else BATCH_SIZE).

Definition is_stale (now : Z) (i : Intent) : bool :=
  bool_decide (i_status i = AnchoringStatus.PROCESSING) &&
  match i_lastAttemptAt i with
  | Some t => t <? now - STALE_PROCESSING_THRESHOLD_MS
  | None => false
  end.

Definition resetStaleProcessing (now : Z) (s : Store) : Store :=
  map_intents (is_stale now) (to_pending now) s.

(** The candidates of the claim: due, allowed, and not locked by another claim
    in progress ([FOR UPDATE SKIP LOCKED]). *)
Definition claimable_intent (now : Z) (operations : list AnchoringOperation.t) (locked : string -> bool)
    (i : Intent) : bool :=
  bool_decide (i_status i = AnchoringStatus.PENDING) &&
  match i_nextRetryAt i with None => true | Some t => t <=? now end &&
  bool_decide (i_operation i ∈ operations) && negb (locked (i_id i)).

Definition created_le (i j : Intent) : bool := ic_createdAt (i_core i) <=? ic_createdAt (i_core j).

Definition claim_ids (now : Z) (plan : list AnchoringOperation.t * nat) (locked : string -> bool)
    (s : Store) : list string :=
  (fun i => i_id i) <$>
    take plan.2 (js_sort created_le (List.filter (claimable_intent now plan.1 locked) (intents s))).

(** The claiming statement of [processBatch]. *)
Definition claim (now : Z) (plan : list AnchoringOperation.t * nat) (locked : string -> bool) (s : Store)
    : Store * list string :=
  let ids := claim_ids now plan locked s in
  (map_intents (fun i => bool_decide (i_id i ∈ ids)) (to_processing now) s, ids).

(** What an execution read: the row, the proof's commitment and expiry, and
    another confirmed intent of the same proof and operation, if any. *)
Record Execution := {
  ex_intent : Intent;
  ex_commitment : string;
  ex_expiresAt : Z;
  ex_existing : option Intent;
}.

Definition confirmed_twin (i j : Intent) : bool :=
  bool_decide (intent_key j = intent_key i) && bool_decide (i_status j = AnchoringStatus.CONFIRMED) &&
  negb (bool_decide (i_id j = i_id i)).

Definition exec_read (intentId : string) (s : Store) : option Execution :=
  i ← find_intent intentId s;
  p ← find_proof (i_proofId i) s;
  Some {| ex_intent := i; ex_commitment := default (i_proofId i) (pc_commitment (p_core p));
          ex_expiresAt := p_expiresAt p; ex_existing := find_where (confirmed_twin i) (intents s) |}.

Section worker.
Context (sha256 : string -> string) (ccfg : ContractConfig).
(** [redactError], and the message of an error the database reports. *)
Context (redact : string -> string) (dbMessage : DbError -> string).

(** The contract call, unless a twin is confirmed already. *)
Definition exec_call (run : list string -> CliOutcome) (x : Execution) : result string AnchorProofResult :=
  match i_operation (ex_intent x) with
  | AnchoringOperation.REGISTER =>
      anchorProof sha256 ccfg run (i_proofId (ex_intent x)) (ex_commitment x) (ex_expiresAt x)
  | AnchoringOperation.REVOKE => revokeOnChain sha256 ccfg run (i_proofId (ex_intent x))
  end.

(** ["<txhash>:<ledger>"] or ["<txhash>"] *)
Definition split_transaction (h : string) : string * option string :=
  match split_on ":" h with
  | tx :: ledger :: _ => (tx, Some ledger)
  | _ => (h, None)
  end.

(** Why an execution failed, and whether the code marked it permanent. *)
Definition exec_error (op : AnchoringOperation.t) (r : result string AnchorProofResult)
    : option (string * bool) :=
  match r with
  | Err m => Some (m, false)
  | Ok (Unanchored (failed m)) => Some (m, false)
  | Ok (Unanchored disabled) =>
      Some (String.append (match op with AnchoringOperation.REGISTER => "Anchoring "
                                    | AnchoringOperation.REVOKE => "Revocation " end) "disabled", true)
  | Ok (Unanchored circuit_open) | Ok (Anchored _) => None
  end.

(** The [catch] block. *)
Definition fail_intent (now : Z) (x : Execution) (message : string) (explicitlyPermanent : bool)
    (s : Store) : result DbError Store :=
  let attempts := i_attemptCount (ex_intent x) + 1 in
  let poisonInput := isPoisonInput message in
  let chainRejected := negb poisonInput && (explicitlyPermanent || isPermanentError message) in
  let attemptsExhausted := MAX_ATTEMPTS <=? attempts in
  let permanent := poisonInput || chainRejected || attemptsExhausted || isPermanentContractError message in
  let id := i_id (ex_intent x) in
  if permanent then
    let reason := if poisonInput then QuarantineReasonCode.POISON_INPUT
                  else if chainRejected then QuarantineReasonCode.CHAIN_REJECTED
                  else QuarantineReasonCode.MAX_ATTEMPTS_EXCEEDED in
    update_intent id (to_quarantined attempts now (redact message) reason) s
  else update_intent id (to_retry attempts now (computeNextRetryAt now attempts) (redact message)) s.

(** The two updates of the confirming transaction. *)
Definition confirm (now : Z) (x : Execution) (transactionHash : string) (s : Store) : result DbError Store :=
  let '(txHash, ledger) := split_transaction transactionHash in
  s ← update_intent (i_id (ex_intent x))
        (to_confirmed (i_attemptCount (ex_intent x) + 1) now txHash ledger) s;
  update_proof (i_proofId (ex_intent x)) (set_transaction txHash now) s.

(** [executeIntent] after the contract answered. *)
Definition exec_write (now : Z) (x : Execution) (r : result string AnchorProofResult) (s : Store)
    : result DbError Store :=
  match ex_existing x with
  | Some twin => update_intent (i_id (ex_intent x)) (copy_confirmed (i_transactionHash twin) (i_ledger twin)) s
  | None =>
      match r with
      | Ok (Unanchored circuit_open) => update_intent (i_id (ex_intent x)) (to_pending now) s
      | Ok (Anchored h) =>
          match confirm now x h s with
          | Ok s => Ok s
          | Err e => fail_intent now x (dbMessage e) false s
          end
      | _ =>
          match exec_error (i_operation (ex_intent x)) r with
          | Some (m, permanent) => fail_intent now x m permanent s
          | None => Ok s
          end
      end
  end.

(** [processIntent]: one intent by id, outside the claim cycle. *)
Definition process_read (intentId : string) (s : Store) : option Execution :=
  i ← find_intent intentId s;
  match i_status i with
  | AnchoringStatus.CONFIRMED | AnchoringStatus.FAILED | AnchoringStatus.QUARANTINED => None
  | _ => exec_read intentId s
  end.
End worker.

(** ** Operator decisions *)

Inductive OperatorError := OpProofNotFound | OpIntentNotFound | OpNotEligible | OpDb (e : DbError).

Definition visible_proof (user : User) (proofId : string) (p : Proof) : bool :=
  has_id proofId p &&
  (bool_decide (u_role user = UserRole.ADMIN) || bool_decide (p_userId p = u_id user)).

Definition load_intent (s : Store) (user : User) (proofId intentId : string) : result OperatorError Intent :=
  match find_where (visible_proof user proofId) (proofs s) with
  | None => Err OpProofNotFound
  | Some p =>
      match find_where (fun i => has_intent_id intentId i && bool_decide (i_proofId i = p_id p)) (intents s) with
      | None => Err OpIntentNotFound
      | Some i => Ok i
      end
  end.

(** What is left to write after the reads: nothing, or an update of the row. *)
Inductive OperatorDecision :=
| Redrive (proofId intentId by_ : string)
| Abandon (proofId intentId by_ : string).

Definition retryProofAnchoring (s : Store) (user : User) (proofId intentId : string)
    : result OperatorError OperatorDecision :=
  i ← load_intent s user proofId intentId;
  _ ← throw_if (negb (bool_decide (i_status i = AnchoringStatus.QUARANTINED)) ||
                bool_decide (i_quarantineDecision i = QuarantineDecision.ABANDONED)) OpNotEligible;
  Ok (Redrive proofId intentId (u_id user)).

(** [None]: already abandoned, answered as it is. *)
Definition abandonProofAnchoring (s : Store) (user : User) (proofId intentId : string)
    : result OperatorError (option OperatorDecision) :=
  i ← load_intent s user proofId intentId;
  _ ← throw_if (negb (bool_decide (i_status i = AnchoringStatus.QUARANTINED))) OpNotEligible;
  if bool_decide (i_quarantineDecision i = QuarantineDecision.ABANDONED) then Ok None
  else Ok (Some (Abandon proofId intentId (u_id user))).

(** The audit record of a decision. *)
Definition decision_audit (now : Z) (proofId intentId by_ action atKey : string) : AuditArgs :=
  {| aa_organizationId := None; aa_actorType := "user"; aa_actorId := Some by_; aa_action := action;
     aa_resourceType := "proof"; aa_resourceId := Some proofId;
     aa_metadata := Some (JObj [("intentId", JStr intentId); (atKey, jiso now)]); aa_createdAt := None |}.

(** The transaction. *)
Definition decide_intent (now : Z) (auditId : string) (d : OperatorDecision) (s : Store)
    : result DbError Store :=
  match d with
  | Redrive proofId id by_ =>
      s ← update_intent id (to_redriven now by_) s;
      create_audit auditId now (decision_audit now proofId id by_ "anchoring_intent.retried" "requeuedAt") s
  | Abandon proofId id by_ =>
      s ← update_intent id (to_abandoned now by_) s;
      create_audit auditId now (decision_audit now proofId id by_ "anchoring_intent.abandoned" "decidedAt") s
  end.

(** ** Comparing the database with the contract *)

Definition ANCHOR_RECONCILE_BATCH : nat := 20.
Definition PROOF_RECONCILE_BATCH : nat := 50.
Definition PROPAGATION_BATCH : nat := 20.

Definition updated_le (p q : Proof) : bool := p_updatedAt p <=? p_updatedAt q.

Definition anchored_row (p : Proof) : bool :=
  bool_decide (is_Some (p_contractTransactionHash p)) &&
  (bool_decide (p_status p = ProofStatus.ACTIVE) || bool_decide (p_status p = ProofStatus.REVOKED)).

(** The rows a cycle looks at. *)
Definition reconcile_batch (size : nat) (s : Store) : list Proof :=
  take size (js_sort updated_le (List.filter anchored_row (proofs s))).

Definition REVIEW_REASON :=
  "reconciler: on-chain proof is neither valid nor revoked while local status is ACTIVE".

Definition review_intent (proofId intentId : string) (now : Z) : Intent :=
  {| i_core := {| ic_id := intentId; ic_proofId := proofId;
                  ic_operation := AnchoringOperation.REGISTER; ic_createdAt := now |};
     i_status := AnchoringStatus.QUARANTINED; i_attemptCount := 0; i_lastAttemptAt := None;
     i_nextRetryAt := None; i_transactionHash := None; i_ledger := None;
     i_lastErrorSafe := Some REVIEW_REASON; i_permanentError := true; i_quarantinedAt := Some now;
     i_quarantineReasonCode := Some QuarantineReasonCode.MANUAL_REVIEW;
     i_quarantineDecision := QuarantineDecision.PENDING; i_decidedById := None; i_decidedAt := None |}.

Definition flagged (proofId : string) (i : Intent) : bool :=
  bool_decide (intent_key i = (proofId, AnchoringOperation.REGISTER)) &&
  bool_decide (i_status i = AnchoringStatus.QUARANTINED) && i_permanentError i &&
  bool_decide (i_lastErrorSafe i = Some REVIEW_REASON).

Definition flagForManualReview (proofId intentId : string) (now : Z) (s : Store) : result DbError Store :=
  match find_where (flagged proofId) (intents s) with
  | Some _ => Ok s
  | None => create_intent (review_intent proofId intentId now) s
  end.

(** The read of [enqueueRevoke] and what it decides to write. *)
Inductive RevokeEnqueue := EnqueueNothing | EnqueueReset (intentId : string) | EnqueueCreate.

Definition enqueue_revoke_read (proofId : string) (s : Store) : RevokeEnqueue :=
  match find_intent_for proofId AnchoringOperation.REVOKE s with
  | None => EnqueueCreate
  | Some i =>
      match i_status i with
      | AnchoringStatus.PENDING | AnchoringStatus.PROCESSING => EnqueueNothing
      | _ => EnqueueReset (i_id i)
      end
  end.

Definition enqueue_revoke_write (proofId intentId : string) (now : Z) (d : RevokeEnqueue) (s : Store)
    : result DbError Store :=
  match d with
  | EnqueueNothing => Ok s
  | EnqueueReset id => update_intent id (to_requeued now) s
  | EnqueueCreate =>
      create_intent (new_intent {| ic_id := intentId; ic_proofId := proofId;
        ic_operation := AnchoringOperation.REVOKE; ic_createdAt := now |} AnchoringStatus.PENDING) s
  end.

Definition enqueueRevoke (proofId intentId : string) (now : Z) (s : Store) : result DbError Store :=
  enqueue_revoke_write proofId intentId now (enqueue_revoke_read proofId s) s.

(** What a reconciler decides from the row it read and the contract's answer. *)
Inductive Repair := NoRepair | MarkRevoked | Review | RequeueRevoke.

Definition repair_of (p : Proof) (onChain : ContractProofStatus) : Repair :=
  match onChain with
  | Unchecked _ => NoRepair
  | Checked revoked valid =>
      match p_status p with
      | ProofStatus.ACTIVE => if revoked then MarkRevoked else if valid then NoRepair else Review
      | ProofStatus.REVOKED => if revoked then NoRepair else RequeueRevoke
      | _ => NoRepair
      end
  end.

(** A cycle ends with the error of the contract read, where anchoring is
    required, or of the database. *)
Inductive ReconcileError := ContractThrew (message : string) | ReconcileDb (e : DbError).

Definition db {A} (r : result DbError A) : result ReconcileError A :=
  match r with Ok a => Ok a | Err e => Err (ReconcileDb e) end.

(** The repair, unless there is nothing to compare or the read threw. *)
Definition repair_checked (p : Proof) (onChain : result string ContractProofStatus)
    : result ReconcileError Repair :=
  if negb (truthy (p_contractTransactionHash p)) then Ok NoRepair else
  match onChain with
  | Ok st => Ok (repair_of p st)
  | Err m => Err (ContractThrew m)
  end.

(** [AnchoringReconcilerService.reconcileProof], on a row read earlier. *)
Definition anchor_reconcile (now : Z) (intentId : string) (p : Proof)
    (onChain : result string ContractProofStatus) (s : Store) : result ReconcileError Store :=
  r ← repair_checked p onChain;
  match r with
  | NoRepair => Ok s
  | MarkRevoked => db (update_proof (p_id p) (mark_revoked now now) s)
  | Review => db (flagForManualReview (p_id p) intentId now s)
  | RequeueRevoke => db (enqueueRevoke (p_id p) intentId now s)
  end.

(** A row of [ReconciliationConflict]. *)
Record Conflict := { cf_proofId : string; cf_revoked : bool; cf_valid : bool; cf_status : ProofStatus.t }.

Definition quarantineConflict (p : Proof) (onChain : result string ContractProofStatus) : list Conflict :=
  match onChain with
  | Ok (Checked revoked valid) =>
      [{| cf_proofId := p_id p; cf_revoked := revoked; cf_valid := valid; cf_status := p_status p |}]
  | _ => []
  end.

(** [ProofReconciliationService.reconcileProofState]: a conflict row instead of
    a review intent, and errors of the enqueueing are swallowed. *)
Definition state_reconcile (now : Z) (intentId : string) (p : Proof)
    (onChain : result string ContractProofStatus) (s : Store) : result ReconcileError (Store * list Conflict) :=
  r ← repair_checked p onChain;
  match r with
  | NoRepair => Ok (s, [])
  | MarkRevoked => s ← db (update_proof (p_id p) (mark_revoked now now) s); Ok (s, [])
  | Review => Ok (s, quarantineConflict p onChain)
  | RequeueRevoke =>
      Ok (match enqueueRevoke (p_id p) intentId now s with Ok s => s | Err _ => s end, [])
  end.

(** One cycle of each without interleaving: every row of the batch in turn.  In
    the first an error ends the cycle, in the second it is logged. *)
Fixpoint anchor_cycle (now : Z) (ids : string -> string) (chain : string -> result string ContractProofStatus)
    (batch : list Proof) (s : Store) : result ReconcileError Store :=
  match batch with
  | [] => Ok s
  | p :: batch =>
      s ← anchor_reconcile now (ids (p_id p)) p (chain (p_id p)) s;
      anchor_cycle now ids chain batch s
  end.

Fixpoint state_cycle (now : Z) (ids : string -> string) (chain : string -> result string ContractProofStatus)
    (batch : list Proof) (s : Store) : Store * list Conflict :=
  match batch with
  | [] => (s, [])
  | p :: batch =>
      let '(s, conflicts) := match state_reconcile now (ids (p_id p)) p (chain (p_id p)) s with
                             | Ok r => r
                             | Err _ => (s, [])
                             end in
      let '(s, more) := state_cycle now ids chain batch s in (s, (conflicts ++ more)%list)
  end.

Definition state_run (now : Z) (ids : string -> string) (chain : string -> result string ContractProofStatus)
    (s : Store) : Store * list Conflict :=
  state_cycle now ids chain (reconcile_batch PROOF_RECONCILE_BATCH s) s.

Definition anchor_run (now : Z) (ids : string -> string) (chain : string -> result string ContractProofStatus)
    (s : Store) : result ReconcileError Store :=
  anchor_cycle now ids chain (reconcile_batch ANCHOR_RECONCILE_BATCH s) s.

(** ** Propagation of a revocation *)

Definition checkAnchoringChannel (anchoringEnabled : bool) (p : Proof) (s : Store) : bool :=
  if negb anchoringEnabled || negb (truthy (p_contractTransactionHash p)) then true else
  match find_intent_for (p_id p) AnchoringOperation.REVOKE s with
  | Some i => bool_decide (i_status i = AnchoringStatus.CONFIRMED)
  | None => false
  end.

(** Rows still to confirm, oldest revocation first. *)
Definition revoked_le (p q : Proof) : bool :=
  match rv_at (p_revocation p), rv_at (p_revocation q) with
  | Some a, Some b => a <=? b
  | None, Some _ => false                     (* NULLs sort last *)
  | _, None => true
  end.

Definition propagation_batch (s : Store) : list Proof :=
  take PROPAGATION_BATCH (js_sort revoked_le
    (List.filter (fun p => bool_decide (p_status p = ProofStatus.REVOKED) &&
                           bool_decide (p_propagationConfirmedAt p = None)) (proofs s))).

(** [reconcileProof]; the webhook channel is a parameter. *)
Definition propagate (now : Z) (anchoringEnabled webhookConfirmed : bool) (p : Proof) (s : Store)
    : result DbError Store :=
  if checkAnchoringChannel anchoringEnabled p s && webhookConfirmed
  then update_proof (p_id p) (set_propagated now now) s
  else Ok s.
