(* ===== verification/AnchoringFacts.v ===== *)
(** * What the anchoring worker and its reconcilers guarantee *)

From S2P Require Import Prelude JsData DecimalText Calendar Schema Canonical AuditChain EmployerPayment.
From S2P Require Import ProofStore Credentials Issuance CircuitBreaker Contract Anchoring.
From S2P Require Import Renewal RenewalFacts Lifecycle LifecycleFacts.
From Stdlib Require Import Ascii.

Local Open Scope string_scope.
Local Open Scope Z_scope.
#[local] Arguments String.append !_ _ : simpl nomatch.

(** ** Intents of a store *)

Lemma find_intent_elem s i : store_wf s -> i ∈ intents s -> find_intent (i_id i) s = Some i.
Proof.
  intros Hwf Hi. destruct (find_intent (i_id i) s) as [j|] eqn:E.
  - apply find_intent_Some in E as [Hj Hid]. f_equal. by apply (intent_unique s).
  - unfold find_intent in E. rewrite find_where_None, Forall_forall in E. specialize (E i Hi).
    unfold has_intent_id in E. by rewrite String.eqb_refl in E.
Qed.

Lemma find_intent_map id w f s :
  (forall i, i_core (f i) = i_core i) ->
  find_intent id (map_intents w f s) = (fun i => if w i then f i else i) <$> find_intent id s.
Proof. intros Hf. apply find_where_update. intros i. unfold has_intent_id. by rewrite Hf. Qed.

Lemma update_intent_find id f s i :
  (forall i, i_core (f i) = i_core i) -> find_intent id s = Some i ->
  exists s', update_intent id f s = Ok s' /\ find_intent id s' = Some (f i) /\ proofs s' = proofs s.
Proof.
  intros Hf Hi. unfold update_intent. rewrite Hi. eexists. split; [done|]. split; [|done].
  rewrite find_intent_map, Hi by done. cbn. apply find_intent_Some in Hi as [_ Hid].
  unfold has_intent_id. by rewrite Hid, String.eqb_refl.
Qed.

Lemma intent_key_unique s i j :
  store_wf s -> i ∈ intents s -> j ∈ intents s -> intent_key i = intent_key j -> i = j.
Proof. intros Hwf. apply (key_unique intent_key), Hwf. Qed.

(** No two rows share a proof and an operation. *)
Lemma no_twin s i : store_wf s -> i ∈ intents s -> find_where (confirmed_twin i) (intents s) = None.
Proof.
  intros Hwf Hi. apply find_where_None, Forall_forall. intros j Hj.
  unfold confirmed_twin. destruct (bool_decide (intent_key j = intent_key i)) eqn:Hk; [|done].
  apply bool_decide_eq_true in Hk. rewrite (intent_key_unique s j i Hwf Hj Hi Hk).
  by rewrite (bool_decide_eq_true_2 (i_id i = i_id i) eq_refl), andb_false_r.
Qed.

(** ** Claims *)

Lemma created_le_total i j : created_le i j = true \/ created_le j i = true.
Proof. unfold created_le. rewrite !Z.leb_le. lia. Qed.
Lemma created_le_trans i j k : created_le i j = true -> created_le j k = true -> created_le i k = true.
Proof. unfold created_le. rewrite !Z.leb_le. lia. Qed.

(** The rows a claim takes. *)
Definition claim_rows (now : Z) (plan : list AnchoringOperation.t * nat) (locked : string -> bool)
    (s : Store) : list Intent :=
  take plan.2 (js_sort created_le (List.filter (claimable_intent now plan.1 locked) (intents s))).

Lemma claim_rows_elem now plan locked s i :
  i ∈ claim_rows now plan locked s -> i ∈ intents s /\ claimable_intent now plan.1 locked i = true.
Proof.
  intros Hi. rewrite <- elem_of_filter_bool, <- (js_sort_perm created_le).
  eapply elem_of_sublist; [exact Hi|apply sublist_take].
Qed.

Lemma claim_rows_oldest now plan locked s i j :
  i ∈ intents s -> claimable_intent now plan.1 locked i = true -> i ∉ claim_rows now plan locked s ->
  length (claim_rows now plan locked s) = plan.2 /\
  (j ∈ claim_rows now plan locked s -> created_le j i = true).
Proof.
  intros Hi Hc Hn. set (l := js_sort created_le (List.filter (claimable_intent now plan.1 locked) (intents s))).
  assert (i ∈ l) as Hil.
  { unfold l. by rewrite js_sort_perm, elem_of_filter_bool. }
  rewrite <- (take_drop plan.2 l), elem_of_app in Hil. destruct Hil as [Hil|Hil]; [done|].
  split.
  - unfold claim_rows. fold l. rewrite length_take. assert (length (drop plan.2 l) <> 0%nat).
    { intros H0%nil_length_inv. rewrite H0 in Hil. by apply not_elem_of_nil in Hil. }
    rewrite length_drop in *. lia.
  - intros Hj. apply (StronglySorted_take_drop (fun x y => created_le x y = true) l plan.2); [|done..].
    apply (js_sort_sorted created_le (fun _ => True)); [| |by apply Forall_true].
    + intros x y _ _. apply created_le_total.
    + intros x y z _ _ _. apply created_le_trans.
Qed.

(** ** Failures *)

Lemma permanent_patterns_agree m : isPermanentContractError m = isPermanentError m.
Proof.
  unfold isPermanentContractError, isPermanentError, matches_any. apply existsb_perm.
  apply (bool_decide_unpack _). vm_compute. exact I.
Qed.

(** An error no pattern recognises. *)
Definition transient (m : string) : bool := negb (isPermanentError m).

Lemma transient_not_poison m : transient m = true -> isPoisonInput m = false.
Proof.
  unfold transient, isPermanentError, isPoisonInput, matches_any, PERMANENT_ERROR_PATTERNS.
  rewrite existsb_app. intros H. apply negb_true_iff, orb_false_iff in H. apply H.
Qed.

(** ** Schedules *)

Lemma retry_delay now n : 1 <= n ->
  computeNextRetryAt now n - now = if n <=? 7 then 30000 * 2 ^ (n - 1) else 3600000.
Proof.
  intros Hn. unfold computeNextRetryAt, BACKOFF_BASE_MS, BACKOFF_CAP_MS.
  change (60 * 60000) with 3600000. destruct (Z.leb_spec n 7).
  - pose proof (Z.pow_le_mono_r 2 (n - 1) 6 ltac:(lia) ltac:(lia)). change (2 ^ 6) with 64 in *. lia.
  - pose proof (Z.pow_le_mono_r 2 7 (n - 1) ltac:(lia) ltac:(lia)). change (2 ^ 7) with 128 in *. lia.
Qed.

(** ** Failing executions of one intent *)

Section failing.
Context (redact : string -> string).

(** Execute the intent once per message, each failing with it. *)
Fixpoint fail_all (id : string) (failures : list (Z * string)) (s : Store) : option Store :=
  match failures with
  | [] => Some s
  | (now, m) :: failures =>
      x ← exec_read id s;
      match fail_intent redact now x m false s with
      | Ok s => fail_all id failures s
      | Err _ => None
      end
  end.

Lemma exec_read_intent s id i p :
  find_intent id s = Some i -> find_proof (i_proofId i) s = Some p ->
  exists x, exec_read id s = Some x /\ ex_intent x = i.
Proof. intros Hi Hp. unfold exec_read. rewrite Hi. cbn. rewrite Hp. cbn. by eexists. Qed.

Lemma fail_intent_transient now x m s i :
  find_intent (i_id (ex_intent x)) s = Some i -> transient m = true ->
  let attempts := i_attemptCount (ex_intent x) + 1 in
  exists s' f, fail_intent redact now x m false s = Ok s' /\ proofs s' = proofs s /\
    find_intent (i_id (ex_intent x)) s' = Some (f i) /\
    f = if MAX_ATTEMPTS <=? attempts
        then to_quarantined attempts now (redact m) QuarantineReasonCode.MAX_ATTEMPTS_EXCEEDED
        else to_retry attempts now (computeNextRetryAt now attempts) (redact m).
Proof.
  intros Hi Ht. cbv zeta. unfold fail_intent. rewrite (transient_not_poison m Ht), permanent_patterns_agree.
  unfold transient in Ht. apply negb_true_iff in Ht. rewrite Ht. cbn [negb orb andb]. rewrite orb_false_r.
  destruct (MAX_ATTEMPTS <=? _);
    (edestruct (update_intent_find (i_id (ex_intent x))) as (s' & Hu & Hf & Hp); [|exact Hi|];
     [|do 2 eexists; split_and!; [exact Hu|exact Hp|exact Hf|done]]; done).
Qed.

Lemma fail_all_spec id failures s i p :
  find_intent id s = Some i -> find_proof (i_proofId i) s = Some p ->
  Forall (fun f => transient f.2 = true) failures ->
  0 <= i_attemptCount i -> i_attemptCount i + Z.of_nat (length failures) <= MAX_ATTEMPTS ->
  (failures = [] -> i_status i = AnchoringStatus.PENDING /\ i_attemptCount i < MAX_ATTEMPTS) ->
  exists s' j, fail_all id failures s = Some s' /\ find_intent id s' = Some j /\
    i_attemptCount j = i_attemptCount i + Z.of_nat (length failures) /\ proofs s' = proofs s /\
    i_status j = (if i_attemptCount j =? MAX_ATTEMPTS then AnchoringStatus.QUARANTINED
                  else AnchoringStatus.PENDING).
Proof.
  revert s i. induction failures as [|[now m] failures IH]; intros s i Hi Hp Ht H0 Hle He.
  { exists s, i. destruct (He eq_refl) as [Hst Hlt]. cbn. split_and!; [done|done|lia|done|].
    by destruct (Z.eqb_spec (i_attemptCount i) MAX_ATTEMPTS); [lia|]. }
  apply Forall_cons in Ht as [Hm Ht]. cbn [fail_all].
  destruct (exec_read_intent s id i p Hi Hp) as (x & Hx & Hxi). rewrite Hx. cbn [mbind option_bind].
  destruct (find_intent_Some _ _ _ Hi) as [_ Hid].
  destruct (fail_intent_transient now x m s i) as (s1 & f & Hf & Hps & Hi1 & Hfeq);
    [by rewrite Hxi, Hid|done|]. rewrite Hf. rewrite Hxi, Hid in Hi1. rewrite Hxi in Hfeq. cbn [length] in Hle.
  destruct (Z.leb_spec MAX_ATTEMPTS (i_attemptCount i + 1)) as [Hge|Hlt].
  - destruct failures as [|? ?]; [|cbn [length] in Hle; lia].
    exists s1, (f i). cbn [fail_all length]. rewrite Hfeq. cbn. split_and!; [done|by rewrite Hi1, Hfeq|lia|done|].
    by destruct (Z.eqb_spec (i_attemptCount i + 1) MAX_ATTEMPTS); [|lia].
  - destruct (IH s1 (f i)) as (s' & j & Hs' & Hj & Ha & Hp' & Hst).
    + done.
    + rewrite Hfeq. cbn. unfold find_proof. by rewrite Hps.
    + done.
    + rewrite Hfeq. cbn. lia.
    + rewrite Hfeq. cbn [to_retry i_attemptCount]. lia.
    + intros ->. rewrite Hfeq. cbn. split; [done|lia].
    + exists s', j. split_and!; [done|done| |by rewrite Hp'|done].
      rewrite Ha, Hfeq. cbn [to_retry i_attemptCount length]. lia.
Qed.
End failing.

Lemma claimPlan_spec register revoke :
  (forall op, op ∈ (claimPlan register revoke).1 ->
     match op with AnchoringOperation.REGISTER => register | AnchoringOperation.REVOKE => revoke end
     <> CircuitState.open) /\
  ((claimPlan register revoke).2 <=
   if bool_decide (register = CircuitState.half_open) || bool_decide (revoke = CircuitState.half_open)
   then 1 else 5)%nat.
Proof.
  split.
  - intros op Hop Hbad. apply list_elem_of_In in Hop.
    destruct op, register, revoke; vm_compute in Hbad, Hop; intuition congruence.
  - destruct register, revoke; vm_compute; repeat constructor.
Qed.

Lemma claim_rows_ids now plan locked s i :
  store_wf s -> i ∈ intents s ->
  i_id i ∈ claim_ids now plan locked s <-> i ∈ claim_rows now plan locked s.
Proof.
  intros Hwf Hi. change (claim_ids now plan locked s) with ((fun i => i_id i) <$> claim_rows now plan locked s).
  rewrite list_elem_of_fmap. split; [|by exists i].
  intros (j & Hid & Hj). destruct (claim_rows_elem _ _ _ _ _ Hj) as [Hj' _].
  by rewrite (intent_unique s i j Hwf Hi Hj' Hid).
Qed.

Lemma claim_ids_NoDup now plan locked s : store_wf s -> NoDup (claim_ids now plan locked s).
Proof.
  intros Hwf. change (claim_ids now plan locked s) with ((fun i => i_id i) <$> claim_rows now plan locked s).
  apply NoDup_fmap_2_strong.
  - intros i j Hi Hj Hid. destruct (claim_rows_elem _ _ _ _ _ Hi), (claim_rows_elem _ _ _ _ _ Hj). by apply (intent_unique s).
  - apply (sublist_NoDup _ (js_sort created_le (List.filter (claimable_intent now plan.1 locked) (intents s))));
      [|apply sublist_take]. rewrite js_sort_perm. apply NoDup_filter_bool.
    apply (NoDup_fmap_1 (fun i => i_id i)), Hwf.
Qed.

(** ** Reconciliation *)

Lemma updated_le_total p q : updated_le p q = true \/ updated_le q p = true.
Proof. unfold updated_le. rewrite !Z.leb_le. lia. Qed.
Lemma updated_le_trans p q r : updated_le p q = true -> updated_le q r = true -> updated_le p r = true.
Proof. unfold updated_le. rewrite !Z.leb_le. lia. Qed.

(** The contract agrees with the row. *)
Definition healthy (chain : string -> result string ContractProofStatus) (p : Proof) : bool :=
  match repair_checked p (chain (p_id p)) with Ok NoRepair => true | _ => false end.

(** Cycles of the reconciler, one after the other. *)
Fixpoint anchor_runs (ids : string -> string) (chain : string -> result string ContractProofStatus) (nows : list Z)
    (s : Store) : result ReconcileError Store :=
  match nows with
  | [] => Ok s
  | now :: nows => s ← anchor_run now ids chain s; anchor_runs ids chain nows s
  end.

(** Anchored, and last written before [t]. *)
Definition anchored_before (t : Z) (p : Proof) : bool := anchored_row p && (p_updatedAt p <? t).

Lemma anchor_cycle_healthy now ids chain batch s :
  Forall (fun p => healthy chain p = true) batch -> anchor_cycle now ids chain batch s = Ok s.
Proof.
  induction 1 as [|p batch Hp _ IH]; [done|]. cbn [anchor_cycle]. unfold anchor_reconcile.
  unfold healthy in Hp. by destruct (repair_checked p (chain (p_id p))) as [[]|].
Qed.

Lemma reconcile_batch_before t n s :
  (n <= length (List.filter (anchored_before t) (proofs s)))%nat ->
  Forall (fun p => anchored_before t p = true /\ p ∈ proofs s) (reconcile_batch n s).
Proof.
  intros Hn. unfold reconcile_batch. set (l := js_sort updated_le (List.filter anchored_row (proofs s))).
  assert (l ≡ₚ List.filter anchored_row (proofs s)) as Hl by apply js_sort_perm.
  assert (Forall (fun p => (p_updatedAt p <? t) = true) (take n l)) as Hold.
  { apply (StronglySorted_take_filter (fun p q => updated_le p q = true)).
    - apply (js_sort_sorted updated_le (fun _ => True)); [| |by apply Forall_true].
      + intros x y _ _. apply updated_le_total.
      + intros x y z _ _ _. apply updated_le_trans.
    - intros p q Hpq%Z.leb_le. rewrite !Z.ltb_lt. lia.
    - rewrite (filter_bool_perm _ _ _ Hl), filter_bool_filter. exact Hn. }
  rewrite Forall_forall in Hold |- *. intros p Hp. specialize (Hold p Hp).
  apply (elem_of_sublist _ l) in Hp; [|apply sublist_take]. rewrite Hl, elem_of_filter_bool in Hp.
  destruct Hp as [? Ha]. unfold anchored_before. by rewrite Ha, Hold.
Qed.

Lemma enqueueRevoke_keeps id iid now s s' :
  enqueueRevoke id iid now s = Ok s' -> store_wf s -> store_wf s' /\ proofs s' = proofs s.
Proof.
  unfold enqueueRevoke. destruct (enqueue_revoke_read id s); cbn; intros H Hwf.
  - by injection H as <-.
  - split; [by eapply update_intent_wf, Hwf; [|exact H]|by eapply update_intent_proofs].
  - split; [by eapply create_intent_wf|by eapply create_intent_proofs].
Qed.

Lemma mark_revoked_evolves at_ now p : proof_evolves p (mark_revoked at_ now p).
Proof. split; unfold status_le; cbn; auto. Qed.

Lemma state_reconcile_keeps now iid p onChain s s' conflicts :
  state_reconcile now iid p onChain s = Ok (s', conflicts) -> store_wf s -> store_wf s' /\ store_evolves s s'.
Proof.
  unfold state_reconcile. intros H Hwf. apply bind_Ok in H as (r & _ & H). destruct r; cbn in H.
  - by injection H as <- _.
  - unfold db in H. destruct (update_proof _ _ s) as [s1|] eqn:Hu; [|done]. injection H as <- _.
    split; [by eapply update_proof_wf, Hwf; [|exact Hu]|].
    eapply update_proof_evolves, Hu. intros q. apply mark_revoked_evolves.
  - by injection H as <- _.
  - destruct (enqueueRevoke _ _ _ s) as [s1|] eqn:He; injection H as <- _; [|done].
    destruct (enqueueRevoke_keeps _ _ _ _ _ He Hwf). split; [done|by apply store_evolves_same].
Qed.

Lemma state_cycle_keeps now ids chain batch s :
  store_wf s -> store_wf (state_cycle now ids chain batch s).1 /\
  store_evolves s (state_cycle now ids chain batch s).1.
Proof.
  revert s. induction batch as [|p batch IH]; intros s Hwf; [done|]. cbn [state_cycle].
  destruct (state_reconcile _ _ _ _ s) as [[s1 c1]|] eqn:Hr.
  - destruct (state_reconcile_keeps _ _ _ _ _ _ _ Hr Hwf) as [Hwf1 Hev1]. destruct (IH s1 Hwf1) as [Hwf2 Hev2].
    destruct (state_cycle now ids chain batch s1) as [s2 c2]. cbn in *. split; [done|by etrans].
  - specialize (IH s Hwf). by destruct (state_cycle now ids chain batch s) as [s2 c2].
Qed.

Lemma reconcile_batch_elem n s p : p ∈ reconcile_batch n s -> p ∈ proofs s.
Proof.
  intros Hp. apply (elem_of_sublist _ (js_sort updated_le (List.filter anchored_row (proofs s)))) in Hp;
    [|apply sublist_take]. rewrite js_sort_perm, elem_of_filter_bool in Hp. apply Hp.
Qed.

(** The proof still has a row. *)
Definition present_row (s : Store) (p : Proof) : Prop := exists q, q ∈ proofs s /\ p_id q = p_id p.

Lemma present_row_evolves s s' p : store_evolves s s' -> present_row s p -> present_row s' p.
Proof.
  intros Hev (q & Hq & Hid). destruct (Hev q Hq) as (r & Hr & [Hc _ _ _ _]). exists r. by rewrite Hc.
Qed.

Lemma state_reconcile_revokes now iid p onChain s valid :
  store_wf s -> present_row s p -> p_status p = ProofStatus.ACTIVE ->
  truthy (p_contractTransactionHash p) = true -> onChain = Ok (Checked true valid) ->
  exists s', state_reconcile now iid p onChain s = Ok (s', []) /\
    exists q, q ∈ proofs s' /\ p_id q = p_id p /\ p_status q = ProofStatus.REVOKED.
Proof.
  intros Hwf (r & Hr & Hid) Hst Ht ->. unfold state_reconcile, repair_checked, repair_of. rewrite Ht, Hst. cbn.
  unfold update_proof. rewrite <- Hid, (find_proof_elem s r Hwf Hr). cbn. eexists. split; [done|].
  exists (mark_revoked now now r). split; [|done]. apply elem_of_update_where. exists r. split; [done|].
  unfold has_id. by rewrite String.eqb_refl.
Qed.

(** ** Properties *)

(** a claim takes at most its budget of intents, each once; it takes only
    pending, due and unlocked intents of an operation whose circuit is not open,
    oldest first: one that was left behind is no older than any it took, and was
    left because the budget was spent.  The taken rows are marked PROCESSING, the
    others are as they were. *)
Theorem claim_takes_oldest now register revoke locked s s' ids :
  store_wf s -> claim now (claimPlan register revoke) locked s = (s', ids) ->
  let circuit op :=
    match op with AnchoringOperation.REGISTER => register | AnchoringOperation.REVOKE => revoke end in
  let claimable := claimable_intent now (claimPlan register revoke).1 locked in
  NoDup ids /\
  (length ids <= if bool_decide (register = CircuitState.half_open) ||
                    bool_decide (revoke = CircuitState.half_open) then 1 else 5)%nat /\
  proofs s' = proofs s /\
  (forall i, i ∈ intents s -> i_id i ∈ ids -> claimable i = true /\
     circuit (i_operation i) <> CircuitState.open /\ find_intent (i_id i) s' = Some (to_processing now i)) /\
  (forall i, i ∈ intents s -> i_id i ∉ ids -> find_intent (i_id i) s' = Some i) /\
  (forall i j, i ∈ intents s -> j ∈ intents s -> i_id i ∉ ids -> claimable i = true ->
     length ids = (claimPlan register revoke).2 /\
     (i_id j ∈ ids -> ic_createdAt (i_core j) <= ic_createdAt (i_core i))).
Proof.
  intros Hwf Hclaim circuit claimable. apply pair_eq in Hclaim as [<- <-].
  destruct (claimPlan_spec register revoke) as [Hops Hbudget].
  set (plan := claimPlan register revoke) in *. set (ids := claim_ids now plan locked s).
  assert (length ids = length (claim_rows now plan locked s)) as Hlen by apply length_fmap.
  assert (forall i, i ∈ intents s ->
    find_intent (i_id i) (map_intents (fun i => bool_decide (i_id i ∈ ids)) (to_processing now) s) =
    Some (if bool_decide (i_id i ∈ ids) then to_processing now i else i)) as Hfind.
  { intros i Hi. rewrite find_intent_map by done. by rewrite find_intent_elem. }
  split_and!; [by apply claim_ids_NoDup| |done| | |].
  - rewrite Hlen. unfold claim_rows. rewrite length_take. lia.
  - intros i Hi Hid. rewrite Hfind, bool_decide_eq_true_2 by done.
    apply claim_rows_ids, claim_rows_elem in Hid as [_ Hc]; [|done..]. split_and!; [done| |done].
    unfold claimable_intent in Hc. reflect_hyps. by apply Hops.
  - intros i Hi Hid. by rewrite Hfind, bool_decide_eq_false_2.
  - intros i j Hi Hj Hni Hc. unfold ids in Hni. rewrite claim_rows_ids in Hni by done.
    destruct (claim_rows_oldest now plan locked s i j Hi Hc Hni) as [Hl Hold]. split; [exact (eq_trans Hlen Hl)|].
    intros Hcj. apply claim_rows_ids, Hold in Hcj; [|done..]. by apply Z.leb_le in Hcj.
Qed.

(** an intent that keeps failing for transient reasons is retried until its
    tenth attempt and then quarantined, and no failure touches a proof: after
    [n] failures in a row its attempt count has grown by [n] and it is pending
    again, unless the count reached the maximum.  The retry of attempt [k] is
    scheduled thirty seconds later, doubling with each attempt, an hour at most. *)
Theorem retries_end_in_quarantine redact id failures s i p :
  find_intent id s = Some i -> find_proof (i_proofId i) s = Some p ->
  i_status i = AnchoringStatus.PENDING -> 0 <= i_attemptCount i < MAX_ATTEMPTS ->
  i_attemptCount i + Z.of_nat (length failures) <= MAX_ATTEMPTS ->
  Forall (fun f => transient f.2 = true) failures ->
  (exists s' j, fail_all redact id failures s = Some s' /\ find_intent id s' = Some j /\
     i_attemptCount j = i_attemptCount i + Z.of_nat (length failures) /\ proofs s' = proofs s /\
     i_status j = (if i_attemptCount j =? MAX_ATTEMPTS then AnchoringStatus.QUARANTINED
                   else AnchoringStatus.PENDING)) /\
  (forall now n, 1 <= n -> computeNextRetryAt now n - now = if n <=? 7 then 30000 * 2 ^ (n - 1) else 3600000).
Proof.
  intros Hi Hp Hst Hr Hle Ht. split; [|by intros; apply retry_delay].
  apply (fail_all_spec redact id failures s i p); try done; [lia|]. intros _. split; [done|lia].
Qed.

(** the search for another confirmed intent of the same proof and operation,
    which is meant to stop a second submission, never finds one: the table is
    unique in these two columns, so the execution always calls the contract. *)
Theorem twin_search_never_hits s id x : store_wf s -> exec_read id s = Some x -> ex_existing x = None.
Proof.
  intros Hwf. unfold exec_read. destruct (find_intent id s) as [i|] eqn:Hi; [|done]. cbn.
  destruct (find_proof _ s) as [p|]; [|done]. cbn. intros [= <-]. cbn.
  apply no_twin; [done|]. by apply find_intent_Some in Hi as [Hi _].
Qed.

(** an execution that fails late overwrites the confirmation another worker
    recorded meanwhile: whatever the row is by then, a permanent error such as
    [already registered], which is what the contract answers to the second
    submission, leaves it quarantined. *)
Theorem late_failure_overwrites_confirmation redact dbMessage now x s i m :
  find_intent (i_id (ex_intent x)) s = Some i -> i_status i = AnchoringStatus.CONFIRMED ->
  ex_existing x = None -> isPermanentError m = true ->
  exists s' j, exec_write redact dbMessage now x (Ok (Unanchored (failed m))) s = Ok s' /\
    proofs s' = proofs s /\ find_intent (i_id (ex_intent x)) s' = Some j /\
    i_status j = AnchoringStatus.QUARANTINED /\ i_core j = i_core i.
Proof.
  intros Hi _ Hex Hm. unfold exec_write, exec_error, fail_intent. rewrite Hex, Hm, orb_true_r, andb_true_r.
  assert (isPoisonInput m || negb (isPoisonInput m) = true) as -> by (by destruct (isPoisonInput m)).
  cbn [orb]. edestruct (update_intent_find (i_id (ex_intent x))) as (s' & Hu & Hf & Hp); [|exact Hi|];
    [|exists s'; eexists; split_and!; [exact Hu|exact Hp|exact Hf|done|done]]; done.
Qed.

(** what an open circuit costs depends on the configuration: an execution it
    refuses returns its intent as it was, due at once and with its attempts
    unspent, unless anchoring is required, in which case the refusal counts as
    an attempt. *)
Theorem refused_call_spends_attempt_iff_required sha256 ccfg redact dbMessage now x s i :
  configured ccfg = true -> ex_existing x = None ->
  find_intent (i_id (ex_intent x)) s = Some i -> i_attemptCount (ex_intent x) = i_attemptCount i ->
  exists s' j, exec_write redact dbMessage now x (exec_call sha256 ccfg (fun _ => CliRefused) x) s = Ok s' /\
    find_intent (i_id (ex_intent x)) s' = Some j /\
    i_attemptCount j = i_attemptCount i + (if cc_required ccfg then 1 else 0) /\
    (cc_required ccfg = false -> i_status j = AnchoringStatus.PENDING /\ i_nextRetryAt j = Some now).
Proof.
  intros Hc Hex Hi Ha. unfold exec_write. rewrite Hex.
  assert (exists m, transient m = true /\ exec_call sha256 ccfg (fun _ => CliRefused) x =
    if cc_required ccfg then Err m else Ok (Unanchored circuit_open)) as (m & Hm & Hcall).
  { unfold exec_call, anchorProof, revokeOnChain. rewrite Hc.
    destruct (i_operation (ex_intent x)); cbn [negb mutation_result]; eexists; (split; [|reflexivity]); reflexivity. }
  rewrite Hcall. destruct (cc_required ccfg).
  - cbn [exec_error]. destruct (fail_intent_transient redact now x m s i Hi Hm) as (s' & f & Hs & _ & Hf & Hfe).
    exists s', (f i). split_and!; [done|done| |done]. rewrite Hfe. by destruct (_ <=? _); cbn; lia.
  - edestruct (update_intent_find (i_id (ex_intent x))) as (s' & Hu & Hf & Hp); [|exact Hi|];
      [|exists s'; eexists; split_and!; [exact Hu|exact Hf|cbn; lia|done]]; done.
Qed.

(** rows the contract agrees with are never written, so they stay at the
    front of the reconciler's order: as soon as twenty of them are older than
    every divergent row, each cycle looks at those only, and no number of cycles
    repairs anything. *)
Theorem healthy_rows_starve_reconciler t ids chain s nows :
  (ANCHOR_RECONCILE_BATCH <= length (List.filter (anchored_before t) (proofs s)))%nat ->
  (forall p, p ∈ proofs s -> anchored_before t p = true -> healthy chain p = true) ->
  anchor_runs ids chain nows s = Ok s.
Proof.
  intros Hn Hh. induction nows as [|now nows IH]; [done|]. cbn [anchor_runs].
  unfold anchor_run. rewrite anchor_cycle_healthy; [exact IH|].
  apply (Forall_impl _ _ _ (reconcile_batch_before t _ s Hn)). intros p [Hb Hp]. by apply Hh.
Qed.

(** an operator's decision to give up on a revocation does not last: when the
    contract does not report the proof revoked, the reconcilers put the abandoned
    intent back in the queue, due at once and with its decision unchanged. *)
Theorem abandoned_revocation_requeued proofId intentId now s i :
  store_wf s -> find_intent_for proofId AnchoringOperation.REVOKE s = Some i ->
  i_status i = AnchoringStatus.QUARANTINED -> i_quarantineDecision i = QuarantineDecision.ABANDONED ->
  exists s' j, enqueueRevoke proofId intentId now s = Ok s' /\ find_intent (i_id i) s' = Some j /\
    i_quarantineDecision j = QuarantineDecision.ABANDONED /\
    claimable_intent now [AnchoringOperation.REVOKE] (fun _ => false) j = true.
Proof.
  intros Hwf Hi Hst Hd. unfold enqueueRevoke, enqueue_revoke_read. rewrite Hi, Hst. cbn [enqueue_revoke_write].
  unfold find_intent_for in Hi. apply find_where_Some in Hi as [Hi Hk].
  edestruct (update_intent_find (i_id i)) as (s' & Hu & Hf & _); [|by apply find_intent_elem|];
    [|exists s', (to_requeued now i); split_and!; [exact Hu|exact Hf|exact Hd|]]; [done|].
  unfold claimable_intent. cbn. rewrite Z.leb_refl. cbn. apply bool_decide_eq_true in Hk. by injection Hk as _ ->.
Qed.

(** the reconciler cannot flag a proof for review: the intent it would create
    is of the operation the proof was anchored with, which has its row already,
    so the constraint is violated, and the cycle stops there with the rest of its
    batch unexamined. *)
Theorem review_stops_cycle now ids chain p batch s i :
  store_wf s -> i ∈ intents s -> intent_key i = (p_id p, AnchoringOperation.REGISTER) ->
  flagged (p_id p) i = false -> repair_checked p (chain (p_id p)) = Ok Review ->
  anchor_cycle now ids chain (p :: batch) s = Err (ReconcileDb P2002).
Proof.
  intros Hwf Hi Hk Hf Hr. cbn [anchor_cycle]. unfold anchor_reconcile. rewrite Hr. cbn [mbind result_bind].
  assert (find_where (flagged (p_id p)) (intents s) = None) as Hnone.
  { apply find_where_None, Forall_forall. intros j Hj. destruct (flagged (p_id p) j) eqn:E; [|done].
    assert (intent_key j = intent_key i) as Hji by (unfold flagged in E; reflect_hyps; congruence).
    rewrite (intent_key_unique s j i Hwf Hj Hi Hji) in E. congruence. }
  unfold flagForManualReview. rewrite Hnone. unfold create_intent.
  rewrite (bool_decide_eq_true_2 (intent_key _ ∈ _)), orb_true_r; [done|].
  apply list_elem_of_fmap. by exists i.
Qed.

(** the other reconciler repairs every row it looks at: after a cycle, a proof
    of its batch that was active in the database and revoked on the contract is
    revoked in the database too, whatever went wrong with the other rows. *)
Theorem state_cycle_repairs now ids chain s p valid :
  store_wf s -> p ∈ reconcile_batch PROOF_RECONCILE_BATCH s -> p_status p = ProofStatus.ACTIVE ->
  truthy (p_contractTransactionHash p) = true -> chain (p_id p) = Ok (Checked true valid) ->
  exists q, find_proof (p_id p) (state_run now ids chain s).1 = Some q /\ p_status q = ProofStatus.REVOKED.
Proof.
  intros Hwf Hp Hst Ht Hc. unfold state_run.
  assert (present_row s p) as Hrow by (exists p; split; [by eapply reconcile_batch_elem|done]).
  revert Hp Hwf Hrow. generalize (reconcile_batch PROOF_RECONCILE_BATCH s) at 1 2 as batch.
  intros batch. revert s. induction batch as [|r batch IH]; intros s Hp Hwf Hrow; [by apply not_elem_of_nil in Hp|].
  apply elem_of_cons in Hp as [<-|Hp].
  - destruct (state_reconcile_revokes now (ids (p_id p)) p (chain (p_id p)) s valid) as (s1 & Hr & Hrev); [done..|].
    destruct (state_reconcile_keeps _ _ _ _ _ _ _ Hr Hwf) as [Hwf1 _].
    destruct (state_cycle_keeps now ids chain batch s1 Hwf1) as [Hwf2 Hev2].
    cbn [state_cycle]. rewrite Hr. destruct (state_cycle now ids chain batch s1) as [s2 c2]. cbn in *.
    destruct Hrev as (q & Hq & Hid & Hqs). destruct (Hev2 q Hq) as (t & Hint & [Htc Hts _ _ _]).
    exists t. rewrite <- Hid, <- Htc. split; [by apply find_proof_elem|].
    rewrite Hqs in Hts. unfold status_le in Hts. intuition congruence.
  - cbn [state_cycle]. destruct (state_reconcile _ _ r _ s) as [[s1 c1]|] eqn:Hr.
    + destruct (state_reconcile_keeps _ _ _ _ _ _ _ Hr Hwf) as [Hwf1 Hev1].
      destruct (IH s1 Hp Hwf1 (present_row_evolves _ _ _ Hev1 Hrow)) as (q & Hq & Hqs).
      destruct (state_cycle now ids chain batch s1). by exists q.
    + destruct (IH s Hp Hwf Hrow) as (q & Hq & Hqs). destruct (state_cycle now ids chain batch s). by exists q.
Qed.

(** ** Operator decisions and the audit log *)

(** The transactions that record what they do through their own delegate. *)
Inductive audited (s s' : Store) : Prop :=
| audited_revoke r : revoke_commit r s = Ok s' -> audited s s'
| audited_decide now auditId d : decide_intent now auditId d s = Ok s' -> audited s s'.

Lemma audited_takes s s' : audited s s' -> slot_taken s'.
Proof.
  intros [r H|now aid d H].
  - unfold revoke_commit in H. apply bind_Ok in H as (s1 & _ & H). apply bind_Ok in H as (s2 & Ha & H).
    apply create_audit_takes in Ha. destruct (pr_enqueue r); [|by simplify_eq].
    unfold create_intent in H. by run_result.
  - by destruct d; cbn in H; apply bind_Ok in H as (s1 & _ & H%create_audit_takes).
Qed.

(** the audit record of a revocation, a redrive or an abandonment takes the
    one place the column defaults leave it.  Once one such transaction has
    committed, every later one fails and is rolled back, for any proof, user and
    intent, until that audit row is gone: proofs can no longer be revoked. *)
Theorem audit_slot_blocks_revocations s s1 s2 :
  audited s s1 -> row_key <$> audit s1 ⊆ row_key <$> audit s2 -> forall s3, ~ audited s2 s3.
Proof.
  intros Ht%audited_takes Hsub s3 Ha. assert (slot_taken s2) as Hs by (by apply Hsub).
  assert (forall t, audit t = audit s2 -> slot_taken t) as Hsame by (intros t Ht'; unfold slot_taken; by rewrite Ht').
  destruct Ha as [r H|now aid d H].
  - unfold revoke_commit in H. apply bind_Ok in H as (t & Hu & H). rewrite create_audit_refused in H; [done|].
    apply Hsame. unfold update_proof in Hu. destruct (find_proof _ _); [|done]. by injection Hu as <-.
  - destruct d; cbn in H; apply bind_Ok in H as (t & Hu & H); rewrite create_audit_refused in H; try done;
      apply Hsame; unfold update_intent in Hu; destruct (find_intent _ _); try done; by injection Hu as <-.
Qed.

(** ** Witnesses *)

(** The renewal example: the successor's registration is queued under [i2]. *)
Definition queued : Intent :=
  new_intent {| ic_id := "i2"; ic_proofId := "p2"; ic_operation := AnchoringOperation.REGISTER;
                ic_createdAt := 1000 |} AnchoringStatus.PENDING.
Definition queued_read : Execution :=
  {| ex_intent := queued; ex_commitment := default "p2" (pc_commitment (p_core sample_successor));
     ex_expiresAt := p_expiresAt sample_successor; ex_existing := None |}.

Definition with_intent (i : Intent) : Store := {| proofs := proofs sample_renewed; intents := [i]; audit := [] |}.

Lemma claim_takes_oldest_witness :
  find_intent "i2" (claim 2000 (claimPlan CircuitState.closed CircuitState.half_open) (fun _ => false)
    sample_renewed).1 = Some (to_processing 2000 queued).
Proof.
  destruct (claim_takes_oldest 2000 CircuitState.closed CircuitState.half_open (fun _ => false) sample_renewed
    _ _ sample_renewed_wf (surjective_pairing _)) as (_ & _ & _ & H & _).
  apply (H queued); [|vm_compute]; apply elem_of_cons; left; reflexivity.
Defined.

Lemma retries_end_in_quarantine_witness :
  exists s' j, fail_all id "i2" (replicate 10 (2000, "timeout")) sample_renewed = Some s' /\
    find_intent "i2" s' = Some j /\ i_status j = AnchoringStatus.QUARANTINED.
Proof.
  destruct (retries_end_in_quarantine id "i2" (replicate 10 (2000, "timeout")) sample_renewed queued
    sample_successor) as [(s' & j & Hs & Hj & Ha & _ & Hst) _];
    [vm_compute; reflexivity|vm_compute; reflexivity|reflexivity|done|done| |].
  - apply Forall_replicate. reflexivity.
  - exists s', j. rewrite Ha in Hst. split_and!; assumption.
Defined.

Lemma twin_search_never_hits_witness : ex_existing queued_read = None.
Proof.
  apply (twin_search_never_hits sample_renewed "i2" queued_read); [apply sample_renewed_wf|].
  vm_compute. reflexivity.
Defined.

Lemma late_failure_overwrites_confirmation_witness :
  exists s' j, exec_write id (fun _ => EmptyString) 9000 queued_read
      (Ok (Unanchored (failed "proof already registered"))) (with_intent (to_confirmed 1 3000 "tx" None queued))
      = Ok s' /\ find_intent "i2" s' = Some j /\ i_status j = AnchoringStatus.QUARANTINED.
Proof.
  destruct (late_failure_overwrites_confirmation id (fun _ => EmptyString) 9000 queued_read
    (with_intent (to_confirmed 1 3000 "tx" None queued)) (to_confirmed 1 3000 "tx" None queued)
    "proof already registered") as (s' & j & H & _ & Hj & Hst & _); [reflexivity..|].
  exists s', j. split_and!; assumption.
Defined.

Lemma refused_call_spends_attempt_iff_required_witness :
  exists s' j, exec_write id (fun _ => EmptyString) 9000 queued_read
      (exec_call id sample_contract (fun _ => CliRefused) queued_read) sample_renewed = Ok s' /\
    find_intent "i2" s' = Some j /\ i_attemptCount j = 1.
Proof.
  destruct (refused_call_spends_attempt_iff_required id sample_contract id (fun _ => EmptyString) 9000
    queued_read sample_renewed queued) as (s' & j & H & Hj & Ha & _); [reflexivity..|].
  exists s', j. split_and!; assumption.
Defined.

(** Twenty anchored rows the contract agrees with, and a newer one it has revoked. *)
Definition anchored_copy (id : string) (updatedAt : Z) : Proof :=
  set_transaction "tx1" updatedAt
    {| p_core := {| pc_id := id; pc_userId := "u1"; pc_proofType := ProofType.MINIMUM_INCOME;
         pc_schemaVersion := "1.0.0"; pc_network := "testnet"; pc_assetCode := "USDC";
         pc_assetIssuer := Some "G1"; pc_periodStart := Some 0; pc_periodEnd := Some 86400000;
         pc_expiresAt := 2592000000; pc_commitment := None; pc_credentialHash := "h1";
         pc_createdAt := 0; pc_claim := Some sample_claim |};
       p_status := ProofStatus.ACTIVE; p_contractTransactionHash := None; p_revocation := not_revoked;
       p_supersedesId := None; p_supersededAt := None; p_renewalRequestHash := None;
       p_propagationConfirmedAt := None; p_updatedAt := 0 |}.
Definition crowded : Store :=
  {| proofs := (((fun n => anchored_copy (num_text (Z.of_nat n)) 1000) <$> seq 0 20)
                ++ [anchored_copy "late" 5000])%list; intents := []; audit := [] |}.
Definition crowded_chain (id : string) : result string ContractProofStatus :=
  Ok (if String.eqb id "late" then Checked true false else Checked false true).

Lemma healthy_rows_starve_reconciler_witness :
  anchor_runs id crowded_chain [6000; 7000; 8000] crowded = Ok crowded /\
  healthy crowded_chain (anchored_copy "late" 5000) = false.
Proof.
  split; [|reflexivity]. apply (healthy_rows_starve_reconciler 2000); [vm_compute; lia|].
  intros p Hp Hb. apply elem_of_app in Hp as [Hp| ->%list_elem_of_singleton]; [|by vm_compute in Hb].
  revert p Hp Hb. apply (proj1 (Forall_forall
    (fun p => anchored_before 2000 p = true -> healthy crowded_chain p = true) _)).
  apply Forall_fmap. repeat (constructor; [intros _; vm_compute; reflexivity|]). constructor.
Defined.

Definition abandoned : Intent :=
  to_abandoned 8000 "admin" (to_quarantined 10 7000 "timeout" QuarantineReasonCode.MAX_ATTEMPTS_EXCEEDED
    (revoke_intent "p2" "i9" 4000)).

Lemma abandoned_store_wf : store_wf (with_intent abandoned).
Proof. destruct sample_renewed_wf as []. split; try done; apply NoDup_singleton. Qed.

Lemma abandoned_revocation_requeued_witness :
  exists s' j, enqueueRevoke "p2" "i10" 9000 (with_intent abandoned) = Ok s' /\
    find_intent "i9" s' = Some j /\ i_quarantineDecision j = QuarantineDecision.ABANDONED.
Proof.
  destruct (abandoned_revocation_requeued "p2" "i10" 9000 (with_intent abandoned) abandoned
    abandoned_store_wf) as (s' & j & H & Hj & Hd & _); [reflexivity..|].
  exists s', j. split_and!; assumption.
Defined.

Lemma review_stops_cycle_witness :
  anchor_cycle 9000 id (fun _ => Ok (Checked false false)) [sample_anchored]
    (with_intent (to_confirmed 1 3000 "tx" None queued)) = Err (ReconcileDb P2002).
Proof.
  apply (review_stops_cycle 9000 id _ sample_anchored [] _ (to_confirmed 1 3000 "tx" None queued));
    [|apply elem_of_cons; by left|reflexivity..].
  destruct sample_renewed_wf as []. split; try done; apply NoDup_singleton.
Defined.

Lemma state_cycle_repairs_witness :
  exists q, find_proof "p2" (state_run 9000 id (fun _ => Ok (Checked true false)) anchored_store).1 = Some q /\
    p_status q = ProofStatus.REVOKED.
Proof.
  apply (state_cycle_repairs 9000 id (fun _ => Ok (Checked true false)) anchored_store sample_anchored false);
    [apply anchored_store_wf|vm_compute; apply elem_of_cons; by left|reflexivity..].
Defined.

Lemma audit_slot_blocks_revocations_witness :
  audited anchored_store revoked_store /\ forall s, ~ audited revoked_store s.
Proof.
  assert (audited anchored_store revoked_store) as H.
  { apply (audited_revoke _ _ pending_revocation). vm_compute. reflexivity. }
  split; [exact H|]. by apply (audit_slot_blocks_revocations anchored_store revoked_store revoked_store).
Defined.
