(* ===== verification/ProofSystem.v ===== *)
(** * The proof system as a whole

    The handlers of [src/proofs/proofs.service.ts] and the jobs of [src/jobs/] run
    concurrently on one database.  Each reads, decides and writes later, in one
    transaction; between its read and its write any other may act.  This file
    composes the components into one transition system whose states are the
    tables, the operations in flight, each with what it has read, a record of the
    operations the contract reported done, and the wallet rotations committed so
    far: [wallet-rotation.service.ts] gives an account another wallet hash, and
    every handler that rebuilds a credential reads the hash of the moment. *)

From S2P Require Import Prelude JsData DecimalText Calendar Schema Canonical PaymentStore.
From S2P Require Import EmployerPayment ProofStore Credentials Issuance IssuanceFacts.
From S2P Require Import CircuitBreaker Contract Renewal RenewalFacts Lifecycle Anchoring.

Local Open Scope Z_scope.

(** ** Operations in flight *)

Inductive InFlight :=
| PIssue (core : ProofCore) (intentId : string)          (* a create handler before its transaction *)
| PRenew (wallets : string -> string) (r : PendingRenewal)   (* [renewProof], with the wallet hashes it read *)
| PRevoke (r : PendingRevocation)                        (* [revokeProof] *)
| PExpire (ids : list string)                            (* the expiry job between its two queries *)
| PExec (x : Execution)                                  (* the worker before the contract call *)
| PCalled (x : Execution) (r : result string AnchorProofResult)   (* and after it *)
| PDecide (d : OperatorDecision)
| PRepair (p : Proof)                                    (* a reconciler with a row of its batch *)
| PEnqueue (proofId : string) (d : RevokeEnqueue)        (* inside [enqueueRevoke] *)
| PPropagate (p : Proof).

(** Operations the contract reported done, by proof id. *)
Definition Log := list (string * AnchoringOperation.t).

(** Wallet rotations, the last first: an account and its hash from then on. *)
Definition Rotations := list (string * string).

Record Sys := { st : Store; pool : list InFlight; log : Log; rotated : Rotations }.

Definition init : Sys :=
  {| st := {| proofs := []; intents := []; audit := [] |}; pool := []; log := []; rotated := [] |}.

(** Configuration, and the code outside the sources: encryption, digests, the
    quota service, and how errors are shown. *)
Record Env := {
  decrypt : string -> option string;
  sha256 : string -> string;
  keyedDigest : string -> string;
  revealAddress : option string -> option string -> option string;
  hmac : string -> string -> string;
  activeSecret : string;
  cfg : Config;
  ccfg : ContractConfig;
  walletHashOf : string -> string;              (* of an account when it was created *)
  consumeForUser : string -> bool;
  redact : string -> string;
  dbMessage : DbError -> string;
}.

Section system.
Context (e : Env).

(** [user.walletHash] after these rotations. *)
Definition wallet_of (rs : Rotations) (uid : string) : string :=
  match find_where (fun r => String.eqb r.1 uid) rs with Some r => r.2 | None => walletHashOf e uid end.

(** A hash the account has or once had. *)
Definition had (rs : Rotations) (uid w : string) : Prop := w = walletHashOf e uid \/ (uid, w) ∈ rs.

(** ** Steps *)

(** An operation starts: it reads the tables. *)
Inductive begins (rs : Rotations) (s : Store) : InFlight -> Prop :=
| begin_issue db txdb u now id core intentId :
    dated db -> u_walletHash u = wallet_of rs (u_id u) ->
    issued (decrypt e) (sha256 e) (keyedDigest e) (revealAddress e) (hmac e) (activeSecret e) (cfg e) (consumeForUser e)
      db txdb u now id core ->
    begins rs s (PIssue core intentId)
| begin_renew user id input key now sid intentId r :
    renew_prepare (decrypt e) (sha256 e) (wallet_of rs) s user id input key now sid intentId = Ok (inr r) ->
    begins rs s (PRenew (wallet_of rs) r)
| begin_revoke user id body now intentId auditId r :
    revoke_prepare (cfg e) s user id body now intentId auditId = Ok (inr r) -> begins rs s (PRevoke r)
| begin_expire now : begins rs s (PExpire (expired_ids now s))
| begin_exec id x : exec_read id s = Some x -> begins rs s (PExec x)
| begin_retry user proofId intentId d :
    retryProofAnchoring s user proofId intentId = Ok d -> begins rs s (PDecide d)
| begin_abandon user proofId intentId d :
    abandonProofAnchoring s user proofId intentId = Ok (Some d) -> begins rs s (PDecide d)
| begin_repair size p : p ∈ reconcile_batch size s -> begins rs s (PRepair p)
| begin_propagate p :
    p ∈ propagation_batch s -> checkAnchoringChannel (cfg_anchoringEnabled (cfg e)) p s = true ->
    begins rs s (PPropagate p).

Definition reported (x : Execution) (r : result string AnchorProofResult) : Log :=
  match r with Ok (Anchored _) => [intent_key (ex_intent x)] | _ => [] end.

(** It goes on: the worker calls the contract, unless it found a confirmed twin;
    a reconciler reads the revocation intent. *)
Inductive continues (s : Store) : InFlight -> InFlight -> Log -> Prop :=
| call_contract run x :
    ex_existing x = None ->
    continues s (PExec x) (PCalled x (exec_call (sha256 e) (ccfg e) run x)) (reported x (exec_call (sha256 e) (ccfg e) run x))
| skip_call x r : is_Some (ex_existing x) -> continues s (PExec x) (PCalled x r) []
| read_revocation p onChain :
    repair_of p onChain = RequeueRevoke ->
    continues s (PRepair p) (PEnqueue (p_id p) (enqueue_revoke_read (p_id p) s)) [].

(** It writes. *)
Inductive finishes (s : Store) : InFlight -> Store -> Prop :=
| finish_issue core intentId s' : issue (cfg e) core intentId s = Ok s' -> finishes s (PIssue core intentId) s'
| finish_renew w r : finishes s (PRenew w r) (renew_finish (decrypt e) (sha256 e) (cfg e) w r s).1
| finish_revoke r s' : revoke_commit r s = Ok s' -> finishes s (PRevoke r) s'
| finish_expire ids now : finishes s (PExpire ids) (expire ids now s).1
| finish_exec now x r s' :
    exec_write (redact e) (dbMessage e) now x r s = Ok s' -> finishes s (PCalled x r) s'
| finish_decide now auditId d s' : decide_intent now auditId d s = Ok s' -> finishes s (PDecide d) s'
| finish_mark now p onChain s' :
    repair_of p onChain = MarkRevoked -> update_proof (p_id p) (mark_revoked now now) s = Ok s' ->
    finishes s (PRepair p) s'
| finish_review now p onChain intentId s' :
    repair_of p onChain = Review -> flagForManualReview (p_id p) intentId now s = Ok s' ->
    finishes s (PRepair p) s'
| finish_enqueue proofId intentId now d s' :
    enqueue_revoke_write proofId intentId now d s = Ok s' -> finishes s (PEnqueue proofId d) s'
| finish_propagate now p s' :
    update_proof (p_id p) (set_propagated now now) s = Ok s' -> finishes s (PPropagate p) s'.

(** Statements that read and write at once, and whatever other services do to
    the audit log. *)
Inductive statement (s : Store) : Store -> Prop :=
| reset_stale now : statement s (resetStaleProcessing now s)
| claim_batch now register revoke locked :
    statement s (claim now (claimPlan register revoke) locked s).1
| audit_changes rows : statement s (set_audit rows s).

Inductive sys_step : Sys -> Sys -> Prop :=
| step_begin s fs l rs q : begins rs s q ->
    sys_step {| st := s; pool := fs; log := l; rotated := rs |} {| st := s; pool := q :: fs; log := l; rotated := rs |}
| step_continue s fs1 q fs2 l rs q' l' : continues s q q' l' ->
    sys_step {| st := s; pool := fs1 ++ q :: fs2; log := l; rotated := rs |}
             {| st := s; pool := fs1 ++ q' :: fs2; log := l' ++ l; rotated := rs |}
| step_finish s fs1 q fs2 l rs s' : finishes s q s' ->
    sys_step {| st := s; pool := fs1 ++ q :: fs2; log := l; rotated := rs |}
             {| st := s'; pool := fs1 ++ fs2; log := l; rotated := rs |}
| step_statement s fs l rs s' : statement s s' ->
    sys_step {| st := s; pool := fs; log := l; rotated := rs |} {| st := s'; pool := fs; log := l; rotated := rs |}
| step_rotate s fs l rs uid w :                    (* a wallet rotation commits *)
    sys_step {| st := s; pool := fs; log := l; rotated := rs |} {| st := s; pool := fs; log := l; rotated := (uid, w) :: rs |}
| step_stop s fs1 q fs2 l rs :                     (* an error, or the process stops *)
    sys_step {| st := s; pool := fs1 ++ q :: fs2; log := l; rotated := rs |}
             {| st := s; pool := fs1 ++ fs2; log := l; rotated := rs |}.

Definition reachable (x : Sys) : Prop := rtc sys_step init x.
End system.
