(* ===== verification/ProofSystemFacts.v ===== *)
(** * What holds of every run of the proof system

    Every interleaving keeps the schema's constraints, never loses or rewrites a
    proof, keeps supersession a forest of chains, keeps every stored hash
    verifiable, and records as anchored only what the contract reported; each row
    goes through an abstract life cycle. *)

From S2P Require Import Prelude JsData DecimalText Calendar Schema Canonical PaymentStore.
From S2P Require Import EmployerPayment ProofStore Credentials Issuance IssuanceFacts.
From S2P Require Import CircuitBreaker Contract Renewal RenewalFacts Lifecycle LifecycleFacts.
From S2P Require Import Anchoring AnchoringFacts ProofSystem.

Local Open Scope Z_scope.

(** ** Effects on the rows *)

(** A change of a row that leaves its content and its place in a chain alone; a
    transaction hash appears only on a proof the log knows. *)
Record benign (l : Log) (p q : Proof) : Prop := {
  bn_core : p_core q = p_core p;
  bn_status : status_le (p_status p) (p_status q);
  bn_link : p_supersedesId q = p_supersedesId p /\ p_renewalRequestHash q = p_renewalRequestHash p;
  bn_mark : p_supersededAt q = p_supersededAt p;
  bn_anchored : is_Some (p_contractTransactionHash p) -> is_Some (p_contractTransactionHash q);
  bn_reported : is_Some (p_contractTransactionHash q) ->
    is_Some (p_contractTransactionHash p) \/ exists op, (p_id p, op) ∈ l;
}.

Lemma benign_evolves l p q : benign l p q -> proof_evolves p q.
Proof. intros [? ? [] ? ? ?]. by split. Qed.

(** The environment with the rotations so far. *)
Record World := { env :> Env; rotations : Rotations }.

(** A credential the row verifies against: under a wallet hash its owner had. *)
Definition verifiable (e : World) (c : ProofCore) : Prop :=
  exists claim w, pc_claim c = Some claim /\ had e (rotations e) (pc_userId c) w /\
    hash_matches (decrypt e) (sha256 e) c w claim = true.

Inductive effect (e : World) (l : Log) (s s' : Store) : Prop :=
| eff_rows w f :
    proofs s' = update_where w f (proofs s) ->
    (forall p, p ∈ proofs s -> w p = true -> benign l p (f p)) -> effect e l s s'
| eff_new core :
    proofs s' = (proofs s ++ [new_proof core])%list -> pc_id core ∉ (fun p => p_id p) <$> proofs s ->
    verifiable e core -> effect e l s s'
| eff_issue predecessor now s1 created :
    claimPredecessor predecessor now s = Ok s1 -> proofs s' = (proofs s1 ++ [created])%list ->
    p_id created ∉ (fun p => p_id p) <$> proofs s -> verifiable e (p_core created) ->
    p_status created = ProofStatus.ACTIVE -> p_supersededAt created = None ->
    p_supersedesId created = Some (p_id predecessor) -> p_contractTransactionHash created = None ->
    effect e l s s'
| eff_link predecessor now s1 u successor hash now' :
    claimPredecessor predecessor now s = Ok s1 ->
    proofs s' = update_where (attachable u successor) (set_link (p_id predecessor) hash now') (proofs s1) ->
    count_where (attachable u successor) (proofs s1) = 1%nat -> effect e l s s'.

Lemma eff_same e l s s' : proofs s' = proofs s -> effect e l s s'.
Proof.
  intros H. apply (eff_rows _ _ _ _ (fun _ => false) id); [|done].
  rewrite H. symmetry. clear H. apply update_where_id. induction (proofs s) as [|? ? IH]; [done|exact IH].
Qed.

(** An update by id of one column group. *)
Lemma eff_update e l id f s s' :
  (forall p, p ∈ proofs s -> p_id p = id -> benign l p (f p)) -> update_proof id f s = Ok s' -> effect e l s s'.
Proof.
  intros Hf. unfold update_proof. destruct (find_proof id s) as [?|]; [|done]. intros [= <-].
  apply (eff_rows _ _ _ _ (has_id id) f); [done|]. intros q Hq Hid. apply Hf; [done|]. by apply String.eqb_eq.
Qed.

Lemma revoke_benign l rv now p : benign l p (set_revocation ProofStatus.REVOKED rv now p).
Proof. split; unfold status_le; cbn; auto. Qed.
Lemma propagated_benign l t now p : benign l p (set_propagated t now p).
Proof. split; unfold status_le; cbn; auto. Qed.
Lemma expired_benign l now p :
  p_status p = ProofStatus.ACTIVE -> benign l p (set_status ProofStatus.EXPIRED now p).
Proof. intros Hp. split; unfold status_le; cbn; auto. Qed.
Lemma transaction_benign l op tx now p : (p_id p, op) ∈ l -> benign l p (set_transaction tx now p).
Proof. intros Hl. split; unfold status_le; cbn; eauto. Qed.

Lemma issued_owner decrypt sha256 keyedDigest revealAddress hmac secret cfg consume db txdb u now id core :
  issued decrypt sha256 keyedDigest revealAddress hmac secret cfg consume db txdb u now id core ->
  pc_userId core = u_id u.
Proof.
  intros [input c H|input c H|input c Hc H|input c H|input c st H|input c H|input c H|input c H].
  - unfold createMinimumIncomeProof in H. run_issue. reflexivity.
  - unfold createIncomeRangeProof in H. run_issue. reflexivity.
  - unfold createRecurringIncomeProof in H. run_issue. reflexivity.
  - unfold createPaymentReceiptProof in H. run_issue. reflexivity.
  - unfold createInvoiceSettlementProof in H. run_issue. reflexivity.
  - unfold createAggregateEarningsProof in H. run_issue. reflexivity.
  - unfold createEmployerPaymentProof in H.
    repeat (run_issue; match goal with x : _ * _ |- _ => destruct x end). run_issue. reflexivity.
  - unfold createEmploymentContinuityProof in H.
    repeat (run_issue; match goal with x : _ * _ |- _ => destruct x end). run_issue. reflexivity.
Qed.

(** ** Effects on the intents *)

(** No intent is lost, and one is only confirmed when the log has its operation. *)
Record intents_step (l : Log) (s s' : Store) : Prop := {
  is_kept : forall i, i ∈ intents s -> exists j, j ∈ intents s' /\ i_core j = i_core i;
  is_confirmed : forall j, j ∈ intents s' -> i_status j = AnchoringStatus.CONFIRMED ->
    intent_key j ∈ l \/
    exists i, i ∈ intents s /\ i_core i = i_core j /\ i_status i = AnchoringStatus.CONFIRMED;
}.

#[export] Instance intents_step_preorder l : PreOrder (intents_step l).
Proof.
  split.
  - intros s. split; [by eauto|]. intros j Hj Hc. right. by exists j.
  - intros s1 s2 s3 [k12 c12] [k23 c23]. split.
    + intros i (j & Hj & Hij)%k12. destruct (k23 j Hj) as (k & Hk & Hjk). exists k. split; [done|congruence].
    + intros k Hk Hc. destruct (c23 k Hk Hc) as [?|(j & Hj & Hjk & Hc')]; [by left|].
      destruct (c12 j Hj Hc') as [Hl|(i & Hi & Hij & Hci)].
      * left. unfold intent_key in *. by rewrite <- Hjk.
      * right. exists i. split_and!; [done|congruence|done].
Qed.

Lemma intents_same l s s' : intents s' = intents s -> intents_step l s s'.
Proof. intros H. split; rewrite H; [by eauto|]. intros j Hj Hc. right. by exists j. Qed.

Lemma intents_map l w f s :
  (forall i, i_core (f i) = i_core i) ->
  (forall i, i ∈ intents s -> w i = true -> i_status (f i) = AnchoringStatus.CONFIRMED -> intent_key i ∈ l) ->
  intents_step l s (map_intents w f s).
Proof.
  intros Hcore Hf. split; cbn.
  - intros i Hi. exists (if w i then f i else i). split; [apply elem_of_update_where; by exists i|].
    by destruct (w i).
  - intros j (i & Hi & ->)%elem_of_update_where Hc. destruct (w i) eqn:Hw; [left|right; by exists i].
    specialize (Hf i Hi Hw Hc). unfold intent_key in *. by rewrite Hcore.
Qed.

Lemma intents_update l id f s s' :
  (forall i, i_core (f i) = i_core i) ->
  (forall i, i ∈ intents s -> i_id i = id -> i_status (f i) = AnchoringStatus.CONFIRMED -> intent_key i ∈ l) ->
  update_intent id f s = Ok s' -> intents_step l s s'.
Proof.
  intros Hcore Hf. unfold update_intent. destruct (find_intent id s); [|done]. intros [= <-].
  apply intents_map; [done|]. intros j Hj Hid. apply Hf; [done|]. by apply String.eqb_eq.
Qed.

Lemma intents_create l i s s' :
  i_status i <> AnchoringStatus.CONFIRMED -> create_intent i s = Ok s' -> intents_step l s s'.
Proof.
  intros Hi. unfold create_intent. intros H. run_result. split; cbn.
  - intros j Hj. exists j. split; [set_solver|done].
  - intros j [Hj| ->%list_elem_of_singleton]%elem_of_app Hc; [right; by exists j|done].
Qed.

(** What the pool may rely on. *)
Definition seen (s : Store) (x : Execution) : Prop :=
  exists j, j ∈ intents s /\ i_core j = i_core (ex_intent x).

Definition in_flight_ok (e : World) (l : Log) (s : Store) (q : InFlight) : Prop :=
  match q with
  | PIssue core _ => verifiable e core
  | PRenew w _ => forall uid, had e (rotations e) uid (w uid)
  | PExec x => ex_existing x = None /\ seen s x
  | PCalled x r => ex_existing x = None /\ seen s x /\
      forall h, r = Ok (Anchored h) -> intent_key (ex_intent x) ∈ l
  | _ => True
  end.

(** The row an execution writes to is the one it read. *)
Lemma seen_key s x i :
  store_wf s -> seen s x -> i ∈ intents s -> i_id i = i_id (ex_intent x) ->
  intent_key i = intent_key (ex_intent x).
Proof.
  intros Hwf (j & Hj & Hc) Hi Hid. rewrite (intent_unique s i j Hwf Hi Hj) by congruence.
  unfold intent_key. by rewrite Hc.
Qed.

Lemma fail_intent_effect r now x m b s s' l :
  fail_intent r now x m b s = Ok s' -> store_wf s ->
  proofs s' = proofs s /\ store_wf s' /\ intents_step l s s'.
Proof.
  unfold fail_intent. destruct (_ || _ || _ || _); intros H Hwf;
    (split_and!; [by eapply update_intent_proofs|by eapply update_intent_wf, Hwf; [..|exact H]
                 |by eapply intents_update; [..|exact H]]).
Qed.

(** ** Every write is of this shape *)

Record good (e : World) (l : Log) (s s' : Store) : Prop := {
  gd_effect : effect e l s s';
  gd_wf : store_wf s';
  gd_intents : intents_step l s s';
}.

Lemma good_same e l s : store_wf s -> good e l s s.
Proof. intros Hwf. split; [by apply eff_same|done|done]. Qed.

Lemma good_set_audit e l rows s s' : good e l s s' -> good e l s (set_audit rows s').
Proof.
  intros [He Hw Hi]. split; [|by apply set_audit_wf|etrans; [exact Hi|by apply intents_same]].
  destruct He; [by eapply eff_rows|by eapply eff_new|by eapply eff_issue|by eapply eff_link].
Qed.

Lemma good_update_intent e l id f s s' :
  store_wf s -> (forall i, i_core (f i) = i_core i) ->
  (forall i, i_status (f i) = AnchoringStatus.CONFIRMED -> i_status i = AnchoringStatus.CONFIRMED) ->
  update_intent id f s = Ok s' -> good e l s s'.
Proof.
  intros Hwf Hc Hf H. split; [|by eapply update_intent_wf|].
  - by eapply eff_same, update_intent_proofs.
  - unfold update_intent in H. destruct (find_intent id s); [|done]. injection H as <-. split; cbn.
    + intros j Hj. eexists. split; [apply elem_of_update_where; by exists j|]. by destruct (_ : bool).
    + intros j (k & Hk & ->)%elem_of_update_where Hs. right. exists k.
      destruct (has_intent_id id k); auto.
Qed.

Lemma good_create_intent e l i s s' :
  store_wf s -> i_status i <> AnchoringStatus.CONFIRMED -> create_intent i s = Ok s' -> good e l s s'.
Proof.
  intros Hwf Hi H. split; [by eapply eff_same, create_intent_proofs|by eapply create_intent_wf|].
  by eapply intents_create.
Qed.

Lemma update_proof_rows id f s s' : update_proof id f s = Ok s' ->
  proofs s' = update_where (has_id id) f (proofs s) /\ intents s' = intents s.
Proof. unfold update_proof. destruct (find_proof id s); [|done]. by intros [= <-]. Qed.

Lemma good_update_proof e l id f s s' :
  store_wf s -> keeps_link f -> (forall p, p ∈ proofs s -> p_id p = id -> benign l p (f p)) ->
  update_proof id f s = Ok s' -> good e l s s'.
Proof.
  intros Hwf Hk Hb H. split; [by eapply eff_update|by eapply update_proof_wf|].
  by eapply intents_same, update_proof_rows.
Qed.

Lemma enqueue_register_intents l c id iid now s s' :
  enqueue_register c id iid now s = Ok s' -> intents_step l s s'.
Proof.
  unfold enqueue_register. destruct (cfg_anchoringEnabled c); [by apply intents_create|by intros [= <-]].
Qed.

Lemma finish_issue_good (e : World) l core iid s s' :
  store_wf s -> verifiable e core -> issue (cfg e) core iid s = Ok s' -> good e l s s'.
Proof.
  intros Hwf Hv. unfold issue. intros H. apply bind_Ok in H as (s1 & H1 & H2).
  pose proof (create_proof_wf _ _ _ H1 Hwf) as Hwf1.
  destruct (enqueue_register_preserves _ _ _ _ _ _ H2 Hwf1) as [Hwf2 Hp].
  unfold create_proof in H1. run_result. reflect_hyps. split; [|done|].
  - apply (eff_new _ _ _ _ core); [by rewrite Hp|done|done].
  - etrans; [|by eapply enqueue_register_intents]. by apply intents_same.
Qed.

Lemma finish_exec_good (e : World) l now x r s s' :
  store_wf s -> in_flight_ok e l s (PCalled x r) ->
  exec_write (redact e) (dbMessage e) now x r s = Ok s' -> good e l s s'.
Proof.
  intros Hwf (Hex & Hseen & Hrep). unfold exec_write. rewrite Hex.
  assert (forall m b, fail_intent (redact e) now x m b s = Ok s' -> good e l s s') as Hfail.
  { intros m b Hf. destruct (fail_intent_effect _ _ _ _ _ _ _ l Hf Hwf) as (? & ? & ?).
    split; [by apply eff_same|done..]. }
  destruct r as [[h|[]]|]; try (by apply Hfail); [|by apply good_update_intent].
  destruct (confirm now x h s) as [s2|] eqn:Hc; [|by apply Hfail]. intros [= <-].
  specialize (Hrep h eq_refl). unfold confirm in Hc. destruct (split_transaction h) as [tx ledger].
  apply bind_Ok in Hc as (s1 & H1 & H2). pose proof (update_intent_proofs _ _ _ _ H1) as Hp1.
  assert (store_wf s1) as Hwf1 by (by eapply update_intent_wf, Hwf; [|exact H1]).
  destruct (update_proof_rows _ _ _ _ H2) as [Hp2 Hi2]. split.
  - eapply eff_rows; [by rewrite Hp2, Hp1|]. intros p _ Hid%String.eqb_eq.
    apply (transaction_benign _ (i_operation (ex_intent x))). by rewrite Hid.
  - by eapply update_proof_wf, Hwf1; [|exact H2].
  - transitivity s1; [|by apply intents_same]. eapply intents_update; [|..|exact H1]; [done|].
    intros i Hi Hid _. by rewrite (seen_key s x i Hwf Hseen Hi Hid).
Qed.

Lemma claimPredecessor_ids predecessor now s s1 :
  claimPredecessor predecessor now s = Ok s1 ->
  ((fun p => p_id p) <$> proofs s1) = ((fun p => p_id p) <$> proofs s) /\ intents s1 = intents s.
Proof. intros (q & _ & _ & ->)%claimPredecessor_Ok. split; [|done]. by apply update_where_keys. Qed.

Lemma commit_issue_good (e : World) l wallets predecessor claim sid iid days hash now s s' created :
  store_wf s -> (forall uid, had e (rotations e) uid (wallets uid)) ->
  renew_commit (decrypt e) (sha256 e) (cfg e) wallets
    (PendingIssue predecessor claim sid iid days hash now) s = Ok (s', created) -> good e l s s'.
Proof.
  intros Hwf Hw Hc. destruct (commit_issue _ _ _ _ _ _ _ _ _ _ _ _ _ _ Hc Hwf) as [[Hwf' _ _ _ _ _] ->].
  cbn [renew_commit] in Hc. apply bind_Ok in Hc as (s1 & H1 & Hc). apply bind_Ok in Hc as (s2 & H2 & Hc).
  apply bind_Ok in Hc as (s3 & H3 & [= <-]). apply lift_db_Ok in H2, H3.
  destruct (claimPredecessor_ids _ _ _ _ H1) as [Hids Hi1].
  destruct (claimPredecessor_preserves _ _ _ _ H1 Hwf) as [Hwf1 _].
  destruct (enqueue_register_preserves _ _ _ _ _ _ H3 (create_proof_wf _ _ _ H2 Hwf1)) as [_ Hp3].
  unfold create_proof in H2. run_result. reflect_hyps. rewrite Hids in *. split; [|done|].
  - eapply eff_issue; [exact H1|exact Hp3|done|..]; try done.
    exists claim, (wallets (p_userId predecessor)). split_and!; [done|apply Hw|apply String.eqb_refl].
  - etrans; [|by eapply enqueue_register_intents]. by apply intents_same.
Qed.

Lemma commit_link_good (e : World) l wallets predecessor successor claim hash now s s' linked :
  store_wf s ->
  renew_commit (decrypt e) (sha256 e) (cfg e) wallets
    (PendingLink predecessor successor claim hash now) s = Ok (s', linked) -> good e l s s'.
Proof.
  intros Hwf Hc. destruct (commit_link _ _ _ _ _ _ _ _ _ _ _ _ Hc Hwf) as [[Hwf' _ _ _ _ _] _].
  cbn [renew_commit] in Hc. apply bind_Ok in Hc as (s1 & H1 & Hc). run_result.
  match goal with H : context [find_proof ?i ?st] |- _ => destruct (find_proof i st); [|done] end.
  run_result. destruct (claimPredecessor_ids _ _ _ _ H1) as [_ Hi1]. split; [|done|by apply intents_same].
  eapply eff_link; [exact H1|done|]. reflect_hyps. by apply Nat.eqb_eq.
Qed.

Lemma finish_renew_good (e : World) l wallets r s :
  store_wf s -> (forall uid, had e (rotations e) uid (wallets uid)) ->
  good e l s (renew_finish (decrypt e) (sha256 e) (cfg e) wallets r s).1.
Proof.
  intros Hwf Hw. unfold renew_finish. destruct (renew_commit _ _ _ _ r s) as [[s' q]|[|[]]] eqn:Hc;
    try by apply good_same.
  destruct r; [by eapply commit_issue_good|by eapply commit_link_good].
Qed.

Lemma finish_revoke_good e l r s s' : store_wf s -> revoke_commit r s = Ok s' -> good e l s s'.
Proof.
  intros Hwf H. destruct (revoke_commit_Ok r s s' H Hwf) as (p & _ & Hwf' & _ & Hp & _). split; [|done|].
  - eapply eff_rows; [exact Hp|]. intros q _ _. apply revoke_benign.
  - unfold revoke_commit in H. apply bind_Ok in H as (s1 & H1 & H2).
    apply bind_Ok in H2 as (s2 & (rows & _ & ->)%create_audit_Ok & H2).
    transitivity s1; [by eapply intents_same, update_proof_rows|].
    transitivity (set_audit rows s1); [by apply intents_same|].
    destruct (pr_enqueue r); [|by simplify_eq]. by eapply intents_create; [|exact H2].
Qed.

Lemma finish_expire_good e l ids now s : store_wf s -> good e l s (expire ids now s).1.
Proof.
  intros Hwf. split; [|by apply map_proofs_wf|by apply intents_same].
  eapply eff_rows; [done|]. intros p _ Hp. apply expired_benign. unfold still_active in Hp. by reflect_hyps.
Qed.

Lemma finish_enqueue_good e l id iid now d s s' :
  store_wf s -> enqueue_revoke_write id iid now d s = Ok s' -> good e l s s'.
Proof.
  intros Hwf. destruct d; cbn; [by intros [= <-]; apply good_same|by apply good_update_intent|].
  by apply good_create_intent.
Qed.

Lemma flag_good e l id iid now s s' :
  store_wf s -> flagForManualReview id iid now s = Ok s' -> good e l s s'.
Proof.
  intros Hwf. unfold flagForManualReview. destruct (find_where _ _); [by intros [= <-]; apply good_same|].
  by apply good_create_intent.
Qed.

Lemma decide_good e l now aid d s s' : store_wf s -> decide_intent now aid d s = Ok s' -> good e l s s'.
Proof.
  intros Hwf. destruct d; cbn; intros (s1 & H1 & (rows & _ & ->)%create_audit_Ok)%bind_Ok.
  all: apply (good_set_audit e l rows s s1).
  all: eapply good_update_intent; [exact Hwf| | |exact H1]; done.
Qed.

Lemma finishes_good (e : World) l s q s' :
  store_wf s -> in_flight_ok e l s q -> finishes e s q s' -> good e l s s'.
Proof.
  intros Hwf Hok Hf. destruct Hf.
  - by eapply finish_issue_good.
  - by apply finish_renew_good.
  - by eapply finish_revoke_good.
  - by apply finish_expire_good.
  - by eapply finish_exec_good.
  - by eapply decide_good.
  - eapply good_update_proof; [done| |intros ? _ _; apply revoke_benign|done]. done.
  - by eapply flag_good.
  - by eapply finish_enqueue_good.
  - eapply good_update_proof; [done| |intros ? _ _; apply propagated_benign|done]. done.
Qed.

Lemma statement_good e l s s' : store_wf s -> statement s s' -> good e l s s'.
Proof.
  intros Hwf [now|now register revoke locked|rows].
  3: by apply good_set_audit, good_same.
  all: split; [by apply eff_same|by apply map_intents_wf|]; by apply intents_map.
Qed.

(** ** Rows *)

(** Where a row after an effect comes from. *)
Lemma effect_origin e l s s' q :
  effect e l s s' -> q ∈ proofs s' ->
  (exists p, p ∈ proofs s /\ proof_evolves p q /\
     (is_Some (p_contractTransactionHash q) -> is_Some (p_contractTransactionHash p) \/
        exists op, (p_id p, op) ∈ l)) \/
  (verifiable e (p_core q) /\ p_contractTransactionHash q = None).
Proof.
  assert (forall p n s1 r, claimPredecessor p n s = Ok s1 -> r ∈ proofs s1 ->
    exists p0, p0 ∈ proofs s /\ proof_evolves p0 r /\
      p_contractTransactionHash r = p_contractTransactionHash p0) as Hclaim.
  { intros p n s1 r (q0 & _ & _ & ->)%claimPredecessor_Ok (p0 & Hp0 & ->)%elem_of_update_where. exists p0.
    destruct (claimable p p0) eqn:Hc; [|done]. split_and!; [done|by eapply set_superseded_evolves|done]. }
  intros [w f -> Hf|core -> Hid Hv|p n s1 c H1 -> Hid Hv ? ? ? Ht|p n s1 u su h n' H1 -> _] Hq.
  - apply elem_of_update_where in Hq as (p & Hp & ->). left. exists p. split; [done|].
    destruct (w p) eqn:Hw; [|split; [done|by left]].
    split; [by eapply benign_evolves, Hf|by apply Hf].
  - apply elem_of_app in Hq as [Hq| ->%list_elem_of_singleton]; [left; exists q|by right].
    split_and!; [done|done|by left].
  - apply elem_of_app in Hq as [Hq| ->%list_elem_of_singleton]; [left|by right].
    destruct (Hclaim _ _ _ _ H1 Hq) as (p0 & Hp0 & Hev & Heq). exists p0. rewrite Heq. by auto.
  - left. apply elem_of_update_where in Hq as (r & Hr & ->).
    destruct (Hclaim _ _ _ _ H1 Hr) as (p0 & Hp0 & Hev & Heq). exists p0.
    destruct (attachable u su r) eqn:Ha; [|rewrite Heq; by auto].
    split_and!; [done|etrans; [done|by eapply set_link_evolves]|cbn; rewrite Heq; by auto].
Qed.

Lemma effect_evolves e l s s' : store_wf s -> effect e l s s' -> store_evolves s s'.
Proof.
  intros Hwf [w f Hp Hf|core Hp _ _|p n s1 c H1 Hp _ _ _ _ _ _|p n s1 u su h n' H1 Hp _].
  - transitivity (map_proofs w f s); [|by apply store_evolves_same].
    apply map_proofs_evolves. intros p Hin Hw. eapply benign_evolves, Hf; done.
  - intros q Hq. exists q. rewrite Hp. split; [set_solver|done].
  - destruct (claimPredecessor_preserves _ _ _ _ H1 Hwf) as [_ Hev]. etrans; [done|].
    intros q Hq. exists q. rewrite Hp. split; [set_solver|done].
  - destruct (claimPredecessor_preserves _ _ _ _ H1 Hwf) as [_ Hev]. etrans; [done|].
    transitivity (map_proofs (attachable u su) (set_link (p_id p) h n') s1); [|by apply store_evolves_same].
    apply map_proofs_evolves. intros q _ Ha. by eapply set_link_evolves.
Qed.

(** ** Chains of supersession *)

Definition present (s : Store) (a : string) : Prop := exists p, p ∈ proofs s /\ p_id p = a.
Definition supersedes (s : Store) (a b : string) : Prop :=
  exists p, p ∈ proofs s /\ p_id p = a /\ p_supersedesId p = Some b.
Definition superseded (s : Store) (a : string) : Prop :=
  exists p, p ∈ proofs s /\ p_id p = a /\ is_Some (p_supersededAt p).

Record chains_ok (s : Store) : Prop := {
  ch_present : forall a b, supersedes s a b -> present s b;
  ch_superseded : forall b, superseded s b <-> exists a, supersedes s a b;
  ch_rank : exists rank : string -> nat, forall a b, supersedes s a b -> (rank b < rank a)%nat;
}.

(** What a write does to the chains: nothing, a new row, or one new link. *)
Inductive chain_step (s s' : Store) : Prop :=
| chain_same :
    (forall a, present s a -> present s' a) -> (forall a b, supersedes s' a b <-> supersedes s a b) ->
    (forall a, superseded s' a <-> superseded s a) -> chain_step s s'
| chain_link a b :
    (forall c, present s' c <-> present s c \/ c = a) ->
    (forall c d, supersedes s' c d <-> supersedes s c d \/ (c = a /\ d = b)) ->
    (forall c, superseded s' c <-> superseded s c \/ c = b) ->
    present s b -> a <> b -> (forall c, ~ supersedes s c a) -> (forall c, ~ supersedes s a c) -> chain_step s s'.

Lemma chain_step_ok s s' : chain_step s s' -> chains_ok s -> chains_ok s'.
Proof.
  intros [Hp He Hm|a b Hp He Hm Hb Hab Hin Hout] [H1 H2 [rank H3]].
  - split.
    + intros c d Hcd%He. eauto.
    + intros c. rewrite Hm, H2. split; intros [d Hd]; exists d; by apply He.
    + exists rank. intros c d Hcd%He. eauto.
  - split.
    + intros c d [Hcd|[-> ->]]%He; apply Hp; eauto.
    + intros c. rewrite Hm, H2. split.
      * intros [[d Hd]| ->]; [exists d|exists a]; apply He; auto.
      * intros [d [Hd|[-> ->]]%He]; eauto.
    + exists (fun c => if decide (c = a) then S (rank b) else rank c). intros c d Hcd.
      apply He in Hcd as [Hcd|[-> ->]].
      * destruct (decide (d = a)) as [->|]; [by destruct (Hin c)|].
        destruct (decide (c = a)) as [->|]; [by destruct (Hout d)|]. eauto.
      * destruct (decide (b = a)); [done|]. destruct (decide (a = a)); [lia|done].
Qed.

(** An update of rows does not change which values a column it keeps takes. *)
Lemma rows_map {K} (g : Proof -> K) (P : K -> Prop) w f rows :
  (forall p, p ∈ rows -> w p = true -> g (f p) = g p) ->
  (exists p, p ∈ update_where w f rows /\ P (g p)) <-> (exists p, p ∈ rows /\ P (g p)).
Proof.
  intros Hg. split; intros (p & Hp & HP).
  - apply elem_of_update_where in Hp as (r & Hr & ->). exists r. split; [done|].
    destruct (w r) eqn:E; [|done]. by rewrite Hg in HP.
  - exists (if w p then f p else p). rewrite elem_of_update_where. split; [by exists p|].
    destruct (w p) eqn:E; [|done]. by rewrite Hg.
Qed.

Section map_chain.
Context (s s' : Store) (w : Proof -> bool) (f : Proof -> Proof).
Hypothesis Hrows : proofs s' = update_where w f (proofs s).
Hypothesis Hcore : forall p, p ∈ proofs s -> w p = true -> p_core (f p) = p_core p.

Lemma present_map a : present s' a <-> present s a.
Proof.
  unfold present. rewrite Hrows. apply (rows_map (fun p => p_id p) (fun x => x = a)).
  intros p Hp Hw. by rewrite Hcore.
Qed.

Lemma supersedes_map a b :
  (forall p, p ∈ proofs s -> w p = true -> p_supersedesId (f p) = p_supersedesId p) ->
  supersedes s' a b <-> supersedes s a b.
Proof.
  intros Hl. unfold supersedes. rewrite Hrows.
  apply (rows_map (fun p => (p_id p, p_supersedesId p)) (fun x => x.1 = a /\ x.2 = Some b)).
  intros p Hp Hw. by rewrite Hcore, Hl.
Qed.

Lemma superseded_map a :
  (forall p, p ∈ proofs s -> w p = true -> p_supersededAt (f p) = p_supersededAt p) ->
  superseded s' a <-> superseded s a.
Proof.
  intros Hl. unfold superseded. rewrite Hrows.
  apply (rows_map (fun p => (p_id p, p_supersededAt p)) (fun x => x.1 = a /\ is_Some x.2)).
  intros p Hp Hw. by rewrite Hcore, Hl.
Qed.
End map_chain.

Lemma claim_chain predecessor now s s1 :
  claimPredecessor predecessor now s = Ok s1 ->
  (forall a, present s1 a <-> present s a) /\
  (forall a b, supersedes s1 a b <-> supersedes s a b) /\
  (forall a, superseded s1 a <-> superseded s a \/ a = p_id predecessor) /\
  present s (p_id predecessor).
Proof.
  intros (q & Hq & Hc & ->)%claimPredecessor_Ok. destruct (claimable_true _ _ Hc) as [Hid _]. split_and!.
  - intros a. by eapply present_map.
  - intros a b. by eapply supersedes_map.
  - intros a. unfold superseded. setoid_rewrite elem_of_update_where. split.
    + intros (p & (p0 & Hp & ->) & <- & Hm).
      destruct (claimable predecessor p0) eqn:E; [right; apply (claimable_true _ _ E)|left; by exists p0].
    + intros [(p & Hp & <- & Hm)| ->].
      * eexists. split; [by exists p|]. destruct (claimable predecessor p); [|done]. split; [done|by eexists].
      * exists (set_superseded now now q). split; [exists q; by rewrite Hc|]. split; [done|by eexists].
  - by exists q.
Qed.

Lemma chain_snoc s s1 p :
  proofs s = (proofs s1 ++ [p])%list ->
  (forall a, present s a <-> present s1 a \/ a = p_id p) /\
  (forall a b, supersedes s a b <-> supersedes s1 a b \/ (a = p_id p /\ p_supersedesId p = Some b)) /\
  (p_supersededAt p = None -> forall a, superseded s a <-> superseded s1 a).
Proof.
  intros H. unfold present, supersedes, superseded. setoid_rewrite H. setoid_rewrite elem_of_app.
  setoid_rewrite list_elem_of_singleton. split_and!; [naive_solver..|].
  intros Hm a. split; [|naive_solver]. intros (q & [Hq| ->] & <- & Hs); [eauto|]. rewrite Hm in Hs. by destruct Hs.
Qed.

(** Attaching the link of one row. *)
Lemma link_supersedes s1 s' b u successor hash now q :
  store_wf s1 -> q ∈ proofs s1 -> attachable u successor q = true ->
  proofs s' = update_where (attachable u successor) (set_link b hash now) (proofs s1) ->
  forall c d, supersedes s' c d <-> supersedes s1 c d \/ (c = p_id q /\ d = b).
Proof.
  intros Hwf1 Hq Ha H' c d. unfold supersedes. rewrite H'. setoid_rewrite elem_of_update_where. split.
  - intros (p & (r & Hr & ->) & <- & Hl).
    destruct (attachable u successor r) eqn:Er; [right|left; by exists r].
    cbn in Hl |- *. split; [|congruence]. apply attachable_true in Er as [Er _], Ha as [Ha _]. congruence.
  - intros [(r & Hr & <- & Hl)|[-> ->]].
    + exists r. split_and!; [|done|done]. exists r. split; [done|].
      destruct (attachable u successor r) eqn:Er; [|done]. apply attachable_true in Er as (_ & Er & _). congruence.
    + exists (set_link b hash now q). split_and!; [|done|done]. exists q. by rewrite Ha.
Qed.

Lemma link_chain_step s s1 s' b u successor hash now :
  store_wf s1 -> chains_ok s ->
  (forall a, present s1 a <-> present s a) -> (forall a b, supersedes s1 a b <-> supersedes s a b) ->
  (forall a, superseded s1 a <-> superseded s a \/ a = b) -> present s b ->
  proofs s' = update_where (attachable u successor) (set_link b hash now) (proofs s1) ->
  count_where (attachable u successor) (proofs s1) = 1%nat -> chain_step s s'.
Proof.
  intros Hwf1 Hok Hp1 He1 Hm1 Hb H' Hn.
  destruct (count_where_pos (attachable u successor) (proofs s1)) as (q & Hq & Ha); [lia|].
  destruct (attachable_true _ _ _ Ha) as (Hid & Hnl & Hnm & _).
  assert (forall r, r ∈ proofs s1 -> p_id r = p_id q -> r = q) as Huniq by (intros; by apply (proof_unique s1)).
  assert (~ superseded s1 (p_id q)) as Hnsup.
  { intros (r & Hr & Hrid & Hs). rewrite (Huniq r Hr Hrid), Hnm in Hs. by destruct Hs. }
  apply (chain_link _ _ (p_id q) b).
  - intros c. erewrite present_map, <- Hp1 by done. split; [by left|].
    intros [?| ->]; [done|]. by exists q.
  - intros c d. by rewrite <- He1, (link_supersedes s1 s' b u successor hash now q).
  - intros c. by erewrite <- Hm1, superseded_map by done.
  - done.
  - intros <-. apply Hnsup, Hm1. by right.
  - intros c Hc. apply Hnsup, Hm1. left. apply (ch_superseded s Hok). by exists c.
  - intros c Hc. apply He1 in Hc as (r & Hr & Hrid & Hl). rewrite (Huniq r Hr Hrid) in Hl. congruence.
Qed.

Lemma effect_chain e l s s' : store_wf s -> chains_ok s -> effect e l s s' -> chain_step s s'.
Proof.
  intros Hwf Hok [w f Hp Hf|core Hp Hid _|p n s1 c H1 Hp Hid _ _ Hm Hl _|p n s1 u su h n' H1 Hp Hn].
  - assert (forall p, p ∈ proofs s -> w p = true -> p_core (f p) = p_core p) as Hc
      by (intros p Hin Hw; by destruct (Hf p Hin Hw)).
    apply chain_same; intros; [by eapply present_map|eapply supersedes_map|eapply superseded_map]; try done.
    + intros p Hin Hw. apply (Hf p Hin Hw).
    + intros p Hin Hw. apply (Hf p Hin Hw).
  - destruct (chain_snoc _ _ _ Hp) as (Hpr & He & Hs). apply chain_same.
    + intros a Ha. apply Hpr. by left.
    + intros a b. rewrite He. naive_solver.
    + by apply Hs.
  - destruct (claim_chain _ _ _ _ H1) as (Hp1 & He1 & Hm1 & Hb).
    destruct (chain_snoc _ _ _ Hp) as (Hpr & He & Hs).
    assert (~ present s (p_id c)) as Hfresh.
    { intros (q & Hq & Hqid). apply Hid, list_elem_of_fmap. by exists q. }
    apply (chain_link _ _ (p_id c) (p_id p)).
    + intros a. by rewrite Hpr, Hp1.
    + intros a b. rewrite He, He1, Hl. naive_solver.
    + intros a. by rewrite Hs, Hm1.
    + done.
    + intros Heq. by rewrite Heq in Hfresh.
    + intros a Ha. by apply Hfresh, (ch_present s Hok a).
    + intros a (q & Hq & Hqid & _). apply Hfresh. by exists q.
  - destruct (claim_chain _ _ _ _ H1) as (Hp1 & He1 & Hm1 & Hb).
    destruct (claimPredecessor_preserves _ _ _ _ H1 Hwf) as [Hwf1 _].
    by eapply (link_chain_step s s1).
Qed.

(** ** The invariant *)

Definition world (e : Env) (x : Sys) : World := {| env := e; rotations := rotated x |}.

Record sys_inv (e : Env) (x : Sys) : Prop := {
  inv_wf : store_wf (st x);
  inv_chains : chains_ok (st x);
  inv_verifiable : forall p, p ∈ proofs (st x) -> verifiable (world e x) (p_core p);
  inv_pool : forall q, q ∈ pool x -> in_flight_ok (world e x) (log x) (st x) q;
  inv_anchored : forall p, p ∈ proofs (st x) -> is_Some (p_contractTransactionHash p) ->
    exists op, (p_id p, op) ∈ log x;
  inv_confirmed : forall i, i ∈ intents (st x) -> i_status i = AnchoringStatus.CONFIRMED ->
    intent_key i ∈ log x;
}.

Lemma inv_init e : sys_inv e init.
Proof.
  split; cbn; try (intros ? []%not_elem_of_nil).
  - split; cbn; try apply NoDup_nil_2. intros ? ? ? []%not_elem_of_nil.
  - assert (forall a b, ~ supersedes (st init) a b) as Hnil by (intros a b (p & []%not_elem_of_nil & _)).
    split.
    + intros a b []%Hnil.
    + intros b. split; [intros (p & []%not_elem_of_nil & _)|intros [a []%Hnil]].
    + exists (fun _ => 0%nat). intros a b []%Hnil.
Qed.

Lemma in_flight_mono (e : World) l l' s s' q :
  intents_step l s s' -> l ⊆ l' -> in_flight_ok e l s q -> in_flight_ok e l' s' q.
Proof.
  intros [Hkept _] Hl.
  assert (forall x, seen s x -> seen s' x) as Hseen.
  { intros x (j & Hj & Hc). destruct (Hkept j Hj) as (k & Hk & Hkc). exists k. split; [done|congruence]. }
  destruct q; cbn; naive_solver.
Qed.

Lemma wallet_had e rs uid : had e rs uid (wallet_of e rs uid).
Proof.
  unfold had, wallet_of. destruct (find_where _ rs) as [[u w]|] eqn:E; [right|by left].
  apply find_where_Some in E as [Hin Hu]. cbn in *. apply String.eqb_eq in Hu. by subst.
Qed.

Lemma had_mono e rs rs' uid w : rs ⊆ rs' -> had e rs uid w -> had e rs' uid w.
Proof. intros Hsub [?|?]; [by left|right; auto]. Qed.

Lemma begins_ok (e : World) l s q : store_wf s -> begins e (rotations e) s q -> in_flight_ok e l s q.
Proof.
  intros Hwf [db txdb u now id core iid Hd Hw Hi| | | |id x Hx| | | |]; try done; cbn.
  - destruct (issued_matches _ _ _ _ _ _ _ _ _ _ _ _ _ _ Hd Hi) as (claim & Hc & Hm).
    exists claim, (u_walletHash u). split_and!; [done| |done].
    rewrite (issued_owner _ _ _ _ _ _ _ _ _ _ _ _ _ _ Hi), Hw. apply wallet_had.
  - intros uid. apply wallet_had.
  - unfold exec_read in Hx. destruct (find_intent id s) as [i|] eqn:Hi; [|done]. cbn in Hx.
    destruct (find_proof _ s) as [p|]; [|done]. injection Hx as <-. cbn.
    apply find_intent_Some in Hi as [Hi _]. split; [by apply no_twin|]. by exists i.
Qed.

Lemma continues_ok (e : World) l s q q' l' :
  in_flight_ok e l s q -> continues e s q q' l' -> in_flight_ok e (l' ++ l) s q'.
Proof.
  intros Hok Hc. destruct Hc as [run x Hex|x r Hex|p onChain _]; cbn in *; [|destruct Hok as [Hn _]; rewrite Hn in Hex; by destruct Hex|done].
  destruct Hok as [_ Hseen]. split_and!; [done|done|]. intros h Hh. rewrite Hh. cbn. set_solver.
Qed.

Lemma good_inv e l rs s s' fs fs' :
  sys_inv e {| st := s; pool := fs; log := l; rotated := rs |} -> good {| env := e; rotations := rs |} l s s' ->
  (forall q, q ∈ fs' -> q ∈ fs) -> sys_inv e {| st := s'; pool := fs'; log := l; rotated := rs |}.
Proof.
  intros [Hwf Hch Hv Hpool Ha Hc] [Heff Hwf' Hint] Hfs. cbn in *. split; cbn.
  - done.
  - eapply chain_step_ok, Hch. by eapply effect_chain.
  - intros q Hq. destruct (effect_origin _ _ _ _ _ Heff Hq) as [(p & Hp & Hev & _)|[? _]]; [|done].
    rewrite (ev_core _ _ Hev). by apply Hv.
  - intros q Hq. eapply in_flight_mono; [done|done|]. by apply Hpool, Hfs.
  - intros q Hq Ht. destruct (effect_origin _ _ _ _ _ Heff Hq) as [(p & Hp & Hev & Htx)|[_ Hn]].
    + rewrite (ev_core _ _ Hev). destruct (Htx Ht); [by apply Ha|done].
    + rewrite Hn in Ht. by destruct Ht.
  - intros j Hj Hcj. destruct (is_confirmed _ _ _ Hint j Hj Hcj) as [?|(i & Hi & Hij & Hci)]; [done|].
    specialize (Hc i Hi Hci). unfold intent_key in *. by rewrite <- Hij.
Qed.

Lemma log_inv e s fs fs' l l' rs :
  sys_inv e {| st := s; pool := fs; log := l; rotated := rs |} -> l ⊆ l' ->
  (forall q, q ∈ fs' -> q ∈ fs \/ in_flight_ok {| env := e; rotations := rs |} l' s q) ->
  sys_inv e {| st := s; pool := fs'; log := l'; rotated := rs |}.
Proof.
  intros [Hwf Hch Hv Hpool Ha Hc] Hl Hfs. cbn in *. split; cbn; try done.
  - intros q [Hq|Hq]%Hfs; [|done]. eapply in_flight_mono; [reflexivity|done|by apply Hpool].
  - intros p Hp Ht. destruct (Ha p Hp Ht) as [op Hop]. exists op. auto.
  - intros i Hi Hci. auto.
Qed.

(** A rotation: what an account had, it still had. *)
Lemma rotate_inv e s fs l rs uid w :
  sys_inv e {| st := s; pool := fs; log := l; rotated := rs |} ->
  sys_inv e {| st := s; pool := fs; log := l; rotated := (uid, w) :: rs |}.
Proof.
  intros [Hwf Hch Hv Hpool Ha Hc].
  assert (forall c, verifiable {| env := e; rotations := rs |} c -> verifiable {| env := e; rotations := (uid, w) :: rs |} c) as Hmono.
  { intros c (claim & h & Hcl & Hh & Hm). exists claim, h. split_and!; [done| |done]. eapply had_mono, Hh. cbn. set_solver. }
  split; [done|done|intros p Hp; by apply Hmono, Hv| |done|done].
  intros q Hq. specialize (Hpool q Hq). destruct q; cbn in *; try done; [by apply Hmono|].
  intros u. eapply had_mono, Hpool. set_solver.
Qed.

Lemma step_inv e x y : sys_inv e x -> sys_step e x y -> sys_inv e y.
Proof.
  intros Hinv Hstep.
  destruct Hstep as [s fs l rs q Hb|s fs1 q fs2 l rs q' l' Hc|s fs1 q fs2 l rs s' Hf|s fs l rs s' Hs|s fs l rs uid w|s fs1 q fs2 l rs].
  - apply (log_inv e s fs _ l l); [done|done|]. intros q' [->|Hq]%elem_of_cons; [right|by left].
    eapply begins_ok; [apply Hinv|done].
  - eapply log_inv; [done|set_solver|]. intros q0 Hq0.
    assert (in_flight_ok {| env := e; rotations := rs |} l s q) as Hq by (apply (inv_pool _ _ Hinv); cbn; set_solver).
    pose proof (continues_ok _ _ _ _ _ _ Hq Hc). set_solver.
  - eapply good_inv; [done| |set_solver]. eapply finishes_good; [apply Hinv| |done].
    apply (inv_pool _ _ Hinv). cbn. set_solver.
  - eapply good_inv; [done| |done]. eapply statement_good; [apply Hinv|done].
  - by apply rotate_inv.
  - eapply log_inv; [done|done|]. intros q' Hq'. left. set_solver.
Qed.

Lemma reachable_inv e x : reachable e x -> sys_inv e x.
Proof.
  intros H. unfold reachable in H. remember init as i eqn:Hi.
  assert (sys_inv e i) as Hinv by (subst; apply inv_init). clear Hi. induction H; [done|]. eauto using step_inv.
Qed.

(** ** The life of a proof *)

Record Life := { lf_status : ProofStatus.t; lf_superseded : bool; lf_successor : bool; lf_anchored : bool }.

Definition life (p : Proof) : Life :=
  {| lf_status := p_status p; lf_superseded := bool_decide (is_Some (p_supersededAt p));
     lf_successor := bool_decide (is_Some (p_supersedesId p));
     lf_anchored := bool_decide (is_Some (p_contractTransactionHash p)) |}.

Definition life_of (id : string) (s : Store) : option Life := life <$> find_proof id s.

(** The contract of the component: what may happen to a proof. *)
Inductive life_step : option Life -> option Life -> Prop :=
| life_issue successor :
    life_step None (Some {| lf_status := ProofStatus.ACTIVE; lf_superseded := false;
                            lf_successor := successor; lf_anchored := false |})
| life_expire a b c :
    life_step (Some {| lf_status := ProofStatus.ACTIVE; lf_superseded := a; lf_successor := b; lf_anchored := c |})
              (Some {| lf_status := ProofStatus.EXPIRED; lf_superseded := a; lf_successor := b; lf_anchored := c |})
| life_revoke x a b c :
    life_step (Some {| lf_status := x; lf_superseded := a; lf_successor := b; lf_anchored := c |})
              (Some {| lf_status := ProofStatus.REVOKED; lf_superseded := a; lf_successor := b; lf_anchored := c |})
| life_supersede x b c :
    x <> ProofStatus.REVOKED -> x <> ProofStatus.INVALID ->
    life_step (Some {| lf_status := x; lf_superseded := false; lf_successor := b; lf_anchored := c |})
              (Some {| lf_status := x; lf_superseded := true; lf_successor := b; lf_anchored := c |})
| life_link c :
    life_step (Some {| lf_status := ProofStatus.ACTIVE; lf_superseded := false; lf_successor := false;
                       lf_anchored := c |})
              (Some {| lf_status := ProofStatus.ACTIVE; lf_superseded := false; lf_successor := true;
                       lf_anchored := c |})
| life_anchor x a b c :
    life_step (Some {| lf_status := x; lf_superseded := a; lf_successor := b; lf_anchored := c |})
              (Some {| lf_status := x; lf_superseded := a; lf_successor := b; lf_anchored := true |}).

Lemma benign_life l p q : benign l p q -> rtc life_step (Some (life p)) (Some (life q)).
Proof.
  intros [_ Hst [Hl _] Hm Ha _]. unfold life. rewrite Hl, Hm.
  transitivity (Some {| lf_status := p_status q; lf_superseded := bool_decide (is_Some (p_supersededAt p));
    lf_successor := bool_decide (is_Some (p_supersedesId p));
    lf_anchored := bool_decide (is_Some (p_contractTransactionHash p)) |}).
  - destruct Hst as [->|[->|[-> ->]]]; [apply rtc_refl|apply rtc_once; constructor..].
  - destruct (bool_decide (is_Some (p_contractTransactionHash q))) eqn:E; [apply rtc_once; constructor|].
    rewrite (bool_decide_eq_false_2 (is_Some (p_contractTransactionHash p))); [apply rtc_refl|]. apply bool_decide_eq_false in E. tauto.
Qed.

Lemma superseded_life predecessor now p :
  claimable predecessor p = true -> life_step (Some (life p)) (Some (life (set_superseded now now p))).
Proof.
  intros (_ & Hn & Hr & Hi)%claimable_true. unfold life. cbn. rewrite Hn. by constructor.
Qed.

Lemma linked_life u successor b hash now p :
  attachable u successor p = true -> life_step (Some (life p)) (Some (life (set_link b hash now p))).
Proof.
  intros (_ & Hn & Hs & Ha)%attachable_true. unfold life. cbn. rewrite Hn, Hs, Ha. constructor.
Qed.

(** Updating rows moves each of them or leaves it. *)
Lemma life_map id w f rows :
  (forall p, p ∈ rows -> w p = true -> p_core (f p) = p_core p) ->
  (forall p, p ∈ rows -> w p = true -> rtc life_step (Some (life p)) (Some (life (f p)))) ->
  rtc life_step (life <$> find_where (has_id id) rows) (life <$> find_where (has_id id) (update_where w f rows)).
Proof.
  intros Hc Hf. induction rows as [|p rows IH]; [apply rtc_refl|]. cbn [update_where fmap list_fmap find_where].
  assert (has_id id (if w p then f p else p) = has_id id p) as ->.
  { destruct (w p) eqn:Hw; [|done]. unfold has_id. rewrite Hc; [done|set_solver|done]. }
  destruct (has_id id p); [|apply IH; intros; [apply Hc|apply Hf]; set_solver].
  cbn. destruct (w p) eqn:Hw; [|apply rtc_refl]. apply Hf; [set_solver|done].
Qed.

Lemma life_snoc id rows c :
  life_step None (Some (life c)) ->
  rtc life_step (life <$> find_where (has_id id) rows) (life <$> find_where (has_id id) (rows ++ [c])).
Proof.
  intros Hc. rewrite find_where_app. destruct (find_where (has_id id) rows); [apply rtc_refl|].
  cbn. destruct (has_id id c); [by apply rtc_once|apply rtc_refl].
Qed.

Lemma effect_life e l s s' id : effect e l s s' -> rtc life_step (life_of id s) (life_of id s').
Proof.
  assert (forall p n s1, claimPredecessor p n s = Ok s1 -> rtc life_step (life_of id s) (life_of id s1)) as Hclaim.
  { intros p n s1 (q & _ & _ & ->)%claimPredecessor_Ok. apply life_map; [done|].
    intros r _ Hr. by eapply rtc_once, superseded_life. }
  intros [w f Hp Hf|core Hp _ _|p n s1 c H1 Hp _ _ Ha Hm Hl Ht|p n s1 u su h n' H1 Hp _].
  - unfold life_of, find_proof. rewrite Hp. apply life_map; intros r Hr Hw.
    + by destruct (Hf r Hr Hw).
    + eapply benign_life; by apply Hf.
  - unfold life_of, find_proof. rewrite Hp. apply life_snoc. constructor.
  - etrans; [by eapply Hclaim|]. unfold life_of, find_proof. rewrite Hp. apply life_snoc.
    unfold life. rewrite Ha, Hm, Hl, Ht. constructor.
  - etrans; [by eapply Hclaim|]. unfold life_of, find_proof. rewrite Hp. apply life_map; [done|].
    intros r _ Hr. by eapply rtc_once, linked_life.
Qed.

(** ** Runs *)

Lemma step_effect e x y :
  sys_inv e x -> sys_step e x y -> st y = st x \/ good (world e x) (log x) (st x) (st y).
Proof.
  intros Hinv Hstep.
  destruct Hstep as [s fs l rs q Hb|s fs1 q fs2 l rs q' l' Hc|s fs1 q fs2 l rs s' Hf|s fs l rs s' Hs|s fs l rs uid w|s fs1 q fs2 l rs];
    auto; right; cbn.
  - eapply finishes_good; [apply Hinv| |done]. apply (inv_pool _ _ Hinv). cbn. set_solver.
  - eapply statement_good; [apply Hinv|done].
Qed.

Lemma reachable_run e x y : reachable e x -> rtc (sys_step e) x y -> reachable e y.
Proof. intros Hx Hrun. unfold reachable. by etrans. Qed.

(** What each step keeps, a run keeps. *)
Lemma run_rel e (R : relation Store) x y :
  PreOrder R -> (forall k l s s', store_wf s -> good k l s s' -> R s s') ->
  reachable e x -> rtc (sys_step e) x y -> R (st x) (st y).
Proof.
  intros HR Hgood Hx%reachable_inv Hrun. induction Hrun as [x|x y z Hxy _ IH]; [done|].
  transitivity (st y); [|by eapply IH, step_inv].
  destruct (step_effect e x y Hx Hxy) as [->|Hg]; [done|]. eapply Hgood, Hg. apply Hx.
Qed.

Lemma run_evolves e x y : reachable e x -> rtc (sys_step e) x y -> store_evolves (st x) (st y).
Proof. apply run_rel; [apply _|]. intros k l s s' Hwf [Heff _ _]. by eapply effect_evolves. Qed.

Lemma supersedes_rank (rank : string -> nat) s a b :
  (forall a b, supersedes s a b -> (rank b < rank a)%nat) -> tc (supersedes s) a b -> (rank b < rank a)%nat.
Proof. intros H. induction 1 as [a b Hab|a b c Hab _ IH]; [auto|]. specialize (H a b Hab). lia. Qed.

(** ** Properties *)

(** C1: in every state any interleaving of the handlers and jobs reaches, the
    uniqueness constraints of the schema hold, a proof is marked superseded
    exactly when one other proof supersedes it, the superseded proof exists, and
    no proof is its own ancestor. *)
Theorem supersession_forms_chains e x :
  reachable e x ->
  store_wf (st x) /\
  (forall b, superseded (st x) b <-> exists a, supersedes (st x) a b) /\
  (forall a a' b, supersedes (st x) a b -> supersedes (st x) a' b -> a = a') /\
  (forall a b, supersedes (st x) a b -> present (st x) b) /\
  (forall a, ~ tc (supersedes (st x)) a a).
Proof.
  intros [Hwf [Hp Hs [rank Hr]] _ _ _ _]%reachable_inv. split_and!; [done|done| |done|].
  - intros a a' b (p & Hp1 & <- & Hb) (q & Hq1 & <- & Hb'). by rewrite (wf_supersedes _ Hwf p q b).
  - intros a Ha. apply (supersedes_rank rank) in Ha; [lia|done].
Qed.

(** C2: every proof the system stores verifies for as long as it is active and
    unexpired and its owner keeps the wallet it was issued for.  In every reachable
    state the row carries a claim and the hash of its credential for a wallet [w] that
    its owner has or had.  While the owner's wallet is [w] the answer is VALID exactly
    when the row is active, unexpired, not contradicted by the contract and, where that
    is required, anchored; once a rotation has given the owner another wallet it is not
    VALID (for claims whose disclosed sender is stored), unless the digest collides on
    the texts of the two credentials. *)
Theorem stored_proofs_verify e x p :
  reachable e x -> p ∈ proofs (st x) ->
  exists w claim, p_claim p = Some claim /\ had e (rotated x) (p_userId p) w /\
    forall ac av get budget now resp events,
    verifyProof (decrypt e) (sha256 e) (cfg e) (wallet_of e (rotated x)) ac av get budget (st x) (p_id p) now
      = Ok (resp, events) ->
    exists status, contract_status get p = Ok status /\
      let current := wallet_of e (rotated x) (p_userId p) in
      let text := fun h => credential_text (decrypt e) (p_core p) h claim in
      (current = w ->
       (vr_result resp = VerificationResult.VALID <->
        p_status p = ProofStatus.ACTIVE /\ now < p_expiresAt p /\
        (forall revoked valid, status = Some (Checked revoked valid) -> revoked = false /\ valid = true) /\
        (cfg_anchoringRequired (cfg e) = true -> truthy (p_contractTransactionHash p) = true))) /\
      (current <> w -> sender_stored claim = true -> vr_result resp = VerificationResult.VALID ->
       text w <> text current /\ sha256 e (text w) = sha256 e (text current)).
Proof.
  intros [Hwf _ Hv _ _ _]%reachable_inv Hp. destruct (Hv p Hp) as (claim & w & Hc & Hh & Hm).
  exists w, claim. split_and!; [done|done|]. intros ac av get budget now resp events Hverify.
  destruct (verify_found _ _ _ _ _ _ _ _ _ _ _ p claim (find_proof_elem _ _ Hwf Hp) Hc _ _ Hverify)
    as (status & Hst & ->).
  exists status. split; [done|]. unfold verdict. rewrite required_result_valid, chain_result_valid, local_result_valid. split.
  - intros ->. cbn in Hm. rewrite Hm. naive_solver.
  - intros Hne Hs (((Hm' & _) & _) & _). by destruct (hash_binds_wallet _ _ _ _ _ _ Hm Hm' Hs).
Qed.


(** C5: nothing is anchored on the database's word alone: in every reachable state
    a confirmed intent is of an operation the contract reported done for its
    proof, and a proof with a transaction hash had such an operation. *)
Theorem anchored_means_reported e x :
  reachable e x ->
  (forall i, i ∈ intents (st x) -> i_status i = AnchoringStatus.CONFIRMED -> intent_key i ∈ log x) /\
  (forall p, p ∈ proofs (st x) -> is_Some (p_contractTransactionHash p) -> exists op, (p_id p, op) ∈ log x).
Proof. by intros [_ _ _ _ Ha Hc]%reachable_inv. Qed.

(** C4: every run implements the life cycle of a proof: seen from any one proof,
    it is a sequence of issue, expiry while active, revocation, supersession
    while neither revoked nor invalid, linking to a predecessor while active and
    not superseded, and anchoring, and of nothing else. *)
Theorem runs_refine_life_cycle e x y id :
  reachable e x -> rtc (sys_step e) x y -> rtc life_step (life_of id (st x)) (life_of id (st y)).
Proof.
  apply (run_rel e (fun s s' => rtc life_step (life_of id s) (life_of id s'))).
  - split; [intros s; apply rtc_refl|intros s1 s2 s3 H12 H23; by etrans].
  - intros k l s s' _ [Heff _ _]. by eapply effect_life.
Qed.

(** C6: no run loses a proof or rewrites what it attests: its id, owner, claim,
    dates and hash are those it was issued with, and its supersession, its link
    to a predecessor and the request that made it stay once set. *)
Theorem proofs_are_immutable e x y p :
  reachable e x -> rtc (sys_step e) x y -> p ∈ proofs (st x) ->
  exists q, find_proof (p_id p) (st y) = Some q /\ p_core q = p_core p /\
    (is_Some (p_supersededAt p) -> p_supersededAt q = p_supersededAt p) /\
    (is_Some (p_supersedesId p) -> p_supersedesId q = p_supersedesId p /\
       p_renewalRequestHash q = p_renewalRequestHash p).
Proof.
  intros Hx Hrun Hp. destruct (run_evolves e x y Hx Hrun p Hp) as (q & Hq & [Hc _ Hm Hl _]).
  destruct (reachable_inv e y (reachable_run e x y Hx Hrun)) as [Hwf _ _ _ _ _].
  exists q. rewrite <- Hc. by rewrite (find_proof_elem _ _ Hwf Hq).
Qed.

(** ** Witnesses *)

(** A run: a proof is issued, anchored by the worker and revoked. *)
Definition demo_env : Env :=
  {| decrypt := Some; sha256 := id; keyedDigest := id; revealAddress := fun _ _ => None;
     hmac := fun _ m => m; activeSecret := "k"; cfg := sample_config; ccfg := sample_contract;
     walletHashOf := fun _ => "w"; consumeForUser := fun _ => true; redact := id;
     dbMessage := fun _ => EmptyString |}.
Definition answered {E A} (r : result E A) (d : A) : A := match r with Ok a => a | Err _ => d end.
Definition system_core : ProofCore :=
  demo_core (createMinimumIncomeProof Some id sample_config (fun _ => true) (demo_tables demo_rows)
    (demo_tables []) demo_user demo_minimum 5000 "proof").
Definition issued_store : Store := answered (issue sample_config system_core "i1" (st init)) (st init).
Definition issued_state : Sys := {| st := issued_store; pool := []; log := []; rotated := [] |}.

Lemma issued_reachable : reachable demo_env issued_state.
Proof.
  apply (rtc_l _ _ {| st := st init; pool := [PIssue system_core "i1"]; log := []; rotated := [] |}).
  { apply (step_begin demo_env (st init) [] [] []). eapply (begin_issue demo_env _ _ (demo_tables demo_rows)
      (demo_tables []) demo_user 5000 "proof").
    - apply (bool_decide_unpack _). by vm_compute.
    - reflexivity.
    - apply (issued_minimum_income _ _ _ _ _ _ _ _ _ _ _ _ _ demo_minimum). by vm_compute. }
  apply rtc_once, (step_finish demo_env (st init) [] _ [] [] []), finish_issue. by vm_compute.
Qed.

Definition demo_read : Execution :=
  default queued_read (exec_read "i1" issued_store).
Definition demo_result : result string AnchorProofResult :=
  exec_call id sample_contract (fun _ => CliOutput "tx9:77") demo_read.
Definition demo_anchored : Store :=
  answered (exec_write id (fun _ => EmptyString) 6000 demo_read demo_result issued_store) (st init).
Definition anchored_state : Sys :=
  {| st := demo_anchored; pool := []; log := (reported demo_read demo_result ++ [])%list; rotated := [] |}.

Lemma anchored_reachable : reachable demo_env anchored_state.
Proof.
  unfold reachable. etrans; [apply issued_reachable|].
  apply (rtc_l _ _ {| st := issued_store; pool := [PExec demo_read]; log := []; rotated := [] |}).
  { apply (step_begin demo_env issued_store [] [] []), (begin_exec demo_env _ _ "i1"). by vm_compute. }
  apply (rtc_l _ _ {| st := issued_store; pool := [PCalled demo_read demo_result];
                      log := (reported demo_read demo_result ++ [])%list; rotated := [] |}).
  { apply (step_continue demo_env issued_store [] _ [] [] []), call_contract. by vm_compute. }
  apply rtc_once, (step_finish demo_env issued_store [] _ [] _ []), (finish_exec demo_env _ 6000). by vm_compute.
Qed.

Definition demo_revocation : PendingRevocation :=
  match revoke_prepare sample_config demo_anchored demo_user "proof" no_body 7000 "i2" "a1" with
  | Ok (inr r) => r
  | _ => pending_revocation
  end.
Definition demo_revoked : Store := answered (revoke_commit demo_revocation demo_anchored) (st init).
Definition revoked_state : Sys :=
  {| st := demo_revoked; pool := []; log := (reported demo_read demo_result ++ [])%list; rotated := [] |}.

Lemma revoking_run : rtc (sys_step demo_env) anchored_state revoked_state.
Proof.
  apply (rtc_l _ _ {| st := demo_anchored; pool := [PRevoke demo_revocation];
                      log := (reported demo_read demo_result ++ [])%list; rotated := [] |}).
  { apply (step_begin demo_env demo_anchored [] _ []),
      (begin_revoke demo_env _ _ demo_user "proof" no_body 7000 "i2" "a1"). by vm_compute. }
  apply rtc_once, (step_finish demo_env demo_anchored [] _ [] _ []), finish_revoke. by vm_compute.
Qed.

Definition demo_proof : Proof := default sample_proof (find_proof "proof" demo_anchored).

Lemma demo_proof_stored : demo_proof ∈ proofs demo_anchored.
Proof. apply (find_proof_Some "proof"). by vm_compute. Qed.

Lemma supersession_forms_chains_witness : ~ tc (supersedes demo_anchored) "proof" "proof".
Proof. apply (supersession_forms_chains demo_env anchored_state anchored_reachable). Defined.

Definition demo_verify (rs : Rotations) (s : Store) : result VerifyError (VerifyResponse * list VerificationEvent) :=
  verifyProof Some id sample_config (wallet_of demo_env rs) (fun _ => true) (fun _ _ => true)
    None (fun _ => true) s "proof" 8000.

Lemma stored_proofs_verify_witness :
  vr_result (answer (demo_verify [] demo_anchored) unknown_answer) = VerificationResult.VALID.
Proof.
  destruct (stored_proofs_verify demo_env anchored_state demo_proof anchored_reachable demo_proof_stored)
    as (w & claim & _ & Hw & Hverify).
  destruct (Hverify (fun _ => true) (fun _ _ => true) None (fun _ => true) 8000
    (answer (demo_verify [] demo_anchored) unknown_answer)
    [{| ve_proofId := "proof"; ve_result := VerificationResult.VALID |}]) as (status & Hst & Hiff & _); [by vm_compute|].
  destruct Hw as [->|Hw]; [|by apply not_elem_of_nil in Hw].
  apply Hiff; [reflexivity|]. injection Hst as <-. split_and!; [by vm_compute|by vm_compute|done|by vm_compute].
Defined.


(** When the owner rotates the wallet, a proof that was VALID answers INVALID_SIGNATURE,
    and so does a revoked one. *)
Lemma rotation_invalidates_proofs :
  let rs := [(u_id demo_user, "w2")] in
  reachable demo_env {| st := demo_anchored; pool := []; log := log anchored_state; rotated := rs |} /\
  vr_result (answer (demo_verify [] demo_anchored) unknown_answer) = VerificationResult.VALID /\
  vr_result (answer (demo_verify rs demo_anchored) unknown_answer) = VerificationResult.INVALID_SIGNATURE /\
  vr_result (answer (demo_verify rs demo_revoked) unknown_answer) = VerificationResult.INVALID_SIGNATURE.
Proof.
  split; [|by vm_compute]. unfold reachable. etrans; [apply anchored_reachable|].
  apply rtc_once, (step_rotate demo_env demo_anchored [] _ []).
Qed.

Lemma anchored_means_reported_witness : exists op, ("proof", op) ∈ log anchored_state.
Proof.
  apply (proj2 (anchored_means_reported demo_env anchored_state anchored_reachable) demo_proof
    demo_proof_stored). vm_compute. by eexists.
Defined.

Lemma runs_refine_life_cycle_witness :
  rtc life_step (life_of "proof" demo_anchored) (life_of "proof" demo_revoked).
Proof.
  apply (runs_refine_life_cycle demo_env anchored_state revoked_state "proof" anchored_reachable revoking_run).
Defined.

Lemma proofs_are_immutable_witness :
  exists q, find_proof "proof" demo_revoked = Some q /\ p_core q = p_core demo_proof.
Proof.
  destruct (proofs_are_immutable demo_env anchored_state revoked_state demo_proof anchored_reachable
    revoking_run demo_proof_stored) as (q & Hq & Hc & _). by exists q.
Defined.
