(* ===== verification/Quotas.v ===== *)
(** * Organization quotas

    Model of [src/quotas/organization-quota.service.ts] and [quota.types.ts].
    A windowed quota is a counter per organization, quota and window of UTC
    time; [consume] is the one statement that inserts or increments it.  A
    concurrent quota counts the rows of the owning table; the count of a table
    is an argument of [assertCapacity], whose row lock makes check and insert one
    step of the caller's transaction.  The metric of a rejection is not modelled. *)

From S2P Require Import Prelude JsData Schema.

Local Open Scope string_scope.
Local Open Scope Z_scope.
Local Open Scope list_scope.

(** ** Kinds, windows and limits *)

Inductive WindowedQuota := proof_requests | sync_frequency.
Inductive ConcurrentQuota := api_keys | webhooks.
Inductive QuotaKind := Windowed (q : WindowedQuota) | Concurrent (q : ConcurrentQuota).
#[export] Instance WindowedQuota_eq_dec : EqDecision WindowedQuota.
Proof. solve_decision. Defined.
#[export] Instance ConcurrentQuota_eq_dec : EqDecision ConcurrentQuota.
Proof. solve_decision. Defined.

Definition window_ms (q : WindowedQuota) : Z :=
  match q with proof_requests => 24 * 60 * 60 * 1000 | sync_frequency => 60 * 60 * 1000 end.

Record QuotaLimits := {
  lim_api_keys : Z;
  lim_webhooks : Z;
  lim_proof_requests : Z;
  lim_sync_frequency : Z;
}.

Definition DEFAULT_QUOTA_LIMITS : QuotaLimits :=
  {| lim_api_keys := 25; lim_webhooks := 10; lim_proof_requests := 1000; lim_sync_frequency := 12 |}.

Definition limitFor (l : QuotaLimits) (q : QuotaKind) : Z :=
  match q with
  | Concurrent api_keys => lim_api_keys l
  | Concurrent webhooks => lim_webhooks l
  | Windowed proof_requests => lim_proof_requests l
  | Windowed sync_frequency => lim_sync_frequency l
  end.

Definition windowStart (q : WindowedQuota) (now : Z) : Z := now / window_ms q * window_ms q.

(** A rejection, with the instant the window resets. *)
Inductive QuotaError := QuotaExceeded (quota : QuotaKind) (limit : Z) (resetsAt : option Z).

(** ** Windowed quotas *)

Record QuotaUsage := {
  qu_organizationId : string;
  qu_quota : WindowedQuota;
  qu_windowStart : Z;
  qu_count : Z;
}.

Definition usage_key (u : QuotaUsage) : string * WindowedQuota * Z :=
  (qu_organizationId u, qu_quota u, qu_windowStart u).

Definition has_usage_key (k : string * WindowedQuota * Z) (u : QuotaUsage) : bool := bool_decide (usage_key u = k).

Definition increment (u : QuotaUsage) : QuotaUsage :=
  {| qu_organizationId := qu_organizationId u; qu_quota := qu_quota u; qu_windowStart := qu_windowStart u;
     qu_count := qu_count u + 1 |}.

(** [INSERT ... ON CONFLICT DO UPDATE ... WHERE count < limit RETURNING]: the
    table, or [None] when no row is returned. *)
Definition upsert_usage (k : string * WindowedQuota * Z) (limit : Z) (t : list QuotaUsage) : option (list QuotaUsage) :=
  match find_where (has_usage_key k) t with
  | None => Some (t ++ [{| qu_organizationId := k.1.1; qu_quota := k.1.2; qu_windowStart := k.2; qu_count := 1 |}])
  | Some u => if qu_count u <? limit then Some (update_where (has_usage_key k) increment t) else None
  end.

Definition consume (l : QuotaLimits) (organizationId : string) (q : WindowedQuota) (now : Z) (t : list QuotaUsage)
    : result QuotaError (list QuotaUsage) :=
  let limit := limitFor l (Windowed q) in
  let start := windowStart q now in
  match upsert_usage (organizationId, q, start) limit t with
  | Some t' => Ok t'
  | None => Err (QuotaExceeded (Windowed q) limit (Some (start + window_ms q)))
  end.

(** The organizations a user may act for. *)
Record OrganizationRow := {
  og_id : string;
  og_createdById : string;
  og_status : ResourceStatus.t;
  og_createdAt : Z;
}.

Definition oldest_first (a b : OrganizationRow) : bool :=
  (og_createdAt a <? og_createdAt b) || ((og_createdAt a =? og_createdAt b) && str_le (og_id a) (og_id b)).

Definition resolveOrganizationForUser (userId : string) (orgs : list OrganizationRow) : option string :=
  og_id <$> head (js_sort oldest_first
    (List.filter (fun o => bool_decide (og_createdById o = userId) && bool_decide (og_status o = ResourceStatus.ACTIVE)) orgs)).

Definition consumeForUser (l : QuotaLimits) (userId : string) (q : WindowedQuota) (now : Z) (orgs : list OrganizationRow)
    (t : list QuotaUsage) : result QuotaError (option string * list QuotaUsage) :=
  match resolveOrganizationForUser userId orgs with
  | None => Ok (None, t)
  | Some organizationId => t' ← consume l organizationId q now t; Ok (Some organizationId, t')
  end.

(** ** Concurrent quotas *)

Definition assertCapacity (l : QuotaLimits) (q : ConcurrentQuota) (used : nat) : result QuotaError unit :=
  throw_if (limitFor l (Concurrent q) <=? Z.of_nat used) (QuotaExceeded (Concurrent q) (limitFor l (Concurrent q)) None).

(** ** The report of [getUsage] *)

Record QuotaReport := {
  rp_limit : Z;
  rp_used : Z;
  rp_remaining : Z;
  rp_resetsAt : option Z;
}.

Definition concurrent_report (l : QuotaLimits) (q : ConcurrentQuota) (used : nat) : QuotaReport :=
  {| rp_limit := limitFor l (Concurrent q); rp_used := Z.of_nat used;
     rp_remaining := Z.max 0 (limitFor l (Concurrent q) - Z.of_nat used); rp_resetsAt := None |}.

Definition usage_count (organizationId : string) (q : WindowedQuota) (start : Z) (t : list QuotaUsage) : Z :=
  match find_where (has_usage_key (organizationId, q, start)) t with Some u => qu_count u | None => 0 end.

Definition windowed_report (l : QuotaLimits) (organizationId : string) (q : WindowedQuota) (now : Z)
    (t : list QuotaUsage) : QuotaReport :=
  let used := usage_count organizationId q (windowStart q now) t in
  {| rp_limit := limitFor l (Windowed q); rp_used := used;
     rp_remaining := Z.max 0 (limitFor l (Windowed q) - used);
     rp_resetsAt := Some (windowStart q now + window_ms q) |}.

(** ** Lemmas *)

Lemma window_ms_pos q : 0 < window_ms q.
Proof. by destruct q. Qed.

Lemma windowStart_bounds q now : windowStart q now <= now < windowStart q now + window_ms q.
Proof. unfold windowStart. pose proof (window_ms_pos q). Z.div_mod_to_equations. nia. Qed.

Lemma usage_count_set k t u limit t' :
  upsert_usage k limit t = Some t' ->
  usage_count u.1.1 u.1.2 u.2 t' = usage_count u.1.1 u.1.2 u.2 t + (if decide (u = k) then 1 else 0).
Proof.
  destruct u as [[o q] st], k as [[o' q'] st']. unfold upsert_usage, usage_count. cbn.
  destruct (find_where (has_usage_key (o', q', st')) t) as [r|] eqn:Hf; [case_match eqn:Hlt; [|done]|]; intros [= <-].
  - rewrite find_where_update.
    2: { done. }
    case_decide as Hd.
    + simplify_eq. rewrite Hf. cbn. apply find_where_Some in Hf as [_ Hk]. by rewrite Hk.
    + destruct (find_where (has_usage_key (o, q, st)) t) as [x|] eqn:Hx; cbn; [|lia].
      apply find_where_Some in Hx as [_ Hx]. unfold has_usage_key in *. apply bool_decide_eq_true in Hx.
      rewrite bool_decide_false by congruence. lia.
  - rewrite find_where_app. case_decide as Hd.
    + simplify_eq. rewrite Hf. cbn. unfold has_usage_key. by rewrite bool_decide_true.
    + destruct (find_where (has_usage_key (o, q, st)) t); [lia|]. cbn. unfold has_usage_key.
      rewrite bool_decide_false; [lia|]. unfold usage_key. cbn. congruence.
Qed.

(** A statement is refused exactly when the window's count has reached the limit. *)
Lemma upsert_refused k limit t :
  1 <= limit -> upsert_usage k limit t = None <-> limit <= usage_count k.1.1 k.1.2 k.2 t.
Proof.
  destruct k as [[o q] st]. unfold upsert_usage, usage_count. cbn. intros Hl.
  destruct (find_where _ t) as [u|]; [case_match eqn:H; split; intros; try done; lia|split; [done|lia]].
Qed.

(** ** Requests of many handlers, in the order their statements ran *)

Record Charge := { ch_organizationId : string; ch_quota : WindowedQuota; ch_now : Z }.
Definition charge_key (c : Charge) : string * WindowedQuota * Z :=
  (ch_organizationId c, ch_quota c, windowStart (ch_quota c) (ch_now c)).

Fixpoint charges (l : QuotaLimits) (cs : list Charge) (t : list QuotaUsage) : list (Charge * bool) * list QuotaUsage :=
  match cs with
  | [] => ([], t)
  | c :: cs =>
      match consume l (ch_organizationId c) (ch_quota c) (ch_now c) t with
      | Ok t' => let out := charges l cs t' in ((c, true) :: out.1, out.2)
      | Err _ => let out := charges l cs t in ((c, false) :: out.1, out.2)
      end
  end.

Definition in_window (k : string * WindowedQuota * Z) (c : Charge) : bool := bool_decide (charge_key c = k).
Definition admitted_in (k : string * WindowedQuota * Z) (out : list (Charge * bool)) : Z :=
  Z.of_nat (count_where (fun x => in_window k x.1 && x.2) out).
Definition requested_in (k : string * WindowedQuota * Z) (cs : list Charge) : Z :=
  Z.of_nat (count_where (in_window k) cs).

Lemma count_where_cons {R} (p : R -> bool) r t :
  Z.of_nat (count_where p (r :: t)) = (if p r then 1 else 0) + Z.of_nat (count_where p t).
Proof. unfold count_where. cbn. destruct (p r); cbn; lia. Qed.

Lemma consume_admitted l o q now t t' u :
  consume l o q now t = Ok t' ->
  usage_count u.1.1 u.1.2 u.2 t' = usage_count u.1.1 u.1.2 u.2 t + (if decide (u = (o, q, windowStart q now)) then 1 else 0).
Proof. unfold consume. destruct (upsert_usage _ _ _) eqn:H; [|done]. intros [= <-]. by eapply usage_count_set. Qed.

Lemma consume_refused l o q now t e :
  1 <= limitFor l (Windowed q) -> consume l o q now t = Err e ->
  limitFor l (Windowed q) <= usage_count o q (windowStart q now) t.
Proof.
  unfold consume. intros Hl. destruct (upsert_usage _ _ _) eqn:H; [done|]. intros _. by apply (upsert_refused (o, q, _)) in H.
Qed.

Lemma consume_ok_room l o q now t t' :
  1 <= limitFor l (Windowed q) -> consume l o q now t = Ok t' ->
  usage_count o q (windowStart q now) t < limitFor l (Windowed q).
Proof.
  unfold consume. intros Hl. destruct (upsert_usage _ _ _) eqn:H; [|done]. intros _.
  apply Z.lt_nge. intros Hle. apply (upsert_refused (o, q, _)) in Hle; [|done]. by rewrite H in Hle.
Qed.

Lemma charges_admitted l cs k : 1 <= limitFor l (Windowed k.1.2) -> forall t,
  usage_count k.1.1 k.1.2 k.2 t <= limitFor l (Windowed k.1.2) ->
  admitted_in k (charges l cs t).1 =
    Z.min (requested_in k cs) (limitFor l (Windowed k.1.2) - usage_count k.1.1 k.1.2 k.2 t).
Proof.
  intros Hl. unfold admitted_in, requested_in. induction cs as [|c cs IH]; intros t Ht; [change (0 = Z.min 0 (limitFor l (Windowed k.1.2) - usage_count k.1.1 k.1.2 k.2 t)); lia|].
  rewrite count_where_cons. cbn [charges]. unfold in_window at 2.
  destruct (consume _ _ _ _ _) as [t'|e] eqn:Hc; cbn [fst snd]; rewrite count_where_cons; cbn [fst snd];
    unfold in_window at 1; (case_bool_decide as Hk; [subst k|]); cbn [andb]; cbn [charge_key fst snd] in *.
  - pose proof (consume_ok_room _ _ _ _ _ _ Hl Hc). apply consume_admitted with (u := charge_key c) in Hc.
    rewrite decide_True in Hc by done. cbn [charge_key fst snd] in Hc. rewrite IH; lia.
  - apply consume_admitted with (u := k) in Hc. rewrite decide_False in Hc by naive_solver. rewrite IH; lia.
  - apply consume_refused in Hc; [|done]. rewrite IH; lia.
  - rewrite IH; lia.
Qed.

(** ** Correctness *)

(** C36: A windowed quota admits exactly its limit: of any sequence of requests by
    any organizations, the requests admitted in one window of one organization are
    as many as were made there, or the limit when more were made, whatever came in
    between; starting with the counters in any state the report of the window shows
    what is left. *)
Theorem quota_admits_exactly l cs t o q now :
  1 <= limitFor l (Windowed q) -> usage_count o q (windowStart q now) t <= limitFor l (Windowed q) ->
  let k := (o, q, windowStart q now) in
  admitted_in k (charges l cs t).1 = Z.min (requested_in k cs) (rp_remaining (windowed_report l o q now t)) /\
  (usage_count o q (windowStart q now) t = 0 ->
   admitted_in k (charges l cs t).1 <= limitFor l (Windowed q)).
Proof.
  intros Hl Hc k. assert (admitted_in k (charges l cs t).1 = _) as Heq by (by apply charges_admitted).
  cbn in *. split; [rewrite Heq; lia|lia].
Qed.

Definition demo_charges : list Charge :=
  (fun at_ => {| ch_organizationId := "o1"; ch_quota := sync_frequency; ch_now := at_ |}) <$>
    [1700000000000; 1700000000001; 1700000000002; 1700003600000].
Definition demo_limits : QuotaLimits :=
  {| lim_api_keys := 25; lim_webhooks := 10; lim_proof_requests := 1000; lim_sync_frequency := 2 |}.

Lemma quota_admits_exactly_witness :
  snd <$> (charges demo_limits demo_charges []).1 = [true; true; false; true] /\
  admitted_in ("o1", sync_frequency, windowStart sync_frequency 1700000000000) (charges demo_limits demo_charges []).1 = 2.
Proof.
  split; [by vm_compute|].
  destruct (quota_admits_exactly demo_limits demo_charges [] "o1" sync_frequency 1700000000000) as [H _];
    [by vm_compute|by vm_compute|]. cbv zeta in H. rewrite H. by vm_compute.
Defined.
