(* ===== verification/SecretReceipts.v ===== *)
(** * Secret retrieval receipts

    Model of [src/audit/secret-retrieval-receipt.service.ts]: the row that
    records that a one-time secret was shown.  SHA-256 and HMAC are parameters.
    [with_replacer] is [JSON.stringify] with a list of property names as its second
    argument, which applies to the objects inside the value as well. *)

From S2P Require Import Prelude JsData DecimalText Calendar IsoDate Canonical Schema.
From Stdlib Require Import Ascii.

Local Open Scope string_scope.
Local Open Scope Z_scope.
Local Open Scope list_scope.
#[local] Arguments String.append !_ _ : simpl nomatch.

Module SecretType.
Inductive t := API_KEY | WEBHOOK | EXPORT.
#[export] Instance t_eq_dec : EqDecision t.
Proof. solve_decision. Defined.
Definition text (s : t) : string := match s with API_KEY => "api_key" | WEBHOOK => "webhook" | EXPORT => "export" end.
End SecretType.

Module DeliveryChannel.
Inductive t := HTTP_RESPONSE | DOWNLOAD_URL | EMAIL.
Definition text (c : t) : string :=
  match c with HTTP_RESPONSE => "http_response" | DOWNLOAD_URL => "download_url" | EMAIL => "email" end.
End DeliveryChannel.

Module ReceiptStatus.
Inductive t := ACTIVE | EXPIRED | REVOKED.
#[export] Instance t_eq_dec : EqDecision t.
Proof. solve_decision. Defined.
Definition text (s : t) : string := match s with ACTIVE => "ACTIVE" | EXPIRED => "EXPIRED" | REVOKED => "REVOKED" end.
End ReceiptStatus.
Export (hints) SecretType ReceiptStatus.

(** An optional property that may also be [null]. *)
Definition nullish := option (option string).
Definition value_of (o : nullish) : json := match o with None => JUndef | Some o => jopt o end.
Definition or_null (o : nullish) : option string := default None o.

Record ReceiptInput := {
  ri_organizationId : string;
  ri_secretType : SecretType.t;
  ri_resourceId : string;
  ri_resourceReference : nullish;
  ri_recipientId : nullish;
  ri_deliveryChannel : option DeliveryChannel.t;
  ri_revealedAt : Z;
  ri_expiresAt : option Z;
  ri_metadata : option json;
}.

Record SecretReceipt := {
  sr_id : string;
  sr_organizationId : string;
  sr_secretType : SecretType.t;
  sr_resourceId : string;
  sr_resourceReference : option string;
  sr_recipientId : option string;
  sr_deliveryChannel : DeliveryChannel.t;
  sr_revealedAt : Z;
  sr_acknowledgementHash : string;
  sr_status : ReceiptStatus.t;
  sr_expiresAt : option Z;
  sr_metadata : json;
  sr_hash : string;
}.

(** The unique columns. *)
Definition receipt_key (r : SecretReceipt) : string * string * SecretType.t * Z :=
  (sr_organizationId r, sr_resourceId r, sr_secretType r, sr_revealedAt r).

Definition SALT_LABEL : string := "secret-retrieval-receipt-salt-v1".
Definition DEFAULT_RECEIPT_TTL_MS : Z := 365 * 24 * 60 * 60 * 1000.

(** The properties a replacer list keeps, in the list's order, at every depth. *)
Fixpoint keep_properties (keys : list string) (v : json) : json :=
  match v with
  | JArr l => JArr (List.map (keep_properties keys) l)
  | JObj kvs =>
      let kept := List.map (fun kv => (kv.1, keep_properties keys kv.2)) kvs in
      JObj (omap (fun k => pair k <$> JsMap.get k kept) keys)
  | JDate t => jiso t
  | v => v
  end.

Definition with_replacer (keys : list string) (v : json) : string := json_text (keep_properties keys v).

Section receipts.
Context (sha256 : string -> string) (hmac : string -> string -> string).   (* key, then message *)

Definition deriveOrgSalt (organizationId : string) : string := hmac SALT_LABEL organizationId.

Definition bar : ascii := "|"%char.
Definition computeAcknowledgementHash (organizationId resourceId : string) (secretType : SecretType.t) (revealedAt : Z)
    : string :=
  sha256 (String.append (String.append (String.append resourceId (String bar (SecretType.text secretType)))
                          (String bar (iso_text revealedAt))) (String bar (deriveOrgSalt organizationId))).

Definition computeReceiptHash (state : list (string * json)) : string :=
  sha256 (with_replacer (sort_strings state.*1) (JObj state)).

Definition isExpired (now : Z) (r : SecretReceipt) : bool :=
  bool_decide (sr_status r = ReceiptStatus.EXPIRED) ||
  match sr_expiresAt r with Some t => t <=? now | None => false end.

Definition receipt_state (input : ReceiptInput) (ack : string) (expiresAt : Z) : list (string * json) :=
  [("organizationId", JStr (ri_organizationId input)); ("secretType", JStr (SecretType.text (ri_secretType input)));
   ("resourceId", JStr (ri_resourceId input)); ("resourceReference", value_of (ri_resourceReference input));
   ("recipientId", value_of (ri_recipientId input));
   ("deliveryChannel", JStr (DeliveryChannel.text (default DeliveryChannel.HTTP_RESPONSE (ri_deliveryChannel input))));
   ("revealedAt", JDate (ri_revealedAt input)); ("acknowledgementHash", JStr ack);
   ("status", JStr (ReceiptStatus.text ReceiptStatus.ACTIVE)); ("expiresAt", JDate expiresAt);
   ("metadata", default (JObj []) (ri_metadata input))].

(** The row [create] inserts; [now] is the clock. *)
Definition receipt_row (id : string) (now : Z) (input : ReceiptInput) : SecretReceipt :=
  let ack := computeAcknowledgementHash (ri_organizationId input) (ri_resourceId input) (ri_secretType input)
               (ri_revealedAt input) in
  let expiresAt := default (now + DEFAULT_RECEIPT_TTL_MS) (ri_expiresAt input) in
  {| sr_id := id; sr_organizationId := ri_organizationId input; sr_secretType := ri_secretType input;
     sr_resourceId := ri_resourceId input; sr_resourceReference := or_null (ri_resourceReference input);
     sr_recipientId := or_null (ri_recipientId input);
     sr_deliveryChannel := default DeliveryChannel.HTTP_RESPONSE (ri_deliveryChannel input);
     sr_revealedAt := ri_revealedAt input; sr_acknowledgementHash := ack; sr_status := ReceiptStatus.ACTIVE;
     sr_expiresAt := Some expiresAt; sr_metadata := default (JObj []) (ri_metadata input);
     sr_hash := computeReceiptHash (receipt_state input ack expiresAt) |}.

Definition create_receipt (id : string) (now : Z) (input : ReceiptInput) (t : list SecretReceipt)
    : result DbError (list SecretReceipt) :=
  let r := receipt_row id now input in
  _ ← throw_if (bool_decide (id ∈ sr_id <$> t) || bool_decide (receipt_key r ∈ receipt_key <$> t)) P2002;
  Ok (t ++ [r]).

Definition set_receipt_expired (r : SecretReceipt) : SecretReceipt :=
  {| sr_id := sr_id r; sr_organizationId := sr_organizationId r; sr_secretType := sr_secretType r;
     sr_resourceId := sr_resourceId r; sr_resourceReference := sr_resourceReference r;
     sr_recipientId := sr_recipientId r; sr_deliveryChannel := sr_deliveryChannel r;
     sr_revealedAt := sr_revealedAt r; sr_acknowledgementHash := sr_acknowledgementHash r;
     sr_status := ReceiptStatus.EXPIRED; sr_expiresAt := sr_expiresAt r; sr_metadata := sr_metadata r;
     sr_hash := sr_hash r |}.

Definition expire_receipt (id : string) (t : list SecretReceipt) : result DbError (list SecretReceipt) :=
  let p r := bool_decide (sr_id r = id) in
  _ ← throw_if (count_where p t =? 0)%nat P2025;
  Ok (update_where p set_receipt_expired t).

(** [findByOrganization]: newest first, a hundred rows by default. *)
Definition revealed_desc (a b : SecretReceipt) : bool := sr_revealedAt b <=? sr_revealedAt a.
Definition matches {A} `{EqDecision A} (wanted : option A) (x : A) : bool :=
  match wanted with None => true | Some w => bool_decide (w = x) end.
Definition findByOrganization (organizationId : string) (secretType : option SecretType.t) (resourceId : option string)
    (status : option ReceiptStatus.t) (limit : option nat) (t : list SecretReceipt) : list SecretReceipt :=
  take (default 100%nat limit) (js_sort revealed_desc (List.filter (fun r =>
    bool_decide (sr_organizationId r = organizationId) && matches secretType (sr_secretType r) &&
    matches resourceId (sr_resourceId r) && matches status (sr_status r)) t)).

(** A step of the service on the table. *)
Inductive receipt_step (t : list SecretReceipt) : list SecretReceipt -> Prop :=
| receipt_created id now input t' : create_receipt id now input t = Ok t' -> receipt_step t t'
| receipt_expired id t' : expire_receipt id t = Ok t' -> receipt_step t t'.

(** ** Properties of rows *)

(** What a receipt says, and the hash over it. *)
Definition acknowledged (r : SecretReceipt) : Prop :=
  sr_acknowledgementHash r =
    computeAcknowledgementHash (sr_organizationId r) (sr_resourceId r) (sr_secretType r) (sr_revealedAt r).

Definition receipts_wf (t : list SecretReceipt) : Prop :=
  NoDup (sr_id <$> t) /\ NoDup (receipt_key <$> t) /\ Forall acknowledged t.

Lemma receipts_wf_step t t' : receipt_step t t' -> receipts_wf t -> receipts_wf t'.
Proof.
  intros Hs (Hid & Hkey & Hack). destruct Hs as [id now input t' H|id t' H];
    unfold create_receipt, expire_receipt in H; run_result; reflect_hyps.
  - split_and!; [by apply NoDup_fmap_snoc|by apply NoDup_fmap_snoc|]. apply Forall_app. by repeat constructor.
  - unfold receipts_wf. rewrite !update_where_keys by done. split_and!; [done..|].
    rewrite Forall_forall in Hack |- *. intros r (r0 & Hr0 & ->)%elem_of_update_where.
    specialize (Hack r0 Hr0). by case_match.
Qed.

(** What no step changes of a row. *)
Definition evidence (r : SecretReceipt) : SecretReceipt := set_receipt_expired r.

Lemma evidence_stays_step t t' : receipt_step t t' -> (evidence <$> t) `prefix_of` (evidence <$> t').
Proof.
  destruct 1 as [id now input t' H|id t' H]; unfold create_receipt, expire_receipt in H; run_result.
  - rewrite fmap_app. by apply prefix_app_r.
  - by rewrite update_where_keys.
Qed.

(** A collision of one of the two digests. *)
Definition digest_collision : Prop :=
  (exists x y, x <> y /\ sha256 x = sha256 y) \/ (exists k x y, x <> y /\ hmac k x = hmac k y).

Lemma secret_type_no_bar s : has_char bar (SecretType.text s) = false.
Proof. by destruct s. Qed.
Lemma secret_type_text_inj s s' : SecretType.text s = SecretType.text s' -> s = s'.
Proof. by destruct s, s'. Qed.

(** The text under the acknowledgement hash is cut at its last three bars. *)
Lemma acknowledgement_text_inj o o' i i' k k' at_ at' :
  (forall x y, has_char bar (hmac x y) = false) -> Z.abs at_ <= MAX_TIME -> Z.abs at' <= MAX_TIME ->
  computeAcknowledgementHash o i k at_ = computeAcknowledgementHash o' i' k' at' ->
  digest_collision \/ (o = o' /\ i = i' /\ k = k' /\ at_ = at').
Proof.
  intros Hhex Ht Ht' H. unfold computeAcknowledgementHash in H.
  match type of H with sha256 ?x = sha256 ?y => destruct (decide (x = y)) as [Heq|Hne]; [|left; left; eauto] end.
  apply last_separator in Heq as [Heq Hsalt]; [|apply Hhex..].
  apply last_separator in Heq as [Heq Hat]; [|by apply iso_text_no_char..].
  apply last_separator in Heq as [Hi Hk]; [|apply secret_type_no_bar..].
  destruct (decide (o = o')) as [Ho|Hne]; [|left; right; exists SALT_LABEL; eauto].
  right. apply iso_text_inj in Hat; [|done..]. apply secret_type_text_inj in Hk. done.
Qed.

(** ** Correctness *)

(** Receipts are evidence: in every table the service reaches from an empty one
    the rows are those created, in order, changed at most in their status; no two
    rows name the same organization, resource, kind and instant; and, dates being in
    range and HMAC digests in hexadecimal, two rows with the same acknowledgement hash
    are one row, unless a digest has a collision. *)
Theorem receipt_evidence t t' :
  (forall x y, has_char bar (hmac x y) = false) ->
  rtc receipt_step [] t -> rtc receipt_step t t' ->
  (evidence <$> t) `prefix_of` (evidence <$> t') /\
  NoDup (receipt_key <$> t') /\
  (forall r r', r ∈ t' -> r' ∈ t' -> Z.abs (sr_revealedAt r) <= MAX_TIME -> Z.abs (sr_revealedAt r') <= MAX_TIME ->
     sr_acknowledgementHash r = sr_acknowledgementHash r' -> digest_collision \/ r = r').
Proof.
  intros Hhex H H'.
  assert (receipts_wf t') as (_ & Hkey & Hack).
  { eapply (rtc_invariant receipt_step receipts_wf); [apply receipts_wf_step|by transitivity t|].
    split_and!; by constructor. }
  split_and!; [|done|].
  { clear -H'. induction H' as [|? ? ? Hs _ IH]; [done|]. etrans; [by apply evidence_stays_step|done]. }
  intros r r' Hr Hr' Ht Ht' Heq. rewrite Forall_forall in Hack.
  rewrite (Hack r Hr), (Hack r' Hr') in Heq.
  destruct (acknowledgement_text_inj _ _ _ _ _ _ _ _ Hhex Ht Ht' Heq) as [|(? & ? & ? & ?)]; [by left|right].
  eapply (key_unique receipt_key); [done..|]. unfold receipt_key. congruence.
Qed.

(** The hash over the row's state covers the metadata only through the names of the
    columns: metadata without such a name may be replaced. *)
Lemma keep_obj keys kvs :
  keep_properties keys (JObj kvs) =
  JObj (omap (fun k => pair k <$> JsMap.get k (List.map (fun kv => (kv.1, keep_properties keys kv.2)) kvs)) keys).
Proof. done. Qed.

Lemma keep_none keys kvs : Forall (fun kv => kv.1 ∉ keys) kvs -> keep_properties keys (JObj kvs) = JObj [].
Proof.
  intros H. rewrite keep_obj. f_equal.
  assert (forall k, k ∈ keys -> JsMap.get k (List.map (fun kv => (kv.1, keep_properties keys kv.2)) kvs) = None) as Hget.
  { intros k Hk. induction H as [|[k' v] kvs Hx H IH]; [done|]. cbn in *. case_decide as Heq; [congruence|done]. }
  clear H. revert Hget. generalize (List.map (fun kv => (kv.1, keep_properties keys kv.2)) kvs). intros m Hget.
  induction keys as [|k keys IH]; [done|]. cbn. rewrite (Hget k) by set_solver. cbn. apply IH. set_solver.
Qed.

Definition with_metadata (input : ReceiptInput) (m : option json) : ReceiptInput :=
  {| ri_organizationId := ri_organizationId input; ri_secretType := ri_secretType input;
     ri_resourceId := ri_resourceId input; ri_resourceReference := ri_resourceReference input;
     ri_recipientId := ri_recipientId input; ri_deliveryChannel := ri_deliveryChannel input;
     ri_revealedAt := ri_revealedAt input; ri_expiresAt := ri_expiresAt input; ri_metadata := m |}.

Lemma receipt_hash_ignores_metadata id now input kvs :
  Forall (fun kv => kv.1 ∉ (receipt_state input EmptyString 0).*1) kvs ->
  sr_hash (receipt_row id now (with_metadata input (Some (JObj kvs)))) =
  sr_hash (receipt_row id now (with_metadata input (Some (JObj [])))).
Proof.
  intros H. unfold receipt_row. cbn [sr_hash]. unfold computeReceiptHash. f_equal. unfold with_replacer. f_equal.
  set (keys := sort_strings (receipt_state input EmptyString 0).*1).
  change (sort_strings _) with keys at 1. change (sort_strings _) with keys.
  rewrite !keep_obj. do 2 f_equal. unfold receipt_state. cbn [List.map fst snd].
  change (default (JObj []) (ri_metadata (with_metadata input (Some (JObj kvs))))) with (JObj kvs).
  change (default (JObj []) (ri_metadata (with_metadata input (Some (JObj []))))) with (JObj []).
  rewrite (keep_none keys kvs), (keep_none keys []); [done|by constructor|].
  eapply Forall_impl; [done|]. intros kv Hkv Hin. apply Hkv. unfold keys in Hin. by rewrite sort_strings_perm in Hin.
Qed.
End receipts.

Definition demo_input : ReceiptInput :=
  {| ri_organizationId := "o1"; ri_secretType := SecretType.API_KEY; ri_resourceId := "k1";
     ri_resourceReference := Some (Some "AbCdEfGh"); ri_recipientId := None; ri_deliveryChannel := None;
     ri_revealedAt := 1700000000000; ri_expiresAt := None; ri_metadata := None |}.
Definition demo_salt (_ _ : string) : string := "5a17".
Definition demo_receipts : list SecretReceipt := [receipt_row (fun s => s) demo_salt "r1" 1700000000000 demo_input].

Lemma receipt_evidence_witness :
  (evidence <$> demo_receipts) `prefix_of` (evidence <$> (set_receipt_expired <$> demo_receipts)) /\
  NoDup (receipt_key <$> (set_receipt_expired <$> demo_receipts)).
Proof.
  destruct (receipt_evidence (fun s => s) demo_salt demo_receipts (set_receipt_expired <$> demo_receipts)) as (H & H' & _);
    [done| | |done].
  - apply rtc_once. by apply (receipt_created _ _ _ "r1" 1700000000000 demo_input).
  - apply rtc_once. by apply (receipt_expired _ _ _ "r1").
Defined.
