(* ===== verification/ApiKeys.v ===== *)
(** * API keys

    Model of [src/api-keys/api-key.service.ts], [api-key-rotation.service.ts],
    [src/jobs/api-key-expiration.job.ts] and the two guards that use keys,
    [api-key.guard.ts] and [scopes.guard.ts] of [src/common/guards].  Every server
    process has its own [keyCache]; the tables are shared.  Each [await] is a point
    where other operations run: an operation in flight is a value of [KeyOp], and
    [key_op_step] is what happens until its next [await].  A query without an order
    may return any matching row.  [ks_accepted] records the requests the key guard
    let through.  The clock is an argument of every step, with no assumption on its
    order.  The usage summaries of a key are not modelled here. *)

From S2P Require Import Prelude JsData DecimalText Encoding IsoDate Canonical Schema AuditChain Quotas SecretReceipts.
From Stdlib Require Import Ascii.

Local Open Scope string_scope.
Local Open Scope Z_scope.
Local Open Scope list_scope.
#[local] Arguments String.append !_ _ : simpl nomatch.

Module ApiKeyScope.
Inductive t := PROOF_READ | PROOF_VERIFY | BUNDLES_CREATE | PAYMENT_READ | PAYMENT_WRITE | ORG_READ | ORG_ADMIN.
#[export] Instance t_eq_dec : EqDecision t.
Proof. solve_decision. Defined.
Definition text (s : t) : string :=
  match s with
  | PROOF_READ => "PROOF_READ" | PROOF_VERIFY => "PROOF_VERIFY" | BUNDLES_CREATE => "BUNDLES_CREATE"
  | PAYMENT_READ => "PAYMENT_READ" | PAYMENT_WRITE => "PAYMENT_WRITE" | ORG_READ => "ORG_READ" | ORG_ADMIN => "ORG_ADMIN"
  end.
End ApiKeyScope.

Module RotationStatus.
Inductive t := IN_OVERLAP | CUTOVER | EXPIRED | REVOKED.
#[export] Instance t_eq_dec : EqDecision t.
Proof. solve_decision. Defined.
End RotationStatus.
Export (hints) ApiKeyScope RotationStatus.

(** ** Tables *)

Record ApiKey := {
  ak_id : string;
  ak_organizationId : string;
  ak_createdById : string;
  ak_name : string;
  ak_prefix : string;
  ak_keyHash : string;
  ak_scopes : list ApiKeyScope.t;                (* [scopeAssignments] *)
  ak_status : ResourceStatus.t;
  ak_lastUsedAt : option Z;
  ak_rotatedAt : option Z;
  ak_revokedAt : option Z;
  ak_expiresAt : option Z;
  ak_createdAt : Z;
  ak_rotationFamilyId : option string;
  ak_overlapExpiresAt : option Z;
}.

Record Rotation := {
  ro_id : string;
  ro_organizationId : string;
  ro_familyId : string;
  ro_oldKeyId : string;
  ro_newKeyId : string;
  ro_overlapExpiresAt : Z;
  ro_cutoverAt : option Z;
  ro_cutoverById : option string;
  ro_status : RotationStatus.t;
  ro_oldKeyUsageCount : Z;
  ro_lastOldKeyUsedAt : option Z;
  ro_createdAt : Z;
}.

Record CutoverReceipt := {
  ct_id : string;
  ct_organizationId : string;
  ct_rotationId : string;
  ct_familyId : string;
  ct_oldKeyId : string;
  ct_newKeyId : string;
  ct_cutoverAt : Z;
  ct_cutoverType : string;
  ct_initiatedById : option string;
  ct_oldKeyUsageCount : Z;
  ct_receiptHash : string;
}.

Record KeyDb := {
  kd_keys : list ApiKey;
  kd_rotations : list Rotation;
  kd_cutovers : list CutoverReceipt;
  kd_receipts : list SecretReceipt;
  kd_audit : AuditDb;
  kd_archived : list string;                     (* organizations with [archivedAt] set *)
}.

Definition set_keys (ks : list ApiKey) (d : KeyDb) : KeyDb :=
  {| kd_keys := ks; kd_rotations := kd_rotations d; kd_cutovers := kd_cutovers d; kd_receipts := kd_receipts d;
     kd_audit := kd_audit d; kd_archived := kd_archived d |}.
Definition set_rotations (rs : list Rotation) (d : KeyDb) : KeyDb :=
  {| kd_keys := kd_keys d; kd_rotations := rs; kd_cutovers := kd_cutovers d; kd_receipts := kd_receipts d;
     kd_audit := kd_audit d; kd_archived := kd_archived d |}.
Definition set_cutovers (cs : list CutoverReceipt) (d : KeyDb) : KeyDb :=
  {| kd_keys := kd_keys d; kd_rotations := kd_rotations d; kd_cutovers := cs; kd_receipts := kd_receipts d;
     kd_audit := kd_audit d; kd_archived := kd_archived d |}.
Definition set_receipts (rs : list SecretReceipt) (d : KeyDb) : KeyDb :=
  {| kd_keys := kd_keys d; kd_rotations := kd_rotations d; kd_cutovers := kd_cutovers d; kd_receipts := rs;
     kd_audit := kd_audit d; kd_archived := kd_archived d |}.
Definition set_key_audit (a : AuditDb) (d : KeyDb) : KeyDb :=
  {| kd_keys := kd_keys d; kd_rotations := kd_rotations d; kd_cutovers := kd_cutovers d; kd_receipts := kd_receipts d;
     kd_audit := a; kd_archived := kd_archived d |}.
Definition set_archived (l : list string) (d : KeyDb) : KeyDb :=
  {| kd_keys := kd_keys d; kd_rotations := kd_rotations d; kd_cutovers := kd_cutovers d; kd_receipts := kd_receipts d;
     kd_audit := kd_audit d; kd_archived := l |}.

(** Columns the operations write. *)
Definition revoke_row (now : Z) (k : ApiKey) : ApiKey :=
  {| ak_id := ak_id k; ak_organizationId := ak_organizationId k; ak_createdById := ak_createdById k; ak_name := ak_name k;
     ak_prefix := ak_prefix k; ak_keyHash := ak_keyHash k; ak_scopes := ak_scopes k; ak_status := ResourceStatus.REVOKED;
     ak_lastUsedAt := ak_lastUsedAt k; ak_rotatedAt := ak_rotatedAt k; ak_revokedAt := Some now;
     ak_expiresAt := ak_expiresAt k; ak_createdAt := ak_createdAt k; ak_rotationFamilyId := ak_rotationFamilyId k;
     ak_overlapExpiresAt := ak_overlapExpiresAt k |}.
Definition overlap_row (now : Z) (familyId : string) (deadline : Z) (k : ApiKey) : ApiKey :=
  {| ak_id := ak_id k; ak_organizationId := ak_organizationId k; ak_createdById := ak_createdById k; ak_name := ak_name k;
     ak_prefix := ak_prefix k; ak_keyHash := ak_keyHash k; ak_scopes := ak_scopes k; ak_status := ak_status k;
     ak_lastUsedAt := ak_lastUsedAt k; ak_rotatedAt := Some now; ak_revokedAt := ak_revokedAt k;
     ak_expiresAt := Some deadline; ak_createdAt := ak_createdAt k; ak_rotationFamilyId := Some familyId;
     ak_overlapExpiresAt := Some deadline |}.
Definition used_row (now : Z) (k : ApiKey) : ApiKey :=
  {| ak_id := ak_id k; ak_organizationId := ak_organizationId k; ak_createdById := ak_createdById k; ak_name := ak_name k;
     ak_prefix := ak_prefix k; ak_keyHash := ak_keyHash k; ak_scopes := ak_scopes k; ak_status := ak_status k;
     ak_lastUsedAt := Some now; ak_rotatedAt := ak_rotatedAt k; ak_revokedAt := ak_revokedAt k;
     ak_expiresAt := ak_expiresAt k; ak_createdAt := ak_createdAt k; ak_rotationFamilyId := ak_rotationFamilyId k;
     ak_overlapExpiresAt := ak_overlapExpiresAt k |}.
Definition with_scopes (scopes : list ApiKeyScope.t) (k : ApiKey) : ApiKey :=
  {| ak_id := ak_id k; ak_organizationId := ak_organizationId k; ak_createdById := ak_createdById k; ak_name := ak_name k;
     ak_prefix := ak_prefix k; ak_keyHash := ak_keyHash k; ak_scopes := scopes; ak_status := ak_status k;
     ak_lastUsedAt := ak_lastUsedAt k; ak_rotatedAt := ak_rotatedAt k; ak_revokedAt := ak_revokedAt k;
     ak_expiresAt := ak_expiresAt k; ak_createdAt := ak_createdAt k; ak_rotationFamilyId := ak_rotationFamilyId k;
     ak_overlapExpiresAt := ak_overlapExpiresAt k |}.

Definition rotation_in (st : RotationStatus.t) (r : Rotation) : Rotation :=
  {| ro_id := ro_id r; ro_organizationId := ro_organizationId r; ro_familyId := ro_familyId r;
     ro_oldKeyId := ro_oldKeyId r; ro_newKeyId := ro_newKeyId r; ro_overlapExpiresAt := ro_overlapExpiresAt r;
     ro_cutoverAt := ro_cutoverAt r; ro_cutoverById := ro_cutoverById r; ro_status := st;
     ro_oldKeyUsageCount := ro_oldKeyUsageCount r; ro_lastOldKeyUsedAt := ro_lastOldKeyUsedAt r;
     ro_createdAt := ro_createdAt r |}.
Definition rotation_cut_over (now : Z) (actorId : option string) (r : Rotation) : Rotation :=
  {| ro_id := ro_id r; ro_organizationId := ro_organizationId r; ro_familyId := ro_familyId r;
     ro_oldKeyId := ro_oldKeyId r; ro_newKeyId := ro_newKeyId r; ro_overlapExpiresAt := ro_overlapExpiresAt r;
     ro_cutoverAt := Some now; ro_cutoverById := actorId; ro_status := RotationStatus.CUTOVER;
     ro_oldKeyUsageCount := ro_oldKeyUsageCount r; ro_lastOldKeyUsedAt := ro_lastOldKeyUsedAt r;
     ro_createdAt := ro_createdAt r |}.
Definition rotation_used (now : Z) (r : Rotation) : Rotation :=
  {| ro_id := ro_id r; ro_organizationId := ro_organizationId r; ro_familyId := ro_familyId r;
     ro_oldKeyId := ro_oldKeyId r; ro_newKeyId := ro_newKeyId r; ro_overlapExpiresAt := ro_overlapExpiresAt r;
     ro_cutoverAt := ro_cutoverAt r; ro_cutoverById := ro_cutoverById r; ro_status := ro_status r;
     ro_oldKeyUsageCount := ro_oldKeyUsageCount r + 1; ro_lastOldKeyUsedAt := Some now; ro_createdAt := ro_createdAt r |}.

Definition has_key_id (id : string) (k : ApiKey) : bool := bool_decide (ak_id k = id).
Definition in_organization (organizationId : string) (k : ApiKey) : bool := bool_decide (ak_organizationId k = organizationId).
Definition has_rotation_id (id : string) (r : Rotation) : bool := bool_decide (ro_id r = id).
Definition find_key (id : string) (d : KeyDb) : option ApiKey := find_where (has_key_id id) (kd_keys d).
Definition scopes_of (id : string) (d : KeyDb) : list ApiKeyScope.t :=
  match find_key id d with Some k => ak_scopes k | None => [] end.

(** [update({ where })] on the table of keys. *)
Definition update_key (p : ApiKey -> bool) (f : ApiKey -> ApiKey) (d : KeyDb) : result DbError KeyDb :=
  _ ← throw_if (count_where p (kd_keys d) =? 0)%nat P2025;
  Ok (set_keys (update_where p f (kd_keys d)) d).
Definition update_rotation (id : string) (f : Rotation -> Rotation) (d : KeyDb) : result DbError KeyDb :=
  _ ← throw_if (count_where (has_rotation_id id) (kd_rotations d) =? 0)%nat P2025;
  Ok (set_rotations (update_where (has_rotation_id id) f (kd_rotations d)) d).

Definition create_key (k : ApiKey) (d : KeyDb) : result DbError KeyDb :=
  _ ← throw_if (bool_decide (ak_id k ∈ ak_id <$> kd_keys d) || bool_decide (ak_keyHash k ∈ ak_keyHash <$> kd_keys d) ||
                negb (bool_decide (NoDup (ak_scopes k)))) P2002;
  Ok (set_keys (kd_keys d ++ [k]) d).
Definition create_rotation (r : Rotation) (d : KeyDb) : result DbError KeyDb :=
  _ ← throw_if (bool_decide (ro_id r ∈ ro_id <$> kd_rotations d) ||
                bool_decide ((ro_oldKeyId r, ro_newKeyId r) ∈ (fun x => (ro_oldKeyId x, ro_newKeyId x)) <$> kd_rotations d)) P2002;
  Ok (set_rotations (kd_rotations d ++ [r]) d).
Definition create_cutover (c : CutoverReceipt) (d : KeyDb) : result DbError KeyDb :=
  _ ← throw_if (bool_decide (ct_id c ∈ ct_id <$> kd_cutovers d) ||
                bool_decide (ct_rotationId c ∈ ct_rotationId <$> kd_cutovers d) ||
                bool_decide (ct_receiptHash c ∈ ct_receiptHash <$> kd_cutovers d)) P2002;
  Ok (set_cutovers (kd_cutovers d ++ [c]) d).
(** [tx.auditLog.create] *)
Definition audit_in_tx (id : string) (now : Z) (args : AuditArgs) (d : KeyDb) : result DbError KeyDb :=
  rows ← createUnchained id now args (auditRows (kd_audit d));
  Ok (set_key_audit {| auditRows := rows; cursors := cursors (kd_audit d) |} d).

Inductive KeyError :=
| KeyNotFound                    (* 404 *)
| KeyForbidden                   (* 403 *)
| KeyInactive                    (* 400 *)
| RotationInProgress             (* 409 *)
| AlreadyRotated                 (* 400 *)
| RotationNotFound               (* 404 *)
| AlreadyCutOver                 (* 409 *)
| KeyQuota (e : QuotaError)      (* 429 *)
| KeyDbFailed (e : DbError).

Definition db {A} (m : result DbError A) : result KeyError A :=
  match m with Ok x => Ok x | Err e => Err (KeyDbFailed e) end.

(** ** Secrets *)

(** [randomBytes(32).toString("base64url")] and its first eight characters. *)
Definition generated_secret (random : string) : string := base64url_encode random.
Definition prefix_of_secret (secret : string) : string := String.substring 0 8 secret.

Definition hex_value_of (c : ascii) : option Z :=
  let n := byte_val c in
  if (48 <=? n) && (n <=? 57) then Some (n - 48)
  else if (97 <=? n) && (n <=? 102) then Some (n - 87)
  else if (65 <=? n) && (n <=? 70) then Some (n - 55)
  else None.

(** [Buffer.from(s, "hex")]: up to the first pair that is not two hex digits. *)
Fixpoint hex_bytes (s : string) : list Z :=
  match s with
  | String a (String b r) =>
      match hex_value_of a, hex_value_of b with
      | Some x, Some y => (16 * x + y) :: hex_bytes r
      | _, _ => []
      end
  | _ => []
  end.

Fixpoint all_hex (s : string) : bool :=
  match s with EmptyString => true | String c r => bool_decide (is_Some (hex_value_of c)) && all_hex r end.

Definition EXPECTED_HEX_LENGTH : nat := 64.
Definition zero_buffer : list Z := replicate 32 0.

Definition stored_buffer (storedHash : string) : list Z :=
  if (String.length storedHash =? EXPECTED_HEX_LENGTH)%nat && all_hex storedHash then
    let b := hex_bytes storedHash in
    if (length b =? 32)%nat then b else zero_buffer
  else zero_buffer.

(** ** Rotation policy *)

Definition calculateScopeIntersection (scopesA scopesB : list ApiKeyScope.t) : list ApiKeyScope.t :=
  List.filter (fun s => bool_decide (s ∈ scopesB)) scopesA.

Definition created_desc (a b : Rotation) : bool := ro_createdAt b <=? ro_createdAt a.
Definition latest_rotation (p : Rotation -> bool) (d : KeyDb) : option Rotation :=
  head (js_sort created_desc (List.filter p (kd_rotations d))).

Record Evaluation := {
  ev_allowed : bool;
  ev_effectiveScopes : list ApiKeyScope.t;
  ev_isOldKeyInOverlap : bool;
  ev_expire : option string;                     (* the rotation to move to EXPIRED *)
}.

Definition allow (scopes : list ApiKeyScope.t) (old : bool) : Evaluation :=
  {| ev_allowed := true; ev_effectiveScopes := scopes; ev_isOldKeyInOverlap := old; ev_expire := None |}.
Definition deny (expire : option string) : Evaluation :=
  {| ev_allowed := false; ev_effectiveScopes := []; ev_isOldKeyInOverlap := true; ev_expire := expire |}.

(** The first query of [evaluateScopeIntersection] and what follows it; [None]
    goes on to the second. *)
Definition evaluate_old (keyId : string) (keyScopes : list ApiKeyScope.t) (organizationId : string) (now : Z) (d : KeyDb)
    : option Evaluation :=
  r ← latest_rotation (fun r => bool_decide (ro_oldKeyId r = keyId) && bool_decide (ro_organizationId r = organizationId)) d;
  Some (if bool_decide (ro_status r = RotationStatus.CUTOVER) || bool_decide (ro_status r = RotationStatus.REVOKED)
        then deny None
        else if ro_overlapExpiresAt r <=? now then
          deny (if bool_decide (ro_status r = RotationStatus.IN_OVERLAP) then Some (ro_id r) else None)
        else allow (calculateScopeIntersection keyScopes (scopes_of (ro_newKeyId r) d)) true).

Definition evaluate_new (keyId : string) (keyScopes : list ApiKeyScope.t) (organizationId : string) (now : Z) (d : KeyDb)
    : Evaluation :=
  match latest_rotation (fun r => bool_decide (ro_newKeyId r = keyId) && bool_decide (ro_organizationId r = organizationId)) d with
  | Some r =>
      if bool_decide (ro_status r = RotationStatus.IN_OVERLAP) then
        if ro_overlapExpiresAt r <=? now then allow keyScopes false
        else allow (calculateScopeIntersection keyScopes (scopes_of (ro_oldKeyId r) d)) false
      else allow keyScopes false
  | None => allow keyScopes false
  end.

Definition evaluateScopeIntersection (keyId : string) (keyScopes : list ApiKeyScope.t) (organizationId : string) (now : Z)
    (d : KeyDb) : Evaluation :=
  default (evaluate_new keyId keyScopes organizationId now d) (evaluate_old keyId keyScopes organizationId now d).

(** [recordOldKeyUsage] *)
Definition recordOldKeyUsage (oldKeyId : string) (now : Z) (d : KeyDb) : KeyDb :=
  set_rotations (update_where (fun r => bool_decide (ro_oldKeyId r = oldKeyId) &&
      bool_decide (ro_status r = RotationStatus.IN_OVERLAP) && (now <? ro_overlapExpiresAt r)) (rotation_used now)
    (kd_rotations d)) d.

(** [inspectRotation]: the newest rotation that names the key, its status and scopes. *)
Definition names_key (keyId organizationId : string) (r : Rotation) : bool :=
  bool_decide (ro_organizationId r = organizationId) &&
  (bool_decide (ro_oldKeyId r = keyId) || bool_decide (ro_newKeyId r = keyId) || bool_decide (ro_familyId r = keyId)).

Record Inspection := {
  in_rotation : Rotation;
  in_status : RotationStatus.t;
  in_isOverlapExpired : bool;
  in_effectiveScopes : list ApiKeyScope.t;
  in_cutoverReceipt : option CutoverReceipt;
}.

Definition inspectRotation (keyId organizationId : string) (now : Z) (d : KeyDb) : result KeyError Inspection :=
  match latest_rotation (names_key keyId organizationId) d with
  | None => Err RotationNotFound
  | Some r =>
      let overlapping := bool_decide (ro_status r = RotationStatus.IN_OVERLAP) in
      let expired := if overlapping then ro_overlapExpiresAt r <=? now else bool_decide (ro_status r = RotationStatus.EXPIRED) in
      Ok {| in_rotation := r;
            in_status := if expired && overlapping then RotationStatus.EXPIRED else ro_status r;
            in_isOverlapExpired := expired;
            in_effectiveScopes :=
              if overlapping && negb expired
              then calculateScopeIntersection (scopes_of (ro_oldKeyId r) d) (scopes_of (ro_newKeyId r) d)
              else scopes_of (ro_newKeyId r) d;
            in_cutoverReceipt := find_where (fun c => bool_decide (ct_rotationId c = ro_id r)) (kd_cutovers d) |}
  end.

(** ** The cache of a process *)

Record CacheEntry := { ce_key : ApiKey; ce_expiresAt : option Z }.
Definition KeyCache := list (string * CacheEntry).

Definition cacheKey (organizationId prefix : string) : string := String.append organizationId (String ":"%char prefix).
Definition cache_delete (ck : string) (c : KeyCache) : KeyCache := List.filter (fun e => negb (bool_decide (e.1 = ck))) c.

Definition invalidateKeyCache (keyId : string) (c : KeyCache) : KeyCache :=
  if bool_decide (keyId = EmptyString) then []
  else List.filter (fun e => negb (bool_decide (ak_id (ce_key e.2) = keyId))) c.

Section service.
Context (sha256 : string -> string) (hmac : string -> string -> string) (limits : QuotaLimits).

Definition hashSecret (secret : string) : string := sha256 secret.
Definition verifySecret (secret storedHash : string) : bool :=
  bool_decide (hex_bytes (hashSecret secret) = stored_buffer storedHash).

Definition past (expiresAt : option Z) (now : Z) : bool :=
  match expiresAt with Some t => t <=? now | None => false end.

(** The cached branch of [lookupAndVerifyKey]: its answer, unless the entry is
    missing, and the cache it leaves. *)
Definition lookup_cached (prefix secret organizationId : string) (now : Z) (c : KeyCache)
    : option (option ApiKey) * KeyCache :=
  let ck := cacheKey organizationId prefix in
  match JsMap.get ck c with
  | None => (None, c)
  | Some e =>
      if past (ce_expiresAt e) now then (Some None, cache_delete ck c)
      else if negb (bool_decide (ak_status (ce_key e) = ResourceStatus.ACTIVE)) then (Some None, cache_delete ck c)
      else if verifySecret secret (ak_keyHash (ce_key e)) then (Some (Some (ce_key e)), c)
      else (Some None, c)
  end.

(** The rows [findFirst] may return, and the checks on the one returned. *)
Definition usable (now : Z) (k : ApiKey) : bool :=
  bool_decide (ak_status k = ResourceStatus.ACTIVE) && match ak_expiresAt k with Some t => now <? t | None => true end.
Definition findable (prefix organizationId : string) (now : Z) (d : KeyDb) (k : ApiKey) : bool :=
  bool_decide (ak_prefix k = prefix) && in_organization organizationId k && usable now k &&
  negb (bool_decide (organizationId ∈ kd_archived d)).
Definition presented_ok (secret : string) (now : Z) (k : ApiKey) : bool :=
  negb (past (ak_expiresAt k) now) && verifySecret secret (ak_keyHash k).

(** ** Creating a key *)

Definition scopes_json (scopes : list ApiKeyScope.t) : json := JArr ((fun s => JStr (ApiKeyScope.text s)) <$> scopes).

(** Rows that count against the quota. *)
Definition active_keys (organizationId : string) (now : Z) (d : KeyDb) : nat :=
  count_where (fun k => in_organization organizationId k && usable now k) (kd_keys d).
Definition assert_key_capacity (organizationId : string) (now : Z) (d : KeyDb) : result KeyError unit :=
  match assertCapacity limits api_keys (active_keys organizationId now d) with Ok u => Ok u | Err e => Err (KeyQuota e) end.

Definition key_receipt (organizationId keyId prefix : string) (recipient : option string) (revealedAt : Z)
    (expiresAt : option Z) : ReceiptInput :=
  {| ri_organizationId := organizationId; ri_secretType := SecretType.API_KEY; ri_resourceId := keyId;
     ri_resourceReference := Some (Some prefix); ri_recipientId := Some <$> recipient;
     ri_deliveryChannel := Some DeliveryChannel.HTTP_RESPONSE; ri_revealedAt := revealedAt; ri_expiresAt := expiresAt;
     ri_metadata := None |}.
Definition create_key_receipt (id : string) (now : Z) (input : ReceiptInput) (d : KeyDb) : result DbError KeyDb :=
  rs ← create_receipt sha256 hmac id now input (kd_receipts d); Ok (set_receipts rs d).

Definition new_key (id organizationId createdBy name secret : string) (scopes : list ApiKeyScope.t) (expiresAt : option Z)
    (family : option string) (now : Z) : ApiKey :=
  {| ak_id := id; ak_organizationId := organizationId; ak_createdById := createdBy; ak_name := name;
     ak_prefix := prefix_of_secret secret; ak_keyHash := hashSecret secret; ak_scopes := scopes;
     ak_status := ResourceStatus.ACTIVE; ak_lastUsedAt := None; ak_rotatedAt := None; ak_revokedAt := None;
     ak_expiresAt := expiresAt; ak_createdAt := now; ak_rotationFamilyId := family; ak_overlapExpiresAt := None |}.

Definition key_audit (action : string) (actorId : option string) (resourceId : string) (metadata : list (string * json)) : AuditArgs :=
  {| aa_organizationId := None; aa_actorType := "user"; aa_actorId := actorId; aa_action := action;
     aa_resourceType := "api_key"; aa_resourceId := Some resourceId; aa_metadata := Some (JObj metadata);
     aa_createdAt := None |}.

(** Identifiers the database generates for the rows of one transaction. *)
Record FreshIds := { fi_key : string; fi_rotation : string; fi_receipt : string; fi_audit : string }.

Definition createKey (organizationId createdBy name : string) (scopes : option (list ApiKeyScope.t)) (expiresAt : option Z)
    (secret : string) (ids : FreshIds) (now : Z) (d : KeyDb) : result KeyError KeyDb :=
  let k := new_key (fi_key ids) organizationId createdBy name secret (default [] scopes) expiresAt None now in
  _ ← assert_key_capacity organizationId now d;
  d ← db (create_key k d);
  d ← db (create_key_receipt (fi_receipt ids) now
            (key_receipt organizationId (ak_id k) (ak_prefix k) (Some createdBy) now expiresAt) d);
  db (audit_in_tx (fi_audit ids) now (key_audit "api_key.created" (Some createdBy) (ak_id k)
        [("prefix", JStr (ak_prefix k)); ("name", JStr name); ("organizationId", JStr organizationId);
         ("scopes", scopes_json (ak_scopes k))]) d).

(** ** Rotating a key *)

Definition DEFAULT_ROTATION_OVERLAP_MS : Z := 24 * 60 * 60 * 1000.

Record RotateDto := { rd_overlapDurationMs : option Z; rd_scopes : option (list ApiKeyScope.t); rd_name : option string }.

(** The first query and its checks. *)
Definition rotate_find (keyId organizationId : string) (d : KeyDb) : result KeyError (option ApiKey) :=
  match find_key keyId d with
  | None => Ok None
  | Some k =>
      _ ← throw_if (negb (in_organization organizationId k)) KeyForbidden;
      _ ← throw_if (negb (bool_decide (ak_status k = ResourceStatus.ACTIVE))) KeyInactive;
      Ok (Some k)
  end.

(** The replay guard. *)
Definition rotate_guard (keyId organizationId : string) (d : KeyDb) : result KeyError unit :=
  match latest_rotation (fun r => bool_decide (ro_oldKeyId r = keyId) && bool_decide (ro_organizationId r = organizationId)) d with
  | None => Ok tt
  | Some latest =>
      _ ← throw_if (bool_decide (ro_status latest = RotationStatus.IN_OVERLAP)) RotationInProgress;
      throw_if (bool_decide (ro_status latest = RotationStatus.CUTOVER) ||
                bool_decide (ro_status latest = RotationStatus.EXPIRED)) AlreadyRotated
  end.

Definition calculateRotationOverlapExpiry (originalExpiresAt : option Z) (overlapDurationMs now : Z) : Z :=
  match originalExpiresAt with Some t => Z.min t (now + overlapDurationMs) | None => now + overlapDurationMs end.

Record RotatePlan := {
  pl_keyId : string;
  pl_organizationId : string;
  pl_actorId : option string;
  pl_secret : string;
  pl_now : Z;
  pl_overlapExpiresAt : Z;
  pl_familyId : string;
  pl_scopes : list ApiKeyScope.t;
  pl_name : string;
}.

Definition rotate_plan (keyId organizationId : string) (actorId : option string) (dto : RotateDto) (existing : option ApiKey)
    (secret : string) (now : Z) : RotatePlan :=
  {| pl_keyId := keyId; pl_organizationId := organizationId; pl_actorId := actorId; pl_secret := secret; pl_now := now;
     pl_overlapExpiresAt := calculateRotationOverlapExpiry (existing ≫= ak_expiresAt)
                              (default DEFAULT_ROTATION_OVERLAP_MS (rd_overlapDurationMs dto)) now;
     pl_familyId := default keyId (existing ≫= ak_rotationFamilyId);
     pl_scopes := default (from_option ak_scopes [] existing) (rd_scopes dto);
     pl_name := default match existing with
                        | Some k => if bool_decide (ak_name k = EmptyString) then "API Key"
                                    else String.append (ak_name k) " (rotated)"
                        | None => "API Key"
                        end (rd_name dto) |}.

(** The check inside the transaction. *)
Definition rotate_check (p : RotatePlan) (d : KeyDb) : result KeyError unit :=
  throw_if (existsb (fun r => bool_decide (ro_oldKeyId r = pl_keyId p) && bool_decide (ro_status r = RotationStatus.IN_OVERLAP))
              (kd_rotations d)) RotationInProgress.

Definition planned_rotation (p : RotatePlan) (ids : FreshIds) (now : Z) : Rotation :=
  {| ro_id := fi_rotation ids; ro_organizationId := pl_organizationId p; ro_familyId := pl_familyId p;
     ro_oldKeyId := pl_keyId p; ro_newKeyId := fi_key ids; ro_overlapExpiresAt := pl_overlapExpiresAt p;
     ro_cutoverAt := None; ro_cutoverById := None; ro_status := RotationStatus.IN_OVERLAP; ro_oldKeyUsageCount := 0;
     ro_lastOldKeyUsedAt := None; ro_createdAt := now |}.

(** Its writes, from the quota on; [now] is the clock then. *)
Definition rotateKey_write (p : RotatePlan) (ids : FreshIds) (now : Z) (d : KeyDb) : result KeyError KeyDb :=
  let here k := has_key_id (pl_keyId p) k && in_organization (pl_organizationId p) k in
  _ ← assert_key_capacity (pl_organizationId p) now d;
  d ← db (update_key here (overlap_row (pl_now p) (pl_familyId p) (pl_overlapExpiresAt p)) d);
  match find_where here (kd_keys d) with
  | None => Err (KeyDbFailed P2025)              (* not reached: the update found it *)
  | Some old =>
      let k := new_key (fi_key ids) (pl_organizationId p) (default (ak_createdById old) (pl_actorId p)) (pl_name p)
                 (pl_secret p) (pl_scopes p) None (Some (pl_familyId p)) now in
      d ← db (create_key k d);
      d ← db (create_rotation (planned_rotation p ids now) d);
      d ← db (create_key_receipt (fi_receipt ids) now
                (key_receipt (ak_organizationId old) (ak_id k) (ak_prefix k) (pl_actorId p) (pl_now p) (ak_expiresAt old)) d);
      db (audit_in_tx (fi_audit ids) now (key_audit "api_key.rotated" (pl_actorId p) (ak_id old)
            [("prefix", JStr (ak_prefix old)); ("replacementPrefix", JStr (ak_prefix k));
             ("organizationId", JStr (ak_organizationId old)); ("familyId", JStr (pl_familyId p));
             ("overlapExpiresAt", jiso (pl_overlapExpiresAt p)); ("rotatedAt", jiso (pl_now p)); ("expiresAt", JUndef);
             ("receiptId", JStr (fi_receipt ids))]) d)
  end.

(** ** Cutting a rotation over *)

Definition in_overlap (r : Rotation) : bool := bool_decide (ro_status r = RotationStatus.IN_OVERLAP).
Definition cutover_candidates (keyId organizationId : string) (d : KeyDb) : list Rotation :=
  List.filter (fun r => names_key keyId organizationId r && in_overlap r) (kd_rotations d).

(** What [earlyCutover] answers when there is none. *)
Definition cutover_refusal (keyId organizationId : string) (d : KeyDb) : KeyError :=
  if existsb (fun r => names_key keyId organizationId r && bool_decide (ro_status r = RotationStatus.CUTOVER) &&
                bool_decide (ro_id r ∈ ct_rotationId <$> kd_cutovers d)) (kd_rotations d)
  then AlreadyCutOver else RotationNotFound.

Definition receiptPayload (organizationId cutoverType : string) (actorId : option string) (r : Rotation) (now : Z)
    (scopeIntersection : list ApiKeyScope.t) : json :=
  JObj [("receiptType", JStr "API_KEY_ROTATION_CUTOVER"); ("version", JStr "1"); ("organizationId", JStr organizationId);
        ("familyId", JStr (ro_familyId r)); ("oldKeyId", JStr (ro_oldKeyId r)); ("newKeyId", JStr (ro_newKeyId r));
        ("cutoverAt", jiso now); ("cutoverType", JStr cutoverType); ("initiatedById", jopt actorId);
        ("oldKeyUsageCount", JNum (ro_oldKeyUsageCount r)); ("scopeIntersection", scopes_json scopeIntersection)].

Definition cutover_receipt (id organizationId cutoverType : string) (actorId : option string) (r : Rotation) (now : Z)
    (scopeIntersection : list ApiKeyScope.t) : CutoverReceipt :=
  {| ct_id := id; ct_organizationId := organizationId; ct_rotationId := ro_id r; ct_familyId := ro_familyId r;
     ct_oldKeyId := ro_oldKeyId r; ct_newKeyId := ro_newKeyId r; ct_cutoverAt := now; ct_cutoverType := cutoverType;
     ct_initiatedById := actorId; ct_oldKeyUsageCount := ro_oldKeyUsageCount r;
     ct_receiptHash := String.append "sha256:" (sha256 (json_text
       (receiptPayload organizationId cutoverType actorId r now scopeIntersection))) |}.

Definition prefix_json (id : string) (d : KeyDb) : json :=
  match find_key id d with Some k => JStr (ak_prefix k) | None => JUndef end.

(** The writes of a cutover, for the rotation the transaction read. *)
Definition cutover_write (organizationId cutoverType : string) (actorId : option string) (reason : list (string * json))
    (r : Rotation) (ids : FreshIds) (now : Z) (d : KeyDb) : result KeyError KeyDb :=
  let scopeIntersection := calculateScopeIntersection (scopes_of (ro_oldKeyId r) d) (scopes_of (ro_newKeyId r) d) in
  d ← db (update_key (has_key_id (ro_oldKeyId r)) (revoke_row now) d);
  d ← db (update_rotation (ro_id r) (rotation_cut_over now actorId) d);
  d ← db (create_cutover (cutover_receipt (fi_receipt ids) organizationId cutoverType actorId r now scopeIntersection) d);
  db (audit_in_tx (fi_audit ids) now (key_audit "api_key.cutover" actorId (ro_oldKeyId r)
        ([("prefix", prefix_json (ro_oldKeyId r) d); ("replacementPrefix", prefix_json (ro_newKeyId r) d);
          ("organizationId", JStr organizationId); ("familyId", JStr (ro_familyId r));
          ("receiptId", JStr (fi_receipt ids)); ("cutoverType", JStr cutoverType)] ++ reason)) d).

Definition earlyCutover (organizationId : string) (actorId reason : option string) (r : Rotation) (ids : FreshIds) (now : Z)
    (d : KeyDb) : result KeyError KeyDb :=
  cutover_write organizationId "EARLY_MANUAL" actorId [("reason", jundef reason)] r ids now d.

(** ** Revoking a key *)

Definition COMPROMISE : string := "COMPROMISE".
Definition family_candidates (keyId organizationId : string) (d : KeyDb) : list Rotation :=
  List.filter (fun r => bool_decide (ro_organizationId r = organizationId) &&
    (bool_decide (ro_oldKeyId r = keyId) || bool_decide (ro_newKeyId r = keyId)) && in_overlap r) (kd_rotations d).

(** [handleFamilyRevocation] after its query found [r]: the tables and the
    affected keys. *)
Definition handleFamilyRevocation (keyId organizationId : string) (actorId reason : option string) (r : Rotation)
    (ids : FreshIds) (now : Z) (d : KeyDb) : result KeyError (KeyDb * list string) :=
  if bool_decide (reason = Some COMPROMISE) then
    let both k := (has_key_id (ro_oldKeyId r) k || has_key_id (ro_newKeyId r) k) && in_organization organizationId k in
    let d := set_keys (update_where both (revoke_row now) (kd_keys d)) d in
    d ← db (update_rotation (ro_id r) (rotation_in RotationStatus.REVOKED) d);
    d ← db (audit_in_tx (fi_audit ids) now (key_audit "api_key.revoked" actorId keyId
              [("organizationId", JStr organizationId); ("familyId", JStr (ro_familyId r));
               ("oldKeyId", JStr (ro_oldKeyId r)); ("newKeyId", JStr (ro_newKeyId r));
               ("revocationReason", JStr COMPROMISE); ("revokedAt", jiso now)]) d);
    Ok (d, [ro_oldKeyId r; ro_newKeyId r])
  else if bool_decide (keyId = ro_oldKeyId r) then
    d ← cutover_write organizationId "REVOCATION_CUTOVER" actorId [] r ids now d; Ok (d, [ro_oldKeyId r])
  else
    d ← db (update_key (has_key_id (ro_newKeyId r)) (revoke_row now) d);
    d ← db (update_rotation (ro_id r) (rotation_in RotationStatus.REVOKED) d);
    Ok (d, [ro_newKeyId r]).

(** The rest of [revokeKey] when no rotation is in overlap. *)
Definition revoke_find (keyId organizationId : string) (d : KeyDb) : result KeyError ApiKey :=
  match find_where (fun k => has_key_id keyId k && in_organization organizationId k) (kd_keys d) with
  | None => Err KeyNotFound
  | Some k => Ok k
  end.
Definition revoke_row_update (keyId organizationId : string) (now : Z) (d : KeyDb) : result KeyError KeyDb :=
  db (update_key (fun k => has_key_id keyId k && in_organization organizationId k) (revoke_row now) d).
Definition revoke_audit (keyId : string) (actorId reason : option string) (k : ApiKey) (now : Z) : AuditArgs :=
  key_audit "api_key.revoked" actorId keyId
    [("prefix", JStr (ak_prefix k)); ("name", JStr (ak_name k)); ("organizationId", JStr (ak_organizationId k));
     ("revokedAt", jiso now); ("reason", jundef reason)].

(** ** The expiration job and the deletion of an organization *)

Definition expired_candidates (now : Z) (d : KeyDb) : list ApiKey :=
  List.filter (fun k => bool_decide (ak_status k = ResourceStatus.ACTIVE) && past (ak_expiresAt k) now) (kd_keys d).
Definition key_still_active (id : string) (k : ApiKey) : bool :=
  has_key_id id k && bool_decide (ak_status k = ResourceStatus.ACTIVE).
Definition sweep_audit (k : ApiKey) (now : Z) : AuditArgs :=
  {| aa_organizationId := None; aa_actorType := "system"; aa_actorId := Some "api-key-expiration-job";
     aa_action := "api_key.revoked"; aa_resourceType := "api_key"; aa_resourceId := Some (ak_id k);
     aa_metadata := Some (JObj [("prefix", JStr (ak_prefix k)); ("name", JStr (ak_name k));
       ("organizationId", JStr (ak_organizationId k)); ("revokedAt", jiso now);
       ("expiresAt", match ak_expiresAt k with Some t => jiso t | None => JNull end); ("reason", JStr "expired")]);
     aa_createdAt := None |}.

(** [deleteOrganization], the part that concerns keys. *)
Definition revoke_organization_keys (organizationId : string) (now : Z) (d : KeyDb) : KeyDb :=
  set_keys (update_where (fun k => in_organization organizationId k &&
    negb (bool_decide (ak_status k = ResourceStatus.REVOKED))) (revoke_row now) (kd_keys d)) d.

(** ** Guards *)

Record KeyRequest := {
  kq_authorization : option string;
  kq_organizationId : option string;             (* x-organization-id *)
  kq_requiredScopes : list ApiKeyScope.t;        (* of the handler's decorator *)
}.

Definition bearer : string := "Bearer ".
Definition secret_char (c : ascii) : bool :=
  let n := byte_val c in
  ((65 <=? n) && (n <=? 90)) || ((97 <=? n) && (n <=? 122)) || ((48 <=? n) && (n <=? 57)) || (n =? 95) || (n =? 45).

(** [ApiKeyGuard.canActivate] up to the lookup: prefix, presented key, organization. *)
Definition presented_key (q : KeyRequest) : option (string * string * string) :=
  authHeader ← kq_authorization q;
  if String.prefix bearer authHeader then
    let key := String.substring 7 (String.length authHeader - 7) authHeader in
    if (String.length key =? 43)%nat && all_chars secret_char key then
      organizationId ← kq_organizationId q;
      if bool_decide (organizationId = EmptyString) then None
      else Some (prefix_of_secret key, key, organizationId)
    else None
  else None.

(** [ScopesGuard.canActivate] on the context the key guard attached. *)
Definition scopes_allow (required scopes : list ApiKeyScope.t) : bool :=
  forallb (fun s => bool_decide (s ∈ scopes)) required.

(** ** Operations in flight *)

Record Lookup := {
  lk_request : KeyRequest;
  lk_prefix : string;
  lk_secret : string;
  lk_organizationId : string;
  lk_now : Z;
}.

(** A request the key guard lets through, with the key's context. *)
Record Accepted := { ac_lookup : Lookup; ac_key : ApiKey }.

Inductive KeyOp :=
| LookupFind (l : Lookup)
| LookupOld (l : Lookup) (k : ApiKey) (now : Z)
| LookupNew (l : Lookup) (k : ApiKey) (now : Z)
| LookupEnd (l : Lookup) (k : ApiKey) (e : Evaluation)
| ExpireRotation (rotationId : string)
| RecordOldUsage (keyId : string)
| RotateFind (keyId organizationId : string) (actorId : option string) (dto : RotateDto)
| RotateGuard (keyId organizationId : string) (actorId : option string) (dto : RotateDto) (existing : option ApiKey)
| RotateCheck (p : RotatePlan)
| RotateWrite (p : RotatePlan)
| RotateEnd (keyId newKeyId : string)
| CutoverFind (keyId organizationId : string) (actorId reason : option string) (now : Z)
| CutoverWrite (organizationId : string) (actorId reason : option string) (r : Rotation) (now : Z)
| RevokeFamily (keyId organizationId : string) (actorId reason : option string) (now : Z)
| RevokeFamilyWrite (keyId organizationId : string) (actorId reason : option string) (r : Rotation) (now : Z)
| RevokeFamilyEnd (affected : list string)
| RevokeFind (keyId organizationId : string) (actorId reason : option string)
| RevokeUpdate (keyId organizationId : string) (actorId reason : option string) (k : ApiKey) (now : Z)
| RevokeAudit (keyId : string) (actorId reason : option string) (k : ApiKey) (now : Z)
| Sweep (now : Z) (keys : list ApiKey)
| SweepEnd (now : Z) (k : ApiKey) (rest : list ApiKey).

Definition effective (k : ApiKey) (e : Evaluation) : ApiKey := with_scopes (ev_effectiveScopes e) k.

Inductive key_op_step (d : KeyDb) (c : KeyCache) : KeyOp -> KeyDb -> KeyCache -> list KeyOp -> list Accepted -> Prop :=
| lookup_found l k now :
    k ∈ kd_keys d -> findable (lk_prefix l) (lk_organizationId l) (lk_now l) d k = true ->
    presented_ok (lk_secret l) (lk_now l) k = true ->
    key_op_step d c (LookupFind l) d c [LookupOld l k now] []
| lookup_is_old l k now e :
    evaluate_old (ak_id k) (ak_scopes k) (lk_organizationId l) now d = Some e ->
    key_op_step d c (LookupOld l k now) d c
      (LookupEnd l k e :: match ev_expire e with Some id => [ExpireRotation id] | None => [] end) []
| lookup_not_old l k now :
    evaluate_old (ak_id k) (ak_scopes k) (lk_organizationId l) now d = None ->
    key_op_step d c (LookupOld l k now) d c [LookupNew l k now] []
| lookup_new l k now :
    key_op_step d c (LookupNew l k now) d c
      [LookupEnd l k (evaluate_new (ak_id k) (ak_scopes k) (lk_organizationId l) now d)] []
| lookup_overlap l k e :
    ev_allowed e = true -> ev_isOldKeyInOverlap e = true ->
    key_op_step d c (LookupEnd l k e) d c [RecordOldUsage (ak_id k)] [{| ac_lookup := l; ac_key := effective k e |}]
| lookup_cache l k e :
    ev_allowed e = true -> ev_isOldKeyInOverlap e = false ->
    key_op_step d c (LookupEnd l k e) d
      (JsMap.set (cacheKey (lk_organizationId l) (lk_prefix l)) {| ce_key := effective k e; ce_expiresAt := ak_expiresAt k |} c)
      [] [{| ac_lookup := l; ac_key := effective k e |}]
| expire_rotation id d' :
    update_rotation id (rotation_in RotationStatus.EXPIRED) d = Ok d' -> key_op_step d c (ExpireRotation id) d' c [] []
| record_old_usage id now : key_op_step d c (RecordOldUsage id) (recordOldKeyUsage id now d) c [] []
| rotate_found id org actor dto existing :
    rotate_find id org d = Ok existing ->
    key_op_step d c (RotateFind id org actor dto) d c [RotateGuard id org actor dto existing] []
| rotate_planned id org actor dto existing random now :
    rotate_guard id org d = Ok tt -> String.length random = 32%nat ->
    key_op_step d c (RotateGuard id org actor dto existing) d c
      [RotateCheck (rotate_plan id org actor dto existing (generated_secret random) now)] []
| rotate_checked p : rotate_check p d = Ok tt -> key_op_step d c (RotateCheck p) d c [RotateWrite p] []
| rotate_committed p ids now d' :
    rotateKey_write p ids now d = Ok d' -> key_op_step d c (RotateWrite p) d' c [RotateEnd (pl_keyId p) (fi_key ids)] []
| rotate_done id newId :
    key_op_step d c (RotateEnd id newId) d (invalidateKeyCache newId (invalidateKeyCache id c)) [] []
| cutover_found id org actor reason now r :
    r ∈ cutover_candidates id org d ->
    key_op_step d c (CutoverFind id org actor reason now) d c [CutoverWrite org actor reason r now] []
| cutover_committed org actor reason r now ids d' :
    earlyCutover org actor reason r ids now d = Ok d' ->
    key_op_step d c (CutoverWrite org actor reason r now) d' c [] []
| family_found id org actor reason now r :
    r ∈ family_candidates id org d ->
    key_op_step d c (RevokeFamily id org actor reason now) d c [RevokeFamilyWrite id org actor reason r now] []
| family_none id org actor reason now :
    family_candidates id org d = [] ->
    key_op_step d c (RevokeFamily id org actor reason now) d c [RevokeFind id org actor reason] []
| family_committed id org actor reason r now ids d' affected :
    handleFamilyRevocation id org actor reason r ids now d = Ok (d', affected) ->
    key_op_step d c (RevokeFamilyWrite id org actor reason r now) d' c [RevokeFamilyEnd affected] []
| family_done affected :
    key_op_step d c (RevokeFamilyEnd affected) d (foldl (fun c id => invalidateKeyCache id c) c affected) [] []
| revoke_found id org actor reason k now :
    revoke_find id org d = Ok k ->
    key_op_step d c (RevokeFind id org actor reason) d c [RevokeUpdate id org actor reason k now] []
| revoke_updated id org actor reason k now d' :
    revoke_row_update id org now d = Ok d' ->
    key_op_step d c (RevokeUpdate id org actor reason k now) d' c [RevokeAudit id actor reason k now] []
| revoke_audited id actor reason k now auditId at_ a :
    appendAuditLog sha256 auditId at_ (revoke_audit id actor reason k now) (kd_audit d) = Ok a ->
    key_op_step d c (RevokeAudit id actor reason k now) (set_key_audit a d) c [] []
| sweep_done now : key_op_step d c (Sweep now []) d c [] []
| sweep_lost now k rest :
    count_where (key_still_active (ak_id k)) (kd_keys d) = 0%nat ->
    key_op_step d c (Sweep now (k :: rest)) d c [Sweep now rest] []
| sweep_won now k rest :
    count_where (key_still_active (ak_id k)) (kd_keys d) <> 0%nat ->
    key_op_step d c (Sweep now (k :: rest)) (set_keys (update_where (key_still_active (ak_id k)) (revoke_row now) (kd_keys d)) d) c
      [SweepEnd now k rest] []
| sweep_audited now k rest auditId at_ :          (* a failed append is only logged *)
    key_op_step d c (SweepEnd now k rest)
      match appendAuditLog sha256 auditId at_ (sweep_audit k now) (kd_audit d) with Ok a => set_key_audit a d | Err _ => d end
      (invalidateKeyCache (ak_id k) c) [Sweep now rest] [].

(** ** The system *)

Record KeySys := {
  ks_db : KeyDb;
  ks_caches : list (nat * KeyCache);             (* by process *)
  ks_ops : list (nat * KeyOp);                   (* in flight, with their process *)
  ks_accepted : list Accepted;
}.

Definition cache_of (p : nat) (s : KeySys) : KeyCache := default [] (JsMap.get p (ks_caches s)).

Definition after (s : KeySys) (d : KeyDb) (p : nat) (c : KeyCache) (ops : list (nat * KeyOp)) (acc : list Accepted) : KeySys :=
  {| ks_db := d; ks_caches := JsMap.set p c (ks_caches s); ks_ops := ops; ks_accepted := ks_accepted s ++ acc |}.

Inductive key_step (s : KeySys) : KeySys -> Prop :=
| step_hit p q prefix secret org now k c :
    presented_key q = Some (prefix, secret, org) ->
    lookup_cached prefix secret org now (cache_of p s) = (Some (Some k), c) ->
    key_step s (after s (ks_db s) p c (ks_ops s)
      [{| ac_lookup := {| lk_request := q; lk_prefix := prefix; lk_secret := secret; lk_organizationId := org; lk_now := now |};
          ac_key := k |}])
| step_refused p q prefix secret org now c :
    presented_key q = Some (prefix, secret, org) ->
    lookup_cached prefix secret org now (cache_of p s) = (Some None, c) ->
    key_step s (after s (ks_db s) p c (ks_ops s) [])
| step_miss p q prefix secret org now c :
    presented_key q = Some (prefix, secret, org) ->
    lookup_cached prefix secret org now (cache_of p s) = (None, c) ->
    key_step s (after s (ks_db s) p c (ks_ops s ++ [(p, LookupFind
      {| lk_request := q; lk_prefix := prefix; lk_secret := secret; lk_organizationId := org; lk_now := now |})]) [])
| step_rotate p id org actor dto :
    key_step s (after s (ks_db s) p (invalidateKeyCache id (cache_of p s)) (ks_ops s ++ [(p, RotateFind id org actor dto)]) [])
| step_cutover p id org actor reason now :
    key_step s (after s (ks_db s) p (invalidateKeyCache id (cache_of p s))
      (ks_ops s ++ [(p, CutoverFind id org actor reason now)]) [])
| step_revoke p id org actor reason now :
    key_step s (after s (ks_db s) p (invalidateKeyCache id (cache_of p s))
      (ks_ops s ++ [(p, RevokeFamily id org actor reason now)]) [])
| step_sweep p now :
    key_step s (after s (ks_db s) p (cache_of p s) (ks_ops s ++ [(p, Sweep now (expired_candidates now (ks_db s)))]) [])
| step_create p org by_ name scopes expiresAt random ids now d :
    String.length random = 32%nat ->
    createKey org by_ name scopes expiresAt (generated_secret random) ids now (ks_db s) = Ok d ->
    key_step s (after s d p (cache_of p s) (ks_ops s) [])
| step_op l1 p op l2 d c ops acc :
    ks_ops s = l1 ++ (p, op) :: l2 -> key_op_step (ks_db s) (cache_of p s) op d c ops acc ->
    key_step s (after s d p c (l1 ++ (pair p <$> ops) ++ l2) acc)
| step_abandon l1 p op l2 :                      (* refused, or a query failed *)
    ks_ops s = l1 ++ (p, op) :: l2 -> key_step s (after s (ks_db s) p (cache_of p s) (l1 ++ l2) [])
| step_restart p :
    key_step s (after s (ks_db s) p [] (List.filter (fun o => negb (o.1 =? p)%nat) (ks_ops s)) [])
| step_used p id now :
    key_step s (after s (set_keys (update_where (has_key_id id) (used_row now) (kd_keys (ks_db s))) (ks_db s)) p
      (cache_of p s) (ks_ops s) [])
| step_outside p l a :                           (* organizations are archived, other services audit *)
    key_step s (after s (set_key_audit a (set_archived l (ks_db s))) p (cache_of p s) (ks_ops s) [])
| step_delete_organization p org now :
    key_step s (after s (revoke_organization_keys org now (ks_db s)) p (cache_of p s) (ks_ops s) []).
End service.

Definition empty_key_db : KeyDb :=
  {| kd_keys := []; kd_rotations := []; kd_cutovers := []; kd_receipts := [];
     kd_audit := {| auditRows := []; cursors := [] |}; kd_archived := [] |}.
Definition fresh_keys : KeySys := {| ks_db := empty_key_db; ks_caches := []; ks_ops := []; ks_accepted := [] |}.
