(* ===== verification/ApiKeysFacts.v ===== *)
(** * API keys: correctness

    Theorems about [ApiKeys]: what a request needs to be let through, what stays
    out, what a rotation grants and how it ends; and the runs in which the caches
    and the tables disagree. *)

From S2P Require Import Prelude JsData DecimalText Encoding IsoDate Canonical Schema AuditChain Quotas SecretReceipts ApiKeys.
From Stdlib Require Import Ascii.

Local Open Scope string_scope.
Local Open Scope Z_scope.
Local Open Scope list_scope.
#[local] Arguments String.append !_ _ : simpl nomatch.

(** ** How the table of keys changes *)

(** The columns no operation writes. *)
Definition key_core (k : ApiKey) : string * string * string * string * list ApiKeyScope.t :=
  (ak_id k, ak_organizationId k, ak_prefix k, ak_keyHash k, ak_scopes k).

Definition evolves (k k' : ApiKey) : Prop :=
  key_core k' = key_core k /\ (ak_status k' = ak_status k \/ ak_status k' = ResourceStatus.REVOKED).

#[export] Instance evolves_preorder : PreOrder evolves.
Proof.
  split; [split; [done|by left]|]. intros k1 k2 k3 [H1 S1] [H2 S2]. split; [congruence|].
  destruct S2 as [S2|S2]; [rewrite S2; destruct S1; auto|auto].
Qed.

Section facts.
Context (sha256 : string -> string) (hmac : string -> string -> string) (limits : QuotaLimits).

Abbreviation key_step := (key_step sha256 hmac limits).
Abbreviation key_op_step := (key_op_step sha256 hmac limits).

(** A row as the service writes it. *)
Definition issued (k : ApiKey) : Prop :=
  String.length (ak_prefix k) = 8%nat /\ (exists secret, ak_keyHash k = sha256 secret) /\ NoDup (ak_scopes k).

Record keys_evolve (l l' : list ApiKey) : Prop := {
  ke_old : exists m new, l' = m ++ new /\ Forall2 evolves l m /\ Forall issued new /\
             Forall (fun k => ak_id k ∉ ak_id <$> l) new;
  ke_nodup : NoDup (ak_id <$> l) -> NoDup (ak_id <$> l');
}.

Lemma evolve_ids l m : Forall2 evolves l m -> ak_id <$> m = ak_id <$> l.
Proof.
  induction 1 as [|k k' l m Hk _ IH]; [done|]. rewrite !fmap_cons, IH. f_equal. destruct Hk as [Hc _].
  unfold key_core in Hc. congruence.
Qed.

Lemma keys_evolve_update p f l : (forall k, evolves k (f k)) -> keys_evolve l (update_where p f l).
Proof.
  intros Hf. assert (Forall2 evolves l (update_where p f l)) as H.
  { unfold update_where. induction l as [|k l IH]; [constructor|]. rewrite fmap_cons. constructor; [by case_match|done]. }
  split.
  - exists (update_where p f l), []. rewrite app_nil_r. split_and!; [done|done|constructor|constructor].
  - by rewrite (evolve_ids _ _ H).
Qed.

Lemma keys_evolve_create k l :
  ak_id k ∉ ak_id <$> l -> issued k -> keys_evolve l (l ++ [k]).
Proof.
  intros Hid Hk. split.
  - exists l, [k]. split_and!; [done| |by apply Forall_singleton|by apply Forall_singleton].
    apply Forall_Forall2_diag. by apply Forall_true.
  - intros Hnd. by apply NoDup_fmap_snoc.
Qed.

#[export] Instance keys_evolve_preorder : PreOrder keys_evolve.
Proof.
  split.
  - intros l. split; [|done]. exists l, []. rewrite app_nil_r. split_and!; [done| |constructor|constructor].
    apply Forall_Forall2_diag. by apply Forall_true.
  - intros l1 l2 l3 [(m1 & n1 & -> & H1 & I1 & F1) N1] [(m2 & n2 & -> & H2 & I2 & F2) N2]. split; [|auto].
    apply Forall2_app_inv_l in H2 as (ma & mb & Ha & Hb & ->). exists ma, (mb ++ n2).
    rewrite <- app_assoc. split_and!; [done|by etrans| |].
    + apply Forall_app. split; [|done]. clear -Hb I1. induction Hb as [|k k' l m [Hk _] _ IH]; [constructor|].
      inversion_clear I1 as [|? ? Hi Hl]. constructor; [|auto]. injection Hk as _ _ Hp Hh Hs.
      unfold issued. by rewrite Hp, Hh, Hs.
    + apply Forall_app. rewrite Forall_forall in F1. setoid_rewrite Forall_forall. split.
      * intros k Hk. apply evolve_ids in Hb. assert (ak_id k ∈ ak_id <$> mb) as Hin by (apply list_elem_of_fmap; eauto).
        rewrite Hb in Hin. apply list_elem_of_fmap in Hin as (k0 & -> & Hk0). auto.
      * intros k Hk Hin. rewrite Forall_forall in F2. apply (F2 k Hk). rewrite fmap_app, (evolve_ids _ _ H1). set_solver.
Qed.

(** A row as an operation last saw it, perhaps with fewer scopes. *)
Definition known (l : list ApiKey) (k : ApiKey) : Prop :=
  exists r, r ∈ l /\ ak_id r = ak_id k /\ ak_organizationId r = ak_organizationId k /\ ak_prefix r = ak_prefix k /\
    ak_keyHash r = ak_keyHash k /\ ak_scopes k ⊆ ak_scopes r.

Lemma evolved_row l l' r : keys_evolve l l' -> r ∈ l -> exists r', r' ∈ l' /\ evolves r r'.
Proof.
  intros [(m & new & -> & H & _) _] Hr. apply list_elem_of_lookup in Hr as [i Hi].
  destruct (Forall2_lookup_l _ _ _ _ _ H Hi) as (r' & Hi' & He).
  exists r'. split; [apply elem_of_app; left; by eapply list_elem_of_lookup_2|done].
Qed.

Lemma known_evolve l l' k : keys_evolve l l' -> known l k -> known l' k.
Proof.
  intros He (r & Hr & Hk). destruct (evolved_row _ _ _ He Hr) as (r' & Hr' & Hc & _).
  exists r'. split; [done|]. unfold key_core in Hc. injection Hc as -> -> -> -> ->. done.
Qed.

Lemma known_self l k : k ∈ l -> known l k.
Proof. intros H. by exists k. Qed.

Lemma revoked_key_evolves now k : evolves k (revoke_row now k).
Proof. split; [done|by right]. Qed.
Lemma overlap_evolves now f t k : evolves k (overlap_row now f t k).
Proof. split; [done|by left]. Qed.
Lemma used_evolves now k : evolves k (used_row now k).
Proof. split; [done|by left]. Qed.
Hint Resolve revoked_key_evolves overlap_evolves used_evolves : earn.

(** ** Effects of the writes *)

Lemma db_Ok {A} (m : result DbError A) x : db m = Ok x <-> m = Ok x.
Proof. destruct m; cbn; split; congruence. Qed.

Lemma update_key_Ok p f d d' :
  update_key p f d = Ok d' -> d' = set_keys (update_where p f (kd_keys d)) d /\ count_where p (kd_keys d) <> 0%nat.
Proof. unfold update_key. intros H. run_result. split; [done|]. by apply Nat.eqb_neq. Qed.

Lemma update_rotation_Ok id f d d' :
  update_rotation id f d = Ok d' -> d' = set_rotations (update_where (has_rotation_id id) f (kd_rotations d)) d.
Proof. unfold update_rotation. intros H. by run_result. Qed.

Lemma create_key_Ok k d d' :
  create_key k d = Ok d' -> d' = set_keys (kd_keys d ++ [k]) d /\ (ak_id k ∉ ak_id <$> kd_keys d) /\ NoDup (ak_scopes k).
Proof. unfold create_key. intros H. run_result. reflect_hyps. done. Qed.

Lemma create_rotation_Ok r d d' :
  create_rotation r d = Ok d' -> d' = set_rotations (kd_rotations d ++ [r]) d /\ ro_id r ∉ ro_id <$> kd_rotations d.
Proof. unfold create_rotation. intros H. run_result. reflect_hyps. done. Qed.

Lemma create_cutover_Ok c d d' :
  create_cutover c d = Ok d' ->
  d' = set_cutovers (kd_cutovers d ++ [c]) d /\ ct_rotationId c ∉ ct_rotationId <$> kd_cutovers d.
Proof. unfold create_cutover. intros H. run_result. reflect_hyps. done. Qed.

Lemma audit_in_tx_Ok id now args d d' : audit_in_tx id now args d = Ok d' -> exists a, d' = set_key_audit a d.
Proof. unfold audit_in_tx. intros H. run_result. eauto. Qed.

Lemma create_key_receipt_Ok id now i d d' :
  create_key_receipt sha256 hmac id now i d = Ok d' -> exists rs, d' = set_receipts rs d.
Proof. unfold create_key_receipt. intros H. run_result. eauto. Qed.

Lemma createKey_effect org by_ name scopes expiresAt secret ids now d d' :
  createKey sha256 hmac limits org by_ name scopes expiresAt secret ids now d = Ok d' ->
  exists k, kd_keys d' = kd_keys d ++ [k] /\ (ak_id k ∉ ak_id <$> kd_keys d) /\ NoDup (ak_scopes k) /\
    ak_prefix k = prefix_of_secret secret /\ ak_keyHash k = sha256 secret /\
    kd_rotations d' = kd_rotations d /\ kd_cutovers d' = kd_cutovers d.
Proof.
  unfold createKey. intros H. run_result. rewrite !db_Ok in *.
  match goal with Hc : create_key _ _ = _ |- _ => apply create_key_Ok in Hc as (-> & Hid & Hnd) end.
  match goal with Hc : create_key_receipt _ _ _ _ _ _ = _ |- _ => apply create_key_receipt_Ok in Hc as (rs & ->) end.
  match goal with Hc : audit_in_tx _ _ _ _ = _ |- _ => apply audit_in_tx_Ok in Hc as (a & ->) end.
  by eexists.
Qed.

Lemma rotateKey_write_effect p ids now d d' :
  rotateKey_write sha256 hmac limits p ids now d = Ok d' ->
  exists w k, kd_keys d' = update_where w (overlap_row (pl_now p) (pl_familyId p) (pl_overlapExpiresAt p)) (kd_keys d) ++ [k] /\
    ak_id k = fi_key ids /\ (ak_id k ∉ ak_id <$> kd_keys d) /\ NoDup (ak_scopes k) /\
    ak_prefix k = prefix_of_secret (pl_secret p) /\ ak_keyHash k = sha256 (pl_secret p) /\
    kd_rotations d' = kd_rotations d ++ [planned_rotation p ids now] /\ (fi_rotation ids ∉ ro_id <$> kd_rotations d) /\
    kd_cutovers d' = kd_cutovers d /\ pl_keyId p ∈ ak_id <$> kd_keys d.
Proof.
  unfold rotateKey_write. intros H. run_result. rewrite !db_Ok in *.
  match goal with Hu : update_key _ _ _ = _ |- _ => apply update_key_Ok in Hu as [-> Hcount] end.
  destruct (find_where _ _) as [old|] eqn:Hf; [|done]. run_result. rewrite !db_Ok in *.
  match goal with Hc : create_key _ _ = _ |- _ => apply create_key_Ok in Hc as (-> & Hid & Hnd) end.
  match goal with Hc : create_rotation _ _ = _ |- _ => apply create_rotation_Ok in Hc as (-> & Hr) end.
  match goal with Hc : create_key_receipt _ _ _ _ _ _ = _ |- _ => apply create_key_receipt_Ok in Hc as (rs & ->) end.
  match goal with Hc : audit_in_tx _ _ _ _ = _ |- _ => apply audit_in_tx_Ok in Hc as (a & ->) end.
  cbn in Hid, Hr. rewrite update_where_keys in Hid by done.
  eexists _, _. split; [done|]. split_and!; try done.
  apply count_where_pos in Hcount as (k & Hk & Hw). reflect_hyps. apply list_elem_of_fmap.
  exists k. split; [|done]. unfold has_key_id in *. by reflect_hyps.
Qed.

Lemma cutover_write_effect org ty actor reason r ids now d d' :
  cutover_write sha256 org ty actor reason r ids now d = Ok d' ->
  kd_keys d' = update_where (has_key_id (ro_oldKeyId r)) (revoke_row now) (kd_keys d) /\
  kd_rotations d' = update_where (has_rotation_id (ro_id r)) (rotation_cut_over now actor) (kd_rotations d) /\
  (exists c, kd_cutovers d' = kd_cutovers d ++ [c] /\ ct_rotationId c = ro_id r /\ ct_oldKeyId c = ro_oldKeyId r /\
     ct_newKeyId c = ro_newKeyId r) /\
  (ro_id r ∉ ct_rotationId <$> kd_cutovers d) /\ ro_oldKeyId r ∈ ak_id <$> kd_keys d.
Proof.
  unfold cutover_write. intros H. run_result. rewrite !db_Ok in *.
  match goal with Hu : update_key _ _ _ = _ |- _ => apply update_key_Ok in Hu as [-> Hcount] end.
  match goal with Hu : update_rotation _ _ _ = _ |- _ => apply update_rotation_Ok in Hu as -> end.
  match goal with Hc : create_cutover _ _ = _ |- _ => apply create_cutover_Ok in Hc as [-> Hct] end.
  match goal with Hc : audit_in_tx _ _ _ _ = _ |- _ => apply audit_in_tx_Ok in Hc as (a & ->) end.
  split_and!; [done|done|by eexists|done|]. apply count_where_pos in Hcount as (k & Hk & Hw).
  unfold has_key_id in Hw. reflect_hyps. apply list_elem_of_fmap. by exists k.
Qed.

(** The three outcomes of a family revocation. *)
Lemma family_effect id org actor reason r ids now d d' affected :
  handleFamilyRevocation sha256 id org actor reason r ids now d = Ok (d', affected) ->
  (reason = Some COMPROMISE /\ affected = [ro_oldKeyId r; ro_newKeyId r] /\
   kd_keys d' = update_where (fun k => (has_key_id (ro_oldKeyId r) k || has_key_id (ro_newKeyId r) k) &&
                                       in_organization org k) (revoke_row now) (kd_keys d) /\
   kd_rotations d' = update_where (has_rotation_id (ro_id r)) (rotation_in RotationStatus.REVOKED) (kd_rotations d) /\
   kd_cutovers d' = kd_cutovers d) \/
  (reason <> Some COMPROMISE /\ id = ro_oldKeyId r /\ affected = [ro_oldKeyId r] /\
   cutover_write sha256 org "REVOCATION_CUTOVER" actor [] r ids now d = Ok d') \/
  (reason <> Some COMPROMISE /\ id <> ro_oldKeyId r /\ affected = [ro_newKeyId r] /\
   kd_keys d' = update_where (has_key_id (ro_newKeyId r)) (revoke_row now) (kd_keys d) /\
   kd_rotations d' = update_where (has_rotation_id (ro_id r)) (rotation_in RotationStatus.REVOKED) (kd_rotations d) /\
   kd_cutovers d' = kd_cutovers d).
Proof.
  unfold handleFamilyRevocation. intros H.
  destruct (bool_decide_reflect (reason = Some COMPROMISE)) as [Hc|Hc]; [left|right;
    destruct (bool_decide_reflect (id = ro_oldKeyId r)) as [->|Ho]; [left|right]]; run_result; rewrite ?db_Ok in *.
  - match goal with Hu : update_rotation _ _ _ = _ |- _ => apply update_rotation_Ok in Hu as -> end.
    match goal with Hc : audit_in_tx _ _ _ _ = _ |- _ => apply audit_in_tx_Ok in Hc as (a & ->) end. done.
  - done.
  - match goal with Hu : update_key _ _ _ = _ |- _ => apply update_key_Ok in Hu as [-> _] end.
    match goal with Hu : update_rotation _ _ _ = _ |- _ => apply update_rotation_Ok in Hu as -> end. done.
Qed.

(** ** Secrets *)

Lemma sextets_length s : (String.length s <= length (sextets s))%nat.
Proof. induction s as [|a|a b|a b c r IH] using string_ind3; cbn; lia. Qed.

Lemma string_of_list_length l : String.length (String.string_of_list_ascii l) = length l.
Proof. induction l as [|c l IH]; cbn; congruence. Qed.

Lemma generated_prefix random :
  String.length random = 32%nat -> String.length (prefix_of_secret (generated_secret random)) = 8%nat.
Proof.
  intros H. unfold prefix_of_secret, generated_secret, base64url_encode.
  rewrite substring_length, string_of_list_length, length_fmap. pose proof (sextets_length random). lia.
Qed.

Lemma presented_prefix q prefix secret org :
  presented_key q = Some (prefix, secret, org) -> String.length prefix = 8%nat.
Proof.
  unfold presented_key. destruct (kq_authorization q) as [h|]; [|done]. cbn. case_match; [|done].
  case_match eqn:Hl; [|done]. destruct (kq_organizationId q) as [o|]; [|done]. cbn. case_match; [done|]. intros [= <- <- <-].
  reflect_hyps. match goal with H : (String.length _ =? 43)%nat = true |- _ => apply Nat.eqb_eq in H end.
  unfold prefix_of_secret. rewrite substring_length. lia.
Qed.

(** Entries of different organizations or prefixes have different keys. *)
Lemma cacheKey_inj o o' p p' :
  String.length p = String.length p' -> cacheKey o p = cacheKey o' p' -> o = o' /\ p = p'.
Proof.
  unfold cacheKey. intros Hl H.
  assert (String.length o = String.length o') as Ho by (apply (f_equal String.length) in H; rewrite !append_length in H; cbn in H; lia).
  revert o' Ho H. induction o as [|c o IH]; intros [|c' o']; cbn; intros Ho H; try lia.
  - by injection H.
  - injection H as <- H. destruct (IH o' ltac:(lia) H) as [<- <-]. done.
Qed.

(** ** The invariant of the system *)

Definition asked (l : Lookup) : Prop :=
  presented_key (lk_request l) = Some (lk_prefix l, lk_secret l, lk_organizationId l).
Definition answers (l : Lookup) (k : ApiKey) : Prop :=
  ak_organizationId k = lk_organizationId l /\ ak_prefix k = lk_prefix l /\ verifySecret sha256 (lk_secret l) (ak_keyHash k) = true.

Definition entry_ok (ks : list ApiKey) (e : string * CacheEntry) : Prop :=
  known ks (ce_key e.2) /\ e.1 = cacheKey (ak_organizationId (ce_key e.2)) (ak_prefix (ce_key e.2)).

Definition op_ok (ks : list ApiKey) (op : KeyOp) : Prop :=
  match op with
  | LookupFind l => asked l
  | LookupOld l k _ | LookupNew l k _ => asked l /\ answers l k /\ known ks k
  | LookupEnd l k e => asked l /\ answers l k /\ known ks k /\ ev_effectiveScopes e ⊆ ak_scopes k
  | RotateCheck p | RotateWrite p => String.length (prefix_of_secret (pl_secret p)) = 8%nat
  | _ => True
  end.

Definition accepted_ok (ks : list ApiKey) (a : Accepted) : Prop :=
  asked (ac_lookup a) /\ answers (ac_lookup a) (ac_key a) /\ known ks (ac_key a).

Record key_inv (s : KeySys) : Prop := {
  ki_ids : NoDup (ak_id <$> kd_keys (ks_db s));
  ki_issued : Forall issued (kd_keys (ks_db s));
  ki_caches : Forall (fun pc => Forall (entry_ok (kd_keys (ks_db s))) pc.2) (ks_caches s);
  ki_ops : Forall (fun po => op_ok (kd_keys (ks_db s)) po.2) (ks_ops s);
  ki_accepted : Forall (accepted_ok (kd_keys (ks_db s))) (ks_accepted s);
}.

Lemma entry_ok_evolve l l' e : keys_evolve l l' -> entry_ok l e -> entry_ok l' e.
Proof. intros He [Hk Hc]. split; [by eapply known_evolve|done]. Qed.
Lemma op_ok_evolve l l' op : keys_evolve l l' -> op_ok l op -> op_ok l' op.
Proof. intros He. destruct op; cbn; try done; naive_solver eauto using known_evolve. Qed.
Lemma accepted_ok_evolve l l' a : keys_evolve l l' -> accepted_ok l a -> accepted_ok l' a.
Proof. intros He (Ha & Hk & Hr). split_and!; [done..|]. by eapply known_evolve. Qed.

Lemma issued_evolve l l' : keys_evolve l l' -> Forall issued l -> Forall issued l'.
Proof.
  intros [(m & new & -> & Hm & Hnew & _) _] Hl. apply Forall_app. split; [|done].
  induction Hm as [|k k' l m [Hk _] _ IH]; [constructor|]. inversion_clear Hl as [|? ? Hi Hl']. constructor; [|auto].
  injection Hk as _ _ Hp Hh Hs. unfold issued. by rewrite Hp, Hh, Hs.
Qed.

Lemma after_inv s d p c ops acc :
  key_inv s -> keys_evolve (kd_keys (ks_db s)) (kd_keys d) -> Forall (entry_ok (kd_keys (ks_db s))) c ->
  Forall (fun po => op_ok (kd_keys (ks_db s)) po.2) ops -> Forall (accepted_ok (kd_keys (ks_db s))) acc ->
  key_inv (after s d p c ops acc).
Proof.
  intros [] He Hc Ho Ha. split; cbn.
  - by apply He.
  - by eapply issued_evolve.
  - apply jsmap_set_Forall.
    + eapply Forall_impl; [done|]. intros pc Hpc. eapply Forall_impl; [exact Hpc|]. intros. by eapply entry_ok_evolve.
    + eapply Forall_impl; [exact Hc|]. intros. by eapply entry_ok_evolve.
  - eapply Forall_impl; [exact Ho|]. intros. by eapply op_ok_evolve.
  - apply Forall_app. split; (eapply Forall_impl; [done|]); intros; by eapply accepted_ok_evolve.
Qed.

Lemma cache_of_ok s p : key_inv s -> Forall (entry_ok (kd_keys (ks_db s))) (cache_of p s).
Proof.
  intros []. unfold cache_of. destruct (JsMap.get p (ks_caches s)) as [c|] eqn:H; [|constructor].
  apply jsmap_get_elem in H. rewrite Forall_forall in ki_caches0. by apply (ki_caches0 (p, c)).
Qed.

Lemma op_keys_evolve d c op d' c' ops acc :
  key_op_step d c op d' c' ops acc -> op_ok (kd_keys d) op -> keys_evolve (kd_keys d) (kd_keys d').
Proof.
  destruct 1; intros Hop; try done; try (by apply keys_evolve_update; eauto with earn).
  - match goal with H : update_rotation _ _ _ = _ |- _ => by apply update_rotation_Ok in H as -> end.
  - match goal with H : rotateKey_write _ _ _ _ _ _ _ = _ |- _ =>
      apply rotateKey_write_effect in H as (w & k & -> & _ & Hid & Hnd & Hp & Hh & _) end.
    etrans; [apply (keys_evolve_update w), overlap_evolves|]. apply keys_evolve_create.
    + by rewrite update_where_keys.
    + cbn in Hop. split_and!; [by rewrite Hp|by eexists|done].
  - match goal with H : earlyCutover _ _ _ _ _ _ _ _ = _ |- _ => apply cutover_write_effect in H as (-> & _) end.
    apply keys_evolve_update; eauto with earn.
  - match goal with H : handleFamilyRevocation _ _ _ _ _ _ _ _ _ = _ |- _ =>
      apply family_effect in H as [(_ & _ & -> & _)|[(_ & _ & _ & H)|(_ & _ & _ & -> & _)]] end;
      [apply keys_evolve_update; eauto with earn| |apply keys_evolve_update; eauto with earn].
    apply cutover_write_effect in H as (-> & _). apply keys_evolve_update; eauto with earn.
  - match goal with H : revoke_row_update _ _ _ _ = _ |- _ => unfold revoke_row_update in H; rewrite db_Ok in H;
      apply update_key_Ok in H as [-> _] end.
    apply keys_evolve_update; eauto with earn.
  - by case_match.
Qed.

Lemma intersection_sub a b : calculateScopeIntersection a b ⊆ a.
Proof. intros x Hx. by apply elem_of_filter_bool in Hx as [Hx _]. Qed.

Lemma evaluate_old_sub id scopes org now d e :
  evaluate_old id scopes org now d = Some e -> ev_effectiveScopes e ⊆ scopes.
Proof.
  unfold evaluate_old. intros (r & _ & [= <-])%bind_Some.
  repeat case_match; cbn; [set_solver..|apply intersection_sub].
Qed.
Lemma evaluate_new_sub id scopes org now d : ev_effectiveScopes (evaluate_new id scopes org now d) ⊆ scopes.
Proof. unfold evaluate_new. repeat case_match; cbn; [set_solver|apply intersection_sub|set_solver..]. Qed.

Lemma invalidate_Forall (P : string * CacheEntry -> Prop) id c : Forall P c -> Forall P (invalidateKeyCache id c).
Proof. intros H. unfold invalidateKeyCache. case_match; [constructor|by apply Forall_filter_bool]. Qed.
Hint Resolve invalidate_Forall : earn.

Lemma effective_known ks l k e :
  answers l k -> known ks k -> ev_effectiveScopes e ⊆ ak_scopes k -> answers l (effective k e) /\ known ks (effective k e).
Proof. intros Ha (r & Hr & ? & ? & ? & ? & ?) Hs. split; [done|]. exists r. split_and!; cbn; try done. by etrans. Qed.

Lemma op_inv d c op d' c' ops acc :
  key_op_step d c op d' c' ops acc -> op_ok (kd_keys d) op -> Forall (entry_ok (kd_keys d)) c ->
  Forall (entry_ok (kd_keys d)) c' /\ Forall (op_ok (kd_keys d)) ops /\ Forall (accepted_ok (kd_keys d)) acc.
Proof.
  destruct 1; intros Hop Hc; cbn in Hop;
    try (split_and!; [by eauto with earn|repeat (apply Forall_cons_2; [done|]); by constructor|by constructor]).
  - split_and!; [done| |constructor]. apply Forall_singleton. cbn. unfold findable, in_organization, presented_ok in *.
    reflect_hyps. split_and!; [done..|by apply known_self].
  - destruct Hop as (Ha & Hk & Hr). split_and!; [done| |constructor].
    apply Forall_cons_2; [|case_match; repeat constructor]. cbn. eauto using evaluate_old_sub.
  - destruct Hop as (Ha & Hk & Hr). split_and!; [done| |constructor]. apply Forall_singleton. cbn.
    eauto using evaluate_new_sub.
  - destruct Hop as (Ha & Hk & Hr & Hs). split_and!; [done|by apply Forall_singleton|]. apply Forall_singleton.
    split; [done|]. by apply effective_known.
  - destruct Hop as (Ha & Hk & Hr & Hs). destruct (effective_known _ l k e Hk Hr Hs) as [Hk' Hr'].
    split_and!; [|constructor|by apply Forall_singleton]. apply jsmap_set_Forall; [done|]. split; [done|].
    cbn. destruct Hk as (-> & -> & _). done.
  - split_and!; [done| |constructor]. apply Forall_singleton. by apply generated_prefix.
  - split_and!; [|constructor|constructor]. clear Hop. revert c Hc. induction affected as [|id l IH]; intros c Hc; [done|].
    cbn. apply IH. eauto with earn.
Qed.

Lemma lookup_cached_inv ks prefix secret org now c r c' :
  lookup_cached sha256 prefix secret org now c = (r, c') -> Forall (entry_ok ks) c ->
  Forall (entry_ok ks) c' /\
  (forall k, r = Some (Some k) -> exists ck e, (ck, e) ∈ c /\ k = ce_key e /\ ck = cacheKey org prefix /\
     verifySecret sha256 secret (ak_keyHash k) = true /\ past (ce_expiresAt e) now = false /\
     ak_status k = ResourceStatus.ACTIVE).
Proof.
  unfold lookup_cached. intros H Hc. destruct (JsMap.get (cacheKey org prefix) c) as [e|] eqn:Hg; [|by simplify_eq].
  apply jsmap_get_elem in Hg. repeat case_match; simplify_eq; split; try done; try (by apply Forall_filter_bool).
  intros k [= <-]. reflect_hyps. exists (cacheKey org prefix), e. done.
Qed.

Lemma key_step_inv s s' : key_step s s' -> key_inv s -> key_inv s'.
Proof.
  intros Hs Hi. pose proof Hi as [Hids Hiss _ Hops _]. destruct Hs.
  all: pose proof (cache_of_ok s p Hi) as Hc.
  all: try (apply after_inv; [done|done|by eauto with earn|apply Forall_app; split; [done|by apply Forall_singleton]|constructor]).
  - destruct (lookup_cached_inv _ _ _ _ _ _ _ _ H0 Hc) as [Hc' Hk].
    apply after_inv; [done|done|done|done|]. apply Forall_singleton.
    destruct (Hk k eq_refl) as (ck & e & Hin & -> & -> & Hv & _). rewrite Forall_forall in Hc.
    destruct (Hc _ Hin) as [Hkn Heq]. split; [done|]. cbn in Heq.
    pose proof (presented_prefix _ _ _ _ H) as Hp.
    destruct Hkn as (r & Hr & Hrest). rewrite Forall_forall in Hiss. destruct (Hiss r Hr) as [Hpr _].
    destruct Hrest as (E1 & E2 & E3 & E4 & E5). rewrite E3 in Hpr.
    apply cacheKey_inj in Heq as [-> ->]; [|by rewrite Hp]. split; [done|by exists r].
  - destruct (lookup_cached_inv _ _ _ _ _ _ _ _ H0 Hc) as [Hc' _]. by apply after_inv.
  - destruct (lookup_cached_inv _ _ _ _ _ _ _ _ H0 Hc) as [Hc' _]. apply after_inv; [done..| |constructor].
    apply Forall_app. split; [done|]. by apply Forall_singleton.
  - apply after_inv; [done| |done|done|constructor].
    apply createKey_effect in H0 as (k & -> & Hid & Hnd & Hp & Hh & _). apply keys_evolve_create; [done|].
    split_and!; [rewrite Hp; by apply generated_prefix|by eexists|done].
  - rewrite H in Hops. apply Forall_app in Hops as [H1 [Hop H2]%Forall_cons_1].
    destruct (op_inv _ _ _ _ _ _ _ H0 Hop Hc) as (? & Ho & ?).
    apply after_inv; [done|by eapply op_keys_evolve|done| |done].
    apply Forall_app. split; [done|]. apply Forall_app. split; [|done]. by apply Forall_fmap.
  - rewrite H in Hops. apply Forall_app in Hops as [H1 [Hop H2]%Forall_cons_1].
    apply after_inv; [done..| |constructor]. by apply Forall_app.
  - apply after_inv; [done|done|constructor| |constructor]. by apply Forall_filter_bool.
  - apply after_inv; [done| |done|done|constructor]. apply keys_evolve_update; eauto with earn.
  - by apply after_inv.
  - apply after_inv; [done| |done|done|constructor]. apply keys_evolve_update; eauto with earn.
Qed.

(** ** Comparing digests *)

Definition hex_lower_char (c : ascii) : bool :=
  let n := byte_val c in ((48 <=? n) && (n <=? 57)) || ((97 <=? n) && (n <=? 102)).
Fixpoint lower_hex (s : string) : bool :=
  match s with EmptyString => true | String c r => hex_lower_char c && lower_hex r end.

Definition char_of_hex (v : Z) : ascii := byte_of (if v <? 10 then v + 48 else v + 87).

Lemma hex_lower_char_value c :
  hex_lower_char c = true -> exists v, hex_value_of c = Some v /\ 0 <= v < 16 /\ char_of_hex v = c.
Proof.
  destruct c as [[] [] [] [] [] [] [] []]; intros H; try discriminate H;
    (eexists; split; [vm_compute; reflexivity|split; [lia|reflexivity]]).
Qed.

Lemma string_ind2 (P : string -> Prop) :
  P EmptyString -> (forall a, P (String a EmptyString)) -> (forall a b s, P s -> P (String a (String b s))) -> forall s, P s.
Proof. intros H0 H1 H2. fix IH 1. intros [|a [|b s]]; [exact H0|apply H1|apply H2, IH]. Qed.

Lemma lower_hex_bytes s : lower_hex s = true -> length (hex_bytes s) = Nat.div2 (String.length s) /\ all_hex s = true.
Proof.
  induction s as [|a|a b s IH] using string_ind2; cbn [lower_hex]; intros H; [done| |].
  - apply andb_true_iff in H as [Ha _]. apply hex_lower_char_value in Ha as (v & Hv & _). split; [done|].
    cbn [all_hex]. rewrite Hv. done.
  - apply andb_true_iff in H as [Ha H]. apply andb_true_iff in H as [Hb H].
    apply hex_lower_char_value in Ha as (v & Hv & _), Hb as (w & Hw & _). destruct (IH H) as [Hl Ht].
    cbn [hex_bytes all_hex String.length Nat.div2 length]. rewrite Hv, Hw. cbn [length]. by rewrite Hl, Ht.
Qed.

Lemma hex_bytes_inj s : forall s', lower_hex s = true -> lower_hex s' = true ->
  String.length s = String.length s' -> Nat.Even (String.length s) -> hex_bytes s = hex_bytes s' -> s = s'.
Proof.
  induction s as [|a|a b s IH] using string_ind2; intros s' H H' Hl He Heq.
  - destruct s'; [done|discriminate].
  - destruct He as [n He]. cbn in He. lia.
  - destruct s' as [|a' [|b' s']]; [discriminate..|]. cbn [lower_hex] in H, H'.
    apply andb_true_iff in H as [Ha H], H' as [Ha' H']. apply andb_true_iff in H as [Hb H], H' as [Hb' H'].
    apply hex_lower_char_value in Ha as (x & Hx & Rx & Cx), Ha' as (x' & Hx' & Rx' & Cx').
    apply hex_lower_char_value in Hb as (y & Hy & Ry & Cy), Hb' as (y' & Hy' & Ry' & Cy').
    cbn [hex_bytes] in Heq. rewrite Hx, Hy, Hx', Hy' in Heq. injection Heq as Hv Heq.
    assert (x = x' /\ y = y') as [-> ->] by lia. rewrite <- Cx, <- Cy, Cx', Cy'. do 2 f_equal.
    apply IH; [done|done|by cbn in Hl; lia| |done]. destruct He as [n He]. cbn in He. exists (n - 1)%nat. lia.
Qed.

(** Digests are printed as 64 lower-case hexadecimal digits. *)
Definition hex_digest : Prop := forall x, String.length (sha256 x) = 64%nat /\ lower_hex (sha256 x) = true.

Lemma verifySecret_digest secret secret' :
  hex_digest -> verifySecret sha256 secret (sha256 secret') = true <-> sha256 secret = sha256 secret'.
Proof.
  intros Hd. destruct (Hd secret) as [Hl Hx], (Hd secret') as [Hl' Hx'].
  destruct (lower_hex_bytes _ Hx') as [Hlen Hall]. unfold verifySecret, hashSecret, stored_buffer.
  rewrite Hall, Hl'. cbn [Nat.eqb EXPECTED_HEX_LENGTH andb]. rewrite Hlen, Hl'. cbn [Nat.div2 Nat.eqb].
  rewrite bool_decide_eq_true. split; [|congruence].
  intros H. apply hex_bytes_inj; [done..|congruence| |done]. rewrite Hl. by exists 32%nat.
Qed.

(** ** Correctness *)

(** A service that starts on stored rows, with nothing running or cached. *)
Definition starts_with_keys (s : KeySys) : Prop :=
  NoDup (ak_id <$> kd_keys (ks_db s)) /\ Forall issued (kd_keys (ks_db s)) /\
  ks_caches s = [] /\ ks_ops s = [] /\ ks_accepted s = [].

Lemma start_inv s : starts_with_keys s -> key_inv s.
Proof. intros (H1 & H2 & H3 & H4 & H5). split; [done|done|rewrite H3|rewrite H4|rewrite H5]; constructor. Qed.

Lemma scopes_allow_iff required scopes : scopes_allow required scopes = true <-> required ⊆ scopes.
Proof.
  unfold scopes_allow. rewrite forallb_forall. setoid_rewrite <- list_elem_of_In.
  split; intros H x Hx; [by apply (bool_decide_eq_true (x ∈ scopes)), H|apply bool_decide_eq_true; by apply H].
Qed.

(** C23: A request that passes the key guard and the scopes guard presented a stored
    key: in every run of any number of server processes, each with its own cache, next
    to creations, rotations, cutovers, revocations, sweeps and restarts, the
    organization of its header owns a stored key whose hash is the digest of the
    secret in the request, whose first eight characters are the key's prefix, and that
    was granted every scope the handler requires. *)
Theorem api_request_holds_key s0 s a :
  hex_digest -> starts_with_keys s0 -> rtc key_step s0 s -> a ∈ ks_accepted s ->
  scopes_allow (kq_requiredScopes (lk_request (ac_lookup a))) (ak_scopes (ac_key a)) = true ->
  exists k secret, k ∈ kd_keys (ks_db s) /\
    presented_key (lk_request (ac_lookup a)) = Some (ak_prefix k, secret, ak_organizationId k) /\
    sha256 secret = ak_keyHash k /\ kq_requiredScopes (lk_request (ac_lookup a)) ⊆ ak_scopes k.
Proof.
  intros Hd H0 Hr Ha Hs.
  assert (key_inv s) as [_ Hiss _ _ Hacc].
  { eapply (rtc_invariant key_step key_inv); [apply key_step_inv|exact Hr|by apply start_inv]. }
  rewrite Forall_forall in Hacc. destruct (Hacc a Ha) as (Hq & (Ho & Hp & Hv) & k & Hk & E1 & E2 & E3 & E4 & E5).
  exists k, (lk_secret (ac_lookup a)). rewrite scopes_allow_iff in Hs. split_and!; [done| | |by etrans].
  - unfold asked in Hq. rewrite Hq. congruence.
  - rewrite Forall_forall in Hiss. destruct (Hiss k Hk) as (_ & [secret Hh] & _).
    rewrite <- E4, Hh in Hv. rewrite Hh. by apply verifySecret_digest.
Qed.

(** *** A key that is out stays out *)

Lemma step_keys_evolve s s' : key_step s s' -> key_inv s -> keys_evolve (kd_keys (ks_db s)) (kd_keys (ks_db s')).
Proof.
  intros Hs Hi. pose proof Hi as [_ _ _ Hok _].
  destruct Hs; try done; try (by apply keys_evolve_update; eauto with earn); cbn [after ks_db].
  - apply createKey_effect in H0 as (k & -> & Hid & Hnd & Hp & Hh & _). apply keys_evolve_create; [done|].
    split_and!; [rewrite Hp; by apply generated_prefix|by eexists|done].
  - rewrite H in Hok. apply Forall_app in Hok as [_ [Hop _]%Forall_cons_1]. by eapply op_keys_evolve.
Qed.

(** No process caches the key and no lookup carries its row. *)
Definition op_key (op : KeyOp) : option string :=
  match op with LookupOld _ k _ | LookupNew _ k _ | LookupEnd _ k _ => Some (ak_id k) | _ => None end.
Definition quiet (id : string) (s : KeySys) : Prop :=
  Forall (fun pc => Forall (fun e => ak_id (ce_key e.2) <> id) pc.2) (ks_caches s) /\
  Forall (fun po => op_key po.2 <> Some id) (ks_ops s).
(** Its row is stored and not active. *)
Definition out (id : string) (ks : list ApiKey) : Prop :=
  id ∈ ak_id <$> ks /\ Forall (fun k => ak_id k = id -> ak_status k <> ResourceStatus.ACTIVE) ks.

Lemma out_evolve id l l' : keys_evolve l l' -> out id l -> out id l'.
Proof.
  intros [(m & new & -> & Hm & _ & Hf) _] [Hin Ho]. split.
  - rewrite fmap_app, (evolve_ids _ _ Hm). set_solver.
  - apply Forall_app. split.
    + clear -Hm Ho. induction Hm as [|k k' l m [Hc Hs] _ IH]; [constructor|]. inversion_clear Ho as [|? ? Hk Hl].
      constructor; [|auto]. intros Hid. injection Hc as E _ _ _ _. destruct Hs as [->| ->]; [apply Hk; congruence|done].
    + eapply Forall_impl; [exact Hf|]. intros k Hk <-. done.
Qed.

Definition others (id : string) (l : list Accepted) : Prop := Forall (fun a => ak_id (ac_key a) <> id) l.

Lemma quiet_after id s d p c ops acc :
  quiet id s -> Forall (fun e => ak_id (ce_key e.2) <> id) c -> Forall (fun po => op_key po.2 <> Some id) ops ->
  quiet id (after s d p c ops acc).
Proof. intros [Hc Ho] Hc' Ho'. split; [|done]. by apply jsmap_set_Forall. Qed.

Lemma quiet_cache id s p : quiet id s -> Forall (fun e => ak_id (ce_key e.2) <> id) (cache_of p s).
Proof.
  intros [Hc _]. unfold cache_of. destruct (JsMap.get p (ks_caches s)) as [c|] eqn:H; [|constructor].
  apply jsmap_get_elem in H. rewrite Forall_forall in Hc. by apply (Hc (p, c)).
Qed.

Lemma quiet_op id d c op d' c' ops acc :
  key_op_step d c op d' c' ops acc -> out id (kd_keys d) -> op_key op <> Some id ->
  Forall (fun e => ak_id (ce_key e.2) <> id) c ->
  Forall (fun e => ak_id (ce_key e.2) <> id) c' /\ Forall (fun o => op_key o <> Some id) ops /\ others id acc.
Proof.
  destruct 1; intros [_ Hout] Hop Hc; cbn in Hop;
    try (split_and!; [by eauto with earn|repeat (apply Forall_cons_2; [done|]); by constructor|by constructor]).
  - split_and!; [done| |constructor]. apply Forall_singleton. cbn. intros [= Hid]. rewrite Forall_forall in Hout.
    apply (Hout k); [done|done|]. unfold findable, usable in *. by reflect_hyps.
  - split_and!; [done| |constructor]. apply Forall_cons_2; [done|]. case_match; [by apply Forall_singleton|constructor].
  - split_and!; [done|by apply Forall_singleton|]. apply Forall_singleton. cbn. congruence.
  - split_and!; [|constructor|]; [apply jsmap_set_Forall; [done|]|apply Forall_singleton]; cbn; congruence.
  - split_and!; [|constructor|constructor]. clear -Hc. revert c Hc. induction affected as [|x l IH]; intros c Hc; [done|].
    cbn. apply IH. eauto with earn.
Qed.

Lemma quiet_step id s s' :
  key_step s s' -> key_inv s -> quiet id s -> out id (kd_keys (ks_db s)) ->
  quiet id s' /\ out id (kd_keys (ks_db s')) /\ exists later, ks_accepted s' = ks_accepted s ++ later /\ others id later.
Proof.
  intros Hs Hi Hq Hout. pose proof Hq as [_ Hops]. pose proof Hi as [_ _ _ Hok _]. destruct Hs.
  all: pose proof (quiet_cache id s p Hq) as Hc.
  all: try (split_and!; [apply quiet_after; [done|by eauto with earn|apply Forall_app; split; [done|by apply Forall_singleton]]|
    done|exists []; by split; [|constructor]]).
  - unfold lookup_cached in H0. destruct (JsMap.get _ _) as [e|] eqn:Hg; [|done]. apply jsmap_get_elem in Hg.
    repeat case_match; simplify_eq. split_and!; [by apply quiet_after|done|]. eexists. split; [done|].
    apply Forall_singleton. rewrite Forall_forall in Hc. by apply (Hc _ Hg).
  - split_and!; [apply quiet_after; [done| |done]|done|exists []; by split; [|constructor]].
    unfold lookup_cached in H0. destruct (JsMap.get _ _); [|done]. repeat case_match; simplify_eq; try done;
      by apply Forall_filter_bool.
  - unfold lookup_cached in H0. destruct (JsMap.get _ _); [repeat case_match; by simplify_eq|]. simplify_eq.
    split_and!; [apply quiet_after; [done|done|]|done|exists []; by split; [|constructor]].
    apply Forall_app. split; [done|]. by apply Forall_singleton.
  - split_and!; [by apply quiet_after| |exists []; by split; [|constructor]]. cbn.
    apply createKey_effect in H0 as (k & -> & Hid & Hnd & Hp & Hh & _).
    eapply out_evolve; [apply keys_evolve_create; [done|]|done].
    split_and!; [rewrite Hp; by apply generated_prefix|by eexists|done].
  - rewrite H in Hops, Hok. apply Forall_app in Hops as [H1 [Hop H2]%Forall_cons_1].
    apply Forall_app in Hok as [_ [Hokop _]%Forall_cons_1].
    destruct (quiet_op _ _ _ _ _ _ _ _ H0 Hout Hop Hc) as (? & Ho & ?).
    split_and!; [apply quiet_after; [done|done|]| |by eexists].
    + apply Forall_app. split; [done|]. apply Forall_app. split; [|done]. by apply Forall_fmap.
    + eapply out_evolve; [by eapply op_keys_evolve|done].
  - rewrite H in Hops. apply Forall_app in Hops as [H1 [Hop H2]%Forall_cons_1].
    split_and!; [apply quiet_after; [done|done|by apply Forall_app]|done|exists []; by split; [|constructor]].
  - split_and!; [apply quiet_after; [done|constructor|by apply Forall_filter_bool]|done|exists []; by split; [|constructor]].
  - split_and!; [by apply quiet_after| |exists []; by split; [|constructor]].
    eapply out_evolve; [apply keys_evolve_update; eauto with earn|done].
  - split_and!; [by apply quiet_after|done|exists []; by split; [|constructor]].
  - split_and!; [by apply quiet_after| |exists []; by split; [|constructor]].
    eapply out_evolve; [apply keys_evolve_update; eauto with earn|done].
Qed.

(** C13: A key that is out stays out: once a key's row is revoked (or otherwise not
    active) at a moment when no process caches the key and no lookup carries its row,
    no later request is let through with that key by any process, whatever operations
    run, and the row never becomes active again. *)
Theorem revoked_key_stays_out s0 s s' id :
  starts_with_keys s0 -> rtc key_step s0 s -> quiet id s -> out id (kd_keys (ks_db s)) -> rtc key_step s s' ->
  quiet id s' /\ out id (kd_keys (ks_db s')) /\
  exists later, ks_accepted s' = ks_accepted s ++ later /\ Forall (fun a => ak_id (ac_key a) <> id) later.
Proof.
  intros H0 Hr Hq Ho Hr'.
  assert (key_inv s) as Hi.
  { eapply (rtc_invariant key_step key_inv); [apply key_step_inv|exact Hr|by apply start_inv]. }
  clear H0 Hr. induction Hr' as [s|s1 s2 s3 Hs _ IH]; [split_and!; [done..|]; exists []; by rewrite app_nil_r|].
  destruct (quiet_step _ _ _ Hs Hi Hq Ho) as (Hq2 & Ho2 & l2 & E2 & F2).
  destruct (IH Hq2 Ho2 (key_step_inv _ _ Hs Hi)) as (Hq3 & Ho3 & l3 & E3 & F3). split_and!; [done..|].
  exists (l2 ++ l3). rewrite E3, E2, app_assoc. split; [done|]. by apply Forall_app.
Qed.
End facts.

(** ** A run *)

Module DemoKeys.
Definition hex_char (n : nat) : ascii := default "0"%char (String.list_ascii_of_string "0123456789abcdef" !! (n mod 16)%nat).
Fixpoint checksum (s : string) : nat := match s with EmptyString => 0 | String c r => (nat_of_ascii c + 3 * checksum r) mod 4096 end.
(** A digest for the examples: a checksum in 64 hexadecimal digits. *)
Definition digest (s : string) : string :=
  let n := checksum s in
  String.append (repeat_char "0"%char 61) (String (hex_char (n / 256)) (String (hex_char (n / 16)) (String (hex_char n) EmptyString))).
Definition mac (_ _ : string) : string := "5a17".
Definition limits : QuotaLimits := DEFAULT_QUOTA_LIMITS.
Definition random1 : string := "0123456789abcdef0123456789abcdef".
Definition random2 : string := "fedcba9876543210fedcba9876543210".
Definition secret1 : string := Eval vm_compute in generated_secret random1.
Definition secret2 : string := Eval vm_compute in generated_secret random2.
Definition key1 : ApiKey :=
  new_key digest "k1" "o1" "u1" "main" secret1 [ApiKeyScope.PROOF_READ; ApiKeyScope.ORG_READ] None None 1700000000000.
Definition start : KeySys :=
  {| ks_db := set_keys [key1] empty_key_db; ks_caches := []; ks_ops := []; ks_accepted := [] |}.
Definition request (secret : string) : KeyRequest :=
  {| kq_authorization := Some (String.append bearer secret); kq_organizationId := Some "o1";
     kq_requiredScopes := [ApiKeyScope.PROOF_READ] |}.
Abbreviation step := (key_step digest mac limits).
Abbreviation op := (key_op_step digest mac limits).

Lemma hex_char_lower n : hex_lower_char (hex_char n) = true.
Proof.
  unfold hex_char. pose proof (Nat.mod_upper_bound n 16 ltac:(lia)) as H. generalize dependent (n mod 16)%nat.
  intros m H. do 16 (destruct m as [|m]; [done|]). lia.
Qed.
Lemma digest_hex : hex_digest digest.
Proof.
  intros x. unfold digest. generalize (checksum x). intros n. split; [done|]. cbn [repeat_char String.append lower_hex].
  by rewrite !hex_char_lower.
Qed.
Lemma start_ok : starts_with_keys digest start.
Proof.
  split_and!; [apply NoDup_singleton| |done..]. apply Forall_singleton. split_and!; [done|by eexists|].
  apply (bool_decide_unpack _). by vm_compute.
Qed.
End DemoKeys.

(** Steps of the runs. *)
Ltac arrives p secret at_ :=
  eapply (step_miss _ _ _ _ p (DemoKeys.request secret) _ _ _ at_); [computes|computes].
Ltac served p secret at_ :=
  eapply (step_hit _ _ _ _ p (DemoKeys.request secret) _ _ _ at_); [computes|computes].
(** The operation after the first [n] in flight moves. *)
Tactic Notation "op_at" constr(n) tactic3(tac) :=
  match goal with |- key_step _ _ _ ?s _ =>
    let l := eval vm_compute in (take n (ks_ops s)) in
    eapply (step_op _ _ _ _ l); [vm_compute; reflexivity|tac]
  end.
Ltac row_found n at_ :=
  eapply (lookup_found _ _ _ _ _ _ _ at_); [eapply (list_elem_of_lookup_2 _ n); vm_compute; reflexivity|vm_compute; reflexivity..].

(** A request misses the cache, is let through, and the next one is served from it. *)
Lemma demo_request :
  exists s a b, rtc DemoKeys.step DemoKeys.start s /\ ks_accepted s = [a; b] /\ ak_id (ac_key a) = "k1" /\
    scopes_allow (kq_requiredScopes (lk_request (ac_lookup a))) (ak_scopes (ac_key a)) = true.
Proof.
  eexists _, _, _. split.
  { run_step (arrives 0%nat DemoKeys.secret1 1700000001000).
    run_step (op_at 0%nat (row_found 0%nat 1700000001001)).
    run_step (op_at 0%nat (eapply lookup_not_old; computes)).
    run_step (op_at 0%nat (eapply lookup_new)).
    run_step (op_at 0%nat (eapply lookup_cache; computes)).
    run_step (served 0%nat DemoKeys.secret1 1700000002000).
    apply rtc_refl. }
  by vm_compute.
Qed.

Lemma api_request_holds_key_witness :
  exists s a k secret, a ∈ ks_accepted s /\ k ∈ kd_keys (ks_db s) /\
    presented_key (lk_request (ac_lookup a)) = Some (ak_prefix k, secret, ak_organizationId k) /\
    DemoKeys.digest secret = ak_keyHash k.
Proof.
  destruct demo_request as (s & a & b & Hrun & Hacc & _ & Hs).
  destruct (api_request_holds_key DemoKeys.digest DemoKeys.mac DemoKeys.limits DemoKeys.start s a
    DemoKeys.digest_hex DemoKeys.start_ok Hrun) as (k & secret & Hk & Hq & Hh & _); [rewrite Hacc; by left|done|].
  exists s, a, k, secret. split; [rewrite Hacc; by left|done].
Defined.

(** Nobody has looked the key up when it is revoked. *)
Lemma demo_revocation :
  exists s, rtc DemoKeys.step DemoKeys.start s /\ quiet "k1" s /\ out "k1" (kd_keys (ks_db s)).
Proof.
  eexists. split.
  { run_step (apply (step_revoke _ _ _ _ 0%nat "k1" "o1" None None 1700000003000)).
    run_step (op_at 0%nat (eapply family_none; computes)).
    run_step (op_at 0%nat (eapply (revoke_found _ _ _ _ _ _ _ _ _ _ 1700000003001); computes)).
    run_step (op_at 0%nat (eapply revoke_updated; computes)).
    apply rtc_refl. }
  split; [split; repeat constructor; done|]. split; [by left|]. by repeat constructor.
Qed.

Lemma revoked_key_stays_out_witness :
  exists s s', rtc DemoKeys.step s s' /\ quiet "k1" s' /\ out "k1" (kd_keys (ks_db s')) /\
    exists later, ks_accepted s' = ks_accepted s ++ later /\ Forall (fun a => ak_id (ac_key a) <> "k1") later.
Proof.
  destruct demo_revocation as (s & Hrun & Hq & Ho). eexists s, _.
  assert (DemoKeys.step s _) as Hs by apply (step_restart _ _ _ _ 0%nat).
  split; [by apply rtc_once|].
  exact (revoked_key_stays_out DemoKeys.digest DemoKeys.mac DemoKeys.limits DemoKeys.start s _ "k1"
    DemoKeys.start_ok Hrun Hq Ho (rtc_once _ _ Hs)).
Defined.

(** ** The caches and the tables *)

(** A lookup that read the row before the revocation caches it afterwards: the key
    is revoked and still accepted, and stays so until the process restarts or
    something else invalidates it. *)
Lemma revocation_undone_by_lookup :
  exists s s', rtc DemoKeys.step DemoKeys.start s /\ ks_ops s = [] /\
    (ak_status <$> kd_keys (ks_db s)) = [ResourceStatus.REVOKED] /\
    DemoKeys.step s s' /\ length (ks_accepted s') = S (length (ks_accepted s)).
Proof.
  eexists _, _. split.
  { run_step (arrives 0%nat DemoKeys.secret1 1700000001000).
    run_step (op_at 0%nat (row_found 0%nat 1700000001001)).
    run_step (apply (step_revoke _ _ _ _ 0%nat "k1" "o1" None None 1700000001002)).
    run_step (op_at 1%nat (eapply family_none; computes)).
    run_step (op_at 1%nat (eapply (revoke_found _ _ _ _ _ _ _ _ _ _ 1700000001003); computes)).
    run_step (op_at 1%nat (eapply revoke_updated; computes)).
    run_step (op_at 1%nat (eapply (revoke_audited _ _ _ _ _ _ _ _ _ _ "a1" 1700000001004); computes)).
    run_step (op_at 0%nat (eapply lookup_not_old; computes)).
    run_step (op_at 0%nat (eapply lookup_new)).
    run_step (op_at 0%nat (eapply lookup_cache; computes)).
    apply rtc_refl. }
  split_and!; [by vm_compute|by vm_compute| |].
  - served 0%nat DemoKeys.secret1 1800000000000.
  - by vm_compute.
Qed.

(** A revocation on one process leaves the cache of another. *)
Lemma revocation_misses_other_process :
  exists s s', rtc DemoKeys.step DemoKeys.start s /\ ks_ops s = [] /\
    (ak_status <$> kd_keys (ks_db s)) = [ResourceStatus.REVOKED] /\
    DemoKeys.step s s' /\ length (ks_accepted s') = S (length (ks_accepted s)).
Proof.
  eexists _, _. split.
  { run_step (arrives 0%nat DemoKeys.secret1 1700000001000).
    run_step (op_at 0%nat (row_found 0%nat 1700000001001)).
    run_step (op_at 0%nat (eapply lookup_not_old; computes)).
    run_step (op_at 0%nat (eapply lookup_new)).
    run_step (op_at 0%nat (eapply lookup_cache; computes)).
    run_step (apply (step_revoke _ _ _ _ 1%nat "k1" "o1" None None 1700000001002)).
    run_step (op_at 0%nat (eapply family_none; computes)).
    run_step (op_at 0%nat (eapply (revoke_found _ _ _ _ _ _ _ _ _ _ 1700000001003); computes)).
    run_step (op_at 0%nat (eapply revoke_updated; computes)).
    run_step (op_at 0%nat (eapply (revoke_audited _ _ _ _ _ _ _ _ _ _ "a1" 1700000001004); computes)).
    apply rtc_refl. }
  split_and!; [by vm_compute|by vm_compute| |].
  - served 0%nat DemoKeys.secret1 1800000000000.
  - by vm_compute.
Qed.
