(* ===== verification/ApiKeyRotationFacts.v ===== *)
(** * API-key rotation: correctness

    Theorems about the rotations of [ApiKeys]: a cutover leaves exactly one receipt
    and a retired key, a family revocation revokes the key it names, the two keys of
    an overlap have the same effective scopes; and the runs in which rotations go
    wrong. *)

From S2P Require Import Prelude JsData DecimalText Encoding IsoDate Canonical Schema AuditChain Quotas SecretReceipts ApiKeys ApiKeysFacts.

Local Open Scope string_scope.
Local Open Scope Z_scope.
Local Open Scope list_scope.

(** ** How the table of rotations changes *)

(** The columns no operation writes. *)
Definition rotation_core (r : Rotation) : string * string * string * string * string * Z :=
  (ro_id r, ro_organizationId r, ro_familyId r, ro_oldKeyId r, ro_newKeyId r, ro_overlapExpiresAt r).

Definition revoked_in (id : string) (ks : list ApiKey) : Prop :=
  id ∈ ak_id <$> ks /\ Forall (fun k => ak_id k = id -> ak_status k = ResourceStatus.REVOKED) ks.

Record rotations_wf (d : KeyDb) : Prop := {
  rw_ids : NoDup (ro_id <$> kd_rotations d);
  rw_once : NoDup (ct_rotationId <$> kd_cutovers d);
  rw_receipts : Forall (fun c => exists r, r ∈ kd_rotations d /\ ro_id r = ct_rotationId c /\ ro_oldKeyId r = ct_oldKeyId c /\
                  ro_newKeyId r = ct_newKeyId c) (kd_cutovers d);
  rw_retired : Forall (fun c => revoked_in (ct_oldKeyId c) (kd_keys d)) (kd_cutovers d);
  rw_recorded : Forall (fun r => ro_status r = RotationStatus.CUTOVER -> ro_id r ∈ ct_rotationId <$> kd_cutovers d)
                  (kd_rotations d);
}.

Definition rotation_known (d : KeyDb) (r : Rotation) : Prop :=
  exists r0, r0 ∈ kd_rotations d /\ rotation_core r0 = rotation_core r.

Section rotations.
Context (sha256 : string -> string) (hmac : string -> string -> string) (limits : QuotaLimits).

Abbreviation key_step := (key_step sha256 hmac limits).
Abbreviation key_op_step := (key_op_step sha256 hmac limits).
Abbreviation keys_evolve := (keys_evolve sha256).

Lemma revoked_in_evolve id l l' : keys_evolve l l' -> revoked_in id l -> revoked_in id l'.
Proof.
  intros [(m & new & -> & Hm & _ & Hf) _] [Hin Ho]. split.
  - rewrite fmap_app, (evolve_ids _ _ Hm). set_solver.
  - apply Forall_app. split.
    + clear -Hm Ho. induction Hm as [|k k' l m [Hc Hs] _ IH]; [constructor|]. inversion_clear Ho as [|? ? Hk Hl].
      constructor; [|auto]. intros Hid. injection Hc as E _ _ _ _. destruct Hs as [->| ->]; [apply Hk; congruence|done].
    + eapply Forall_impl; [exact Hf|]. intros k Hk <-. done.
Qed.

Lemma revoke_row_update_revoked id p now ks :
  id ∈ ak_id <$> ks -> (forall k, k ∈ ks -> ak_id k = id -> p k = true) -> revoked_in id (update_where p (revoke_row now) ks).
Proof.
  intros Hin Hp. split; [by rewrite update_where_keys|]. apply Forall_forall.
  intros k (k0 & Hk0 & ->)%elem_of_update_where. case_match eqn:E; [done|]. intros Hid. by rewrite Hp in E.
Qed.

(** A change of rows that records no new cutover. *)
Lemma rotations_wf_update d d' p f :
  rotations_wf d -> keys_evolve (kd_keys d) (kd_keys d') -> kd_rotations d' = update_where p f (kd_rotations d) ->
  kd_cutovers d' = kd_cutovers d -> (forall r, rotation_core (f r) = rotation_core r) ->
  (forall r, ro_status (f r) = RotationStatus.CUTOVER -> ro_status r = RotationStatus.CUTOVER) -> rotations_wf d'.
Proof.
  intros [] He Hr Hc Hf Hs.
  assert (forall r, ro_id (f r) = ro_id r /\ ro_oldKeyId (f r) = ro_oldKeyId r /\ ro_newKeyId (f r) = ro_newKeyId r) as Hcols
    by (intros r; specialize (Hf r); injection Hf as E1 _ _ E2 E3 _; auto).
  split; rewrite ?Hc, ?Hr.
  - rewrite update_where_keys; [done|apply Hcols].
  - done.
  - eapply Forall_impl; [exact rw_receipts0|]. intros c (r & Hin & E1 & E2 & E3).
    exists (if p r then f r else r). split; [apply elem_of_update_where; eauto|].
    case_match; [|done]. destruct (Hcols r) as (-> & -> & ->). done.
  - eapply Forall_impl; [exact rw_retired0|]. intros c Hret. by eapply revoked_in_evolve.
  - rewrite Forall_forall in rw_recorded0 |- *. intros r (r0 & Hin & ->)%elem_of_update_where Hst.
    case_match; [|auto]. destruct (Hcols r0) as [-> _]. auto.
Qed.

Lemma rotations_wf_same d d' :
  rotations_wf d -> keys_evolve (kd_keys d) (kd_keys d') -> kd_rotations d' = kd_rotations d ->
  kd_cutovers d' = kd_cutovers d -> rotations_wf d'.
Proof.
  intros H He Hr Hc. eapply (rotations_wf_update d d' (fun _ => false) (fun r => r)); try done.
  rewrite Hr. symmetry. apply update_where_id. by apply count_where_none.
Qed.

Lemma rotations_wf_add d d' r :
  rotations_wf d -> keys_evolve (kd_keys d) (kd_keys d') -> kd_rotations d' = kd_rotations d ++ [r] ->
  ro_id r ∉ ro_id <$> kd_rotations d -> ro_status r = RotationStatus.IN_OVERLAP -> kd_cutovers d' = kd_cutovers d ->
  rotations_wf d'.
Proof.
  intros [] He Hr Hid Hst Hc. split; rewrite ?Hc, ?Hr.
  - by apply NoDup_fmap_snoc.
  - done.
  - eapply Forall_impl; [exact rw_receipts0|]. intros c (r0 & Hin & Hr0). exists r0. split; [set_solver|done].
  - eapply Forall_impl; [exact rw_retired0|]. intros c Hret. by eapply revoked_in_evolve.
  - apply Forall_app. split; [done|]. apply Forall_singleton. by rewrite Hst.
Qed.

Lemma rotations_wf_cutover org ty actor reason r ids now d d' :
  cutover_write sha256 org ty actor reason r ids now d = Ok d' -> rotation_known d r -> rotations_wf d -> rotations_wf d'.
Proof.
  intros (Hk & Hr & (c & Hc & Ec & Eo & En) & Hnew & Hold)%cutover_write_effect (r0 & Hr0 & Hcore) [].
  assert (keys_evolve (kd_keys d) (kd_keys d')) as He by (rewrite Hk; apply keys_evolve_update, revoked_key_evolves).
  assert (forall c, (exists r, r ∈ kd_rotations d /\ ro_id r = ct_rotationId c /\ ro_oldKeyId r = ct_oldKeyId c /\ ro_newKeyId r = ct_newKeyId c) ->
    exists r, r ∈ kd_rotations d' /\ ro_id r = ct_rotationId c /\ ro_oldKeyId r = ct_oldKeyId c /\ ro_newKeyId r = ct_newKeyId c) as Hmap.
  { intros c' (x & Hx & Hcols). eexists. rewrite Hr. split; [apply elem_of_update_where; eauto|]. by case_match. }
  injection Hcore as F1 _ _ F2 F3 _. split; rewrite ?Hc.
  - rewrite Hr, update_where_keys; done.
  - apply NoDup_fmap_snoc; [done|by rewrite Ec].
  - apply Forall_app. split; [eapply Forall_impl; [exact rw_receipts0|]; intros; by apply Hmap|]. apply Forall_singleton. apply Hmap.
    exists r0. split; [done|]. by rewrite Ec, Eo, En.
  - apply Forall_app. split; [eapply Forall_impl; [exact rw_retired0|]; intros; by eapply revoked_in_evolve|].
    apply Forall_singleton. rewrite Eo, Hk. apply revoke_row_update_revoked; [done|].
    intros k _ Hid. by apply bool_decide_eq_true.
  - rewrite Forall_forall in rw_recorded0 |- *. rewrite Hr, fmap_app.
    intros x (x0 & Hx & ->)%elem_of_update_where Hst. apply elem_of_app.
    destruct (has_rotation_id (ro_id r) x0) eqn:E; [right|left; auto].
    apply bool_decide_eq_true in E. cbn. rewrite E, Ec. by left.
Qed.

(** ** Preservation *)

Definition rotations_keep (d d' : KeyDb) : Prop := forall r, rotation_known d r -> rotation_known d' r.

Lemma keep_update d d' p f :
  kd_rotations d' = update_where p f (kd_rotations d) -> (forall r, rotation_core (f r) = rotation_core r) -> rotations_keep d d'.
Proof.
  intros Hr Hf r (r0 & Hr0 & Hc). exists (if p r0 then f r0 else r0). rewrite Hr.
  split; [apply elem_of_update_where; eauto|]. case_match; [by rewrite Hf|done].
Qed.
Lemma keep_same d d' : kd_rotations d' = kd_rotations d -> rotations_keep d d'.
Proof. intros H r. unfold rotation_known. by rewrite H. Qed.
Lemma keep_add d d' r : kd_rotations d' = kd_rotations d ++ [r] -> rotations_keep d d'.
Proof. intros H x (r0 & Hr0 & Hc). exists r0. rewrite H. split; [set_solver|done]. Qed.

Definition rotation_op_ok (d : KeyDb) (op : KeyOp) : Prop :=
  match op with CutoverWrite _ _ _ r _ | RevokeFamilyWrite _ _ _ _ r _ => rotation_known d r | _ => True end.

Lemma cutover_keep org ty actor reason r ids now d d' :
  cutover_write sha256 org ty actor reason r ids now d = Ok d' -> rotations_keep d d'.
Proof. intros (_ & Hr & _)%cutover_write_effect. by eapply keep_update. Qed.

Ltac rows_change :=
  eapply rotations_wf_update; [done|done|done|done|done|intros ?; cbn; congruence].

Lemma rotation_op_wf d c op d' c' ops acc :
  key_op_step d c op d' c' ops acc -> op_ok sha256 (kd_keys d) op -> rotation_op_ok d op -> rotations_wf d ->
  rotations_wf d' /\ rotations_keep d d' /\ Forall (rotation_op_ok d') ops.
Proof.
  intros Hstep Hop Hr Hwf. pose proof (op_keys_evolve _ _ _ _ _ _ _ _ _ _ Hstep Hop) as He.
  destruct Hstep;
    try (split_and!; [by eapply rotations_wf_same|by apply keep_same|repeat (apply Forall_cons_2; [done|]); by constructor]).
  - split_and!; [done|by apply keep_same|]. apply Forall_cons_2; [done|]. case_match; by repeat constructor.
  - match goal with H : update_rotation _ _ _ = _ |- _ => apply update_rotation_Ok in H as -> end.
    split_and!; [rows_change|eapply keep_update; [done|done]|constructor].
  - split_and!; [rows_change|eapply keep_update; [done|done]|constructor].
  - match goal with H : rotateKey_write _ _ _ _ _ _ _ = _ |- _ =>
      apply rotateKey_write_effect in H as (w & k & _ & _ & _ & _ & _ & _ & Hrs & Hid & Hc & _) end.
    split_and!; [by eapply rotations_wf_add|by eapply keep_add|by apply Forall_singleton].
  - split_and!; [done|by apply keep_same|]. apply Forall_singleton. exists r. split; [|done].
    by match goal with H : r ∈ cutover_candidates _ _ _ |- _ => apply elem_of_filter_bool in H as [H _] end.
  - match goal with H : earlyCutover _ _ _ _ _ _ _ _ = _ |- _ => unfold earlyCutover in H;
      pose proof (cutover_keep _ _ _ _ _ _ _ _ _ H); apply rotations_wf_cutover in H; [|done..] end.
    split_and!; [done|done|constructor].
  - split_and!; [done|by apply keep_same|]. apply Forall_singleton. exists r. split; [|done].
    by match goal with H : r ∈ family_candidates _ _ _ |- _ => apply elem_of_filter_bool in H as [H _] end.
  - match goal with H : handleFamilyRevocation _ _ _ _ _ _ _ _ _ = _ |- _ =>
      apply family_effect in H as [(_ & _ & _ & Hrs & Hc)|[(_ & _ & _ & H)|(_ & _ & _ & _ & Hrs & Hc)]] end.
    + split_and!; [rows_change|eapply keep_update; [done|done]|by apply Forall_singleton].
    + pose proof (cutover_keep _ _ _ _ _ _ _ _ _ H). apply rotations_wf_cutover in H; [|done..].
      split_and!; [done|done|by apply Forall_singleton].
    + split_and!; [rows_change|eapply keep_update; [done|done]|by apply Forall_singleton].
  - unfold revoke_row_update in *. rewrite db_Ok in *.
    match goal with H : update_key _ _ _ = _ |- _ => apply update_key_Ok in H as [-> _] end.
    split_and!; [by eapply rotations_wf_same|by apply keep_same|by apply Forall_singleton].
  - split_and!; [eapply rotations_wf_same; [done|done|by case_match..]|apply keep_same; by case_match|by apply Forall_singleton].
Qed.

Record rotation_inv (s : KeySys) : Prop := {
  ri_keys : key_inv sha256 s;
  ri_wf : rotations_wf (ks_db s);
  ri_ops : Forall (fun po => rotation_op_ok (ks_db s) po.2) (ks_ops s);
}.

Lemma rotation_ops_keep d d' ops :
  rotations_keep d d' -> Forall (fun po : nat * KeyOp => rotation_op_ok d po.2) ops ->
  Forall (fun po => rotation_op_ok d' po.2) ops.
Proof. intros Hk H. eapply Forall_impl; [exact H|]. intros [p op]. destruct op; cbn; auto. Qed.

Lemma create_rotations_wf org by_ name scopes expiresAt random ids now d d' :
  String.length random = 32%nat ->
  createKey sha256 hmac limits org by_ name scopes expiresAt (generated_secret random) ids now d = Ok d' ->
  rotations_wf d -> rotations_wf d' /\ rotations_keep d d'.
Proof.
  intros Hl (k & Hk & Hid & Hnd & Hp & Hh & Hr & Hc)%createKey_effect Hwf.
  split; [|by apply keep_same]. eapply rotations_wf_same; [done| |done|done]. rewrite Hk. apply keys_evolve_create; [done|].
  split_and!; [rewrite Hp; by apply generated_prefix|by eexists|done].
Qed.

Lemma rotation_step_inv s s' : key_step s s' -> rotation_inv s -> rotation_inv s'.
Proof.
  intros Hs [Hi Hwf Hops]. split; [by eapply key_step_inv|..].
  all: pose proof Hi as [_ _ _ Hok _]; destruct Hs; cbn [after ks_db ks_ops].
  all: try (by eapply rotations_wf_same; [done|first [done|apply keys_evolve_update; eauto using used_evolves, revoked_key_evolves]|..]).
  all: try done.
  all: try (apply Forall_app; split; [done|by apply Forall_singleton]).
  all: try (by eapply rotation_ops_keep; [apply keep_same|]).
  all: try (by apply Forall_filter_bool).
  all: try (destruct (create_rotations_wf _ _ _ _ _ _ _ _ _ _ H H0 Hwf); first [done|by eapply rotation_ops_keep]).
  all: rewrite H in Hok, Hops; apply Forall_app in Hok as [_ [Hop _]%Forall_cons_1];
    apply Forall_app in Hops as [Ho1 [Hr Ho2]%Forall_cons_1].
  - by destruct (rotation_op_wf _ _ _ _ _ _ _ H0 Hop Hr Hwf).
  - destruct (rotation_op_wf _ _ _ _ _ _ _ H0 Hop Hr Hwf) as (_ & Hk & Ho).
    repeat (apply Forall_app; split); [by eapply rotation_ops_keep|by apply Forall_fmap|by eapply rotation_ops_keep].
  - by apply Forall_app.
Qed.

(** ** Correctness *)

(** C24: A cutover is recorded exactly once and retires its key: in every run, from
    tables in which this holds, no two receipts name one rotation; every receipt
    names a stored rotation with the same two keys, and the old one is revoked, now
    and later; and every rotation that is cut over has its receipt. *)
Theorem cutover_recorded_once s0 s :
  starts_with_keys sha256 s0 -> rotations_wf (ks_db s0) -> rtc key_step s0 s ->
  NoDup (ct_rotationId <$> kd_cutovers (ks_db s)) /\
  (forall c, c ∈ kd_cutovers (ks_db s) ->
    (exists r, r ∈ kd_rotations (ks_db s) /\ ro_id r = ct_rotationId c /\ ro_oldKeyId r = ct_oldKeyId c /\ ro_newKeyId r = ct_newKeyId c) /\
    forall s', rtc key_step s s' ->
      forall k, k ∈ kd_keys (ks_db s') -> ak_id k = ct_oldKeyId c -> ak_status k = ResourceStatus.REVOKED) /\
  (forall r, r ∈ kd_rotations (ks_db s) -> ro_status r = RotationStatus.CUTOVER ->
    exists c, c ∈ kd_cutovers (ks_db s) /\ ct_rotationId c = ro_id r).
Proof.
  intros H0 Hwf0 Hrun.
  assert (forall s', rtc key_step s0 s' -> rotation_inv s') as Hinv.
  { intros s' Hr. eapply (rtc_invariant key_step rotation_inv); [apply rotation_step_inv|exact Hr|].
    split; [by apply start_inv|done|]. destruct H0 as (_ & _ & _ & -> & _). constructor. }
  pose proof (Hinv s Hrun) as [Hi Hwf _]. pose proof Hwf as [Hid Honce Hrec Hret Hall].
  rewrite Forall_forall in Hrec. rewrite Forall_forall in Hret. rewrite Forall_forall in Hall. split_and!; [done| |].
  - intros c Hc. split; [by apply Hrec|]. intros s' Hr' k Hk Hkid.
    assert (revoked_in (ct_oldKeyId c) (kd_keys (ks_db s'))) as [_ Hrev].
    { eapply (rtc_invariant key_step (fun s => rotation_inv s /\ revoked_in (ct_oldKeyId c) (kd_keys (ks_db s))));
        [|exact Hr'|by auto]. intros s1 s2 Hs [Hi1 Hr1]. split; [by eapply rotation_step_inv|].
      eapply revoked_in_evolve; [eapply step_keys_evolve; [exact Hs|apply Hi1]|done]. }
    rewrite Forall_forall in Hrev. by apply (Hrev k Hk).
  - intros r Hr Hst. specialize (Hall r Hr Hst). apply list_elem_of_fmap in Hall as (c & Hc & Hcin). eauto.
Qed.
End rotations.

(** The rows a family revocation selects. *)
Lemma family_selects sha256 id org actor reason r ids now d d' affected :
  id = ro_oldKeyId r \/ id = ro_newKeyId r -> (forall k, k ∈ kd_keys d -> ak_id k = id -> ak_organizationId k = org) ->
  handleFamilyRevocation sha256 id org actor reason r ids now d = Ok (d', affected) ->
  id ∈ affected /\ exists p, kd_keys d' = update_where p (revoke_row now) (kd_keys d) /\
    (forall k, p k = true -> ak_id k ∈ affected) /\ (forall k, k ∈ kd_keys d -> ak_id k = id -> p k = true) /\
    (reason = Some COMPROMISE -> forall k, ak_organizationId k = org -> ak_id k = ro_oldKeyId r \/ ak_id k = ro_newKeyId r -> p k = true).
Proof.
  intros Hid Horg [(-> & -> & -> & _)|[(Hc & -> & -> & H)|(Hc & Hne & -> & -> & _)]]%family_effect;
    unfold has_key_id, in_organization.
  - split; [set_solver|]. eexists. split; [done|]. split_and!.
    + intros k Hpk. reflect_hyps.
      match goal with H : _ || _ = true |- _ => apply orb_true_iff in H as [|]; reflect_hyps end; set_solver.
    + intros k Hk Hkid. rewrite (bool_decide_true (_ = org)) by auto. rewrite andb_true_r, orb_true_iff, !bool_decide_eq_true.
      destruct Hid as [<-|<-]; auto.
    + intros _ k Ho Hor. rewrite (bool_decide_true (_ = org)) by auto. by rewrite andb_true_r, orb_true_iff, !bool_decide_eq_true.
  - apply cutover_write_effect in H as (-> & _). split; [set_solver|]. eexists. split; [done|].
    unfold has_key_id. split_and!; [|intros k _ ->; by apply bool_decide_eq_true|done].
    intros k Hpk. reflect_hyps. set_solver.
  - destruct Hid as [->| ->]; [done|]. split; [set_solver|]. eexists. split; [done|].
    split_and!; [|intros k _ ->; by apply bool_decide_eq_true|done]. intros k Hpk. reflect_hyps. set_solver.
Qed.

(** Revoking a key in overlap revokes it: whatever the reason and whichever of
    the two keys is named, when the transaction commits every row of the named key is
    revoked and named among the keys to drop from the cache; with reason COMPROMISE
    both keys of the organization are, and no row of another key changes. *)
Theorem family_revocation_revokes sha256 id org actor reason r ids now d d' affected :
  r ∈ family_candidates id org d -> (forall k, k ∈ kd_keys d -> ak_id k = id -> ak_organizationId k = org) ->
  handleFamilyRevocation sha256 id org actor reason r ids now d = Ok (d', affected) ->
  id ∈ affected /\
  (forall k, k ∈ kd_keys d' -> ak_id k = id -> ak_status k = ResourceStatus.REVOKED) /\
  (reason = Some COMPROMISE -> forall k, k ∈ kd_keys d' -> ak_organizationId k = org ->
     ak_id k = ro_oldKeyId r \/ ak_id k = ro_newKeyId r -> ak_status k = ResourceStatus.REVOKED) /\
  (forall k, k ∈ kd_keys d -> ak_id k ∉ affected -> k ∈ kd_keys d').
Proof.
  intros [_ Hr]%elem_of_filter_bool Horg H. reflect_hyps.
  assert (id = ro_oldKeyId r \/ id = ro_newKeyId r) as Hid
    by (match goal with H : _ || _ = true |- _ => apply orb_true_iff in H as [|]; reflect_hyps; auto end).
  destruct (family_selects _ _ _ _ _ _ _ _ _ _ _ Hid Horg H) as (Hin & p & Hk & Haff & Hp & Hcomp).
  rewrite Hk. split_and!; [done|..].
  - intros k (k0 & Hk0 & ->)%elem_of_update_where Hkid. case_match eqn:E; [done|]. by rewrite Hp in E.
  - intros Hc k (k0 & Hk0 & ->)%elem_of_update_where Ho Hor. case_match eqn:E; [done|]. by rewrite Hcomp in E.
  - intros k Hk0 Hna. apply elem_of_update_where. exists k. split; [done|]. case_match eqn:E; [|done]. by apply Haff in E.
Qed.

Lemma elem_of_intersection a b s : s ∈ calculateScopeIntersection a b <-> s ∈ a /\ s ∈ b.
Proof. unfold calculateScopeIntersection. by rewrite elem_of_filter_bool, bool_decide_eq_true. Qed.
#[local] Arguments calculateScopeIntersection : simpl never.

(** During an overlap both keys have the same effective scopes, those granted to
    both, and [inspectRotation] reports the same; from the deadline on the old key is
    refused and the replacement has its own scopes. *)
Theorem overlap_grants_intersection d r kold knew now :
  let org := ro_organizationId r in
  let eval k := evaluateScopeIntersection (ak_id k) (ak_scopes k) org now d in
  latest_rotation (fun x => bool_decide (ro_oldKeyId x = ak_id kold) && bool_decide (ro_organizationId x = org)) d = Some r ->
  latest_rotation (fun x => bool_decide (ro_newKeyId x = ak_id knew) && bool_decide (ro_organizationId x = org)) d = Some r ->
  latest_rotation (fun x => bool_decide (ro_oldKeyId x = ak_id knew) && bool_decide (ro_organizationId x = org)) d = None ->
  latest_rotation (names_key (ak_id kold) org) d = Some r ->
  find_key (ro_oldKeyId r) d = Some kold -> find_key (ro_newKeyId r) d = Some knew -> ro_status r = RotationStatus.IN_OVERLAP ->
  if now <? ro_overlapExpiresAt r then
    ev_allowed (eval kold) = true /\ ev_allowed (eval knew) = true /\
    (forall s, s ∈ ev_effectiveScopes (eval kold) <-> s ∈ ak_scopes kold /\ s ∈ ak_scopes knew) /\
    (forall s, s ∈ ev_effectiveScopes (eval knew) <-> s ∈ ak_scopes kold /\ s ∈ ak_scopes knew) /\
    (exists i, inspectRotation (ak_id kold) org now d = Ok i /\ in_effectiveScopes i = ev_effectiveScopes (eval kold) /\
       in_status i = RotationStatus.IN_OVERLAP)
  else
    ev_allowed (eval kold) = false /\ eval knew = allow (ak_scopes knew) false /\
    (exists i, inspectRotation (ak_id kold) org now d = Ok i /\ in_effectiveScopes i = ak_scopes knew /\
       in_status i = RotationStatus.EXPIRED).
Proof.
  intros org eval Ho Hn Hnone Hnames Hfo Hfn Hst. unfold eval, evaluateScopeIntersection, evaluate_old, inspectRotation.
  rewrite Ho, Hnone, Hnames. cbn. unfold evaluate_new. rewrite Hn, Hst. unfold scopes_of. rewrite Hfo, Hfn. cbn.
  rewrite (Z.leb_antisym now). destruct (now <? ro_overlapExpiresAt r); cbn.
  - split_and!; [done|done| | |by eexists].
    + intros s. apply elem_of_intersection.
    + intros s. rewrite bool_decide_true by done. cbn. rewrite elem_of_intersection. tauto.
  - split_and!; [done|done|by eexists].
Qed.

(** ** Runs *)

Module DemoRotation.
Export DemoKeys.
Definition deadline : Z := 1700086400000.
Definition old_key : ApiKey := overlap_row 1700000000000 "k1" deadline key1.
Definition new_key2 : ApiKey :=
  new_key digest "k2" "o1" "u1" "main (rotated)" secret2 [ApiKeyScope.PROOF_READ; ApiKeyScope.PAYMENT_READ] None (Some "k1") 1700000000000.
Definition rotation : Rotation :=
  {| ro_id := "r1"; ro_organizationId := "o1"; ro_familyId := "k1"; ro_oldKeyId := "k1"; ro_newKeyId := "k2";
     ro_overlapExpiresAt := deadline; ro_cutoverAt := None; ro_cutoverById := None; ro_status := RotationStatus.IN_OVERLAP;
     ro_oldKeyUsageCount := 0; ro_lastOldKeyUsedAt := None; ro_createdAt := 1700000000000 |}.
Definition tables : KeyDb := set_rotations [rotation] (set_keys [old_key; new_key2] empty_key_db).
Definition overlap : KeySys := {| ks_db := tables; ks_caches := []; ks_ops := []; ks_accepted := [] |}.
Definition ids (n : string) : FreshIds :=
  {| fi_key := String.append "k" n; fi_rotation := String.append "r" n; fi_receipt := String.append "c" n; fi_audit := String.append "a" n |}.

Lemma overlap_ok : starts_with_keys digest overlap.
Proof.
  split_and!; [apply (bool_decide_unpack _); by vm_compute| |done..].
  apply Forall_cons_2; [|apply Forall_singleton]; (split; [by vm_compute|split; [|apply (bool_decide_unpack _); by vm_compute]]).
  - by exists secret1.
  - by exists secret2.
Qed.
Lemma overlap_wf : rotations_wf (ks_db overlap).
Proof. split; [apply NoDup_singleton|constructor|constructor|constructor|by apply Forall_singleton]. Qed.
End DemoRotation.

Lemma demo_cutover :
  exists s, rtc DemoKeys.step DemoRotation.overlap s /\ length (kd_cutovers (ks_db s)) = 1%nat /\
    (ro_status <$> kd_rotations (ks_db s)) = [RotationStatus.CUTOVER].
Proof.
  eexists. split.
  { run_step (apply (step_cutover _ _ _ _ 0%nat "k1" "o1" None None 1700000003000)).
    run_step (op_at 0%nat (eapply (cutover_found _ _ _ _ _ _ _ _ _ _ DemoRotation.rotation);
      eapply (list_elem_of_lookup_2 _ 0%nat); vm_compute; reflexivity)).
    run_step (op_at 0%nat (eapply (cutover_committed _ _ _ _ _ _ _ _ _ _ (DemoRotation.ids "9")); computes)).
    apply rtc_refl. }
  by vm_compute.
Qed.

Lemma cutover_recorded_once_witness :
  exists s, NoDup (ct_rotationId <$> kd_cutovers (ks_db s)) /\ exists r, r ∈ kd_rotations (ks_db s) /\
    ro_status r = RotationStatus.CUTOVER /\ exists c, c ∈ kd_cutovers (ks_db s) /\ ct_rotationId c = ro_id r.
Proof.
  destruct demo_cutover as (s & Hrun & _ & Hst). exists s.
  destruct (cutover_recorded_once DemoKeys.digest DemoKeys.mac DemoKeys.limits DemoRotation.overlap s
    DemoRotation.overlap_ok DemoRotation.overlap_wf Hrun) as (Hnd & _ & Hall). split; [done|].
  destruct (kd_rotations (ks_db s)) as [|r rs]; [done|]. injection Hst as Hr _. exists r.
  split; [by left|]. split; [done|]. apply Hall; [by left|done].
Defined.

Lemma family_revocation_revokes_witness :
  exists d' affected, handleFamilyRevocation DemoKeys.digest "k2" "o1" None (Some COMPROMISE) DemoRotation.rotation
      (DemoRotation.ids "9") 1700000003000 DemoRotation.tables = Ok (d', affected) /\
    forall k, k ∈ kd_keys d' -> ak_id k = "k2" -> ak_status k = ResourceStatus.REVOKED.
Proof.
  destruct (handleFamilyRevocation DemoKeys.digest "k2" "o1" None (Some COMPROMISE) DemoRotation.rotation
      (DemoRotation.ids "9") 1700000003000 DemoRotation.tables) as [[d' affected]|e] eqn:H;
    [|exfalso; vm_compute in H; discriminate H].
  exists d', affected. split; [done|].
  assert (DemoRotation.rotation ∈ family_candidates "k2" "o1" DemoRotation.tables) as Hr
    by (apply (list_elem_of_lookup_2 _ 0%nat); vm_compute; reflexivity).
  assert (forall k, k ∈ kd_keys DemoRotation.tables -> ak_id k = "k2" -> ak_organizationId k = "o1") as Ho
    by (intros k Hk; repeat (apply elem_of_cons in Hk as [->|Hk]; [done|]); by apply elem_of_nil in Hk).
  by destruct (family_revocation_revokes _ _ _ _ _ _ _ _ _ _ _ Hr Ho H) as (_ & Hrev & _).
Defined.

Lemma overlap_grants_intersection_witness :
  ev_effectiveScopes (evaluateScopeIntersection "k2" (ak_scopes DemoRotation.new_key2) "o1" 1700000003000 DemoRotation.tables) =
    [ApiKeyScope.PROOF_READ] /\
  ev_allowed (evaluateScopeIntersection "k1" (ak_scopes DemoRotation.old_key) "o1" 1700000003000 DemoRotation.tables) = true.
Proof.
  pose proof (overlap_grants_intersection DemoRotation.tables DemoRotation.rotation DemoRotation.old_key
    DemoRotation.new_key2 1700000003000) as H.
  destruct H as (Ha & _); [by vm_compute..|]. split; [by vm_compute|exact Ha].
Defined.

(** ** Where a rotation goes wrong *)

(** A replacement looked up during the overlap is cached with the intersection; the
    cutover, requested under the old key's identifier, leaves that entry, and the
    process serves the narrowed scopes from then on. *)
Lemma cutover_keeps_narrow_scopes :
  exists s a, rtc DemoKeys.step DemoRotation.overlap s /\ ks_ops s = [] /\
    (ro_status <$> kd_rotations (ks_db s)) = [RotationStatus.CUTOVER] /\
    last (ks_accepted s) = Some a /\ lk_now (ac_lookup a) = 1800000000000 /\ ak_id (ac_key a) = "k2" /\
    ak_scopes (ac_key a) = [ApiKeyScope.PROOF_READ] /\
    scopes_of "k2" (ks_db s) = [ApiKeyScope.PROOF_READ; ApiKeyScope.PAYMENT_READ].
Proof.
  eexists _, _. split.
  { run_step (arrives 0%nat DemoKeys.secret2 1700000001000).
    run_step (op_at 0%nat (row_found 1%nat 1700000001001)).
    run_step (op_at 0%nat (eapply lookup_not_old; computes)).
    run_step (op_at 0%nat (eapply lookup_new)).
    run_step (op_at 0%nat (eapply lookup_cache; computes)).
    run_step (apply (step_cutover _ _ _ _ 0%nat "k1" "o1" None None 1700000003000)).
    run_step (op_at 0%nat (eapply (cutover_found _ _ _ _ _ _ _ _ _ _ DemoRotation.rotation);
      eapply (list_elem_of_lookup_2 _ 0%nat); vm_compute; reflexivity)).
    run_step (op_at 0%nat (eapply (cutover_committed _ _ _ _ _ _ _ _ _ _ (DemoRotation.ids "9")); computes)).
    run_step (served 0%nat DemoKeys.secret2 1800000000000).
    apply rtc_refl. }
  by vm_compute.
Qed.

(** Revoking the replacement ends the rotation as REVOKED, and the old key is
    refused as well, before its deadline. *)
Lemma abort_disables_old_key :
  exists d' affected, handleFamilyRevocation DemoKeys.digest "k2" "o1" None None DemoRotation.rotation
      (DemoRotation.ids "9") 1700000003000 DemoRotation.tables = Ok (d', affected) /\
    affected = ["k2"] /\
    (exists k, find_key "k1" d' = Some k /\ usable 1700000003001 k = true /\
       ev_allowed (evaluateScopeIntersection "k1" (ak_scopes k) "o1" 1700000003001 d') = false).
Proof.
  destruct (handleFamilyRevocation DemoKeys.digest "k2" "o1" None None DemoRotation.rotation
      (DemoRotation.ids "9") 1700000003000 DemoRotation.tables) as [[d' affected]|e] eqn:H;
    vm_compute in H; [|discriminate H].
  injection H as <- <-. eexists _, _. split; [done|]. split; [done|]. eexists. split; [vm_compute; reflexivity|by vm_compute].
Qed.

(** A key past its expiry whose row is still active can be rotated, and its
    replacement does not expire. *)
Lemma expired_key_rotates :
  let expired := overlap_row 1600000000000 "k1" 1650000000000 DemoKeys.key1 in
  let d := set_keys [expired] empty_key_db in
  let plan := rotate_plan "k1" "o1" None {| rd_overlapDurationMs := None; rd_scopes := None; rd_name := None |} (Some expired)
                DemoKeys.secret2 1700000000000 in
  usable 1700000000000 expired = false /\ rotate_find "k1" "o1" d = Ok (Some expired) /\ rotate_guard "k1" "o1" d = Ok tt /\
  rotate_check plan d = Ok tt /\
  exists d', rotateKey_write DemoKeys.digest DemoKeys.mac DemoKeys.limits plan (DemoRotation.ids "2") 1700000000000 d = Ok d' /\
    exists k, find_key "k2" d' = Some k /\ ak_expiresAt k = None /\ usable 1700000000000 k = true.
Proof.
  cbv zeta. split_and!; [by vm_compute..|].
  match goal with |- exists d', ?x = Ok d' /\ _ => destruct x as [d'|e] eqn:H; vm_compute in H; [|discriminate H] end.
  injection H as <-. eexists. split; [done|]. eexists. split; [vm_compute; reflexivity|by vm_compute].
Qed.

(** Once a row of the SYSTEM audit chain has sequence zero, which the first audit
    record written inside a transaction is, a compromised key in overlap cannot be
    revoked, and no key can be created, rotated or cut over. *)
Lemma audit_in_tx_blocked id now args d :
  (SYSTEM_CHAIN_KEY, 0) ∈ row_key <$> auditRows (kd_audit d) -> audit_in_tx id now args d = Err P2002.
Proof.
  intros Hs. unfold audit_in_tx, createUnchained, insert_audit.
  rewrite (bool_decide_true (row_key _ ∈ _)) by exact Hs. by rewrite orb_true_r.
Qed.

Lemma count_where_zero {R} (f : R -> bool) t x : count_where f t = 0%nat -> x ∈ t -> f x = false.
Proof.
  unfold count_where. intros H Hx. destruct (f x) eqn:E; [|done]. assert (x ∈ List.filter f t) as Hin by by apply elem_of_filter_bool.
  destruct (List.filter f t); [by apply elem_of_nil in Hin|discriminate].
Qed.

Lemma audit_slot_blocks_compromise sha256 id org actor r ids now d :
  (SYSTEM_CHAIN_KEY, 0) ∈ row_key <$> auditRows (kd_audit d) -> rotation_known d r ->
  handleFamilyRevocation sha256 id org actor (Some COMPROMISE) r ids now d = Err (KeyDbFailed P2002).
Proof.
  intros Hs (r0 & Hr0 & Hc). unfold handleFamilyRevocation. rewrite bool_decide_true by done.
  unfold update_rotation at 1. cbn [kd_rotations set_keys]. injection Hc as Hid _ _ _ _ _.
  destruct (count_where (has_rotation_id (ro_id r)) (kd_rotations d)) eqn:E.
  - pose proof (count_where_zero _ _ _ E Hr0) as Hf. by apply bool_decide_eq_false in Hf.
  - cbn. by rewrite audit_in_tx_blocked.
Qed.

Lemma audit_slot_blocks_creation sha256 hmac limits org by_ name scopes expiresAt secret ids now d :
  (SYSTEM_CHAIN_KEY, 0) ∈ row_key <$> auditRows (kd_audit d) ->
  exists e, createKey sha256 hmac limits org by_ name scopes expiresAt secret ids now d = Err e.
Proof.
  intros Hs. destruct (createKey sha256 hmac limits org by_ name scopes expiresAt secret ids now d) as [d'|e] eqn:H.
  2: { by exists e. }
  unfold createKey in H. exfalso. run_result. rewrite !db_Ok in *.
  match goal with Hc : create_key _ _ = _ |- _ => apply create_key_Ok in Hc as (-> & _) end.
  match goal with Hc : create_key_receipt _ _ _ _ _ _ = _ |- _ => apply create_key_receipt_Ok in Hc as (rs & ->) end.
  rewrite audit_in_tx_blocked in H; [done|exact Hs].
Qed.
