(* ===== verification/RequestSigning.v ===== *)
(** * Request signing

    Model of [src/common/crypto/request-signing.ts] and
    [request-signing-diagnostics.ts], of [src/common/guards/request-signing.guard.ts],
    [src/api-keys/request-nonce.service.ts] and
    [src/integrations/signature-diagnostics/signature-diagnostics.service.ts].
    HMAC and SHA-256 are parameters.  A timestamp of more than 15 digits counts as
    malformed; the code may call it stale instead, and refuses it as well.  HTTP
    methods are ASCII.  The guard verifies, then claims the nonce: two steps, with
    other claims and purges between. *)

From S2P Require Import Prelude JsData DecimalText Encoding Canonical DestinationGuard DestinationGuardFacts.
From Stdlib Require Import Ascii.

Local Open Scope string_scope.
Local Open Scope Z_scope.
Local Open Scope list_scope.
#[local] Arguments String.append !_ _ : simpl nomatch.

Definition DEFAULT_CLOCK_WINDOW_SECONDS : Z := 300.
Definition SIGNING_LABEL : string := "earnproof-request-signing-v1".
Definition newline : ascii := ascii_of_nat 10.

Inductive SignatureFailureReason :=
| MISSING_HEADERS | MALFORMED_TIMESTAMP | STALE_TIMESTAMP | MALFORMED_NONCE | MALFORMED_SIGNATURE | SIGNATURE_INVALID.
#[export] Instance SignatureFailureReason_eq_dec : EqDecision SignatureFailureReason.
Proof. solve_decision. Defined.

(** ** Headers *)

(** [Number(raw)] when it is an integer that prints as the trimmed header. *)
Definition parseTimestamp (raw : string) : option Z :=
  let text := trim raw in
  let '(negative, digits) :=
    match text with String "-" d => (true, d) | d => (false, d) end in
  let n := if negative then - dec_value digits else dec_value digits in
  if negb (bool_decide (digits = EmptyString)) && all_digits digits && (String.length digits <=? 15)%nat &&
     String.eqb (num_text n) text
  then Some n else None.

Definition nonce_char (c : ascii) : bool :=
  let n := byte_val c in
  ((65 <=? n) && (n <=? 90)) || ((97 <=? n) && (n <=? 122)) || ((48 <=? n) && (n <=? 57)) || (n =? 95) || (n =? 45).
Definition nonce_ok (nonce : string) : bool :=
  (16 <=? String.length nonce)%nat && (String.length nonce <=? 128)%nat && all_chars nonce_char nonce.

Definition hex_char (c : ascii) : bool :=
  let n := byte_val c in ((97 <=? n) && (n <=? 102)) || ((48 <=? n) && (n <=? 57)).
Definition signature_ok (signature : string) : bool :=
  String.prefix "v1=" signature && (String.length signature =? 67)%nat &&
  all_chars hex_char (String.substring 3 64 signature).

(** ** Canonical string and signature *)

Record Canonical := {
  ca_method : string;
  ca_path : string;
  ca_timestamp : Z;
  ca_nonce : string;
  ca_bodySha256 : string;
}.

Definition line (s rest : string) : string := String.append s (String newline rest).
Definition buildCanonicalString (c : Canonical) : string :=
  line (toUpperCase (ca_method c)) (line (ca_path c) (line (num_text (ca_timestamp c)) (line (ca_nonce c) (ca_bodySha256 c)))).

Section signing.
Context (sha256 : string -> string) (hmac : string -> string -> string).   (* key, then message *)

Definition EMPTY_BODY_SHA256 : string := sha256 EmptyString.
(** An absent and an empty body have the same digest. *)
Definition bodyDigest (body : option string) : string := sha256 (default EmptyString body).

Definition deriveSigningKey (rawSecret : string) : string := hmac rawSecret SIGNING_LABEL.
Definition computeSignature (signingKey canonical : string) : string := String.append "v1=" (hmac signingKey canonical).

(** A signed request as the guard sees it. *)
Record Signed := {
  sg_method : string;
  sg_path : string;
  sg_timestamp : string;
  sg_nonce : string;
  sg_signature : string;
  sg_body : option string;
}.

Definition canonical_of (q : Signed) (ts : Z) (bodySha256 : string) : Canonical :=
  {| ca_method := sg_method q; ca_path := sg_path q; ca_timestamp := ts; ca_nonce := sg_nonce q; ca_bodySha256 := bodySha256 |}.
Definition signature_matches (rawSecret : string) (q : Signed) (ts : Z) (bodySha256 : string) : bool :=
  String.eqb (sg_signature q) (computeSignature (deriveSigningKey rawSecret) (buildCanonicalString (canonical_of q ts bodySha256))).

(** [verifySignature]; a success carries the timestamp. *)
Definition verifySignature (rawSecret : string) (nowSeconds window : Z) (q : Signed) : result SignatureFailureReason Z :=
  match parseTimestamp (sg_timestamp q) with
  | None => Err MALFORMED_TIMESTAMP
  | Some ts =>
      _ ← throw_if (window <? Z.abs (nowSeconds - ts)) STALE_TIMESTAMP;
      _ ← throw_if (negb (nonce_ok (sg_nonce q))) MALFORMED_NONCE;
      _ ← throw_if (negb (signature_ok (sg_signature q))) MALFORMED_SIGNATURE;
      _ ← throw_if (negb (signature_matches rawSecret q ts (bodyDigest (sg_body q)))) SIGNATURE_INVALID;
      Ok ts
  end.

(** ** The guard *)

Record SigningRequest := {
  sq_keyId : option string;                      (* of the context the key guard attached *)
  sq_secret : option string;                     (* the bearer token *)
  sq_method : string;
  sq_path : string;
  sq_timestamp : option string;
  sq_nonce : option string;
  sq_signature : option string;
  sq_rawBody : option string;
}.

Inductive SigningError := SigningRequired | NoKey | Unsigned | BadSignature (r : SignatureFailureReason) | Replayed.

Definition hasSigningHeaders (q : SigningRequest) : bool :=
  bool_decide (is_Some (sq_signature q)) || bool_decide (is_Some (sq_timestamp q)) || bool_decide (is_Some (sq_nonce q)).

(** An absent or empty header. *)
Definition header (h : option string) : option string :=
  match h with Some s => if bool_decide (s = EmptyString) then None else Some s | None => None end.

(** What is left to do after the checks: nothing for a request without signing
    headers, else claim the nonce. *)
Inductive Checked := BearerOnly | Claim (keyId nonce : string) (timestamp : Z) (q : Signed).

(** [RequestSigningGuard.canActivate] up to the claim; [nowMs] is the clock. *)
Definition signing_guard (requireSigning : bool) (nowMs : Z) (q : SigningRequest) : result SigningError Checked :=
  if negb (hasSigningHeaders q) then
    if requireSigning then Err SigningRequired else Ok BearerOnly
  else
    match sq_keyId q with
    | None => Err NoKey
    | Some keyId =>
        match header (sq_timestamp q), header (sq_nonce q), header (sq_signature q) with
        | Some t, Some n, Some s =>
            match header (sq_secret q) with
            | None => Err NoKey
            | Some rawSecret =>
                let signed := {| sg_method := sq_method q; sg_path := sq_path q; sg_timestamp := t; sg_nonce := n;
                                 sg_signature := s; sg_body := sq_rawBody q |} in
                match verifySignature rawSecret (nowMs / 1000) DEFAULT_CLOCK_WINDOW_SECONDS signed with
                | Err r => Err (BadSignature r)
                | Ok ts => Ok (Claim keyId n ts signed)
                end
            end
        | _, _, _ => Err Unsigned
        end
    end.

(** ** Nonces *)

Record NonceRow := { nr_nonceHash : string; nr_apiKeyId : string; nr_expiresAt : Z }.

Definition hashNonce (keyId rawNonce : string) : string := sha256 (String.append keyId (String ":"%char rawNonce)).

(** [INSERT ... ON CONFLICT DO NOTHING]: whether a row was inserted, and the table. *)
Definition claimNonce (keyId rawNonce : string) (requestTimestamp : Z) (t : list NonceRow) : bool * list NonceRow :=
  let nonceHash := hashNonce keyId rawNonce in
  if bool_decide (nonceHash ∈ nr_nonceHash <$> t) then (false, t)
  else (true, t ++ [{| nr_nonceHash := nonceHash; nr_apiKeyId := keyId;
                       nr_expiresAt := (requestTimestamp + DEFAULT_CLOCK_WINDOW_SECONDS) * 1000 |}]).

Definition purgeExpiredNonces (nowMs : Z) (t : list NonceRow) : list NonceRow :=
  List.filter (fun r => negb (nr_expiresAt r <? nowMs)) t.

(** ** Diagnostics *)

Inductive HeaderStatus := PRESENT | MISSING | MALFORMED.
Inductive TimestampWindowStatus := WITHIN | TOO_OLD | TOO_NEW | WINDOW_MALFORMED | WINDOW_MISSING.
Inductive ComponentStatus := MATCH | MISMATCH | COMPONENT_NOT_DECLARED.
Inductive CanonicalStructure := STRUCTURE_OK | NOT_DECLARED | CRLF_LINE_ENDINGS | TRAILING_NEWLINE | WRONG_LINE_COUNT.
Inductive NonceStatus := CONSUMED | REPLAYED | NONCE_MALFORMED | NONCE_MISSING | NOT_EVALUATED.
#[local] Instance HeaderStatus_eq_dec : EqDecision HeaderStatus.
Proof. solve_decision. Defined.
#[local] Instance TimestampWindowStatus_eq_dec : EqDecision TimestampWindowStatus.
Proof. solve_decision. Defined.

Record DiagnosticInput := {
  di_method : string;
  di_path : string;
  di_body : option string;
  di_bodySha256 : option string;
  di_signature : option string;
  di_timestamp : option string;
  di_nonce : option string;
  di_declaredCanonical : option string;
}.

Record DiagnosticReport := {
  dr_signature : HeaderStatus;
  dr_timestamp : HeaderStatus;
  dr_nonce : HeaderStatus;
  dr_window : TimestampWindowStatus;
  dr_skewSeconds : option Z;
  dr_canonicalStructure : CanonicalStructure;
  dr_components : list ComponentStatus;          (* method, path, timestamp, nonce, body-sha256 *)
  dr_signatureMatches : option bool;
  dr_failureCategory : option SignatureFailureReason;
  dr_nonceClaimable : bool;
  dr_nonceStatus : NonceStatus;
}.

Definition headerStatus (value : option string) (valid : string -> bool) : HeaderStatus :=
  match value with
  | None => MISSING
  | Some s => if bool_decide (s = EmptyString) then MISSING else if valid s then PRESENT else MALFORMED
  end.

Definition windowStatus (h : HeaderStatus) (skewSeconds : option Z) (windowSeconds : Z) : TimestampWindowStatus :=
  match h, skewSeconds with
  | MISSING, _ => WINDOW_MISSING
  | _, None => WINDOW_MALFORMED
  | _, Some skew => if windowSeconds <? skew then TOO_OLD else if skew <? - windowSeconds then TOO_NEW else WITHIN
  end.

Definition firstFailure (signature timestamp nonce : HeaderStatus) (window : TimestampWindowStatus)
    : option SignatureFailureReason :=
  if bool_decide (signature = MISSING) || bool_decide (timestamp = MISSING) || bool_decide (nonce = MISSING)
  then Some MISSING_HEADERS
  else if bool_decide (timestamp = MALFORMED) then Some MALFORMED_TIMESTAMP
  else if negb (bool_decide (window = WITHIN)) then Some STALE_TIMESTAMP
  else if bool_decide (nonce = MALFORMED) then Some MALFORMED_NONCE
  else if bool_decide (signature = MALFORMED) then Some MALFORMED_SIGNATURE
  else None.

Definition carriage_return : ascii := ascii_of_nat 13.
Fixpoint without_char (c : ascii) (s : string) : string :=
  match s with EmptyString => EmptyString | String d r => if Ascii.eqb c d then without_char c r else String d (without_char c r) end.
Fixpoint ends_with (c : ascii) (s : string) : bool :=
  match s with EmptyString => false | String d EmptyString => Ascii.eqb c d | String _ r => ends_with c r end.

Definition compareCanonical (declared : option string) (serverLines : list string) : CanonicalStructure * list ComponentStatus :=
  match declared with
  | None => (NOT_DECLARED, replicate 5 COMPONENT_NOT_DECLARED)
  | Some text =>
      let lines := split_on newline (without_char carriage_return text) in
      (if has_char carriage_return text then CRLF_LINE_ENDINGS
       else if ends_with newline text then TRAILING_NEWLINE
       else if negb (length (split_on newline text) =? 5)%nat then WRONG_LINE_COUNT else STRUCTURE_OK,
       imap (fun i l => if bool_decide (lines !! i = Some l) then MATCH else MISMATCH) serverLines)
  end.

Definition diagnoseSignature (rawSecret : string) (i : DiagnosticInput) (nowSeconds windowSeconds : Z) : DiagnosticReport :=
  let timestamp := di_timestamp i ≫= parseTimestamp in
  let hs := headerStatus (di_signature i) signature_ok in
  let ht := headerStatus (di_timestamp i) (fun _ => bool_decide (is_Some timestamp)) in
  let hn := headerStatus (di_nonce i) nonce_ok in
  let skewSeconds := (fun ts => nowSeconds - ts) <$> timestamp in
  let window := windowStatus ht skewSeconds windowSeconds in
  let bodySha256 := default (bodyDigest (di_body i)) (di_bodySha256 i) in
  let '(structure, components) := compareCanonical (di_declaredCanonical i)
    [toUpperCase (di_method i); di_path i; default EmptyString (di_timestamp i); default EmptyString (di_nonce i); bodySha256] in
  let failure := firstFailure hs ht hn window in
  let signatureMatches :=
    if bool_decide (failure = None) || bool_decide (failure = Some STALE_TIMESTAMP) then
      match hs, hn, timestamp, di_signature i, di_nonce i with
      | PRESENT, PRESENT, Some ts, Some signature, Some nonce =>
          Some (signature_matches rawSecret
                  {| sg_method := di_method i; sg_path := di_path i; sg_timestamp := default EmptyString (di_timestamp i);
                     sg_nonce := nonce; sg_signature := signature; sg_body := di_body i |} ts bodySha256)
      | _, _, _, _, _ => None
      end
    else None in
  {| dr_signature := hs; dr_timestamp := ht; dr_nonce := hn; dr_window := window; dr_skewSeconds := skewSeconds;
     dr_canonicalStructure := structure; dr_components := components; dr_signatureMatches := signatureMatches;
     dr_failureCategory := match failure with
                           | Some r => Some r
                           | None => if bool_decide (signatureMatches = Some false) then Some SIGNATURE_INVALID else None
                           end;
     dr_nonceClaimable := bool_decide (hn = PRESENT) && bool_decide (window = WITHIN);
     dr_nonceStatus := match hn with MISSING => NONCE_MISSING | MALFORMED => NONCE_MALFORMED | PRESENT => NOT_EVALUATED end |}.

(** [SignatureDiagnosticsService.diagnose] after its check of the body: the failure
    it reports, the nonce's status and the table. *)
Inductive DiagnosticFailure := GuardReason (r : SignatureFailureReason) | NONCE_REPLAYED.

Definition diagnose (keyId rawSecret : string) (i : DiagnosticInput) (nowMs : Z) (t : list NonceRow)
    : option DiagnosticFailure * NonceStatus * list NonceRow :=
  let report := diagnoseSignature rawSecret i (nowMs / 1000) DEFAULT_CLOCK_WINDOW_SECONDS in
  let '(nonceStatus, t) :=
    if dr_nonceClaimable report then
      match di_nonce i, di_timestamp i ≫= parseTimestamp with
      | Some nonce, Some ts => let '(fresh, t) := claimNonce keyId nonce ts t in (if fresh then CONSUMED else REPLAYED, t)
      | _, _ => (dr_nonceStatus report, t)       (* not reached: claimable *)
      end
    else (dr_nonceStatus report, t) in
  (match dr_failureCategory report with
   | Some r => Some (GuardReason r)
   | None => match nonceStatus with REPLAYED => Some NONCE_REPLAYED | _ => None end
   end, nonceStatus, t).

(** ** The system: verified requests waiting for their claim, purges, diagnostics *)

Inductive NonceEvent :=
| RequestAccepted (keyId nonce : string) (timestamp : Z) (q : Signed)
| NonceSpent (keyId nonce : string) (timestamp : Z)     (* by diagnostics *)
| Purged (nowMs : Z).

Record NonceSys := {
  ns_table : list NonceRow;
  ns_waiting : list (string * string * Z * Signed);      (* key, nonce, timestamp *)
  ns_log : list NonceEvent;
}.

Inductive nonce_step (s : NonceSys) : NonceSys -> Prop :=
| nonce_checked requireSigning nowMs q keyId nonce ts signed :
    signing_guard requireSigning nowMs q = Ok (Claim keyId nonce ts signed) ->
    nonce_step s {| ns_table := ns_table s; ns_waiting := ns_waiting s ++ [(keyId, nonce, ts, signed)]; ns_log := ns_log s |}
| nonce_claimed l1 keyId nonce ts signed l2 t :
    ns_waiting s = l1 ++ (keyId, nonce, ts, signed) :: l2 -> claimNonce keyId nonce ts (ns_table s) = (true, t) ->
    nonce_step s {| ns_table := t; ns_waiting := l1 ++ l2; ns_log := ns_log s ++ [RequestAccepted keyId nonce ts signed] |}
| nonce_refused l1 x l2 :                        (* a replay, or the insert failed *)
    ns_waiting s = l1 ++ x :: l2 ->
    nonce_step s {| ns_table := ns_table s; ns_waiting := l1 ++ l2; ns_log := ns_log s |}
| nonce_diagnosed keyId rawSecret i nowMs f t nonce ts :
    diagnose keyId rawSecret i nowMs (ns_table s) = (f, CONSUMED, t) -> di_nonce i = Some nonce ->
    di_timestamp i ≫= parseTimestamp = Some ts ->
    nonce_step s {| ns_table := t; ns_waiting := ns_waiting s; ns_log := ns_log s ++ [NonceSpent keyId nonce ts] |}
| nonce_purged nowMs :
    nonce_step s {| ns_table := purgeExpiredNonces nowMs (ns_table s); ns_waiting := ns_waiting s; ns_log := ns_log s ++ [Purged nowMs] |}.

(** ** Diagnostics and guard *)

(** The guard's request, with this body, that a diagnostic input stands for. *)
Definition request_of (keyId rawSecret : string) (i : DiagnosticInput) (body : option string) : SigningRequest :=
  {| sq_keyId := Some keyId; sq_secret := Some rawSecret; sq_method := di_method i; sq_path := di_path i;
     sq_timestamp := di_timestamp i; sq_nonce := di_nonce i; sq_signature := di_signature i; sq_rawBody := body |}.

(** The input describes this body: by its digest, or by the body itself. *)
Definition describes (i : DiagnosticInput) (body : option string) : Prop :=
  match di_bodySha256 i with Some h => h = bodyDigest body | None => di_body i = body end.

Lemma describes_digest i body :
  describes i body -> default (bodyDigest (di_body i)) (di_bodySha256 i) = bodyDigest body.
Proof. unfold describes. by destruct (di_bodySha256 i) as [h|]; intros ->. Qed.

(** The reason the guard gives, when it is one of the signature. *)
Definition guard_reason (r : result SigningError Checked) : option SignatureFailureReason :=
  match r with
  | Err (BadSignature r) => Some r
  | Err SigningRequired | Err Unsigned => Some MISSING_HEADERS
  | _ => None
  end.

Lemma header_status value valid :
  headerStatus value valid = match header value with None => MISSING | Some s => if valid s then PRESENT else MALFORMED end.
Proof. unfold headerStatus, header. destruct value as [s|]; [|done]. by case_bool_decide. Qed.

Lemma header_Some value s : header value = Some s -> value = Some s /\ s <> EmptyString.
Proof. unfold header. destruct value; [|done]. case_bool_decide; naive_solver. Qed.

Lemma no_header value : value = None -> header value = None.
Proof. by intros ->. Qed.

Lemma window_within ts now w :
  windowStatus PRESENT (Some (now - ts)) w = WITHIN <-> (w <? Z.abs (now - ts)) = false.
Proof.
  cbn. destruct (Z.ltb_spec w (Z.abs (now - ts))); repeat case_match; reflect_hyps; split; intros; try done; lia.
Qed.

(** With all three headers, both go through the same checks. *)
Lemma category_present rawSecret i now w t n s body :
  header (di_timestamp i) = Some t -> header (di_nonce i) = Some n -> header (di_signature i) = Some s -> describes i body ->
  dr_failureCategory (diagnoseSignature rawSecret i now w) =
  match verifySignature rawSecret now w {| sg_method := di_method i; sg_path := di_path i; sg_timestamp := t; sg_nonce := n;
                                           sg_signature := s; sg_body := body |} with
  | Ok _ => None | Err r => Some r end.
Proof.
  intros Ht Hn Hs Hb%describes_digest. unfold diagnoseSignature, verifySignature. destruct (compareCanonical _ _).
  rewrite !header_status, Ht, Hn, Hs. destruct (header_Some _ _ Ht) as [-> _], (header_Some _ _ Hn) as [-> _], (header_Some _ _ Hs) as [-> _].
  rewrite Hb. cbn [dr_failureCategory mbind option_bind sg_timestamp sg_nonce sg_signature sg_body].
  destruct (parseTimestamp t) as [ts|]; [|by destruct (signature_ok s), (nonce_ok n)].
  rewrite (bool_decide_true (is_Some (Some ts))) by done. cbn [fmap option_fmap option_map].
  destruct (w <? Z.abs (now - ts)) eqn:Hw.
  - assert (windowStatus PRESENT (Some (now - ts)) w <> WITHIN) as Hne by (rewrite window_within; congruence).
    unfold firstFailure. rewrite (bool_decide_false (windowStatus _ _ _ = WITHIN)) by done.
    by destruct (signature_ok s), (nonce_ok n).
  - apply window_within in Hw. rewrite Hw. cbn [throw_if].
    destruct (nonce_ok n); [|by destruct (signature_ok s)]. destruct (signature_ok s); [|done].
    cbn [negb throw_if mbind result_bind]. unfold signature_matches. cbn [sg_signature sg_method sg_path sg_nonce canonical_of].
    by destruct (String.eqb _ _).
Qed.

(** An accepted signature leaves the nonce to be claimed. *)
Lemma accepted_claimable rawSecret i now w t n s body ts :
  header (di_timestamp i) = Some t -> header (di_nonce i) = Some n ->
  verifySignature rawSecret now w {| sg_method := di_method i; sg_path := di_path i; sg_timestamp := t; sg_nonce := n;
                                     sg_signature := s; sg_body := body |} = Ok ts ->
  dr_nonceClaimable (diagnoseSignature rawSecret i now w) = true /\
  di_nonce i = Some n /\ di_timestamp i ≫= parseTimestamp = Some ts.
Proof.
  intros Ht Hn Hv. unfold diagnoseSignature. destruct (compareCanonical _ _). cbn [dr_nonceClaimable].
  rewrite !header_status, Ht, Hn. destruct (header_Some _ _ Ht) as [-> _], (header_Some _ _ Hn) as [-> _].
  unfold verifySignature in Hv. cbn [sg_timestamp sg_nonce] in Hv. destruct (parseTimestamp t) as [ts'|] eqn:Ets; [|done].
  run_result. cbn [mbind option_bind]. rewrite Ets. split; [|done].
  rewrite (bool_decide_true (is_Some (Some ts))) by done. cbn [fmap option_fmap option_map].
  match goal with H : (w <? _) = false |- _ => apply window_within in H; rewrite H end.
  match goal with H : negb (nonce_ok n) = false |- _ => apply negb_false_iff in H; by rewrite H end.
Qed.

Lemma category_missing rawSecret i now w :
  header (di_timestamp i) = None \/ header (di_nonce i) = None \/ header (di_signature i) = None ->
  dr_failureCategory (diagnoseSignature rawSecret i now w) = Some MISSING_HEADERS.
Proof.
  intros H. unfold diagnoseSignature. destruct (compareCanonical _ _). cbn [dr_failureCategory].
  rewrite !header_status. unfold firstFailure.
  assert (forall a b c : HeaderStatus, a = MISSING \/ b = MISSING \/ c = MISSING ->
    bool_decide (c = MISSING) || bool_decide (a = MISSING) || bool_decide (b = MISSING) = true) as Hor
    by (intros x y z [->|[->| ->]]; rewrite ?orb_true_iff; rewrite ?bool_decide_eq_true; tauto).
  rewrite Hor; [done|]. destruct H as [->|[->| ->]]; auto.
Qed.

Lemma guard_missing requireSigning keyId rawSecret i body nowMs :
  header (di_timestamp i) = None \/ header (di_nonce i) = None \/ header (di_signature i) = None ->
  requireSigning || hasSigningHeaders (request_of keyId rawSecret i body) = true ->
  guard_reason (signing_guard requireSigning nowMs (request_of keyId rawSecret i body)) = Some MISSING_HEADERS.
Proof.
  intros H Hr. unfold signing_guard. destruct (hasSigningHeaders _); [|by destruct requireSigning].
  cbn [negb request_of sq_keyId sq_timestamp sq_nonce sq_signature].
  destruct (header (di_timestamp i)), (header (di_nonce i)), (header (di_signature i)); try done. naive_solver.
Qed.

Lemma guard_present requireSigning keyId rawSecret i nowMs h n s body :
  rawSecret <> EmptyString -> header (di_timestamp i) = Some h -> header (di_nonce i) = Some n -> header (di_signature i) = Some s ->
  let q := {| sg_method := di_method i; sg_path := di_path i; sg_timestamp := h; sg_nonce := n; sg_signature := s; sg_body := body |} in
  signing_guard requireSigning nowMs (request_of keyId rawSecret i body) =
  match verifySignature rawSecret (nowMs / 1000) DEFAULT_CLOCK_WINDOW_SECONDS q with
  | Err r => Err (BadSignature r)
  | Ok ts => Ok (Claim keyId n ts q)
  end.
Proof.
  intros Hsec Ht Hn Hs q. unfold signing_guard, request_of, hasSigningHeaders.
  cbn [sq_keyId sq_secret sq_method sq_path sq_timestamp sq_nonce sq_signature sq_rawBody]. rewrite Ht, Hn, Hs.
  destruct (header_Some _ _ Hs) as [-> _]. rewrite (bool_decide_true (is_Some (Some s))) by done. cbn [negb orb].
  assert (header (Some rawSecret) = Some rawSecret) as -> by (unfold header; by rewrite bool_decide_false). done.
Qed.

Lemma unsigned_headers q :
  hasSigningHeaders q = false -> sq_timestamp q = None /\ sq_nonce q = None /\ sq_signature q = None.
Proof.
  unfold hasSigningHeaders. destruct (sq_timestamp q), (sq_nonce q), (sq_signature q); try done;
    rewrite ?(bool_decide_true (is_Some (Some _))) by done; by rewrite ?orb_true_r.
Qed.

(** C35: The diagnostics report what the guard does.  On the same method, path and
    headers, and a body given as such or by its digest, under the same key and clock:
    if the route requires signatures or the request has a signing header, the failure
    category of [diagnoseSignature] is the reason the guard refuses the request for,
    missing headers included; there is none exactly when the guard goes on to claim
    the nonce; and [diagnose] reports no failure exactly when that claim also
    succeeds.  A request without signing headers to a route that does not require
    them is the one exception: the guard lets it through, and the diagnostics report
    missing headers. *)
Theorem diagnostics_agree_with_guard requireSigning keyId rawSecret i body nowMs t :
  rawSecret <> EmptyString -> describes i body ->
  let request := request_of keyId rawSecret i body in
  let guard := signing_guard requireSigning nowMs request in
  let category := dr_failureCategory (diagnoseSignature rawSecret i (nowMs / 1000) DEFAULT_CLOCK_WINDOW_SECONDS) in
  if requireSigning || hasSigningHeaders request then
    category = guard_reason guard /\
    (category = None <-> exists nonce ts q, guard = Ok (Claim keyId nonce ts q)) /\
    ((diagnose keyId rawSecret i nowMs t).1.1 = None <->
     exists nonce ts q, guard = Ok (Claim keyId nonce ts q) /\ (claimNonce keyId nonce ts t).1 = true)
  else guard = Ok BearerOnly /\ category = Some MISSING_HEADERS.
Proof.
  intros Hsec Hb request guard category.
  destruct (requireSigning || hasSigningHeaders request) eqn:Hr.
  2: { apply orb_false_iff in Hr as [-> Hh]. unfold guard, signing_guard. rewrite Hh. split; [done|].
       apply unsigned_headers in Hh as (Ht & _). apply category_missing. left. by apply no_header. }
  assert ((header (di_timestamp i) = None \/ header (di_nonce i) = None \/ header (di_signature i) = None) \/
    exists t n s, header (di_timestamp i) = Some t /\ header (di_nonce i) = Some n /\ header (di_signature i) = Some s)
    as [Hm|(h & n & s & Ht & Hn & Hs)]
    by (destruct (header (di_timestamp i)), (header (di_nonce i)), (header (di_signature i)); eauto 10).
  - assert (category = Some MISSING_HEADERS) as Hc by by apply category_missing.
    pose proof (guard_missing requireSigning keyId rawSecret i body nowMs Hm Hr) as Hg. fold request guard in Hg.
    rewrite Hc, Hg. split; [done|]. split; [split; [done|]|].
    { intros (? & ? & ? & Hcl). by rewrite Hcl in Hg. }
    split; [|intros (? & ? & ? & Hcl & _); by rewrite Hcl in Hg].
    unfold diagnose. fold category. destruct (if dr_nonceClaimable _ then _ else _) as [st t']. cbn [fst].
    fold category. by rewrite Hc.
  - pose proof (category_present rawSecret i (nowMs / 1000) DEFAULT_CLOCK_WINDOW_SECONDS h n s body Ht Hn Hs Hb) as Hc.
    fold category in Hc.
    pose proof (guard_present requireSigning keyId rawSecret i nowMs h n s body Hsec Ht Hn Hs) as Hg. fold request guard in Hg.
    rewrite Hg, Hc. clear Hg. destruct (verifySignature _ _ _ _) as [ts|r] eqn:Hv; cbn [guard_reason].
    + split; [done|]. split; [naive_solver|].
      destruct (accepted_claimable _ _ _ _ _ _ _ _ _ Ht Hn Hv) as (Hcl & Hdn & Hdt).
      unfold diagnose. rewrite Hcl, Hdn, Hdt. fold category. rewrite Hc.
      destruct (claimNonce keyId n ts t) as [fresh t'] eqn:Ecl. split.
      * intros Hf. exists n, ts. eexists. split; [done|]. rewrite Ecl. by destruct fresh.
      * intros (? & ? & ? & [= <- <- <-] & Hf). rewrite Ecl in Hf. cbn in Hf. by rewrite Hf.
    + split; [done|]. split; [naive_solver|]. split; [|naive_solver].
      unfold diagnose. destruct (if dr_nonceClaimable _ then _ else _) as [st t']. cbn [fst]. fold category. by rewrite Hc.
Qed.

(** ** What a signature covers *)

Lemma all_chars_no_char f c s : f c = false -> all_chars f s = true -> has_char c s = false.
Proof.
  intros Hf. induction s as [|d s IH]; [done|]. cbn. intros [Hd Hs]%andb_true_iff. rewrite (IH Hs), orb_false_r.
  apply Ascii.eqb_neq. intros ->. congruence.
Qed.

Lemma nonce_no_newline nonce : nonce_ok nonce = true -> has_char newline nonce = false.
Proof. unfold nonce_ok. intros H. reflect_hyps. by apply (all_chars_no_char nonce_char). Qed.

Lemma num_text_no_newline n : has_char newline (num_text n) = false.
Proof. unfold num_text. case_match; cbn [has_char]; rewrite dec_string_no_char by reflexivity; reflexivity. Qed.

Lemma upper_no_newline s : has_char newline s = false -> has_char newline (toUpperCase s) = false.
Proof.
  induction s as [|c s IH]; [done|]. cbn. intros [Hc Hs]%orb_false_iff. rewrite (IH Hs), orb_false_r.
  unfold upper_char. case_match eqn:E; [|done]. reflect_hyps. apply Ascii.eqb_neq. intros Heq.
  apply (f_equal byte_val) in Heq. change (byte_val newline) with 10 in Heq. pose proof (byte_val_range c).
  unfold byte_of in Heq. unfold byte_val at 1 in Heq. rewrite N_ascii_embedding, Z2N.id in Heq by lia. lia.
Qed.

Lemma canonical_inj c c' :
  has_char newline (ca_method c) = false -> has_char newline (ca_method c') = false ->
  has_char newline (ca_path c) = false -> has_char newline (ca_path c') = false ->
  nonce_ok (ca_nonce c) = true -> nonce_ok (ca_nonce c') = true ->
  buildCanonicalString c = buildCanonicalString c' ->
  toUpperCase (ca_method c) = toUpperCase (ca_method c') /\ ca_path c = ca_path c' /\ ca_timestamp c = ca_timestamp c' /\
  ca_nonce c = ca_nonce c' /\ ca_bodySha256 c = ca_bodySha256 c'.
Proof.
  intros Hm Hm' Hp Hp' Hn Hn' H. unfold buildCanonicalString, line in H.
  apply first_separator in H as [E1 H]; [|by apply upper_no_newline..].
  apply first_separator in H as [E2 H]; [|done..].
  apply first_separator in H as [E3 H]; [|apply num_text_no_newline..].
  apply first_separator in H as [E4 E5]; [|by apply nonce_no_newline..].
  split_and!; try done. destruct (num_text_inj (ca_timestamp c) (ca_timestamp c') EmptyString EmptyString) as [? _]; try done.
  by rewrite !append_nil_r.
Qed.

(** A collision of one of the digests. *)
Definition signing_collision : Prop :=
  (exists x y, x <> y /\ sha256 x = sha256 y) \/ (exists k x y, x <> y /\ hmac k x = hmac k y).

Lemma verified secret now w q ts :
  verifySignature secret now w q = Ok ts ->
  parseTimestamp (sg_timestamp q) = Some ts /\ Z.abs (now - ts) <= w /\ nonce_ok (sg_nonce q) = true /\
  sg_signature q = computeSignature (deriveSigningKey secret) (buildCanonicalString (canonical_of q ts (bodyDigest (sg_body q)))).
Proof.
  unfold verifySignature. destruct (parseTimestamp _) as [ts'|]; [|done]. intros H. run_result. reflect_hyps.
  split_and!; [done|lia|done|]. by apply String.eqb_eq.
Qed.

(** A signature covers the whole request: two requests accepted under one secret
    with the same signature have the same method up to case, path, timestamp, nonce
    and body, an absent body being the empty one, whatever the clocks; unless a digest
    has a collision. *)
Theorem signature_covers_request secret now now' w w' q q' ts ts' :
  has_char newline (sg_method q) = false -> has_char newline (sg_method q') = false ->
  has_char newline (sg_path q) = false -> has_char newline (sg_path q') = false ->
  verifySignature secret now w q = Ok ts -> verifySignature secret now' w' q' = Ok ts' ->
  sg_signature q = sg_signature q' ->
  signing_collision \/
  (toUpperCase (sg_method q) = toUpperCase (sg_method q') /\ sg_path q = sg_path q' /\ ts = ts' /\
   sg_nonce q = sg_nonce q' /\ default EmptyString (sg_body q) = default EmptyString (sg_body q')).
Proof.
  intros Hm Hm' Hp Hp' (_ & _ & Hn & Hs)%verified (_ & _ & Hn' & Hs')%verified Heq.
  rewrite Hs, Hs' in Heq. apply (append_inj "v1=") in Heq.
  match type of Heq with hmac ?k ?x = hmac ?k ?y => destruct (decide (x = y)) as [E|Hne]; [|left; right; eauto 10] end.
  destruct (canonical_inj (canonical_of q ts (bodyDigest (sg_body q))) (canonical_of q' ts' (bodyDigest (sg_body q')))
    Hm Hm' Hp Hp' Hn Hn' E) as (E1 & E2 & E3 & E4 & E5). cbn in E1, E2, E3, E4, E5.
  unfold bodyDigest in E5.
  destruct (decide (default EmptyString (sg_body q) = default EmptyString (sg_body q'))) as [|Hne]; [by right|].
  left. left. eauto.
Qed.

(** ** Replays *)

(** The nonce an event spends, with the instant its row expires. *)
Definition spends (e : NonceEvent) : option (string * string * Z) :=
  match e with
  | RequestAccepted keyId nonce ts _ | NonceSpent keyId nonce ts =>
      Some (keyId, nonce, (ts + DEFAULT_CLOCK_WINDOW_SECONDS) * 1000)
  | Purged _ => None
  end.
Definition purged_after (expiry : Z) (l : list NonceEvent) : Prop := exists p, Purged p ∈ l /\ expiry < p.

(** Every nonce spent is in the table, or was purged after it expired. *)
Definition nonce_kept (s : NonceSys) : Prop :=
  forall l1 e l2 keyId nonce expiry, ns_log s = l1 ++ e :: l2 -> spends e = Some (keyId, nonce, expiry) ->
    purged_after expiry l2 \/ {| nr_nonceHash := hashNonce keyId nonce; nr_apiKeyId := keyId; nr_expiresAt := expiry |} ∈ ns_table s.

(** Two events that spend one nonce have a purge between them. *)
Definition spent_once (l : list NonceEvent) : Prop :=
  forall l1 e l2 e' l3 keyId nonce expiry expiry', l = l1 ++ e :: l2 ++ e' :: l3 ->
    spends e = Some (keyId, nonce, expiry) -> spends e' = Some (keyId, nonce, expiry') -> purged_after expiry l2.

Lemma claim_true keyId nonce ts t t' :
  claimNonce keyId nonce ts t = (true, t') ->
  (hashNonce keyId nonce ∉ nr_nonceHash <$> t) /\
  t' = t ++ [{| nr_nonceHash := hashNonce keyId nonce; nr_apiKeyId := keyId;
                nr_expiresAt := (ts + DEFAULT_CLOCK_WINDOW_SECONDS) * 1000 |}].
Proof. unfold claimNonce. case_bool_decide; [done|]. by intros [= <-]. Qed.

Lemma diagnose_consumed keyId secret i nowMs t f t' nonce ts :
  diagnose keyId secret i nowMs t = (f, CONSUMED, t') -> di_nonce i = Some nonce -> di_timestamp i ≫= parseTimestamp = Some ts ->
  claimNonce keyId nonce ts t = (true, t').
Proof.
  unfold diagnose. intros H Hn Ht. rewrite Hn, Ht in H. destruct (dr_nonceClaimable _).
  - destruct (claimNonce keyId nonce ts t) as [[|] t1]; by simplify_eq.
  - unfold diagnoseSignature in H. destruct (compareCanonical _ _). cbn in H.
    destruct (headerStatus (di_nonce i) nonce_ok); by simplify_eq.
Qed.

(** Adding an event at the end of the log. *)
Lemma snoc_cases {A} (l : list A) x l1 y l2 :
  l ++ [x] = l1 ++ y :: l2 -> (l2 = [] /\ y = x /\ l1 = l) \/ exists k, l2 = k ++ [x] /\ l = l1 ++ y :: k.
Proof.
  intros H. destruct l2 as [|z l2 _] using rev_ind.
  - left. apply app_inj_tail in H as [-> ->]. done.
  - right. exists l2. rewrite app_comm_cons, app_assoc in H. apply app_inj_tail in H as [-> ->]. done.
Qed.

Lemma nonce_claim_inv s e keyId nonce ts t w :
  spends e = Some (keyId, nonce, (ts + DEFAULT_CLOCK_WINDOW_SECONDS) * 1000) -> claimNonce keyId nonce ts (ns_table s) = (true, t) ->
  nonce_kept s -> spent_once (ns_log s) ->
  nonce_kept {| ns_table := t; ns_waiting := w; ns_log := ns_log s ++ [e] |} /\ spent_once (ns_log s ++ [e]).
Proof.
  intros He [Hfresh ->]%claim_true Hk Ho. split.
  - intros l1 x l2 k n exp Hl Hx. cbn in *. apply snoc_cases in Hl as [(-> & -> & ->)|(m & -> & Hl)].
    + right. rewrite He in Hx. injection Hx as <- <- <-. set_solver.
    + destruct (Hk _ _ _ _ _ _ Hl Hx) as [(p & Hp & Hlt)|Hin]; [left; exists p; set_solver|right; set_solver].
  - intros l1 x l2 y l3 k n exp exp' Hl Hx Hy. rewrite app_comm_cons, app_assoc in Hl.
    apply snoc_cases in Hl as [(-> & -> & Hl)|(m & -> & Hl)].
    + rewrite He in Hy. injection Hy as <- <- <-.
      destruct (Hk l1 x l2 keyId nonce exp) as [?|Hin]; [done|done|done|]. exfalso. apply Hfresh.
      apply list_elem_of_fmap. eexists. split; [|exact Hin]. done.
    + rewrite <- app_assoc in Hl. by eapply Ho.
Qed.

Lemma nonce_step_inv s s' :
  nonce_step s s' -> nonce_kept s /\ spent_once (ns_log s) -> nonce_kept s' /\ spent_once (ns_log s').
Proof.
  destruct 1; intros [Hk Ho]; try done.
  - by eapply nonce_claim_inv.
  - eapply nonce_claim_inv; [|by eapply diagnose_consumed|done|done]. done.
  - split.
    + intros l1 x l2 k n exp Hl Hx. cbn in *. apply snoc_cases in Hl as [(-> & -> & ->)|(m & -> & Hl)]; [done|].
      destruct (Hk _ _ _ _ _ _ Hl Hx) as [(p & Hp & Hlt)|Hin]; [left; exists p; set_solver|].
      destruct (Z.ltb_spec exp nowMs); [left; exists nowMs; set_solver|right].
      apply elem_of_filter_bool. split; [done|]. cbn. apply negb_true_iff. by apply Z.ltb_ge.
    + intros l1 x l2 y l3 k n exp exp' Hl Hx Hy. cbn in Hl. rewrite app_comm_cons, app_assoc in Hl.
      apply snoc_cases in Hl as [(-> & -> & Hl)|(m & -> & Hl)]; [done|]. rewrite <- app_assoc in Hl. by eapply Ho.
Qed.

(** C16: A nonce is spent once: of all the signed requests and diagnostics a key makes
    with one nonce, in any interleaving of checks, claims, diagnostics and purges, two
    are accepted only if a purge ran between their claims later than the first one's
    timestamp plus the window; in particular a captured request cannot be replayed
    while no purge runs. *)
Theorem nonce_spent_once s l1 e l2 e' l3 keyId nonce expiry expiry' :
  rtc nonce_step {| ns_table := []; ns_waiting := []; ns_log := [] |} s ->
  ns_log s = l1 ++ e :: l2 ++ e' :: l3 ->
  spends e = Some (keyId, nonce, expiry) -> spends e' = Some (keyId, nonce, expiry') ->
  exists p, Purged p ∈ l2 /\ expiry < p.
Proof.
  intros Hrun Hl He He'.
  assert (nonce_kept s /\ spent_once (ns_log s)) as [_ Ho].
  { eapply (rtc_invariant nonce_step (fun s => nonce_kept s /\ spent_once (ns_log s))); [apply nonce_step_inv|exact Hrun|].
    split; [intros [|] ? ? ? ? ? Hnil; discriminate|intros [|] ? ? ? ? ? ? ? ? Hnil; discriminate]. }
  exact (Ho l1 e l2 e' l3 keyId nonce expiry expiry' Hl He He').
Qed.
End signing.

(** ** Examples *)

Module DemoSigning.
Definition digest (s : string) : string := s.
(** A keyed digest for the examples, in 64 hexadecimal digits: the length of the
    message. *)
Definition mac (_ m : string) : string := pad_start 64 "0"%char (dec_string (Z.of_nat (String.length m))).
Definition nonce : string := "abc123def456ghi7".
Definition input (timestamp : string) : DiagnosticInput :=
  let canonical := buildCanonicalString {| ca_method := "GET"; ca_path := "/api/v1/proofs"; ca_timestamp := 1724400000;
                     ca_nonce := nonce; ca_bodySha256 := bodyDigest digest None |} in
  {| di_method := "GET"; di_path := "/api/v1/proofs"; di_body := None; di_bodySha256 := None;
     di_signature := Some (computeSignature mac (deriveSigningKey mac "secret") canonical); di_timestamp := Some timestamp;
     di_nonce := Some nonce; di_declaredCanonical := Some canonical |}.
Definition request : SigningRequest := request_of "k1" "secret" (input "1724400000") None.
Definition signed : Signed :=
  {| sg_method := "GET"; sg_path := "/api/v1/proofs"; sg_timestamp := "1724400000"; sg_nonce := nonce;
     sg_signature := default EmptyString (sq_signature request); sg_body := None |}.
Abbreviation step := (nonce_step digest mac).
Definition start : NonceSys := {| ns_table := []; ns_waiting := []; ns_log := [] |}.
End DemoSigning.

Lemma diagnostics_agree_with_guard_witness :
  dr_failureCategory (diagnoseSignature DemoSigning.digest DemoSigning.mac "secret" (DemoSigning.input "1724400000")
    (1724400010500 / 1000) DEFAULT_CLOCK_WINDOW_SECONDS) = None /\
  guard_reason (signing_guard DemoSigning.digest DemoSigning.mac false 1724400010500
    (request_of "k1" "secret" (DemoSigning.input "1724400000") None)) = None.
Proof.
  assert ("secret" <> EmptyString) as Hs by discriminate.
  pose proof (diagnostics_agree_with_guard DemoSigning.digest DemoSigning.mac false "k1" "secret" (DemoSigning.input "1724400000")
    None 1724400010500 [] Hs eq_refl) as [H _].
  split; [vm_compute; reflexivity|]. transitivity (dr_failureCategory (diagnoseSignature DemoSigning.digest
    DemoSigning.mac "secret" (DemoSigning.input "1724400000") (1724400010500 / 1000) DEFAULT_CLOCK_WINDOW_SECONDS)).
  - symmetry. exact H.
  - vm_compute. reflexivity.
Defined.

Lemma signature_covers_request_witness :
  exists ts, verifySignature DemoSigning.digest DemoSigning.mac "secret" 1724400010 300 DemoSigning.signed = Ok ts /\
  (signing_collision DemoSigning.digest DemoSigning.mac \/ sg_path DemoSigning.signed = "/api/v1/proofs").
Proof.
  assert (verifySignature DemoSigning.digest DemoSigning.mac "secret" 1724400010 300 DemoSigning.signed = Ok 1724400000) as H
    by by vm_compute.
  exists 1724400000. split; [exact H|].
  destruct (signature_covers_request DemoSigning.digest DemoSigning.mac "secret" 1724400010 1724400010 300 300 DemoSigning.signed
    DemoSigning.signed 1724400000 1724400000) as [Hc|_]; [done..|by left|by right].
Defined.

(** The last second of the window: the row of an accepted request expires before its
    timestamp is stale, so that after a purge the same request is accepted again. *)
Lemma replay_after_purge :
  exists s, rtc DemoSigning.step DemoSigning.start s /\
    ns_log s = [RequestAccepted "k1" DemoSigning.nonce 1724400000 DemoSigning.signed; Purged 1724400300600;
                RequestAccepted "k1" DemoSigning.nonce 1724400000 DemoSigning.signed].
Proof.
  eexists. split.
  { run_step (eapply (nonce_checked _ _ _ true 1724400300500 DemoSigning.request); computes).
    run_step (eapply (nonce_claimed _ _ _ []); [reflexivity|computes]).
    run_step (apply (nonce_purged _ _ _ 1724400300600)).
    run_step (eapply (nonce_checked _ _ _ true 1724400300700 DemoSigning.request); computes).
    run_step (eapply (nonce_claimed _ _ _ []); [reflexivity|computes]).
    apply rtc_refl. }
  by vm_compute.
Qed.

Lemma nonce_spent_once_witness :
  exists p, Purged p ∈ [Purged 1724400300600] /\ 1724400300000 < p.
Proof.
  destruct replay_after_purge as (s & Hrun & Hl).
  exact (nonce_spent_once DemoSigning.digest DemoSigning.mac s [] (RequestAccepted "k1" DemoSigning.nonce 1724400000 DemoSigning.signed)
    [Purged 1724400300600] (RequestAccepted "k1" DemoSigning.nonce 1724400000 DemoSigning.signed) [] "k1" DemoSigning.nonce 1724400300000
    1724400300000 Hrun Hl eq_refl eq_refl).
Defined.

(** A request dated ahead of the window is diagnosed without spending its nonce, and
    is accepted once its time comes. *)
Lemma diagnosed_early_then_accepted :
  exists s f, diagnose DemoSigning.digest DemoSigning.mac "k1" "secret" (DemoSigning.input "1724400000") 1724399699000 [] =
      (f, NOT_EVALUATED, []) /\
    rtc DemoSigning.step DemoSigning.start s /\
    ns_log s = [RequestAccepted "k1" DemoSigning.nonce 1724400000 DemoSigning.signed].
Proof.
  eexists _, _. split; [computes|]. split.
  { run_step (eapply (nonce_checked _ _ _ true 1724399700000 DemoSigning.request); computes).
    run_step (eapply (nonce_claimed _ _ _ []); [reflexivity|computes]).
    apply rtc_refl. }
  by vm_compute.
Qed.
