(* ===== verification/Organizations.v ===== *)
(** * Organizations and their members

    Model of [src/organizations/organizations.service.ts] (profiles),
    [organization-members.service.ts] and [guards/organization-member.guard.ts],
    and the tables the other services of [src/organizations] share.  Each function
    is what a handler does with the answer of one query; [OrganizationSystem] puts
    them in sequence, with other requests in between.  A foreign key whose row is
    still referenced refuses the delete. *)

From S2P Require Import Prelude JsData Encoding IsoDate Canonical Schema AuditChain Accounts Idempotency WebhookStore ApiKeys.

Local Open Scope string_scope.
Local Open Scope Z_scope.
Local Open Scope list_scope.

Module OrganizationMemberRole.
Inductive t := OWNER | ADMIN | MEMBER | VIEWER.
#[export] Instance t_eq_dec : EqDecision t.
Proof. solve_decision. Defined.
Definition text (r : t) : string :=
  match r with OWNER => "OWNER" | ADMIN => "ADMIN" | MEMBER => "MEMBER" | VIEWER => "VIEWER" end.
End OrganizationMemberRole.

Module InvitationStatus.
Inductive t := PENDING | ACCEPTED | DECLINED | REVOKED | EXPIRED.
#[export] Instance t_eq_dec : EqDecision t.
Proof. solve_decision. Defined.
End InvitationStatus.

Module ImportStatus.
Inductive t := PENDING | PROCESSING | COMPLETED | CANCELLED | FAILED.
#[export] Instance t_eq_dec : EqDecision t.
Proof. solve_decision. Defined.
End ImportStatus.

Module ImportRowResult.
Inductive t := ACCEPTED | NO_OP | REJECTED | FAILED.
#[export] Instance t_eq_dec : EqDecision t.
Proof. solve_decision. Defined.
End ImportRowResult.

Module CampaignStatus.
Inductive t := OPEN | COMPLETED | CANCELLED.
#[export] Instance t_eq_dec : EqDecision t.
Proof. solve_decision. Defined.
End CampaignStatus.

Module ReviewDecision.
Inductive t := CONFIRM | ROLE_CHANGE | REMOVE.
#[export] Instance t_eq_dec : EqDecision t.
Proof. solve_decision. Defined.
Definition text (r : t) : string :=
  match r with CONFIRM => "CONFIRM" | ROLE_CHANGE => "ROLE_CHANGE" | REMOVE => "REMOVE" end.
End ReviewDecision.
Export (hints) OrganizationMemberRole InvitationStatus ImportStatus ImportRowResult CampaignStatus ReviewDecision.

(** ** Tables *)

Record Organization := {
  og_id : string;
  og_name : string;
  og_slug : string;
  og_website : option string;
  og_status : ResourceStatus.t;
  og_revision : Z;
  og_createdById : string;
  og_archivedAt : option Z;
  og_legalHoldAt : option Z;
  og_legalHoldReference : option string;
  og_deletedAt : option Z;
}.

Record Member := {
  mb_id : string;
  mb_organizationId : string;
  mb_userId : string;
  mb_role : OrganizationMemberRole.t;
  mb_status : ResourceStatus.t;
  mb_joinedAt : option Z;
}.

Record Invitation := {
  in_id : string;
  in_organizationId : string;
  in_role : OrganizationMemberRole.t;
  in_inviterId : string;
  in_recipientWalletAddress : string;
  in_recipientWalletHash : string;
  in_secretHash : string;
  in_status : InvitationStatus.t;
  in_expiresAt : Z;
  in_accepted : option (Z * string);               (* [acceptedAt], [acceptedById] *)
  in_declined : option (Z * string);
  in_revoked : option (Z * string);
}.

Record ImportJob := {
  ij_id : string;
  ij_organizationId : string;
  ij_createdById : string;
  ij_version : string;
  ij_filename : option string;
  ij_rowCount : Z;
  ij_status : ImportStatus.t;
  ij_progress : Z;
  ij_cancelledAt : option Z;
  ij_completedAt : option Z;
  ij_errorMessage : option string;
}.

Record ImportResult := {
  im_id : string;
  im_importJobId : string;
  im_rowIndex : Z;
  im_walletAddress : string;
  im_requestedRole : OrganizationMemberRole.t;
  im_result : ImportRowResult.t;
  im_reasonCode : option string;
  im_errorMessage : option string;
  im_processedAt : option Z;
}.

Record Campaign := {
  cp_id : string;
  cp_organizationId : string;
  cp_createdById : string;
  cp_name : string;
  cp_description : option string;
  cp_status : CampaignStatus.t;
  cp_snapshotVersion : Z;
  cp_completedAt : option Z;
  cp_cancelledAt : option Z;
}.

Record ReviewEntry := {
  re_id : string;
  re_campaignId : string;
  re_memberId : string;
  re_snapshotRole : OrganizationMemberRole.t;
  re_decision : option ReviewDecision.t;
  re_recommendedRole : option OrganizationMemberRole.t;
  re_reviewed : option (Z * string);               (* [reviewedAt], [reviewedById] *)
  re_appliedAt : option Z;
  re_conflictDetected : bool;
  re_notes : option string;
}.

(** The columns of an issuer the lifecycle reads. *)
Record IssuerRow := {
  iw_id : string;
  iw_organizationId : string;
  iw_status : ResourceStatus.t;
  iw_contractSyncedStatus : option ResourceStatus.t;
}.

(** What an organization owns and its deletion looks at. *)
Record Owned := {
  ow_issuers : list IssuerRow;
  ow_keys : list ApiKey;
  ow_webhooks : list Webhook;
  ow_deliveries : list Delivery;
  ow_challenges : list Challenge;
  ow_certificates : list string;                   (* [webhookId] of each client certificate *)
  ow_idempotency : list IdempotencyRecord;
}.

Record OrgDb := {
  od_orgs : list Organization;
  od_members : list Member;
  od_invitations : list Invitation;
  od_users : list Account;
  od_sessions : list AuthSession;
  od_imports : list ImportJob;
  od_results : list ImportResult;
  od_campaigns : list Campaign;
  od_entries : list ReviewEntry;
  od_owned : Owned;
  od_orgAudit : AuditDb;
}.

Definition set_orgs (x : list Organization) (d : OrgDb) : OrgDb :=
  {| od_orgs := x; od_members := od_members d; od_invitations := od_invitations d; od_users := od_users d;
     od_sessions := od_sessions d; od_imports := od_imports d; od_results := od_results d; od_campaigns := od_campaigns d;
     od_entries := od_entries d; od_owned := od_owned d; od_orgAudit := od_orgAudit d |}.
Definition set_members (x : list Member) (d : OrgDb) : OrgDb :=
  {| od_orgs := od_orgs d; od_members := x; od_invitations := od_invitations d; od_users := od_users d;
     od_sessions := od_sessions d; od_imports := od_imports d; od_results := od_results d; od_campaigns := od_campaigns d;
     od_entries := od_entries d; od_owned := od_owned d; od_orgAudit := od_orgAudit d |}.
Definition set_invitations (x : list Invitation) (d : OrgDb) : OrgDb :=
  {| od_orgs := od_orgs d; od_members := od_members d; od_invitations := x; od_users := od_users d;
     od_sessions := od_sessions d; od_imports := od_imports d; od_results := od_results d; od_campaigns := od_campaigns d;
     od_entries := od_entries d; od_owned := od_owned d; od_orgAudit := od_orgAudit d |}.
Definition set_people (us : list Account) (ss : list AuthSession) (d : OrgDb) : OrgDb :=
  {| od_orgs := od_orgs d; od_members := od_members d; od_invitations := od_invitations d; od_users := us;
     od_sessions := ss; od_imports := od_imports d; od_results := od_results d; od_campaigns := od_campaigns d;
     od_entries := od_entries d; od_owned := od_owned d; od_orgAudit := od_orgAudit d |}.
Definition set_imports (js : list ImportJob) (rs : list ImportResult) (d : OrgDb) : OrgDb :=
  {| od_orgs := od_orgs d; od_members := od_members d; od_invitations := od_invitations d; od_users := od_users d;
     od_sessions := od_sessions d; od_imports := js; od_results := rs; od_campaigns := od_campaigns d;
     od_entries := od_entries d; od_owned := od_owned d; od_orgAudit := od_orgAudit d |}.
Definition set_reviews (cs : list Campaign) (es : list ReviewEntry) (d : OrgDb) : OrgDb :=
  {| od_orgs := od_orgs d; od_members := od_members d; od_invitations := od_invitations d; od_users := od_users d;
     od_sessions := od_sessions d; od_imports := od_imports d; od_results := od_results d; od_campaigns := cs;
     od_entries := es; od_owned := od_owned d; od_orgAudit := od_orgAudit d |}.
Definition set_owned (x : Owned) (d : OrgDb) : OrgDb :=
  {| od_orgs := od_orgs d; od_members := od_members d; od_invitations := od_invitations d; od_users := od_users d;
     od_sessions := od_sessions d; od_imports := od_imports d; od_results := od_results d; od_campaigns := od_campaigns d;
     od_entries := od_entries d; od_owned := x; od_orgAudit := od_orgAudit d |}.
Definition set_org_audit (x : AuditDb) (d : OrgDb) : OrgDb :=
  {| od_orgs := od_orgs d; od_members := od_members d; od_invitations := od_invitations d; od_users := od_users d;
     od_sessions := od_sessions d; od_imports := od_imports d; od_results := od_results d; od_campaigns := od_campaigns d;
     od_entries := od_entries d; od_owned := od_owned d; od_orgAudit := x |}.

Inductive OrgError :=
| OrgNotFound                    (* 404 *)
| OrgForbidden                   (* 403 *)
| OrgConflict                    (* 409 *)
| OrgBadRequest                  (* 400 *)
| OrgForeignKey                  (* P2003 *)
| OrgFailure                     (* 500 *)
| OrgDbFailed (e : DbError).

Definition org_db {A} (m : result DbError A) : result OrgError A :=
  match m with Ok x => Ok x | Err e => Err (OrgDbFailed e) end.

(** Rows by their keys. *)
Definition has_org_id (id : string) (o : Organization) : bool := bool_decide (og_id o = id).
Definition has_slug (slug : string) (o : Organization) : bool := bool_decide (og_slug o = slug).
Definition has_member_id (id : string) (m : Member) : bool := bool_decide (mb_id m = id).
Definition member_of (org user : string) (m : Member) : bool :=
  bool_decide (mb_organizationId m = org) && bool_decide (mb_userId m = user).
Definition owner_of (org : string) (m : Member) : bool :=
  bool_decide (mb_organizationId m = org) && bool_decide (mb_role m = OrganizationMemberRole.OWNER).
Definition find_org (id : string) (d : OrgDb) : option Organization := find_where (has_org_id id) (od_orgs d).
Definition find_member (org user : string) (d : OrgDb) : option Member := find_where (member_of org user) (od_members d).
Definition has_account_id (id : string) (a : Account) : bool := bool_decide (ac_id a = id).
Definition has_wallet (wallet : string) (a : Account) : bool := bool_decide (ac_walletAddress a = wallet).

(** [update({ where: { id }, data })] *)
Definition update_one {R} (p : R -> bool) (f : R -> R) (t : list R) : result OrgError (list R) :=
  _ ← throw_if (count_where p t =? 0)%nat (OrgDbFailed P2025);
  Ok (update_where p f t).

(** [organizationMember.create] *)
Definition create_member (m : Member) (d : OrgDb) : result OrgError OrgDb :=
  _ ← throw_if (bool_decide (mb_id m ∈ mb_id <$> od_members d) ||
                bool_decide ((mb_organizationId m, mb_userId m) ∈ (fun x => (mb_organizationId x, mb_userId x)) <$> od_members d))
        (OrgDbFailed P2002);
  _ ← throw_if (negb (bool_decide (mb_organizationId m ∈ og_id <$> od_orgs d)) ||
                negb (bool_decide (mb_userId m ∈ ac_id <$> od_users d))) OrgForeignKey;
  Ok (set_members (od_members d ++ [m]) d).

(** [organizationMember.delete]: the entries of access reviews restrict it. *)
Definition delete_member (id : string) (d : OrgDb) : result OrgError OrgDb :=
  _ ← throw_if (count_where (has_member_id id) (od_members d) =? 0)%nat (OrgDbFailed P2025);
  _ ← throw_if (bool_decide (id ∈ re_memberId <$> od_entries d)) OrgForeignKey;
  Ok (set_members (List.filter (fun m => negb (has_member_id id m)) (od_members d)) d).

(** The caller a session guard attaches to the request. *)
Record Caller := { cl_id : string; cl_walletAddress : string; cl_role : UserRole.t }.
Definition global_admin (u : Caller) : bool := bool_decide (cl_role u = UserRole.ADMIN).

(** [createAuditLog] of the services of this directory: no organization column,
    so the record goes to the system chain. *)
Definition org_audit (u : Caller) (action resourceType resourceId : string) (organizationId : option string)
    (metadata : json) (now : Z) : AuditArgs :=
  {| aa_organizationId := organizationId; aa_actorType := "User"; aa_actorId := Some (cl_id u); aa_action := action;
     aa_resourceType := resourceType; aa_resourceId := Some resourceId; aa_metadata := Some metadata;
     aa_createdAt := Some now |}.

(** ** Members *)

Definition getMemberRole (userId org : string) (d : OrgDb) : option OrganizationMemberRole.t :=
  mb_role <$> find_member org userId d.

Definition canManageOrganization (u : Caller) (org : string) (d : OrgDb) : bool :=
  global_admin u ||
  match getMemberRole (cl_id u) org d with
  | Some OrganizationMemberRole.OWNER | Some OrganizationMemberRole.ADMIN => true
  | _ => false
  end.

Definition canViewOrganization (u : Caller) (org : string) (d : OrgDb) : bool :=
  global_admin u ||
  match find_org org d with Some o => bool_decide (og_createdById o = cl_id u) | None => false end ||
  bool_decide (is_Some (getMemberRole (cl_id u) org d)).

Definition ensureCanManageOrganization (u : Caller) (org : string) (d : OrgDb) : result OrgError unit :=
  throw_if (negb (canManageOrganization u org d)) OrgForbidden.

Definition ensureIsOrganizationOwner (u : Caller) (org : string) (d : OrgDb) : result OrgError unit :=
  throw_if (negb (global_admin u || bool_decide (getMemberRole (cl_id u) org d = Some OrganizationMemberRole.OWNER)))
    OrgForbidden.

(** [OrganizationMemberGuard] *)
Definition role_rank (r : OrganizationMemberRole.t) : Z :=
  match r with
  | OrganizationMemberRole.OWNER => 4 | OrganizationMemberRole.ADMIN => 3
  | OrganizationMemberRole.MEMBER => 2 | OrganizationMemberRole.VIEWER => 1
  end.
Definition hasRequiredRole (userRole requiredRole : OrganizationMemberRole.t) : bool :=
  role_rank requiredRole <=? role_rank userRole.

Definition extractOrganizationId (organizationId id orgId : option string) : option string :=
  match organizationId, id, orgId with
  | Some (String _ _ as x), _, _ => Some x
  | _, Some (String _ _ as x), _ => Some x
  | _, _, Some (String _ _ as x) => Some x
  | _, _, _ => None
  end.

Definition member_guard (u : Caller) (org : option string) (required : option OrganizationMemberRole.t) (d : OrgDb)
    : result OrgError unit :=
  if global_admin u then Ok tt else
  match required with
  | None => Ok tt
  | Some requiredRole =>
      match org with
      | None => Err OrgNotFound
      | Some org =>
          match getMemberRole (cl_id u) org d with
          | None => Err OrgForbidden
          | Some userRole => throw_if (negb (hasRequiredRole userRole requiredRole)) OrgForbidden
          end
      end
  end.

(** [assignMember], after the permission check. *)
Definition assign_user (userId : string) (d : OrgDb) : result OrgError unit :=
  throw_if (bool_decide (find_where (has_account_id userId) (od_users d) = None)) OrgNotFound.
Definition assign_check (org userId : string) (d : OrgDb) : result OrgError unit :=
  throw_if (bool_decide (is_Some (find_member org userId d))) OrgConflict.
Definition new_member (id org userId : string) (role : OrganizationMemberRole.t) (now : Z) : Member :=
  {| mb_id := id; mb_organizationId := org; mb_userId := userId; mb_role := role; mb_status := ResourceStatus.ACTIVE;
     mb_joinedAt := Some now |}.
Definition assign_audit (u : Caller) (m : Member) (now : Z) : AuditArgs :=
  org_audit u "CREATE" "OrganizationMember" (mb_id m) None
    (JObj [("organizationId", JStr (mb_organizationId m)); ("userId", JStr (mb_userId m));
           ("role", JStr (OrganizationMemberRole.text (mb_role m)))]) now.

(** The member named in the route of [updateMemberRole] and [removeMember]. *)
Definition load_member (org memberId : string) (d : OrgDb) : result OrgError Member :=
  match find_where (has_member_id memberId) (od_members d) with
  | Some m => if bool_decide (mb_organizationId m = org) then Ok m else Err OrgNotFound
  | None => Err OrgNotFound
  end.

Definition owner_count (org : string) (d : OrgDb) : nat := count_where (owner_of org) (od_members d).
Definition final_owner_check (org : string) (d : OrgDb) : result OrgError unit :=
  throw_if (owner_count org d =? 1)%nat OrgForbidden.

Definition demotes (m : Member) (role : OrganizationMemberRole.t) : bool :=
  bool_decide (mb_role m = OrganizationMemberRole.OWNER) && negb (bool_decide (role = OrganizationMemberRole.OWNER)).

Definition with_role (role : OrganizationMemberRole.t) (m : Member) : Member :=
  {| mb_id := mb_id m; mb_organizationId := mb_organizationId m; mb_userId := mb_userId m; mb_role := role;
     mb_status := mb_status m; mb_joinedAt := mb_joinedAt m |}.
Definition member_role_write (memberId : string) (role : OrganizationMemberRole.t) (d : OrgDb) : result OrgError OrgDb :=
  ms ← update_one (has_member_id memberId) (with_role role) (od_members d);
  Ok (set_members ms d).
Definition role_audit (u : Caller) (org : string) (m : Member) (role : OrganizationMemberRole.t) (now : Z) : AuditArgs :=
  org_audit u "UPDATE" "OrganizationMember" (mb_id m) None
    (JObj [("organizationId", JStr org); ("userId", JStr (mb_userId m));
           ("oldRole", JStr (OrganizationMemberRole.text (mb_role m)));
           ("newRole", JStr (OrganizationMemberRole.text role))]) now.
Definition remove_audit (u : Caller) (org : string) (m : Member) (now : Z) : AuditArgs :=
  org_audit u "DELETE" "OrganizationMember" (mb_id m) None
    (JObj [("organizationId", JStr org); ("userId", JStr (mb_userId m));
           ("role", JStr (OrganizationMemberRole.text (mb_role m)))]) now.

(** [invalidateUserSessions]: the sessions it finds, and one of its updates. *)
Definition live_session_ids (userId : string) (d : OrgDb) : list string :=
  (fun x => as_id x) <$> List.filter (fun x => String.eqb (as_userId x) userId && unrevoked x) (od_sessions d).
Definition session_revoke (id : string) (now : Z) (d : OrgDb) : result OrgError OrgDb :=
  ss ← update_one (fun x => String.eqb (as_id x) id) (revoke_session now) (od_sessions d);
  Ok (set_people (od_users d) ss d).

(** [listMembers]; the order is [createdAt] descending, the reverse of the table. *)
Definition listMembers (u : Caller) (org : string) (role : option OrganizationMemberRole.t)
    (status : option ResourceStatus.t) (page limit : option Z) (d : OrgDb) : result OrgError (list Member * nat) :=
  _ ← throw_if (negb (canViewOrganization u org d)) OrgNotFound;
  let page := match page with Some 0 | None => 1 | Some n => n end in
  let limit := Z.min (match limit with Some 0 | None => 20 | Some n => n end) 100 in
  let selected := List.filter (fun m =>
    bool_decide (mb_organizationId m = org) &&
    match role with Some r => bool_decide (mb_role m = r) | None => true end &&
    match status with Some st => bool_decide (mb_status m = st) | None => true end) (od_members d) in
  Ok (take (Z.to_nat limit) (drop (Z.to_nat ((page - 1) * limit)) (rev selected)), length selected).

(** ** Profiles *)

Definition slug_check (slug : string) (d : OrgDb) : result OrgError unit :=
  throw_if (bool_decide (is_Some (find_where (has_slug slug) (od_orgs d)))) OrgForbidden.
(** [website || null] *)
Definition text_or_null (s : string) : option string := match s with EmptyString => None | _ => Some s end.
Definition new_org (id name slug : string) (website : option string) (by_ : string) : Organization :=
  {| og_id := id; og_name := name; og_slug := slug; og_website := website ≫= text_or_null; og_status := ResourceStatus.PENDING;
     og_revision := 0; og_createdById := by_; og_archivedAt := None; og_legalHoldAt := None;
     og_legalHoldReference := None; og_deletedAt := None |}.
Definition create_org (o : Organization) (d : OrgDb) : result OrgError OrgDb :=
  _ ← throw_if (bool_decide (og_id o ∈ og_id <$> od_orgs d) || bool_decide (og_slug o ∈ og_slug <$> od_orgs d)) (OrgDbFailed P2002);
  _ ← throw_if (negb (bool_decide (og_createdById o ∈ ac_id <$> od_users d))) OrgForeignKey;
  Ok (set_orgs (od_orgs d ++ [o]) d).
Definition create_audit_args (u : Caller) (o : Organization) (now : Z) : AuditArgs :=
  org_audit u "CREATE" "Organization" (og_id o) None
    (JObj [("name", JStr (og_name o)); ("slug", JStr (og_slug o)); ("website", jopt (og_website o))]) now.

(** [UpdateOrganizationDto]; [website: null] is an empty text here, as
    [input.website || null] treats both alike. *)
Record ProfileInput := { pf_name : option string; pf_website : option string; pf_expectedRevision : Z }.

Definition update_allowed (o : Organization) : result OrgError unit :=
  throw_if (bool_decide (is_Some (og_archivedAt o)) || bool_decide (is_Some (og_deletedAt o))) OrgConflict.
Definition at_revision (id : string) (revision : Z) (o : Organization) : bool :=
  has_org_id id o && (og_revision o =? revision).
Definition with_profile (input : ProfileInput) (o : Organization) : Organization :=
  {| og_id := og_id o; og_name := match pf_name input with Some (String _ _ as n) => n | _ => og_name o end;
     og_slug := og_slug o;
     og_website := match pf_website input with Some w => text_or_null w | None => og_website o end;
     og_status := og_status o; og_revision := pf_expectedRevision input + 1; og_createdById := og_createdById o;
     og_archivedAt := og_archivedAt o; og_legalHoldAt := og_legalHoldAt o;
     og_legalHoldReference := og_legalHoldReference o; og_deletedAt := og_deletedAt o |}.
Definition profile_write (id : string) (input : ProfileInput) (d : OrgDb) : result OrgError OrgDb :=
  let p := at_revision id (pf_expectedRevision input) in
  _ ← throw_if (count_where p (od_orgs d) =? 0)%nat (match find_org id d with Some _ => OrgConflict | None => OrgNotFound end);
  Ok (set_orgs (update_where p (with_profile input) (od_orgs d)) d).
Definition profile_audit (u : Caller) (id : string) (input : ProfileInput) (revision now : Z) : AuditArgs :=
  org_audit u "UPDATE" "Organization" id None
    (JObj [("changes", JObj [("name", jundef (pf_name input)); ("website", jundef (pf_website input));
                             ("expectedRevision", JNum (pf_expectedRevision input))]);
           ("revision", JNum revision)]) now.

(** [deleteOrganization] of [OrganizationsService]: the status only. *)
Definition with_status (st : ResourceStatus.t) (o : Organization) : Organization :=
  {| og_id := og_id o; og_name := og_name o; og_slug := og_slug o; og_website := og_website o; og_status := st;
     og_revision := og_revision o; og_createdById := og_createdById o; og_archivedAt := og_archivedAt o;
     og_legalHoldAt := og_legalHoldAt o; og_legalHoldReference := og_legalHoldReference o; og_deletedAt := og_deletedAt o |}.
Definition mark_deleted (id : string) (d : OrgDb) : result OrgError OrgDb :=
  os ← update_one (has_org_id id) (with_status ResourceStatus.DELETED) (od_orgs d);
  Ok (set_orgs os d).
Definition mark_deleted_audit (u : Caller) (id : string) (now : Z) : AuditArgs :=
  org_audit u "DELETE" "Organization" id None (JObj [("deletedAt", jiso now)]) now.

(** [listOrganizations], without the issuer counts. *)
Definition listOrganizations (u : Caller) (status : option ResourceStatus.t) (page limit : option Z) (d : OrgDb)
    : list Organization * nat :=
  let page := match page with Some 0 | None => 1 | Some n => n end in
  let limit := Z.min (match limit with Some 0 | None => 20 | Some n => n end) 100 in
  let selected := List.filter (fun o =>
    match status with Some st => bool_decide (og_status o = st) | None => true end &&
    (global_admin u || bool_decide (og_createdById o = cl_id u) ||
     existsb (member_of (og_id o) (cl_id u)) (od_members d))) (od_orgs d) in
  (take (Z.to_nat limit) (drop (Z.to_nat ((page - 1) * limit)) (rev selected)), length selected).
