(* ===== verification/OrganizationLifecycle.v ===== *)
(** * The retirement of organizations

    Model of [src/organizations/organization-lifecycle.policy.ts] and
    [organization-lifecycle.service.ts], with the retention setting of
    [src/jobs/retention/retention-policy.ts] they read.  Every operation is one
    transaction: a conditional write on the row, or a row lock, orders it among the
    others.  Their audit records go through the delegate of the transaction. *)

From S2P Require Import Prelude JsData Calendar Encoding IsoDate Canonical Schema AuditChain Accounts Idempotency WebhookStore ApiKeys Organizations.

Local Open Scope string_scope.
Local Open Scope Z_scope.
Local Open Scope list_scope.

(** ** Retention *)

(** The environment variable of a class: unset or blank, not a whole number, or a
    number of days. *)
Inductive RetentionSetting := SettingAbsent | SettingNotInteger | SettingDays (days : Z).

Definition MINIMUM_RETENTION_DAYS : Z := 1.
Definition MAXIMUM_RETENTION_DAYS : Z := 3650.
Definition ARCHIVED_ORGANIZATION_DAYS : Z := 30.

Definition resolveRetentionDays (defaultDays : Z) (setting : RetentionSetting) : result OrgError Z :=
  match setting with
  | SettingAbsent => Ok defaultDays
  | SettingNotInteger => Err OrgFailure
  | SettingDays n =>
      _ ← throw_if (n <? MINIMUM_RETENTION_DAYS) OrgFailure;
      _ ← throw_if (MAXIMUM_RETENTION_DAYS <? n) OrgFailure;
      Ok n
  end.

Definition deletableAfter (setting : RetentionSetting) (archivedAt : Z) : result OrgError Z :=
  days ← resolveRetentionDays ARCHIVED_ORGANIZATION_DAYS setting;
  Ok (archivedAt + days * DAY_MS).
Definition archiveRetentionElapsed (setting : RetentionSetting) (archivedAt now : Z) : result OrgError bool :=
  limit ← deletableAfter setting archivedAt; Ok (limit <? now).

(** ** States *)

Inductive OrganizationLifecycleState := LIVE | ARCHIVED | DELETED.
#[export] Instance lifecycle_state_eq_dec : EqDecision OrganizationLifecycleState.
Proof. solve_decision. Defined.

Definition lifecycleStateOf (o : Organization) : OrganizationLifecycleState :=
  match og_deletedAt o, og_archivedAt o with
  | Some _, _ => DELETED
  | None, Some _ => ARCHIVED
  | None, None => LIVE
  end.

Definition DELETED_ORGANIZATION_NAME := "Deleted organization".

Inductive DeletionBlocker :=
| NOT_ARCHIVED
| ARCHIVE_RETENTION_PERIOD
| LEGAL_HOLD
| ACTIVE_ISSUERS (count : nat)
| ISSUER_REGISTRY_OUT_OF_SYNC (count : nat).

Record DeletionEligibility := {
  el_organizationId : string;
  el_lifecycleState : OrganizationLifecycleState;
  el_eligible : bool;
  el_blockers : list DeletionBlocker;
  el_deletableAfter : option Z;
}.

(** ** Transitions *)

Definition set_archive (t : option Z) (o : Organization) : Organization :=
  {| og_id := og_id o; og_name := og_name o; og_slug := og_slug o; og_website := og_website o; og_status := og_status o;
     og_revision := og_revision o; og_createdById := og_createdById o; og_archivedAt := t;
     og_legalHoldAt := og_legalHoldAt o; og_legalHoldReference := og_legalHoldReference o; og_deletedAt := og_deletedAt o |}.
Definition set_hold (hold : option (Z * string)) (o : Organization) : Organization :=
  {| og_id := og_id o; og_name := og_name o; og_slug := og_slug o; og_website := og_website o; og_status := og_status o;
     og_revision := og_revision o; og_createdById := og_createdById o; og_archivedAt := og_archivedAt o;
     og_legalHoldAt := fst <$> hold; og_legalHoldReference := snd <$> hold; og_deletedAt := og_deletedAt o |}.
Definition set_tombstone (now : Z) (o : Organization) : Organization :=
  {| og_id := og_id o; og_name := DELETED_ORGANIZATION_NAME; og_slug := og_slug o; og_website := None;
     og_status := ResourceStatus.DELETED; og_revision := og_revision o; og_createdById := og_createdById o;
     og_archivedAt := og_archivedAt o; og_legalHoldAt := og_legalHoldAt o;
     og_legalHoldReference := og_legalHoldReference o; og_deletedAt := Some now |}.

Definition lifecycle_audit (u : Caller) (id action : string) (metadata : json) : AuditArgs :=
  {| aa_organizationId := None; aa_actorType := "user"; aa_actorId := Some (cl_id u); aa_action := action;
     aa_resourceType := "Organization"; aa_resourceId := Some id; aa_metadata := Some metadata; aa_createdAt := None |}.
(** [tx.auditLog.create] *)
Definition audit_org_tx (auditId : string) (now : Z) (args : AuditArgs) (d : OrgDb) : result OrgError OrgDb :=
  rows ← org_db (createUnchained auditId now args (auditRows (od_orgAudit d)));
  Ok (set_org_audit {| auditRows := rows; cursors := cursors (od_orgAudit d) |} d).

Definition load (id : string) (d : OrgDb) : result OrgError Organization :=
  match find_org id d with Some o => Ok o | None => Err OrgNotFound end.

(** A conditional write that matched nothing: 404 or 409. *)
Definition explainRefusal (id : string) (d : OrgDb) : OrgError :=
  match load id d with Ok _ => OrgConflict | Err e => e end.

Definition transition (p : Organization -> bool) (f : Organization -> Organization) (id : string) (d : OrgDb)
    : result OrgError OrgDb :=
  _ ← throw_if (negb (count_where p (od_orgs d) =? 1)%nat) (explainRefusal id d);
  Ok (set_orgs (update_where p f (od_orgs d)) d).

Definition unset {A} (x : option A) : bool := match x with None => true | Some _ => false end.
Definition archivable (id : string) (o : Organization) : bool :=
  has_org_id id o && unset (og_archivedAt o) && unset (og_deletedAt o).
Definition restorable (id : string) (o : Organization) : bool :=
  has_org_id id o && negb (unset (og_archivedAt o)) && unset (og_deletedAt o).
Definition holdable (id : string) (o : Organization) : bool :=
  has_org_id id o && unset (og_legalHoldAt o) && unset (og_deletedAt o).
Definition releasable (id : string) (o : Organization) : bool :=
  has_org_id id o && negb (unset (og_legalHoldAt o)) && unset (og_deletedAt o).

Definition archive (u : Caller) (id auditId : string) (now : Z) (d : OrgDb) : result OrgError OrgDb :=
  d ← transition (archivable id) (set_archive (Some now)) id d;
  audit_org_tx auditId now (lifecycle_audit u id "organization.archived" (JObj [("archivedAt", jiso now)])) d.

Definition restore (u : Caller) (id auditId : string) (now : Z) (d : OrgDb) : result OrgError OrgDb :=
  d ← transition (restorable id) (set_archive None) id d;
  audit_org_tx auditId now (lifecycle_audit u id "organization.restored" (JObj [])) d.

Definition placeLegalHold (u : Caller) (id reference auditId : string) (now : Z) (d : OrgDb) : result OrgError OrgDb :=
  d ← transition (holdable id) (set_hold (Some (now, reference))) id d;
  audit_org_tx auditId now (lifecycle_audit u id "organization.legal_hold_placed" (JObj [("reference", JStr reference)])) d.

Definition releaseLegalHold (u : Caller) (id auditId : string) (now : Z) (d : OrgDb) : result OrgError OrgDb :=
  let reference := find_org id d ≫= og_legalHoldReference in
  d ← transition (releasable id) (set_hold None) id d;
  audit_org_tx auditId now (lifecycle_audit u id "organization.legal_hold_released" (JObj [("reference", jopt reference)])) d.

(** ** Deletion *)

Definition live_issuer_status (st : ResourceStatus.t) : bool :=
  bool_decide (st = ResourceStatus.ACTIVE) || bool_decide (st = ResourceStatus.PENDING).
Definition live_issuer (id : string) (i : IssuerRow) : bool :=
  bool_decide (iw_organizationId i = id) && live_issuer_status (iw_status i).
Definition unsynced_issuer (id : string) (i : IssuerRow) : bool :=
  bool_decide (iw_organizationId i = id) && negb (live_issuer_status (iw_status i)) &&
  bool_decide (iw_contractSyncedStatus i = Some ResourceStatus.ACTIVE).

Definition evaluate_deletion (setting : RetentionSetting) (o : Organization) (now : Z) (d : OrgDb) : result OrgError DeletionEligibility :=
  let state := lifecycleStateOf o in
  if bool_decide (state = DELETED) then
    Ok {| el_organizationId := og_id o; el_lifecycleState := state; el_eligible := false; el_blockers := [];
          el_deletableAfter := None |}
  else
    archived ← match og_archivedAt o with
               | None => Ok [NOT_ARCHIVED]
               | Some t => elapsed ← archiveRetentionElapsed setting t now;
                           Ok (if (elapsed : bool) then [] else [ARCHIVE_RETENTION_PERIOD])
               end;
    let held := if unset (og_legalHoldAt o) then [] else [LEGAL_HOLD] in
    let liveIssuers := count_where (live_issuer (og_id o)) (ow_issuers (od_owned d)) in
    let unsynced := count_where (unsynced_issuer (og_id o)) (ow_issuers (od_owned d)) in
    let blockers := archived ++ held ++ (if (liveIssuers =? 0)%nat then [] else [ACTIVE_ISSUERS liveIssuers]) ++
                    (if (unsynced =? 0)%nat then [] else [ISSUER_REGISTRY_OUT_OF_SYNC unsynced]) in
    after ← match og_archivedAt o with None => Ok None | Some t => limit ← deletableAfter setting t; Ok (Some limit) end;
    Ok {| el_organizationId := og_id o; el_lifecycleState := state; el_eligible := match blockers with [] => true | _ => false end;
          el_blockers := blockers; el_deletableAfter := after |}.

Definition getDeletionEligibility (setting : RetentionSetting) (id : string) (now : Z) (d : OrgDb)
    : result OrgError DeletionEligibility :=
  o ← load id d; evaluate_deletion setting o now d.

Record Cleanup := {
  cu_apiKeysRevoked : nat;
  cu_webhooksDeleted : nat;
  cu_webhookDeliveriesDeleted : nat;
  cu_idempotencyRecordsDeleted : nat;
}.

Definition key_to_revoke (id : string) (k : ApiKey) : bool :=
  in_organization id k && negb (bool_decide (ak_status k = ResourceStatus.REVOKED)).
Definition webhook_of (id : string) (w : Webhook) : bool := bool_decide (wh_organizationId w = id).
Definition delivery_of (webhookIds : list string) (x : Delivery) : bool := bool_decide (dl_webhookId x ∈ webhookIds).

(** The deletes and updates of the transaction.  The verification challenges and
    client certificates of a webhook restrict its delete. *)
Definition clean_up (id : string) (now : Z) (w : Owned) : result OrgError (Owned * Cleanup) :=
  let webhookIds := wh_id <$> List.filter (webhook_of id) (ow_webhooks w) in
  _ ← throw_if (existsb (fun c => bool_decide (vc_webhookId c ∈ webhookIds)) (ow_challenges w) ||
                existsb (fun c => bool_decide (c ∈ webhookIds)) (ow_certificates w)) OrgForeignKey;
  Ok ({| ow_issuers := ow_issuers w;
         ow_keys := update_where (key_to_revoke id) (revoke_row now) (ow_keys w);
         ow_webhooks := delete_where (webhook_of id) (ow_webhooks w);
         ow_deliveries := delete_where (delivery_of webhookIds) (ow_deliveries w);
         ow_challenges := ow_challenges w; ow_certificates := ow_certificates w;
         ow_idempotency := delete_where (idempotency_of id) (ow_idempotency w) |},
      {| cu_apiKeysRevoked := count_where (key_to_revoke id) (ow_keys w);
         cu_webhooksDeleted := count_where (webhook_of id) (ow_webhooks w);
         cu_webhookDeliveriesDeleted := count_where (delivery_of webhookIds) (ow_deliveries w);
         cu_idempotencyRecordsDeleted := count_where (idempotency_of id) (ow_idempotency w) |}).

Definition deletion_audit (u : Caller) (id : string) (previousStatus : ResourceStatus.t) (c : Cleanup) : AuditArgs :=
  lifecycle_audit u id "organization.deleted"
    (JObj [("previousStatus", JStr (status_text previousStatus));
           ("apiKeysRevoked", JNum (Z.of_nat (cu_apiKeysRevoked c)));
           ("webhooksDeleted", JNum (Z.of_nat (cu_webhooksDeleted c)));
           ("webhookDeliveriesDeleted", JNum (Z.of_nat (cu_webhookDeliveriesDeleted c)));
           ("idempotencyRecordsDeleted", JNum (Z.of_nat (cu_idempotencyRecordsDeleted c)))]).

Definition deleteOrganization (setting : RetentionSetting) (u : Caller) (id auditId : string) (now : Z) (d : OrgDb)
    : result OrgError (OrgDb * Cleanup) :=
  o ← load id d;
  eligibility ← evaluate_deletion setting o now d;
  _ ← throw_if (negb (el_eligible eligibility)) OrgConflict;
  '(w, cleanup) ← clean_up id now (od_owned d);
  os ← update_one (has_org_id id) (set_tombstone now) (od_orgs d);
  d ← audit_org_tx auditId now (deletion_audit u id (og_status o) cleanup) (set_orgs os (set_owned w d));
  Ok (d, cleanup).

(** [view] *)
Record OrganizationLifecycleView := {
  vw_id : string; vw_status : ResourceStatus.t; vw_lifecycleState : OrganizationLifecycleState;
  vw_archivedAt : option Z; vw_legalHold : bool; vw_deletedAt : option Z;
}.
Definition view (id : string) (d : OrgDb) : result OrgError OrganizationLifecycleView :=
  o ← load id d;
  Ok {| vw_id := og_id o; vw_status := og_status o; vw_lifecycleState := lifecycleStateOf o;
        vw_archivedAt := og_archivedAt o; vw_legalHold := negb (unset (og_legalHoldAt o)); vw_deletedAt := og_deletedAt o |}.
