(* ===== verification/OrganizationInvitations.v ===== *)
(** * Invitations to organizations

    Model of [src/organizations/organization-invitations.service.ts].  Each function
    is what the handler does with the answer of one query, or one transaction;
    [OrganizationSystem] puts them in sequence.  [sha256] is an argument. *)

From S2P Require Import Prelude JsData DecimalText Encoding IsoDate Canonical Schema AuditChain Accounts ApiKeys Organizations.
From Stdlib Require Import Ascii.

Local Open Scope string_scope.
Local Open Scope Z_scope.
Local Open Scope list_scope.
#[local] Arguments String.append !_ _ : simpl nomatch.

Definition MIN_INVITATION_TTL_SECONDS : Z := 300.
Definition DEFAULT_INVITATION_TTL_SECONDS : Z := 604800.
Definition MAX_INVITATION_TTL_SECONDS : Z := 2592000.

(** [walletAddress.trim().toUpperCase()] *)
Definition normalized (wallet : string) : string := toUpperCase (trim wallet).

(** [a || b] on optional strings: an empty text counts as absent. *)
Definition nonempty (s : option string) : option string := s ≫= text_or_null.

Definition has_invitation_id (id : string) (i : Invitation) : bool := bool_decide (in_id i = id).
Definition has_secret_hash (h : string) (i : Invitation) : bool := bool_decide (in_secretHash i = h).
Definition find_invitation (id : string) (d : OrgDb) : option Invitation := find_where (has_invitation_id id) (od_invitations d).

(** Columns the operations write. *)
Definition with_outcome (st : InvitationStatus.t) (accepted declined revoked : option (Z * string)) (i : Invitation) : Invitation :=
  {| in_id := in_id i; in_organizationId := in_organizationId i; in_role := in_role i; in_inviterId := in_inviterId i;
     in_recipientWalletAddress := in_recipientWalletAddress i; in_recipientWalletHash := in_recipientWalletHash i;
     in_secretHash := in_secretHash i; in_status := st; in_expiresAt := in_expiresAt i;
     in_accepted := accepted; in_declined := declined; in_revoked := revoked |}.
Definition set_accepted (now : Z) (by_ : string) (i : Invitation) : Invitation :=
  with_outcome InvitationStatus.ACCEPTED (Some (now, by_)) (in_declined i) (in_revoked i) i.
Definition set_declined (now : Z) (by_ : string) (i : Invitation) : Invitation :=
  with_outcome InvitationStatus.DECLINED (in_accepted i) (Some (now, by_)) (in_revoked i) i.
Definition set_invitation_revoked (now : Z) (by_ : string) (i : Invitation) : Invitation :=
  with_outcome InvitationStatus.REVOKED (in_accepted i) (in_declined i) (Some (now, by_)) i.
Definition set_invitation_expired (i : Invitation) : Invitation :=
  with_outcome InvitationStatus.EXPIRED (in_accepted i) (in_declined i) (in_revoked i) i.

(** ** Access *)

Definition getOrganizationOrThrow (org : string) (d : OrgDb) : result OrgError Organization :=
  match find_org org d with
  | None => Err OrgNotFound
  | Some o =>
      _ ← throw_if (bool_decide (is_Some (og_archivedAt o))) OrgForbidden;
      _ ← throw_if (bool_decide (is_Some (og_deletedAt o))) OrgNotFound;
      Ok o
  end.

Definition getCallerOrganizationRole (userId org : string) (d : OrgDb) : option OrganizationMemberRole.t :=
  match find_member org userId d with
  | Some m => if bool_decide (mb_status m = ResourceStatus.ACTIVE) then Some (mb_role m) else None
  | None => None
  end.

Definition ensure_invitation_manager (u : Caller) (org : string) (d : OrgDb) : result OrgError unit :=
  throw_if (negb (global_admin u ||
    match getCallerOrganizationRole (cl_id u) org d with
    | Some OrganizationMemberRole.OWNER | Some OrganizationMemberRole.ADMIN => true
    | _ => false
    end)) OrgForbidden.

(** ** [createInvitation] *)

Record InviteDto := { iv_recipientWalletAddress : string; iv_role : OrganizationMemberRole.t; iv_ttlSeconds : option Z }.

Definition invite_role_check (u : Caller) (org : string) (dto : InviteDto) (d : OrgDb) : result OrgError unit :=
  let inviterRole := getCallerOrganizationRole (cl_id u) org d in
  _ ← throw_if (negb (global_admin u) && negb (bool_decide (inviterRole = Some OrganizationMemberRole.OWNER)) &&
                negb (bool_decide (inviterRole = Some OrganizationMemberRole.ADMIN))) OrgForbidden;
  throw_if (bool_decide (iv_role dto = OrganizationMemberRole.OWNER) &&
            negb (bool_decide (inviterRole = Some OrganizationMemberRole.OWNER)) && negb (global_admin u)) OrgForbidden.

Definition invite_member_check (org userId : string) (d : OrgDb) : result OrgError unit :=
  throw_if match find_member org userId d with Some m => bool_decide (mb_status m = ResourceStatus.ACTIVE) | None => false end
    OrgConflict.

Definition invite_expiry (dto : InviteDto) (now : Z) : result OrgError Z :=
  let ttl := default DEFAULT_INVITATION_TTL_SECONDS (iv_ttlSeconds dto) in
  _ ← throw_if ((ttl <? MIN_INVITATION_TTL_SECONDS) || (MAX_INVITATION_TTL_SECONDS <? ttl)) OrgBadRequest;
  Ok (now + ttl * 1000).

Definition same_pending (org wallet : string) (i : Invitation) : bool :=
  bool_decide (in_organizationId i = org) && bool_decide (in_recipientWalletAddress i = wallet) &&
  bool_decide (in_status i = InvitationStatus.PENDING).
Definition invite_revoke_previous (u : Caller) (org : string) (dto : InviteDto) (now : Z) (d : OrgDb) : OrgDb :=
  set_invitations (update_where (same_pending org (normalized (iv_recipientWalletAddress dto)))
                     (set_invitation_revoked now (cl_id u)) (od_invitations d)) d.

Section service.
Context (sha256 : string -> string).

Definition new_invitation (id : string) (u : Caller) (org : string) (dto : InviteDto) (rawSecret : string) (expiresAt : Z)
    : Invitation :=
  let wallet := normalized (iv_recipientWalletAddress dto) in
  {| in_id := id; in_organizationId := org; in_role := iv_role dto; in_inviterId := cl_id u;
     in_recipientWalletAddress := wallet; in_recipientWalletHash := sha256 wallet; in_secretHash := sha256 rawSecret;
     in_status := InvitationStatus.PENDING; in_expiresAt := expiresAt; in_accepted := None; in_declined := None;
     in_revoked := None |}.
Definition create_invitation (i : Invitation) (d : OrgDb) : result OrgError OrgDb :=
  _ ← throw_if (bool_decide (in_id i ∈ in_id <$> od_invitations d) ||
                bool_decide (in_secretHash i ∈ in_secretHash <$> od_invitations d)) (OrgDbFailed P2002);
  _ ← throw_if (negb (bool_decide (in_organizationId i ∈ og_id <$> od_orgs d)) ||
                negb (bool_decide (in_inviterId i ∈ ac_id <$> od_users d))) OrgForeignKey;
  Ok (set_invitations (od_invitations d ++ [i]) d).
Definition invitation_token (i : Invitation) (rawSecret : string) : string := String.append (in_id i) (String "."%char rawSecret).

Definition invitation_audit (u : Caller) (action : string) (i : Invitation) (rest : list (string * json)) (now : Z) : AuditArgs :=
  org_audit u action "OrganizationInvitation" (in_id i) (Some (in_organizationId i))
    (JObj ([("organizationId", JStr (in_organizationId i)); ("invitationId", JStr (in_id i))] ++ rest)) now.
Definition invitation_created_audit (u : Caller) (i : Invitation) (now : Z) : AuditArgs :=
  invitation_audit u "organization.invitation.created" i
    [("role", JStr (OrganizationMemberRole.text (in_role i))); ("recipientWalletHash", JStr (in_recipientWalletHash i));
     ("expiresAt", jiso (in_expiresAt i))] now.

(** ** Tokens *)

(** [timingSafeEqual] throws on buffers of different lengths. *)
Definition safeEqual (a b : string) : result OrgError bool :=
  if (String.length a =? String.length b)%nat then
    let x := hex_bytes a in
    let y := hex_bytes b in
    _ ← throw_if (negb (length x =? length y)%nat) OrgFailure;
    Ok (bool_decide (x = y))
  else Ok false.

(** Cut at the first dot, when one is found after the first character. *)
Fixpoint cut_at_dot (s : string) : option (string * string) :=
  match s with
  | EmptyString => None
  | String c r => if Ascii.eqb c "."%char then Some (EmptyString, r) else (fun x => (String c x.1, x.2)) <$> cut_at_dot r
  end.
Definition token_parts (trimmed : string) : option (string * string) :=
  match cut_at_dot trimmed with Some (String c r, secret) => Some (String c r, secret) | _ => None end.

(** The first query of [resolveInvitation]; without a result a second one looks the
    text up as an id. *)
Definition resolve_first (token : string) (d : OrgDb) : result OrgError (option Invitation) :=
  _ ← throw_if (String.eqb token EmptyString) OrgNotFound;
  match token_parts (trim token) with
  | Some (id, secret) =>
      match find_invitation id d with
      | None => Err OrgNotFound
      | Some i => same ← safeEqual (sha256 secret) (in_secretHash i);
                  if (same : bool) then Ok (Some i) else Err OrgNotFound
      end
  | None => Ok (find_where (has_secret_hash (sha256 (trim token))) (od_invitations d))
  end.
Definition resolve_second (token : string) (d : OrgDb) : result OrgError Invitation :=
  match find_invitation (trim token) d with Some i => Ok i | None => Err OrgNotFound end.

Definition tenant_check (expected : option string) (i : Invitation) : result OrgError unit :=
  throw_if match expected with Some org => negb (bool_decide (in_organizationId i = org)) | None => false end OrgForbidden.
Definition wallet_check (u : Caller) (i : Invitation) : result OrgError unit :=
  throw_if (negb (String.eqb (normalized (cl_walletAddress u)) (normalized (in_recipientWalletAddress i)))) OrgForbidden.

(** ** [inspectInvitation] *)

Definition effective_status (i : Invitation) (now : Z) : InvitationStatus.t :=
  if bool_decide (in_status i = InvitationStatus.PENDING) && (in_expiresAt i <=? now) then InvitationStatus.EXPIRED else in_status i.
Definition inspectInvitation (token : string) (org : option string) (now : Z) (d : OrgDb)
    : result OrgError (Invitation * InvitationStatus.t) :=
  found ← resolve_first token d;
  i ← match found with Some i => Ok i | None => resolve_second token d end;
  _ ← tenant_check (nonempty org) i;
  Ok (i, effective_status i now).

(** ** [acceptInvitation] *)

Definition accept_check (u : Caller) (expected : option string) (i : Invitation) (now : Z) : result OrgError unit :=
  _ ← tenant_check expected i;
  _ ← wallet_check u i;
  _ ← throw_if (bool_decide (in_status i = InvitationStatus.REVOKED) || bool_decide (is_Some (in_revoked i))) OrgConflict;
  _ ← throw_if (bool_decide (in_status i = InvitationStatus.DECLINED) || bool_decide (is_Some (in_declined i))) OrgConflict;
  _ ← throw_if (bool_decide (in_status i = InvitationStatus.ACCEPTED) || bool_decide (is_Some (in_accepted i))) OrgConflict;
  throw_if (bool_decide (in_status i = InvitationStatus.EXPIRED) || (in_expiresAt i <=? now)) OrgBadRequest.

Definition still_pending (id : string) (now : Z) (i : Invitation) : bool :=
  has_invitation_id id i && bool_decide (in_status i = InvitationStatus.PENDING) && (now <? in_expiresAt i).

(** [prisma.appendAuditLog(tx, ...)] *)
Definition append_org_audit (auditId : string) (at_ : Z) (args : AuditArgs) (d : OrgDb) : result OrgError OrgDb :=
  a ← org_db (appendAuditLog sha256 auditId at_ args (od_orgAudit d));
  Ok (set_org_audit a d).

Definition accepted_audit (u : Caller) (i : Invitation) (memberId : string) (at_ : Z) : AuditArgs :=
  invitation_audit u "organization.invitation.accepted" i
    [("role", JStr (OrganizationMemberRole.text (in_role i))); ("recipientWalletHash", JStr (in_recipientWalletHash i));
     ("memberId", JStr memberId)] at_.

(** The transaction; [i] and [now] are what the checks before it used. *)
Definition accept_tx (u : Caller) (i : Invitation) (now : Z) (memberId auditId : string) (at_ : Z) (d : OrgDb)
    : result OrgError OrgDb :=
  let p := still_pending (in_id i) now in
  _ ← throw_if (count_where p (od_invitations d) =? 0)%nat OrgConflict;
  let d := set_invitations (update_where p (set_accepted now (cl_id u)) (od_invitations d)) d in
  _ ← throw_if (bool_decide (is_Some (find_member (in_organizationId i) (cl_id u) d))) OrgConflict;
  d ← create_member (new_member memberId (in_organizationId i) (cl_id u) (in_role i) now) d;
  append_org_audit auditId at_ (accepted_audit u i memberId at_) d.

(** ** [declineInvitation] *)

Definition decline_check (u : Caller) (expected : option string) (i : Invitation) (now : Z) : result OrgError unit :=
  _ ← tenant_check expected i;
  _ ← wallet_check u i;
  _ ← throw_if (bool_decide (in_status i = InvitationStatus.REVOKED)) OrgConflict;
  _ ← throw_if (bool_decide (in_status i = InvitationStatus.ACCEPTED)) OrgConflict;
  _ ← throw_if (bool_decide (in_status i = InvitationStatus.DECLINED)) OrgConflict;
  throw_if (in_expiresAt i <=? now) OrgBadRequest.

Definition decline_tx (u : Caller) (i : Invitation) (now : Z) (auditId : string) (at_ : Z) (d : OrgDb) : result OrgError OrgDb :=
  let p := still_pending (in_id i) now in
  _ ← throw_if (count_where p (od_invitations d) =? 0)%nat OrgConflict;
  let d := set_invitations (update_where p (set_declined now (cl_id u)) (od_invitations d)) d in
  append_org_audit auditId at_ (invitation_audit u "organization.invitation.declined" i
    [("recipientWalletHash", JStr (in_recipientWalletHash i))] at_) d.
End service.

(** ** [revokeInvitation] and [cleanupExpiredInvitations] *)

(** [None]: already revoked, nothing to write. *)
Definition revoke_read (org id : string) (d : OrgDb) : result OrgError (option Invitation) :=
  match find_invitation id d with
  | None => Err OrgNotFound
  | Some i =>
      _ ← throw_if (negb (bool_decide (in_organizationId i = org))) OrgNotFound;
      _ ← throw_if (bool_decide (in_status i = InvitationStatus.ACCEPTED)) OrgConflict;
      if bool_decide (in_status i = InvitationStatus.REVOKED) then Ok None else Ok (Some i)
  end.
Definition revoke_write (u : Caller) (id : string) (now : Z) (d : OrgDb) : result OrgError OrgDb :=
  rows ← update_one (has_invitation_id id) (set_invitation_revoked now (cl_id u)) (od_invitations d);
  Ok (set_invitations rows d).
Definition revoked_audit (u : Caller) (i : Invitation) (now : Z) : AuditArgs :=
  invitation_audit u "organization.invitation.revoked" i
    [("role", JStr (OrganizationMemberRole.text (in_role i))); ("recipientWalletHash", JStr (in_recipientWalletHash i))] now.

Definition lapsed (org : option string) (now : Z) (i : Invitation) : bool :=
  match org with Some org => bool_decide (in_organizationId i = org) | None => true end &&
  bool_decide (in_status i = InvitationStatus.PENDING) && (in_expiresAt i <=? now).
Definition cleanupExpiredInvitations (org : option string) (now : Z) (d : OrgDb) : OrgDb * nat :=
  let p := lapsed (nonempty org) now in
  (set_invitations (update_where p set_invitation_expired (od_invitations d)) d, count_where p (od_invitations d)).

Definition listInvitations (u : Caller) (org : string) (status : option InvitationStatus.t) (page limit : option Z) (d : OrgDb)
    : result OrgError (list Invitation * nat) :=
  _ ← ensure_invitation_manager u org d;
  let page := Z.max 1 (match page with Some 0 | None => 1 | Some n => n end) in
  let limit := Z.min 100 (Z.max 1 (match limit with Some 0 | None => 20 | Some n => n end)) in
  let selected := List.filter (fun i => bool_decide (in_organizationId i = org) &&
    match status with Some st => bool_decide (in_status i = st) | None => true end) (od_invitations d) in
  Ok (take (Z.to_nat limit) (drop (Z.to_nat ((page - 1) * limit)) (rev selected)), length selected).

Definition getInvitation (u : Caller) (org id : string) (d : OrgDb) : result OrgError Invitation :=
  _ ← ensure_invitation_manager u org d;
  match find_invitation id d with
  | Some i => if bool_decide (in_organizationId i = org) then Ok i else Err OrgNotFound
  | None => Err OrgNotFound
  end.
