(* ===== verification/MembershipImport.v ===== *)
(** * Imports of members, and access reviews

    Model of [src/organizations/membership-import.service.ts] and
    [access-review.service.ts].  Each function is what the handler, or the import
    running in the background, does with the answer of one query;
    [OrganizationSystem] puts them in sequence. *)

From S2P Require Import Prelude JsData Encoding Canonical Schema AuditChain Accounts Organizations.

Local Open Scope string_scope.
Local Open Scope Z_scope.
Local Open Scope list_scope.

(** Their audit records leave the time to the writer. *)
Definition plain_audit (u : Caller) (action resourceType resourceId : string) (metadata : json) : AuditArgs :=
  {| aa_organizationId := None; aa_actorType := "User"; aa_actorId := Some (cl_id u); aa_action := action;
     aa_resourceType := resourceType; aa_resourceId := Some resourceId; aa_metadata := Some metadata; aa_createdAt := None |}.

(** ** Imports *)

Definition MAX_IMPORT_SIZE : nat := 1000.
Definition SUPPORTED_VERSIONS : list string := ["1.0"].

Record ImportRow := { rw_walletAddress : string; rw_role : OrganizationMemberRole.t }.
Record ImportDto := { di_version : option string; di_filename : option string; di_members : list ImportRow }.

Definition import_version (input : ImportDto) : string :=
  match di_version input with Some (String _ _ as v) => v | _ => "1.0" end.

Definition createImport_check (u : Caller) (org : string) (input : ImportDto) (d : OrgDb) : result OrgError unit :=
  _ ← throw_if (negb (canManageOrganization u org d)) OrgForbidden;
  _ ← throw_if (negb (bool_decide (import_version input ∈ SUPPORTED_VERSIONS))) OrgForbidden;
  _ ← throw_if (length (di_members input) =? 0)%nat OrgForbidden;
  _ ← throw_if (MAX_IMPORT_SIZE <? length (di_members input))%nat OrgForbidden;
  throw_if (negb (bool_decide (NoDup (rw_walletAddress <$> di_members input)))) OrgForbidden.

Definition new_import (id : string) (u : Caller) (org : string) (input : ImportDto) : ImportJob :=
  {| ij_id := id; ij_organizationId := org; ij_createdById := cl_id u; ij_version := import_version input;
     ij_filename := di_filename input; ij_rowCount := Z.of_nat (length (di_members input)); ij_status := ImportStatus.PENDING;
     ij_progress := 0; ij_cancelledAt := None; ij_completedAt := None; ij_errorMessage := None |}.
Definition create_import (j : ImportJob) (d : OrgDb) : result OrgError OrgDb :=
  _ ← throw_if (bool_decide (ij_id j ∈ ij_id <$> od_imports d)) (OrgDbFailed P2002);
  _ ← throw_if (negb (bool_decide (ij_organizationId j ∈ og_id <$> od_orgs d)) ||
                negb (bool_decide (ij_createdById j ∈ ac_id <$> od_users d))) OrgForeignKey;
  Ok (set_imports (od_imports d ++ [j]) (od_results d) d).

(** A placeholder result. *)
Definition new_result (id jobId : string) (index : Z) (row : ImportRow) : ImportResult :=
  {| im_id := id; im_importJobId := jobId; im_rowIndex := index; im_walletAddress := rw_walletAddress row;
     im_requestedRole := rw_role row; im_result := ImportRowResult.FAILED; im_reasonCode := Some "PENDING";
     im_errorMessage := None; im_processedAt := None |}.
Definition create_result (r : ImportResult) (d : OrgDb) : result OrgError OrgDb :=
  _ ← throw_if (bool_decide (im_id r ∈ im_id <$> od_results d) ||
                bool_decide ((im_importJobId r, im_rowIndex r) ∈ (fun x => (im_importJobId x, im_rowIndex x)) <$> od_results d))
        (OrgDbFailed P2002);
  _ ← throw_if (negb (bool_decide (im_importJobId r ∈ ij_id <$> od_imports d))) OrgForeignKey;
  Ok (set_imports (od_imports d) (od_results d ++ [r]) d).
Definition import_audit (u : Caller) (j : ImportJob) : AuditArgs :=
  plain_audit u "CREATE" "MembershipImportJob" (ij_id j)
    (JObj [("organizationId", JStr (ij_organizationId j)); ("rowCount", JNum (ij_rowCount j));
           ("version", JStr (ij_version j)); ("filename", jundef (ij_filename j))]).

Definition has_import_id (id : string) (j : ImportJob) : bool := bool_decide (ij_id j = id).
Definition has_result_id (id : string) (r : ImportResult) : bool := bool_decide (im_id r = id).
Definition result_of (jobId : string) (r : ImportResult) : bool := bool_decide (im_importJobId r = jobId).
Definition find_import (id : string) (d : OrgDb) : option ImportJob := find_where (has_import_id id) (od_imports d).

Definition import_in (st : ImportStatus.t) (j : ImportJob) : ImportJob :=
  {| ij_id := ij_id j; ij_organizationId := ij_organizationId j; ij_createdById := ij_createdById j; ij_version := ij_version j;
     ij_filename := ij_filename j; ij_rowCount := ij_rowCount j; ij_status := st; ij_progress := ij_progress j;
     ij_cancelledAt := ij_cancelledAt j; ij_completedAt := ij_completedAt j; ij_errorMessage := ij_errorMessage j |}.
Definition import_progress (n : Z) (j : ImportJob) : ImportJob :=
  {| ij_id := ij_id j; ij_organizationId := ij_organizationId j; ij_createdById := ij_createdById j; ij_version := ij_version j;
     ij_filename := ij_filename j; ij_rowCount := ij_rowCount j; ij_status := ij_status j; ij_progress := n;
     ij_cancelledAt := ij_cancelledAt j; ij_completedAt := ij_completedAt j; ij_errorMessage := ij_errorMessage j |}.
Definition import_ended (st : ImportStatus.t) (cancelled completed : option Z) (message : option string) (j : ImportJob) : ImportJob :=
  {| ij_id := ij_id j; ij_organizationId := ij_organizationId j; ij_createdById := ij_createdById j; ij_version := ij_version j;
     ij_filename := ij_filename j; ij_rowCount := ij_rowCount j; ij_status := st; ij_progress := ij_progress j;
     ij_cancelledAt := cancelled; ij_completedAt := completed; ij_errorMessage := message |}.
Definition import_cancelled (now : Z) (j : ImportJob) : ImportJob :=
  import_ended ImportStatus.CANCELLED (Some now) (ij_completedAt j) (ij_errorMessage j) j.
Definition import_completed (now : Z) (j : ImportJob) : ImportJob :=
  import_ended ImportStatus.COMPLETED (ij_cancelledAt j) (Some now) (ij_errorMessage j) j.
Definition import_failed (message : string) (j : ImportJob) : ImportJob :=
  import_ended ImportStatus.FAILED (ij_cancelledAt j) (ij_completedAt j) (Some message) j.

Definition update_import (id : string) (f : ImportJob -> ImportJob) (d : OrgDb) : result OrgError OrgDb :=
  js ← update_one (has_import_id id) f (od_imports d);
  Ok (set_imports js (od_results d) d).

(** [cancelImport] *)
Definition import_cancel_read (org id : string) (d : OrgDb) : result OrgError unit :=
  throw_if (bool_decide (find_where (fun j => has_import_id id j && bool_decide (ij_organizationId j = org) &&
    (bool_decide (ij_status j = ImportStatus.PENDING) || bool_decide (ij_status j = ImportStatus.PROCESSING)))
    (od_imports d) = None)) OrgNotFound.
Definition cancel_audit (u : Caller) (org id : string) : AuditArgs :=
  plain_audit u "CANCEL" "MembershipImportJob" id (JObj [("organizationId", JStr org)]).

(** *** Processing *)

Definition row_asc (r r' : ImportResult) : bool := im_rowIndex r <=? im_rowIndex r'.

(** The first update of [processImport], with the results it reads. *)
Definition process_start (id : string) (d : OrgDb) : result OrgError (OrgDb * ImportJob * list ImportResult) :=
  d ← update_import id (import_in ImportStatus.PROCESSING) d;
  match find_import id d with
  | None => Err (OrgDbFailed P2025)
  | Some j => Ok (d, j, js_sort row_asc (List.filter (result_of id) (od_results d)))
  end.

Record RowOutcome := { ro_result : ImportRowResult.t; ro_reasonCode : string; ro_errorMessage : option string }.

Definition row_user (row : ImportResult) (d : OrgDb) : Account + RowOutcome :=
  match find_where (has_wallet (im_walletAddress row)) (od_users d) with
  | Some a => inl a
  | None => inr {| ro_result := ImportRowResult.REJECTED; ro_reasonCode := "USER_NOT_FOUND";
                   ro_errorMessage := Some "Wallet address is not registered as a user" |}
  end.
Definition row_member (org : string) (row : ImportResult) (a : Account) (d : OrgDb) : option RowOutcome :=
  match find_member org (ac_id a) d with
  | None => None
  | Some m =>
      Some (if bool_decide (mb_role m = im_requestedRole row)
            then {| ro_result := ImportRowResult.NO_OP; ro_reasonCode := "ALREADY_MEMBER_SAME_ROLE"; ro_errorMessage := None |}
            else {| ro_result := ImportRowResult.REJECTED; ro_reasonCode := "ROLE_CHANGE_NOT_SUPPORTED";
                    ro_errorMessage := Some "Use direct role management for existing members" |})
  end.
Definition row_added : RowOutcome :=
  {| ro_result := ImportRowResult.ACCEPTED; ro_reasonCode := "MEMBER_ADDED"; ro_errorMessage := None |}.
Definition row_failed (message : string) : RowOutcome :=
  {| ro_result := ImportRowResult.FAILED; ro_reasonCode := "PROCESSING_ERROR"; ro_errorMessage := Some message |}.

Definition set_outcome (o : RowOutcome) (now : Z) (r : ImportResult) : ImportResult :=
  {| im_id := im_id r; im_importJobId := im_importJobId r; im_rowIndex := im_rowIndex r; im_walletAddress := im_walletAddress r;
     im_requestedRole := im_requestedRole r; im_result := ro_result o; im_reasonCode := Some (ro_reasonCode o);
     im_errorMessage := match ro_errorMessage o with Some e => Some e | None => im_errorMessage r end;   (* [undefined]: not written *)
     im_processedAt := Some now |}.
Definition record_outcome (id : string) (o : RowOutcome) (now : Z) (d : OrgDb) : result OrgError OrgDb :=
  rs ← update_one (has_result_id id) (set_outcome o now) (od_results d);
  Ok (set_imports (od_imports d) rs d).

(** ** Access reviews *)

Definition has_campaign_id (id : string) (c : Campaign) : bool := bool_decide (cp_id c = id).
Definition open_campaign (org id : string) (c : Campaign) : bool :=
  has_campaign_id id c && bool_decide (cp_organizationId c = org) && bool_decide (cp_status c = CampaignStatus.OPEN).
Definition has_entry_id (id : string) (e : ReviewEntry) : bool := bool_decide (re_id e = id).

Definition review_revision (org : string) (d : OrgDb) : result OrgError Z :=
  match find_org org d with Some o => Ok (og_revision o) | None => Err OrgNotFound end.

Definition new_campaign (id : string) (u : Caller) (org name : string) (description : option string) (revision : Z) : Campaign :=
  {| cp_id := id; cp_organizationId := org; cp_createdById := cl_id u; cp_name := name; cp_description := description;
     cp_status := CampaignStatus.OPEN; cp_snapshotVersion := revision; cp_completedAt := None; cp_cancelledAt := None |}.
Definition new_entry (id campaignId : string) (m : Member) : ReviewEntry :=
  {| re_id := id; re_campaignId := campaignId; re_memberId := mb_id m; re_snapshotRole := mb_role m; re_decision := None;
     re_recommendedRole := None; re_reviewed := None; re_appliedAt := None; re_conflictDetected := false; re_notes := None |}.
Definition active_member (org : string) (m : Member) : bool :=
  bool_decide (mb_organizationId m = org) && bool_decide (mb_status m = ResourceStatus.ACTIVE).

(** The transaction of [createReview]. *)
Definition review_tx (c : Campaign) (entryIds : nat -> string) (d : OrgDb) : result OrgError OrgDb :=
  _ ← throw_if (bool_decide (cp_id c ∈ cp_id <$> od_campaigns d)) (OrgDbFailed P2002);
  _ ← throw_if (negb (bool_decide (cp_organizationId c ∈ og_id <$> od_orgs d)) ||
                negb (bool_decide (cp_createdById c ∈ ac_id <$> od_users d))) OrgForeignKey;
  let members := List.filter (active_member (cp_organizationId c)) (od_members d) in
  let entries := imap (fun n m => new_entry (entryIds n) (cp_id c) m) members in
  _ ← throw_if (negb (bool_decide (NoDup (re_id <$> od_entries d ++ entries)))) (OrgDbFailed P2002);
  Ok (set_reviews (od_campaigns d ++ [c]) (od_entries d ++ entries) d).
Definition review_audit (u : Caller) (c : Campaign) : AuditArgs :=
  plain_audit u "CREATE" "AccessReviewCampaign" (cp_id c)
    (JObj [("organizationId", JStr (cp_organizationId c)); ("name", JStr (cp_name c)); ("snapshotVersion", JNum (cp_snapshotVersion c))]).

(** [reviewEntry] *)
Record DecisionDto := {
  dc_decision : ReviewDecision.t; dc_recommendedRole : option OrganizationMemberRole.t; dc_notes : option string;
}.
Definition require_open (org id : string) (d : OrgDb) : result OrgError unit :=
  throw_if (bool_decide (find_where (open_campaign org id) (od_campaigns d) = None)) OrgNotFound.
Definition entry_read (reviewId entryId : string) (d : OrgDb) : result OrgError ReviewEntry :=
  match find_where (fun e => has_entry_id entryId e && bool_decide (re_campaignId e = reviewId)) (od_entries d) with
  | Some e => Ok e
  | None => Err OrgNotFound
  end.
Definition conflict_detected (e : ReviewEntry) (d : OrgDb) : bool :=
  match find_where (has_member_id (re_memberId e)) (od_members d) with
  | None => true
  | Some m => negb (bool_decide (mb_role m = re_snapshotRole e)) || negb (bool_decide (mb_status m = ResourceStatus.ACTIVE))
  end.
(** Absent optional fields are not written. *)
Definition set_decision (dto : DecisionDto) (by_ : string) (now : Z) (conflict : bool) (e : ReviewEntry) : ReviewEntry :=
  {| re_id := re_id e; re_campaignId := re_campaignId e; re_memberId := re_memberId e; re_snapshotRole := re_snapshotRole e;
     re_decision := Some (dc_decision dto);
     re_recommendedRole := match dc_recommendedRole dto with Some r => Some r | None => re_recommendedRole e end;
     re_reviewed := Some (now, by_); re_appliedAt := re_appliedAt e; re_conflictDetected := conflict;
     re_notes := match dc_notes dto with Some n => Some n | None => re_notes e end |}.
Definition update_entry (id : string) (f : ReviewEntry -> ReviewEntry) (d : OrgDb) : result OrgError OrgDb :=
  es ← update_one (has_entry_id id) f (od_entries d);
  Ok (set_reviews (od_campaigns d) es d).
Definition entry_audit (u : Caller) (org reviewId : string) (e : ReviewEntry) (dto : DecisionDto) (conflict : bool) : AuditArgs :=
  plain_audit u "REVIEW" "AccessReviewEntry" (re_id e)
    (JObj [("organizationId", JStr org); ("campaignId", JStr reviewId); ("memberId", JStr (re_memberId e));
           ("decision", JStr (ReviewDecision.text (dc_decision dto)));
           ("recommendedRole", jundef (OrganizationMemberRole.text <$> dc_recommendedRole dto));
           ("conflictDetected", JBool conflict)]).

(** [applyRecommendations] *)
Definition to_apply (reviewId : string) (e : ReviewEntry) : bool :=
  bool_decide (re_campaignId e = reviewId) &&
  (bool_decide (re_decision e = Some ReviewDecision.ROLE_CHANGE) || bool_decide (re_decision e = Some ReviewDecision.REMOVE)) &&
  bool_decide (re_appliedAt e = None) && negb (re_conflictDetected e).
Definition set_applied (now : Z) (e : ReviewEntry) : ReviewEntry :=
  {| re_id := re_id e; re_campaignId := re_campaignId e; re_memberId := re_memberId e; re_snapshotRole := re_snapshotRole e;
     re_decision := re_decision e; re_recommendedRole := re_recommendedRole e; re_reviewed := re_reviewed e;
     re_appliedAt := Some now; re_conflictDetected := re_conflictDetected e; re_notes := re_notes e |}.

(** [completeReview] and [cancelReview] *)
Definition close_campaign (st : CampaignStatus.t) (now : Z) (c : Campaign) : Campaign :=
  {| cp_id := cp_id c; cp_organizationId := cp_organizationId c; cp_createdById := cp_createdById c; cp_name := cp_name c;
     cp_description := cp_description c; cp_status := st; cp_snapshotVersion := cp_snapshotVersion c;
     cp_completedAt := if bool_decide (st = CampaignStatus.COMPLETED) then Some now else cp_completedAt c;
     cp_cancelledAt := if bool_decide (st = CampaignStatus.CANCELLED) then Some now else cp_cancelledAt c |}.
Definition close_write (id : string) (st : CampaignStatus.t) (now : Z) (d : OrgDb) : result OrgError OrgDb :=
  cs ← update_one (has_campaign_id id) (close_campaign st now) (od_campaigns d);
  Ok (set_reviews cs (od_entries d) d).
Definition close_audit (u : Caller) (org id : string) (st : CampaignStatus.t) : AuditArgs :=
  plain_audit u (match st with CampaignStatus.CANCELLED => "CANCEL" | _ => "COMPLETE" end) "AccessReviewCampaign" id
    (JObj [("organizationId", JStr org)]).

(** [getCampaignWithStats] *)
Record CampaignStats := { cs_entryCount : nat; cs_reviewedCount : nat; cs_pendingCount : nat }.
Definition getCampaignWithStats (id : string) (d : OrgDb) : result OrgError (Campaign * CampaignStats) :=
  match find_where (has_campaign_id id) (od_campaigns d) with
  | None => Err OrgNotFound
  | Some c =>
      let entries := List.filter (fun e => bool_decide (re_campaignId e = id)) (od_entries d) in
      let reviewed := count_where (fun e => bool_decide (is_Some (re_reviewed e))) entries in
      Ok (c, {| cs_entryCount := length entries; cs_reviewedCount := reviewed; cs_pendingCount := length entries - reviewed |})
  end.
