(* ===== verification/OrganizationSystem.v ===== *)
(** * The organization services as one transition system

    Model of the handlers of [src/organizations] in sequence: what [assignMember],
    [updateMemberRole], [createInvitation] and the others do between two [await]s,
    with the routes of their controllers.  A handler in flight is a value of [OrgOp];
    [op_step] runs it to its next [await], or fails, and [op_failed] is what then
    still runs.  Any number of handlers are in flight; each step moves one of them.
    [os_admitted] records the acceptances, with the rows each added to the member table. *)

From S2P Require Import Prelude JsData Encoding IsoDate Canonical Schema AuditChain Accounts Idempotency WebhookStore ApiKeys.
From S2P Require Import Organizations OrganizationLifecycle OrganizationInvitations MembershipImport.

Local Open Scope string_scope.
Local Open Scope Z_scope.
Local Open Scope list_scope.

(** ** Handlers in flight *)

(** [applyRecommendations] at one of its entries; the query that found them has no
    order, so [ap_rest] is a bag. *)
Record Apply := {
  ap_user : Caller;
  ap_org : string;
  ap_reviewId : string;
  ap_entry : option ReviewEntry;
  ap_rest : list ReviewEntry;
  ap_applied : nat;
  ap_skipped : nat;
  ap_failed : nat;
}.

(** Who awaits a member operation or an audit record. *)
Inductive Cont := Reply | StartImport (jobId : string) | Applying (a : Apply).

Inductive Change := ChangedRole (role : OrganizationMemberRole.t) | Removed.
Definition change_audit (u : Caller) (org : string) (m : Member) (ch : Change) (now : Z) : AuditArgs :=
  match ch with ChangedRole role => role_audit u org m role now | Removed => remove_audit u org m now end.

(** What follows [invalidateUserSessions]. *)
Record SessionsNext := { sn_user : Caller; sn_org : string; sn_member : Member; sn_change : Change; sn_cont : Cont }.

Inductive VisibleNext := UpdateProfile (input : ProfileInput) | DeleteProfile.
Inductive InvitationAnswer := Accept | Decline.

Inductive OrgOp :=
| MemberGuard (u : Caller) (org : option string) (required : option OrganizationMemberRole.t) (next : OrgOp)
| AppendAudit (args : AuditArgs) (c : Cont)
(* organization-members.service.ts *)
| AssignGuard (u : Caller) (org userId : string) (role : OrganizationMemberRole.t)
| AssignUser (u : Caller) (org userId : string) (role : OrganizationMemberRole.t)
| AssignCheck (u : Caller) (org userId : string) (role : OrganizationMemberRole.t)
| AssignCreate (u : Caller) (org userId : string) (role : OrganizationMemberRole.t)
| RoleGuard (u : Caller) (org memberId : string) (role : OrganizationMemberRole.t) (c : Cont)
| RoleFind (u : Caller) (org memberId : string) (role : OrganizationMemberRole.t) (c : Cont)
| RoleCount (u : Caller) (org : string) (m : Member) (role : OrganizationMemberRole.t) (c : Cont)
| RoleWrite (u : Caller) (org : string) (m : Member) (role : OrganizationMemberRole.t) (c : Cont)
| RemoveGuard (u : Caller) (org memberId : string) (c : Cont)
| RemoveFind (u : Caller) (org memberId : string) (c : Cont)
| RemoveCount (u : Caller) (org : string) (m : Member) (c : Cont)
| RemoveDelete (u : Caller) (org : string) (m : Member) (c : Cont)
| SessionsFind (n : SessionsNext)
| SessionsWrite (ids : list string) (n : option SessionsNext)
(* organizations.service.ts *)
| CreateSlug (u : Caller) (name slug : string) (website : option string)
| CreateOrg (u : Caller) (name slug : string) (website : option string)
| CreateOwner (u : Caller) (o : Organization)
| Visible (u : Caller) (org : string) (next : VisibleNext)
| VisibleCreator (u : Caller) (o : Organization) (next : VisibleNext)
| VisibleMember (u : Caller) (o : Organization) (next : VisibleNext)
| ProfileWrite (u : Caller) (org : string) (input : ProfileInput)
| ProfileRead (u : Caller) (org : string) (input : ProfileInput)
| DeleteWrite (u : Caller) (org : string)
(* organization-invitations.service.ts *)
| InviteOrg (u : Caller) (org : string) (dto : InviteDto)
| InviteRole (u : Caller) (org : string) (dto : InviteDto)
| InviteUser (u : Caller) (org : string) (dto : InviteDto)
| InviteMember (u : Caller) (org : string) (dto : InviteDto) (userId : string)
| InvitePrevious (u : Caller) (org : string) (dto : InviteDto) (now expiresAt : Z)
| InviteCreate (u : Caller) (org : string) (dto : InviteDto) (expiresAt : Z)
| Resolve (u : Caller) (token : string) (expected : option string) (a : InvitationAnswer)
| ResolveId (u : Caller) (token : string) (expected : option string) (a : InvitationAnswer)
| AnswerTx (u : Caller) (i : Invitation) (now : Z) (a : InvitationAnswer)
| RevokeGuard (u : Caller) (org id : string)
| RevokeFind (u : Caller) (org id : string)
| RevokeWrite (u : Caller) (i : Invitation) (now : Z)
(* membership-import.service.ts *)
| ImportGuard (u : Caller) (org : string) (input : ImportDto)
| ImportCreate (u : Caller) (org : string) (input : ImportDto)
| ImportRows (u : Caller) (j : ImportJob) (index : Z) (rows : list ImportRow)
| ImportStart (jobId : string)
| ImportCheck (j : ImportJob) (rest : list ImportResult) (processed : Z)
| ImportUser (j : ImportJob) (row : ImportResult) (rest : list ImportResult) (processed : Z)
| ImportMember (j : ImportJob) (row : ImportResult) (a : Account) (rest : list ImportResult) (processed : Z)
| ImportAdd (j : ImportJob) (row : ImportResult) (a : Account) (rest : list ImportResult) (processed : Z)
| ImportRecord (j : ImportJob) (row : ImportResult) (o : RowOutcome) (rest : list ImportResult) (processed : Z)
| ImportProgress (j : ImportJob) (rest : list ImportResult) (processed : Z)
| ImportDone (j : ImportJob)
| ImportFail (j : ImportJob) (message : string)
| CancelGuard (u : Caller) (org id : string)
| CancelFind (u : Caller) (org id : string)
| CancelWrite (u : Caller) (org id : string)
(* access-review.service.ts *)
| ReviewGuard (u : Caller) (org name : string) (description : option string)
| ReviewOrg (u : Caller) (org name : string) (description : option string)
| ReviewCreate (u : Caller) (org name : string) (description : option string) (revision : Z)
| EntryGuard (u : Caller) (org reviewId entryId : string) (dto : DecisionDto)
| EntryCampaign (u : Caller) (org reviewId entryId : string) (dto : DecisionDto)
| EntryFind (u : Caller) (org reviewId entryId : string) (dto : DecisionDto)
| EntryMember (u : Caller) (org reviewId : string) (e : ReviewEntry) (dto : DecisionDto)
| EntryWrite (u : Caller) (org reviewId : string) (e : ReviewEntry) (dto : DecisionDto) (conflict : bool)
| ApplyGuard (u : Caller) (org reviewId : string)
| ApplyRead (u : Caller) (org reviewId : string)
| ApplyNext (a : Apply)
| ApplyMark (a : Apply)
| CloseGuard (u : Caller) (org id : string) (st : CampaignStatus.t)
| CloseFind (u : Caller) (org id : string) (st : CampaignStatus.t)
| CloseWrite (u : Caller) (org id : string) (st : CampaignStatus.t).

(** What the environment chooses in a step: new ids, a random secret, the clock, the
    next of several concurrent queries, the text of an error. *)
Record Fresh := {
  fr_id : string;
  fr_ids : nat -> string;
  fr_audit : string;
  fr_secret : string;
  fr_now : Z;
  fr_pick : nat;
  fr_message : string;
}.

(** An acceptance that committed: its invitation, its caller, its instant, and the
    member rows that the table has after it and had not before. *)
Record Admission := { ad_invitation : string; ad_caller : Caller; ad_at : Z; ad_members : list Member }.

(** *** [applyRecommendations] *)

Definition apply_audit (a : Apply) : AuditArgs :=
  plain_audit (ap_user a) "APPLY_RECOMMENDATIONS" "AccessReviewCampaign" (ap_reviewId a)
    (JObj [("organizationId", JStr (ap_org a)); ("applied", JNum (Z.of_nat (ap_applied a)));
           ("skipped", JNum (Z.of_nat (ap_skipped a))); ("failed", JNum (Z.of_nat (ap_failed a)))]).

Definition apply_at (e : option ReviewEntry) (rest : list ReviewEntry) (applied skipped failed : nat) (a : Apply) : Apply :=
  {| ap_user := ap_user a; ap_org := ap_org a; ap_reviewId := ap_reviewId a; ap_entry := e; ap_rest := rest;
     ap_applied := (ap_applied a + applied)%nat; ap_skipped := (ap_skipped a + skipped)%nat; ap_failed := (ap_failed a + failed)%nat |}.

(** The body of the loop for one entry. *)
Definition apply_entry (e : ReviewEntry) (rest : list ReviewEntry) (a : Apply) : OrgOp :=
  let here := apply_at (Some e) rest 0 0 0 a in
  match re_decision e, re_recommendedRole e with
  | Some ReviewDecision.REMOVE, _ => RemoveGuard (ap_user a) (ap_org a) (re_memberId e) (Applying here)
  | Some ReviewDecision.ROLE_CHANGE, Some role => RoleGuard (ap_user a) (ap_org a) (re_memberId e) role (Applying here)
  | _, _ => ApplyNext (apply_at None rest 0 1 0 a)
  end.

(** The awaited operation succeeded, or threw. *)
Definition finished (c : Cont) : list OrgOp :=
  match c with
  | Reply => []
  | StartImport jobId => [ImportStart jobId]
  | Applying a => [ApplyMark (apply_at (ap_entry a) (ap_rest a) 1 0 0 a)]
  end.
Definition thrown (c : Cont) : list OrgOp :=
  match c with
  | Reply | StartImport _ => []
  | Applying a => [ApplyNext (apply_at None (ap_rest a) 0 0 1 a)]
  end.

Definition visible_next (u : Caller) (o : Organization) (next : VisibleNext) : result OrgError OrgOp :=
  match next with
  | UpdateProfile input => _ ← update_allowed o; Ok (ProfileWrite u (og_id o) input)
  | DeleteProfile => Ok (DeleteWrite u (og_id o))
  end.

Section service.
Context (sha256 : string -> string).

(** The checks of an answer once the invitation is found, and its transaction. *)
Definition answer_check (u : Caller) (expected : option string) (i : Invitation) (now : Z) (a : InvitationAnswer) : result OrgError OrgOp :=
  _ ← match a with Accept => accept_check u expected i now | Decline => decline_check u expected i now end;
  Ok (AnswerTx u i now a).

Definition added_members (d d' : OrgDb) : list Member :=
  List.filter (fun m => negb (bool_decide (mb_id m ∈ mb_id <$> od_members d))) (od_members d').
Definition admission (u : Caller) (i : Invitation) (now : Z) (d d' : OrgDb) : Admission :=
  {| ad_invitation := in_id i; ad_caller := u; ad_at := now; ad_members := added_members d d' |}.

Definition go (d : OrgDb) (m : result OrgError OrgOp) : result OrgError (OrgDb * list OrgOp * list Admission) :=
  op ← m; Ok (d, [op], []).
Definition pass (d : OrgDb) (m : result OrgError unit) (op : OrgOp) : result OrgError (OrgDb * list OrgOp * list Admission) :=
  _ ← m; Ok (d, [op], []).
Definition write (m : result OrgError OrgDb) (ops : list OrgOp) : result OrgError (OrgDb * list OrgOp * list Admission) :=
  d ← m; Ok (d, ops, []).

Definition require_manager (u : Caller) (org : string) (d : OrgDb) : result OrgError unit :=
  throw_if (negb (canManageOrganization u org d)) OrgForbidden.

Definition op_step (f : Fresh) (op : OrgOp) (d : OrgDb) : result OrgError (OrgDb * list OrgOp * list Admission) :=
  let now := fr_now f in
  match op with
  | MemberGuard u org required next => pass d (member_guard u org required d) next
  | AppendAudit args c => write (append_org_audit sha256 (fr_audit f) now args d) (finished c)
  | AssignGuard u org userId role => pass d (ensureCanManageOrganization u org d) (AssignUser u org userId role)
  | AssignUser u org userId role => pass d (assign_user userId d) (AssignCheck u org userId role)
  | AssignCheck u org userId role => pass d (assign_check org userId d) (AssignCreate u org userId role)
  | AssignCreate u org userId role =>
      let m := new_member (fr_id f) org userId role now in
      write (create_member m d) [AppendAudit (assign_audit u m now) Reply]
  | RoleGuard u org memberId role c => pass d (ensureIsOrganizationOwner u org d) (RoleFind u org memberId role c)
  | RoleFind u org memberId role c =>
      go d (m ← load_member org memberId d; Ok (if demotes m role then RoleCount u org m role c else RoleWrite u org m role c))
  | RoleCount u org m role c => pass d (final_owner_check org d) (RoleWrite u org m role c)
  | RoleWrite u org m role c =>
      write (member_role_write (mb_id m) role d)
        [if bool_decide (mb_role m = role) then AppendAudit (role_audit u org m role now) c
         else SessionsFind {| sn_user := u; sn_org := org; sn_member := m; sn_change := ChangedRole role; sn_cont := c |}]
  | RemoveGuard u org memberId c => pass d (ensureIsOrganizationOwner u org d) (RemoveFind u org memberId c)
  | RemoveFind u org memberId c =>
      go d (m ← load_member org memberId d;
            Ok (if bool_decide (mb_role m = OrganizationMemberRole.OWNER) then RemoveCount u org m c else RemoveDelete u org m c))
  | RemoveCount u org m c => pass d (final_owner_check org d) (RemoveDelete u org m c)
  | RemoveDelete u org m c =>
      write (delete_member (mb_id m) d)
        [SessionsFind {| sn_user := u; sn_org := org; sn_member := m; sn_change := Removed; sn_cont := c |}]
  | SessionsFind n => Ok (d, [SessionsWrite (live_session_ids (mb_userId (sn_member n)) d) (Some n)], [])
  | SessionsWrite ids n =>
      let k := (fr_pick f mod length ids)%nat in
      match ids !! k, n with
      | Some id, _ => write (session_revoke id now d) [SessionsWrite (delete k ids) n]
      | None, Some n => Ok (d, [AppendAudit (change_audit (sn_user n) (sn_org n) (sn_member n) (sn_change n) now) (sn_cont n)], [])
      | None, None => Ok (d, [], [])
      end
  | CreateSlug u name slug website =>
      pass d (_ ← throw_if (negb (global_admin u)) OrgForbidden; slug_check slug d) (CreateOrg u name slug website)
  | CreateOrg u name slug website =>
      let o := new_org (fr_id f) name slug website (cl_id u) in write (create_org o d) [CreateOwner u o]
  | CreateOwner u o =>
      write (create_member (new_member (fr_id f) (og_id o) (cl_id u) OrganizationMemberRole.OWNER now) d)
        [AppendAudit (create_audit_args u o now) Reply]
  | Visible u org next =>
      go d (match find_org org d with
            | None => Err OrgNotFound
            | Some o => if global_admin u || bool_decide (og_createdById o = cl_id u) then visible_next u o next
                        else Ok (VisibleCreator u o next)
            end)
  | VisibleCreator u o next =>
      go d (match find_org (og_id o) d with
            | Some o' => if bool_decide (og_createdById o' = cl_id u) then visible_next u o next else Ok (VisibleMember u o next)
            | None => Ok (VisibleMember u o next)
            end)
  | VisibleMember u o next =>
      go d (_ ← throw_if (bool_decide (getMemberRole (cl_id u) (og_id o) d = None)) OrgNotFound; visible_next u o next)
  | ProfileWrite u org input => write (profile_write org input d) [ProfileRead u org input]
  | ProfileRead u org input =>
      go d (o ← load org d; Ok (AppendAudit (profile_audit u org input (og_revision o) now) Reply))
  | DeleteWrite u org => write (mark_deleted org d) [AppendAudit (mark_deleted_audit u org now) Reply]
  | InviteOrg u org dto => pass d (_ ← getOrganizationOrThrow org d; Ok tt) (InviteRole u org dto)
  | InviteRole u org dto => pass d (invite_role_check u org dto d) (InviteUser u org dto)
  | InviteUser u org dto =>
      go d (match find_where (has_wallet (normalized (iv_recipientWalletAddress dto))) (od_users d) with
            | Some a => Ok (InviteMember u org dto (ac_id a))
            | None => expiresAt ← invite_expiry dto now; Ok (InvitePrevious u org dto now expiresAt)
            end)
  | InviteMember u org dto userId =>
      go d (_ ← invite_member_check org userId d;
            expiresAt ← invite_expiry dto now; Ok (InvitePrevious u org dto now expiresAt))
  | InvitePrevious u org dto at_ expiresAt =>
      Ok (invite_revoke_previous u org dto at_ d, [InviteCreate u org dto expiresAt], [])
  | InviteCreate u org dto expiresAt =>
      let i := new_invitation sha256 (fr_id f) u org dto (fr_secret f) expiresAt in
      write (create_invitation i d) [AppendAudit (invitation_created_audit u i now) Reply]
  | Resolve u token expected a =>
      go d (found ← resolve_first sha256 token d;
            match found with Some i => answer_check u expected i now a | None => Ok (ResolveId u token expected a) end)
  | ResolveId u token expected a => go d (i ← resolve_second token d; answer_check u expected i now a)
  | AnswerTx u i at_ Accept =>
      d' ← accept_tx sha256 u i at_ (fr_id f) (fr_audit f) now d; Ok (d', [], [admission u i at_ d d'])
  | AnswerTx u i at_ Decline => write (decline_tx sha256 u i at_ (fr_audit f) now d) []
  | RevokeGuard u org id => pass d (ensure_invitation_manager u org d) (RevokeFind u org id)
  | RevokeFind u org id =>
      found ← revoke_read org id d;
      Ok (d, match found with Some i => [RevokeWrite u i now] | None => [] end, [])
  | RevokeWrite u i at_ => write (revoke_write u (in_id i) at_ d) [AppendAudit (revoked_audit u i now) Reply]
  | ImportGuard u org input => pass d (createImport_check u org input d) (ImportCreate u org input)
  | ImportCreate u org input =>
      let j := new_import (fr_id f) u org input in write (create_import j d) [ImportRows u j 0 (di_members input)]
  | ImportRows u j index rows =>
      match rows with
      | row :: rows => write (create_result (new_result (fr_id f) (ij_id j) index row) d) [ImportRows u j (index + 1) rows]
      | [] => Ok (d, [AppendAudit (import_audit u j) (StartImport (ij_id j))], [])
      end
  | ImportStart jobId =>
      '(d, j, results) ← process_start jobId d;
      Ok (d, if bool_decide (ij_status j = ImportStatus.CANCELLED) then [] else [ImportCheck j results 0], [])
  | ImportCheck j rest processed =>
      match rest with
      | [] => Ok (d, [ImportDone j], [])
      | row :: rest =>
          Ok (d, if bool_decide (ij_status <$> find_import (ij_id j) d = Some ImportStatus.CANCELLED) then []
                 else [ImportUser j row rest processed], [])
      end
  | ImportUser j row rest processed =>
      Ok (d, [match row_user row d with
              | inl a => ImportMember j row a rest processed
              | inr o => ImportRecord j row o rest processed
              end], [])
  | ImportMember j row a rest processed =>
      Ok (d, [match row_member (ij_organizationId j) row a d with
              | Some o => ImportRecord j row o rest processed
              | None => ImportAdd j row a rest processed
              end], [])
  | ImportAdd j row a rest processed =>
      write (create_member (new_member (fr_id f) (ij_organizationId j) (ac_id a) (im_requestedRole row) now) d)
        [ImportRecord j row row_added rest processed]
  | ImportRecord j row o rest processed =>
      write (record_outcome (im_id row) o now d) [ImportProgress j rest (processed + 1)]
  | ImportProgress j rest processed =>
      write (update_import (ij_id j) (import_progress processed) d) [ImportCheck j rest processed]
  | ImportDone j => write (update_import (ij_id j) (import_completed now) d) []
  | ImportFail j message => write (update_import (ij_id j) (import_failed message) d) []
  | CancelGuard u org id => pass d (require_manager u org d) (CancelFind u org id)
  | CancelFind u org id => pass d (import_cancel_read org id d) (CancelWrite u org id)
  | CancelWrite u org id => write (update_import id (import_cancelled now) d) [AppendAudit (cancel_audit u org id) Reply]
  | ReviewGuard u org name description => pass d (require_manager u org d) (ReviewOrg u org name description)
  | ReviewOrg u org name description => go d (revision ← review_revision org d; Ok (ReviewCreate u org name description revision))
  | ReviewCreate u org name description revision =>
      let c := new_campaign (fr_id f) u org name description revision in
      write (review_tx c (fr_ids f) d) [AppendAudit (review_audit u c) Reply]
  | EntryGuard u org reviewId entryId dto => pass d (require_manager u org d) (EntryCampaign u org reviewId entryId dto)
  | EntryCampaign u org reviewId entryId dto => pass d (require_open org reviewId d) (EntryFind u org reviewId entryId dto)
  | EntryFind u org reviewId entryId dto => go d (e ← entry_read reviewId entryId d; Ok (EntryMember u org reviewId e dto))
  | EntryMember u org reviewId e dto => Ok (d, [EntryWrite u org reviewId e dto (conflict_detected e d)], [])
  | EntryWrite u org reviewId e dto conflict =>
      write (update_entry (re_id e) (set_decision dto (cl_id u) now conflict) d)
        [AppendAudit (entry_audit u org reviewId e dto conflict) Reply]
  | ApplyGuard u org reviewId => pass d (require_manager u org d) (ApplyRead u org reviewId)
  | ApplyRead u org reviewId =>
      Ok (d, [ApplyNext {| ap_user := u; ap_org := org; ap_reviewId := reviewId; ap_entry := None;
                           ap_rest := List.filter (to_apply reviewId) (od_entries d);
                           ap_applied := 0; ap_skipped := 0; ap_failed := 0 |}], [])
  | ApplyNext a =>
      let k := (fr_pick f mod length (ap_rest a))%nat in
      Ok (d, [match ap_rest a !! k with
              | Some e => apply_entry e (delete k (ap_rest a)) a
              | None => AppendAudit (apply_audit a) Reply
              end], [])
  | ApplyMark a =>
      match ap_entry a with
      | Some e => write (update_entry (re_id e) (set_applied now) d) [ApplyNext (apply_at None (ap_rest a) 0 0 0 a)]
      | None => Ok (d, [], [])                     (* not reached: the loop is at an entry *)
      end
  | CloseGuard u org id st => pass d (require_manager u org d) (CloseFind u org id st)
  | CloseFind u org id st => pass d (require_open org id d) (CloseWrite u org id st)
  | CloseWrite u org id st => write (close_write id st now d) [AppendAudit (close_audit u org id st) Reply]
  end.

(** What still runs after a query of a handler threw. *)
Definition op_failed (f : Fresh) (op : OrgOp) : list OrgOp :=
  match op with
  | RoleGuard _ _ _ _ c | RoleFind _ _ _ _ c | RoleCount _ _ _ _ c | RoleWrite _ _ _ _ c
  | RemoveGuard _ _ _ c | RemoveFind _ _ _ c | RemoveCount _ _ _ c | RemoveDelete _ _ _ c | AppendAudit _ c => thrown c
  | SessionsFind n => thrown (sn_cont n)
  | SessionsWrite ids n =>                         (* the other updates of [Promise.all] go on *)
      match n with Some n => thrown (sn_cont n) | None => [] end ++ [SessionsWrite (delete (fr_pick f mod length ids)%nat ids) None]
  | ImportUser j row rest n | ImportMember j row _ rest n | ImportAdd j row _ rest n =>
      [ImportRecord j row (row_failed (fr_message f)) rest n]
  | ImportCheck j _ _ | ImportRecord j _ _ _ _ | ImportProgress j _ _ | ImportDone j => [ImportFail j (fr_message f)]
  | ApplyMark a => thrown (Applying a)
  | _ => []
  end.

(** ** Routes *)

Definition guarded (u : Caller) (org : string) (required : OrganizationMemberRole.t) (next : OrgOp) : OrgOp :=
  MemberGuard u (extractOrganizationId None (Some org) None) (Some required) next.
Definition org_guarded (u : Caller) (org : string) (required : OrganizationMemberRole.t) (next : OrgOp) : OrgOp :=
  MemberGuard u (extractOrganizationId (Some org) None None) (Some required) next.
(** [routeOrgId || input.organizationId] *)
Definition expected_org (routeOrgId inputOrg : option string) : option string :=
  match nonempty routeOrgId with Some x => Some x | None => nonempty inputOrg end.

Inductive Route : OrgOp -> Prop :=
| route_assign u org userId role :
    Route (guarded u org OrganizationMemberRole.ADMIN (AssignGuard u org userId role))
| route_role u org memberId role :
    Route (guarded u org OrganizationMemberRole.OWNER (RoleGuard u org memberId role Reply))
| route_remove u org memberId :
    Route (guarded u org OrganizationMemberRole.OWNER (RemoveGuard u org memberId Reply))
| route_create u name slug website :
    global_admin u = true -> Route (CreateSlug u name slug website)
| route_profile u org input : Route (Visible u org (UpdateProfile input))
| route_delete u org : global_admin u = true -> Route (Visible u org DeleteProfile)
| route_invite u org dto :
    Route (org_guarded u org OrganizationMemberRole.ADMIN (InviteOrg u org dto))
| route_answer u token routeOrgId inputOrg a : Route (Resolve u token (expected_org routeOrgId inputOrg) a)
| route_revoke u org id :
    Route (org_guarded u org OrganizationMemberRole.ADMIN (RevokeGuard u org id))
| route_import u org input : Route (ImportGuard u org input)
| route_cancel_import u org id : Route (CancelGuard u org id)
| route_review u org name description : Route (ReviewGuard u org name description)
| route_entry u org reviewId entryId dto : Route (EntryGuard u org reviewId entryId dto)
| route_apply u org reviewId : Route (ApplyGuard u org reviewId)
| route_close u org id st : st <> CampaignStatus.OPEN -> Route (CloseGuard u org id st).

(** ** The system *)

Record OrgSys := { os_db : OrgDb; os_ops : list OrgOp; os_admitted : list Admission }.

Definition with_org_db (d : OrgDb) (s : OrgSys) : OrgSys :=
  {| os_db := d; os_ops := os_ops s; os_admitted := os_admitted s |}.

Context (setting : RetentionSetting).

(** The transactions of the lifecycle and the expiry sweep, each one step. *)
Inductive tx_step (d : OrgDb) : OrgDb -> Prop :=
| tx_archive u id auditId now d' : archive u id auditId now d = Ok d' -> tx_step d d'
| tx_restore u id auditId now d' : restore u id auditId now d = Ok d' -> tx_step d d'
| tx_hold u id reference auditId now d' : placeLegalHold u id reference auditId now d = Ok d' -> tx_step d d'
| tx_release u id auditId now d' : releaseLegalHold u id auditId now d = Ok d' -> tx_step d d'
| tx_delete u id auditId now d' c : deleteOrganization setting u id auditId now d = Ok (d', c) -> tx_step d d'
| tx_cleanup org now : tx_step d (cleanupExpiredInvitations org now d).1.

Inductive org_step (s : OrgSys) : OrgSys -> Prop :=
| step_arrive op :
    Route op -> org_step s {| os_db := os_db s; os_ops := os_ops s ++ [op]; os_admitted := os_admitted s |}
| step_go l1 op l2 f d ops adm :
    os_ops s = l1 ++ op :: l2 -> op_step f op (os_db s) = Ok (d, ops, adm) ->
    org_step s {| os_db := d; os_ops := l1 ++ ops ++ l2; os_admitted := os_admitted s ++ adm |}
| step_throw l1 op l2 f :                          (* refused, or the query failed *)
    os_ops s = l1 ++ op :: l2 ->
    org_step s {| os_db := os_db s; os_ops := l1 ++ op_failed f op ++ l2; os_admitted := os_admitted s |}
| step_stop l1 op l2 :                             (* its process stopped *)
    os_ops s = l1 ++ op :: l2 ->
    org_step s {| os_db := os_db s; os_ops := l1 ++ l2; os_admitted := os_admitted s |}
| step_tx d : tx_step (os_db s) d -> org_step s (with_org_db d s)
| step_elsewhere us ss w a :                       (* accounts, sessions, issuers, keys, webhooks, other audits *)
    org_step s (with_org_db (set_people us ss (set_owned w (set_org_audit a (os_db s)))) s).
End service.
