(* ===== verification/OrganizationFacts.v ===== *)
(** * Organizations: correctness

    Theorems about [OrganizationSystem]: what an accepted invitation grants and how
    often, what a deleted organization went through, which members stay, that the
    handlers one at a time keep every organization an owner, and when a deletion
    goes through and what it leaves; and the runs in which two requests, or two
    routes, defeat a check. *)

From S2P Require Import Prelude JsData Calendar Encoding IsoDate Canonical Schema AuditChain Accounts Idempotency WebhookStore ApiKeys.
From S2P Require Import Organizations OrganizationLifecycle OrganizationInvitations MembershipImport OrganizationSystem.

Local Open Scope string_scope.
Local Open Scope Z_scope.
Local Open Scope list_scope.

(** Follow a step of a handler to the table it leaves. *)
Ltac open_writes :=
  unfold accept_tx, decline_tx, process_start, review_tx, append_org_audit, create_member, member_role_write, delete_member, session_revoke, create_org, profile_write, mark_deleted,
    create_invitation, revoke_write, create_import, create_result, update_import, record_outcome, update_entry, close_write,
    update_one, audit_org_tx in *;
  repeat match goal with
  | H : org_db ?m = Ok _ |- _ => let E := fresh "E" in destruct m eqn:E; cbn in H; [|discriminate H]
  | H : match find_import ?i ?d with Some _ => _ | None => _ end = Ok _ |- _ => destruct (find_import i d) eqn:?
  | _ => progress (run_result; simplify_eq)
  end; subst.
Ltac op_cases op :=
  destruct op; cbn [op_step] in *; unfold go, pass, write in *; run_result; simplify_eq; repeat (case_match; simplify_eq);
  run_result; simplify_eq.

(** ** Rows by key *)

Lemma has_member_id_spec id m : has_member_id id m = true <-> mb_id m = id.
Proof. unfold has_member_id. by rewrite bool_decide_eq_true. Qed.

Lemma owner_of_spec org m :
  owner_of org m = true <-> mb_organizationId m = org /\ mb_role m = OrganizationMemberRole.OWNER.
Proof. unfold owner_of. by rewrite andb_true_iff, !bool_decide_eq_true. Qed.

Lemma updated_row {R} (p : R -> bool) f t r : r ∈ t -> (if p r then f r else r) ∈ update_where p f t.
Proof. intros H. apply elem_of_update_where. eauto. Qed.

(** ** How the tables change *)

Section facts.
Context (sha256 : string -> string) (setting : RetentionSetting).

Abbreviation op_step := (op_step sha256).
Abbreviation org_step := (org_step sha256 setting).
Abbreviation tx_step := (tx_step setting).

Inductive members_change (d : OrgDb) : list Member -> Prop :=
| members_same : members_change d (od_members d)
| members_add m : mb_id m ∉ mb_id <$> od_members d -> members_change d (od_members d ++ [m])
| members_role id role : members_change d (update_where (has_member_id id) (with_role role) (od_members d))
| members_remove id :
    id ∉ re_memberId <$> od_entries d ->
    members_change d (List.filter (fun m => negb (has_member_id id m)) (od_members d)).

Lemma create_member_change m d d' :
  create_member m d = Ok d' -> (mb_id m ∉ mb_id <$> od_members d) /\ d' = set_members (od_members d ++ [m]) d.
Proof. unfold create_member. intros H. run_result. by reflect_hyps. Qed.

(** Everything an operation in flight may do to members and reviews. *)
Record reviewed_change (d d' : OrgDb) : Prop := {
  rc_members : members_change d (od_members d');
  rc_entries : exists new, re_memberId <$> od_entries d' = (re_memberId <$> od_entries d) ++ new /\
    (new = [] \/ od_members d' = od_members d /\ new ⊆ mb_id <$> od_members d);
}.

Lemma reviewed_same d d' :
  members_change d (od_members d') -> re_memberId <$> od_entries d' = re_memberId <$> od_entries d -> reviewed_change d d'.
Proof. intros H E. split; [done|]. exists []. rewrite app_nil_r. auto. Qed.

Lemma reviewed_eq d d' : od_members d' = od_members d -> od_entries d' = od_entries d -> reviewed_change d d'.
Proof. intros E1 E2. apply reviewed_same; [rewrite E1; constructor|by rewrite E2]. Qed.

Lemma reviewed_members d ms : members_change d ms -> reviewed_change d (set_members ms d).
Proof. intros H. by apply reviewed_same. Qed.

Lemma entry_updated p f cs d :
  (forall e, re_memberId (f e) = re_memberId e) ->
  reviewed_change d (set_reviews cs (update_where p f (od_entries d)) d).
Proof. intros H. apply reviewed_same; [exact (members_same d)|]. by apply update_where_keys. Qed.

Lemma review_added c org ids cs d :
  reviewed_change d (set_reviews cs (od_entries d ++
    imap (fun n m => new_entry (ids n) c m) (List.filter (active_member org) (od_members d))) d).
Proof.
  split; [exact (members_same d)|]. cbn [od_entries od_members set_reviews].
  exists (mb_id <$> List.filter (active_member org) (od_members d)). rewrite fmap_app, fmap_imap. split.
  - f_equal. generalize (List.filter (active_member org) (od_members d)). intros l. clear.
    assert (forall n : nat -> nat, imap (fun k m => re_memberId (new_entry (ids (n k)) c m)) l = mb_id <$> l) as H; [|apply (H id)].
    induction l as [|m l IH]; intros n; [done|]. rewrite imap_cons, fmap_cons. f_equal. apply (IH (n ∘ S)).
  - right. split; [done|]. intros x. rewrite !list_elem_of_fmap. intros (m & -> & [Hm _]%elem_of_filter_bool). eauto.
Qed.

Lemma op_reviewed f op d d' ops adm : op_step f op d = Ok (d', ops, adm) -> reviewed_change d d'.
Proof.
  intros H. op_cases op; open_writes; cbn [od_members od_entries] in *; reflect_hyps.
  all: first [by apply reviewed_eq|by apply entry_updated|by apply reviewed_members; constructor
             |by apply reviewed_same; [by constructor|]|apply review_added].
Qed.

Lemma tx_tables d d' : tx_step d d' ->
  od_members d' = od_members d /\ od_entries d' = od_entries d /\ od_results d' = od_results d /\ od_imports d' = od_imports d.
Proof.
  destruct 1; [unfold archive, restore, placeLegalHold, releaseLegalHold, deleteOrganization, transition in *..|by split_and!].
  all: run_result; repeat (case_match; simplify_eq); open_writes; by split_and!.
Qed.

(** ** Reviewed members stay *)

Definition reviewed_present (d : OrgDb) : Prop := re_memberId <$> od_entries d ⊆ mb_id <$> od_members d.

Lemma members_change_ids d ms id :
  members_change d ms -> id ∈ re_memberId <$> od_entries d -> id ∈ mb_id <$> od_members d -> id ∈ mb_id <$> ms.
Proof.
  intros Hc He Hm. destruct Hc as [|m _|id' role|id' Hid]; [done|set_solver|by rewrite update_where_keys|].
  apply list_elem_of_fmap in Hm as (m & -> & Hm). apply list_elem_of_fmap. exists m. split; [done|].
  apply elem_of_filter_bool. split; [done|]. apply negb_true_iff. apply not_true_iff_false. intros E%has_member_id_spec. congruence.
Qed.

Lemma reviewed_change_present d d' :
  reviewed_change d d' -> reviewed_present d -> reviewed_present d' /\ re_memberId <$> od_entries d ⊆ re_memberId <$> od_entries d'.
Proof.
  intros [Hm (new & E & Hn)] Hp. split; [|rewrite E; set_solver]. intros id. rewrite E, elem_of_app. intros [He|He].
  - eapply members_change_ids; eauto.
  - destruct Hn as [->|[-> Hn]]; [by apply not_elem_of_nil in He|auto].
Qed.

Lemma step_reviewed s s' :
  org_step s s' -> reviewed_present (os_db s) ->
  reviewed_present (os_db s') /\ re_memberId <$> od_entries (os_db s) ⊆ re_memberId <$> od_entries (os_db s').
Proof.
  intros Hs. apply reviewed_change_present. destruct Hs as [|l1 op l2 f d ops adm _ H| | |d H|].
  1,3,4,6: by apply reviewed_eq.
  - by eapply op_reviewed.
  - apply tx_tables in H as (? & ? & _). by apply reviewed_eq.
Qed.

(** C37: Once an access review has an entry for a member, no sequence of requests,
    however they interleave, removes that member: the entry's foreign key refuses the
    delete in every later state, so [removeMember] and a [REMOVE] recommendation of
    any review fail from then on. *)
Theorem reviewed_member_not_removable s s' f u org m c e :
  reviewed_present (os_db s) -> rtc org_step s s' -> e ∈ od_entries (os_db s) -> mb_id m = re_memberId e ->
  (re_memberId e ∈ mb_id <$> od_members (os_db s')) /\ op_step f (RemoveDelete u org m c) (os_db s') = Err OrgForeignKey.
Proof.
  intros Hp Hr He Hm.
  assert (reviewed_present (os_db s') /\ re_memberId e ∈ re_memberId <$> od_entries (os_db s')) as [Hp' He'].
  { apply (rtc_invariant org_step (fun x => reviewed_present (os_db x) /\ re_memberId e ∈ re_memberId <$> od_entries (os_db x)))
      in Hr; [done| |].
    - intros x y Hxy [Hx Hin]. destruct (step_reviewed _ _ Hxy Hx). auto.
    - split; [done|]. apply list_elem_of_fmap. eauto. }
  assert (re_memberId e ∈ mb_id <$> od_members (os_db s')) as Hin by auto. split; [done|].
  cbn. unfold delete_member. rewrite Hm. assert (count_where (has_member_id (re_memberId e)) (od_members (os_db s')) <> 0%nat).
  { apply list_elem_of_fmap in Hin as (m' & E & Hin). unfold count_where.
    assert (m' ∈ List.filter (has_member_id (re_memberId e)) (od_members (os_db s'))) as Hf
      by (apply elem_of_filter_bool; by rewrite has_member_id_spec).
    destruct (List.filter _ _); [by apply not_elem_of_nil in Hf|done]. }
  destruct (Nat.eqb_spec (count_where (has_member_id (re_memberId e)) (od_members (os_db s'))) 0); [done|]. cbn.
  by rewrite bool_decide_true.
Qed.

(** ** Invitations *)

Definition invitation_core (i : Invitation) : string * string * OrganizationMemberRole.t * string * Z :=
  (in_id i, in_organizationId i, in_role i, in_recipientWalletAddress i, in_expiresAt i).

(** What may happen to a row: once answered it is not pending again, and its
    acceptance stays. *)
Definition invitation_evolves (i i' : Invitation) : Prop :=
  invitation_core i' = invitation_core i /\
  (in_status i <> InvitationStatus.PENDING -> in_status i' <> InvitationStatus.PENDING /\ in_accepted i' = in_accepted i).

Record invitations_evolve (l l' : list Invitation) : Prop := {
  ie_rows : forall i, i ∈ l -> exists i', i' ∈ l' /\ invitation_evolves i i';
  ie_ids : NoDup (in_id <$> l) -> NoDup (in_id <$> l');
}.

Lemma invitations_same l : invitations_evolve l l.
Proof. split; [|done]. intros i Hi. by exists i. Qed.

Lemma invitations_update p f l :
  (forall i, p i = true -> invitation_evolves i (f i)) -> invitations_evolve l (update_where p f l).
Proof.
  intros Hf. split.
  - intros i Hi. eexists. split; [by apply updated_row|]. destruct (p i) eqn:E; [auto|done].
  - intros Hnd. assert (in_id <$> update_where p f l = in_id <$> l) as ->; [|done].
    unfold update_where. rewrite <- list_fmap_compose. apply list_fmap_ext. intros _ i _. cbn.
    destruct (p i) eqn:E; [|done]. destruct (Hf i E) as [Hc _]. unfold invitation_core in Hc. congruence.
Qed.

Lemma invitations_add i l : in_id i ∉ in_id <$> l -> invitations_evolve l (l ++ [i]).
Proof.
  intros Hi. split; [|by intros; apply NoDup_fmap_snoc]. intros x Hx. exists x. split; [set_solver|done].
Qed.

Lemma pending_evolves st a dc rv i :
  in_status i = InvitationStatus.PENDING -> invitation_evolves i (with_outcome st a dc rv i).
Proof. by split. Qed.
Lemma closed_evolves st dc rv i :
  st <> InvitationStatus.PENDING -> invitation_evolves i (with_outcome st (in_accepted i) dc rv i).
Proof. by split. Qed.

Lemma still_pending_spec id now i :
  still_pending id now i = true <-> in_id i = id /\ in_status i = InvitationStatus.PENDING /\ now < in_expiresAt i.
Proof.
  unfold still_pending, has_invitation_id. rewrite !andb_true_iff, !bool_decide_eq_true, Z.ltb_lt. tauto.
Qed.

Lemma op_invitations f op d d' ops adm :
  op_step f op d = Ok (d', ops, adm) -> invitations_evolve (od_invitations d) (od_invitations d').
Proof.
  intros H. op_cases op; open_writes; cbn [od_invitations] in *; reflect_hyps.
  all: first [apply invitations_same|by apply invitations_add|idtac].
  all: apply invitations_update; intros ? Hp.
  all: first [by apply closed_evolves|apply still_pending_spec in Hp as (_ & ? & _); by apply pending_evolves].
Qed.

Lemma tx_invitations d d' : tx_step d d' -> invitations_evolve (od_invitations d) (od_invitations d').
Proof.
  destruct 1 as [| | | | |org now];
    [unfold archive, restore, placeLegalHold, releaseLegalHold, deleteOrganization, transition in *..|].
  1-5: run_result; repeat (case_match; simplify_eq); open_writes; apply invitations_same.
  apply invitations_update. intros i _. by apply closed_evolves.
Qed.

Lemma filter_bool_none {A} (f : A -> bool) l : Forall (fun x => f x = false) l -> List.filter f l = [].
Proof. induction 1 as [|x l Hx _ IH]; [done|]. cbn. by rewrite Hx. Qed.

Lemma added_one d d' m :
  od_members d' = od_members d ++ [m] -> mb_id m ∉ mb_id <$> od_members d -> added_members d d' = [m].
Proof.
  intros E Hm. unfold added_members. rewrite E, List.filter_app. cbn. rewrite bool_decide_eq_false_2 by done. cbn.
  rewrite filter_bool_none; [done|]. apply Forall_forall. intros x Hx.
  rewrite bool_decide_eq_true_2; [done|]. by apply list_elem_of_fmap_2.
Qed.

Lemma accept_adds u i now id auditId at_ d d' :
  accept_tx sha256 u i now id auditId at_ d = Ok d' ->
  added_members d d' = [new_member id (in_organizationId i) (cl_id u) (in_role i) now].
Proof.
  intros H. open_writes. apply added_one; [done|]. by reflect_hyps.
Qed.

Lemma op_admits f op d d' ops adm :
  op_step f op d = Ok (d', ops, adm) ->
  adm = [] \/ exists u i now i0, op = AnswerTx u i now Accept /\ adm = [admission u i now d d'] /\
    added_members d d' = [new_member (fr_id f) (in_organizationId i) (cl_id u) (in_role i) now] /\
    i0 ∈ od_invitations d /\ still_pending (in_id i) now i0 = true /\ set_accepted now (cl_id u) i0 ∈ od_invitations d'.
Proof.
  intros H. op_cases op; auto. right.
  match goal with H : accept_tx _ _ _ _ _ _ _ _ = Ok _ |- _ => pose proof (accept_adds _ _ _ _ _ _ _ _ H) as Hadd end.
  open_writes. cbn [od_invitations set_org_audit set_members set_invitations].
  match goal with H : (_ =? 0)%nat = false |- _ => apply Nat.eqb_neq, count_where_pos in H as (i0 & Hi & Hp) end.
  do 4 eexists. split_and!; [done|done|exact Hadd|exact Hi|exact Hp|]. pose proof (updated_row (still_pending (in_id i) now) (set_accepted now (cl_id u)) _ _ Hi) as Hu.
  by rewrite Hp in Hu.
Qed.

(** What an acceptance in flight has checked. *)
Fixpoint op_checked (l : list Invitation) (op : OrgOp) : Prop :=
  match op with
  | MemberGuard _ _ _ next => op_checked l next
  | AnswerTx u i now Accept =>
      (exists i0, i0 ∈ l /\ invitation_core i0 = invitation_core i) /\
      normalized (cl_walletAddress u) = normalized (in_recipientWalletAddress i)
  | _ => True
  end.

Lemma op_checked_evolve l l' op : invitations_evolve l l' -> op_checked l op -> op_checked l' op.
Proof.
  intros Hl. induction op; cbn; auto. destruct a; [|done]. intros ((i0 & Hi & Hc) & Hw). split; [|done].
  destruct (ie_rows _ _ Hl _ Hi) as (i' & Hi' & Hc' & _). exists i'. split; [done|congruence].
Qed.

Lemma finished_checked l c : Forall (op_checked l) (finished c).
Proof. destruct c; by repeat constructor. Qed.
Lemma thrown_checked l c : Forall (op_checked l) (thrown c).
Proof. destruct c; by repeat constructor. Qed.

Lemma failed_checked l f op : Forall (op_checked l) (op_failed f op).
Proof.
  destruct op; cbn [op_failed]; try apply thrown_checked; try (by repeat constructor).
  apply Forall_app. split; [case_match; [apply thrown_checked|constructor]|by repeat constructor].
Qed.

Lemma answer_checked u expected i now a op d :
  answer_check u expected i now a = Ok op -> i ∈ od_invitations d -> op_checked (od_invitations d) op.
Proof.
  unfold answer_check. intros H Hi. run_result. destruct a; [|done]. cbn. split; [by exists i|].
  unfold accept_check, wallet_check in *. run_result. reflect_hyps. by apply String.eqb_eq.
Qed.

Lemma resolve_first_in token d i : resolve_first sha256 token d = Ok (Some i) -> i ∈ od_invitations d.
Proof.
  unfold resolve_first. intros H. run_result. repeat (case_match; simplify_eq; run_result).
  all: unfold find_invitation in *.
  all: match goal with H : find_where _ _ = Some _ |- _ => by apply find_where_Some in H as [? _] end.
Qed.

Lemma visible_checked u o next op l : visible_next u o next = Ok op -> op_checked l op.
Proof. destruct next; cbn; intros H; by run_result. Qed.
Lemma apply_checked e rest a l : op_checked l (apply_entry e rest a).
Proof. unfold apply_entry. by repeat case_match. Qed.

Lemma op_next_checked f op d d' ops adm :
  op_step f op d = Ok (d', ops, adm) -> op_checked (od_invitations d) op -> Forall (op_checked (od_invitations d)) ops.
Proof.
  intros H Hop. op_cases op; try apply finished_checked; try (by repeat constructor).
  all: repeat (case_match; simplify_eq; run_result); try (by repeat constructor).
  all: apply Forall_singleton; try (by eapply visible_checked); try apply apply_checked.
  - eapply answer_checked; [done|]. by eapply resolve_first_in.
  - eapply answer_checked; [done|]. unfold resolve_second, find_invitation in *. case_match; simplify_eq.
    match goal with H : find_where _ _ = Some _ |- _ => by apply find_where_Some in H as [? _] end.
Qed.

(** What an acceptance added is one member row: the caller's, whose wallet is the one
    invited, with the role and in the organization of the invitation, before its
    expiry; and the invitation names the caller and the instant. *)
Definition warranted (l : list Invitation) (a : Admission) : Prop :=
  exists i m, i ∈ l /\ in_id i = ad_invitation a /\
    ad_members a = [m] /\ mb_organizationId m = in_organizationId i /\ mb_role m = in_role i /\
    mb_userId m = cl_id (ad_caller a) /\ mb_status m = ResourceStatus.ACTIVE /\
    normalized (cl_walletAddress (ad_caller a)) = normalized (in_recipientWalletAddress i) /\ ad_at a < in_expiresAt i /\
    in_status i <> InvitationStatus.PENDING /\ in_accepted i = Some (ad_at a, cl_id (ad_caller a)).

Lemma warranted_evolve l l' a : invitations_evolve l l' -> warranted l a -> warranted l' a.
Proof.
  intros Hl (i & m & Hi & H1 & H2 & H3 & H4 & H5 & H6 & H7 & H8 & H9 & H10).
  destruct (ie_rows _ _ Hl _ Hi) as (i' & Hi' & Hc & Hst).
  destruct (Hst H9) as [H9' H10']. exists i', m. unfold invitation_core in Hc. injection Hc as -> -> -> -> ->.
  rewrite H10'. by split_and!.
Qed.

Record admissions_inv (s : OrgSys) : Prop := {
  ai_ids : NoDup (in_id <$> od_invitations (os_db s));
  ai_once : NoDup (ad_invitation <$> os_admitted s);
  ai_warranted : Forall (warranted (od_invitations (os_db s))) (os_admitted s);
  ai_ops : Forall (op_checked (od_invitations (os_db s))) (os_ops s);
}.

(** The tables changed and the operations in flight were replaced, without an admission. *)
Lemma admissions_quiet s d ops :
  invitations_evolve (od_invitations (os_db s)) (od_invitations d) -> admissions_inv s ->
  Forall (op_checked (od_invitations d)) ops ->
  admissions_inv {| os_db := d; os_ops := ops; os_admitted := os_admitted s |}.
Proof.
  intros He [H1 H2 H3 H4] Hops. split; cbn; [by apply (ie_ids _ _ He)|done| |done].
  eapply Forall_impl; [exact H3|]. intros a. by apply warranted_evolve.
Qed.

Lemma ops_evolve l l' ops : invitations_evolve l l' -> Forall (op_checked l) ops -> Forall (op_checked l') ops.
Proof. intros He H. eapply Forall_impl; [exact H|]. intros op. by apply op_checked_evolve. Qed.

Lemma route_checked op l : Route op -> op_checked l op.
Proof. by destruct 1. Qed.

Lemma admission_warranted s u i now i0 d id :
  added_members (os_db s) d = [new_member id (in_organizationId i) (cl_id u) (in_role i) now] ->
  admissions_inv s -> op_checked (od_invitations (os_db s)) (AnswerTx u i now Accept) ->
  i0 ∈ od_invitations (os_db s) -> still_pending (in_id i) now i0 = true -> set_accepted now (cl_id u) i0 ∈ od_invitations d ->
  warranted (od_invitations d) (admission u i now (os_db s) d) /\ (in_id i ∉ ad_invitation <$> os_admitted s).
Proof.
  intros Hadd [H1 _ H3 _] [(i1 & Hi1 & Hc) Hw] Hi0 (Eid & Est & Hlt)%still_pending_spec Hin.
  assert (i1 = i0) as -> by (eapply (key_unique in_id); eauto; unfold invitation_core in Hc; congruence).
  unfold invitation_core in Hc. injection Hc as _ Ho Hr Hwa He. split.
  - exists (set_accepted now (cl_id u) i0). eexists. cbn. rewrite Hadd, Hwa. by split_and!.
  - intros (a & E & Ha)%list_elem_of_fmap. rewrite Forall_forall in H3. destruct (H3 a Ha) as (i2 & m2 & Hi2 & E2 & _ & _ & _ & _ & _ & _ & _ & Hst & _).
    assert (i2 = i0) as -> by (eapply (key_unique in_id); eauto; congruence). done.
Qed.

Lemma admissions_step s s' : org_step s s' -> admissions_inv s -> admissions_inv s'.
Proof.
  intros Hs Hi. pose proof (ai_ops _ Hi) as Hops.
  destruct Hs as [op Hr|l1 op l2 f d ops adm E H|l1 op l2 f E|l1 op l2 E|d H|us ss w a].
  - apply admissions_quiet; [apply invitations_same|done|]. apply Forall_app_2; [done|]. by apply Forall_singleton, route_checked.
  - pose proof (op_invitations _ _ _ _ _ _ H) as He. rewrite E in Hops. apply Forall_app in Hops as [Ho1 [Hop Ho2]%Forall_cons].
    assert (admissions_inv {| os_db := d; os_ops := l1 ++ ops ++ l2; os_admitted := os_admitted s |}) as Hq.
    { apply admissions_quiet; [done..|]. apply (ops_evolve _ _ _ He). rewrite !Forall_app. split_and!; [done| |done].
      by eapply op_next_checked. }
    destruct (op_admits _ _ _ _ _ _ H) as [->|(u & i & now & i0 & -> & -> & Hadd & Hi0 & Hp & Hset)]; [by rewrite app_nil_r|].
    destruct (admission_warranted _ _ _ _ _ _ _ Hadd Hi Hop Hi0 Hp Hset) as [Hw Hnew].
    destruct Hq as [Q1 Q2 Q3 Q4]. split; cbn in *; [done| | |done].
    + by apply NoDup_fmap_snoc.
    + apply Forall_app. by rewrite Forall_singleton.
  - apply admissions_quiet; [apply invitations_same|done|]. rewrite E in Hops. apply Forall_app in Hops as [Ho1 [_ Ho2]%Forall_cons].
    rewrite !Forall_app. split_and!; [done|apply failed_checked|done].
  - apply admissions_quiet; [apply invitations_same|done|]. rewrite E in Hops. apply Forall_app in Hops as [Ho1 [_ Ho2]%Forall_cons].
    rewrite !Forall_app. by split.
  - pose proof (tx_invitations _ _ H) as He. apply admissions_quiet; [done..|]. by eapply ops_evolve.
  - apply admissions_quiet; [apply invitations_same|done|done].
Qed.

(** C14: Invitations admit at most once, and whom they name.  However requests
    interleave - concurrent acceptances, a revocation or a new invitation in between,
    the expiry sweep -, no invitation is accepted twice, and the only row an
    acceptance added to the member table is an active membership of its caller, whose
    wallet is the one invited, in the organization and with the role of the
    invitation, before its expiry. *)
Theorem invitations_grant_once s s' :
  os_ops s = [] -> os_admitted s = [] -> NoDup (in_id <$> od_invitations (os_db s)) -> rtc org_step s s' ->
  NoDup (ad_invitation <$> os_admitted s') /\ Forall (warranted (od_invitations (os_db s'))) (os_admitted s').
Proof.
  intros Eo Ea Hnd Hr. assert (admissions_inv s) as Hi.
  { split; [done|rewrite Ea; constructor|rewrite Ea; constructor|rewrite Eo; constructor]. }
  apply (rtc_invariant org_step admissions_inv admissions_step) in Hr; [|done]. by destruct Hr.
Qed.

End facts.

(** ** Deletion *)

Section deletion.
Context (setting : RetentionSetting).

Definition retention_over (o : Organization) (t : Z) : Prop :=
  exists a days, og_archivedAt o = Some a /\ resolveRetentionDays ARCHIVED_ORGANIZATION_DAYS setting = Ok days /\
    a + days * DAY_MS < t.

(** Archived for the retention period and not under legal hold. *)
Definition retired (o : Organization) (t : Z) : Prop := retention_over o t /\ og_legalHoldAt o = None.

Lemma retired_columns o o' t :
  og_archivedAt o' = og_archivedAt o -> og_legalHoldAt o' = og_legalHoldAt o -> retired o t -> retired o' t.
Proof. unfold retired, retention_over. by intros -> ->. Qed.

Definition deletable (o : Organization) (now : Z) (d : OrgDb) : Prop :=
  og_deletedAt o = None /\ retired o now /\
  count_where (live_issuer (og_id o)) (ow_issuers (od_owned d)) = 0%nat /\
  count_where (unsynced_issuer (og_id o)) (ow_issuers (od_owned d)) = 0%nat.

Lemma deletion_eligible o now d :
  (exists el, evaluate_deletion setting o now d = Ok el /\ el_eligible el = true) <-> deletable o now d.
Proof.
  unfold evaluate_deletion, deletable, retired, retention_over, lifecycleStateOf, archiveRetentionElapsed, deletableAfter.
  destruct (og_deletedAt o) as [t|]; [cbn; naive_solver|].
  destruct (og_archivedAt o) as [a|]; cbn; [|split; [intros (el & [= <-] & [=])|naive_solver]].
  destruct (resolveRetentionDays _ _) as [days|e]; cbn; [|naive_solver].
  destruct (Z.ltb_spec (a + days * DAY_MS) now); cbn; [|split; [intros (el & [= <-] & [=])|naive_solver lia]].
  destruct (og_legalHoldAt o); cbn; [split; [intros (el & [= <-] & [=])|naive_solver]|].
  destruct (Nat.eqb_spec (count_where (live_issuer (og_id o)) (ow_issuers (od_owned d))) 0); cbn;
    [|split; [intros (el & [= <-] & [=])|naive_solver]].
  destruct (Nat.eqb_spec (count_where (unsynced_issuer (og_id o)) (ow_issuers (od_owned d))) 0); cbn;
    [|split; [intros (el & [= <-] & [=])|naive_solver]].
  split; [|naive_solver]. intros _. split_and!; [done|by exists a, days|done..].
Qed.

(** The webhooks of the organization no other table refers to. *)
Definition webhooks_released (id : string) (w : Owned) : Prop :=
  forall h, h ∈ ow_webhooks w -> wh_organizationId h = id ->
    (forall c, c ∈ ow_challenges w -> vc_webhookId c <> wh_id h) /\ (wh_id h ∉ ow_certificates w).

Lemma clean_up_Ok id now w :
  (exists r, clean_up id now w = Ok r) <-> webhooks_released id w.
Proof.
  unfold clean_up, webhooks_released. set (ids := wh_id <$> List.filter (webhook_of id) (ow_webhooks w)).
  assert (forall x, x ∈ ids <-> exists h, h ∈ ow_webhooks w /\ wh_organizationId h = id /\ x = wh_id h) as Hids.
  { intros x. unfold ids. rewrite list_elem_of_fmap. setoid_rewrite elem_of_filter_bool. unfold webhook_of.
    setoid_rewrite bool_decide_eq_true. naive_solver. }
  destruct (existsb (fun c => bool_decide (vc_webhookId c ∈ ids)) (ow_challenges w)) eqn:E1; cbn.
  { split; [by intros [? [=]]|]. apply existsb_exists in E1 as (c & Hc & Hb). rewrite bool_decide_eq_true, Hids in Hb. destruct Hb as (h & Hh & Ho & E).
    apply list_elem_of_In in Hc. intros Hn. by destruct (proj1 (Hn h Hh Ho) c Hc). }
  destruct (existsb (fun c => bool_decide (c ∈ ids)) (ow_certificates w)) eqn:E2; cbn.
  { split; [by intros [? [=]]|]. apply existsb_exists in E2 as (c & Hc & Hb). rewrite bool_decide_eq_true, Hids in Hb. destruct Hb as (h & Hh & Ho & E).
    apply list_elem_of_In in Hc. intros Hn. by destruct (proj2 (Hn h Hh Ho)); subst. }
  split; [|eauto]. intros _ h Hh Ho. assert (wh_id h ∈ ids) as Hin by (apply Hids; eauto). split.
  - intros c Hc Ec. apply not_true_iff_false in E1. destruct E1. apply existsb_exists. exists c.
    rewrite <- list_elem_of_In, bool_decide_eq_true. by rewrite Ec.
  - intros Hc. apply not_true_iff_false in E2. destruct E2. apply existsb_exists. exists (wh_id h).
    by rewrite <- list_elem_of_In, bool_decide_eq_true.
Qed.

(** [tx.auditLog.create] has a slot only once. *)
Definition slot_free (auditId : string) (a : AuditDb) : Prop :=
  (auditId ∉ ar_id <$> auditRows a) /\ ((SYSTEM_CHAIN_KEY, 0) ∉ row_key <$> auditRows a).

Lemma audit_org_tx_Ok auditId now args d :
  (exists d', audit_org_tx auditId now args d = Ok d') <-> slot_free auditId (od_orgAudit d).
Proof.
  unfold audit_org_tx, createUnchained, insert_audit, slot_free. cbn [ar_id unchained_row].
  change (row_key (unchained_row auditId now args)) with (SYSTEM_CHAIN_KEY, 0).
  destruct (bool_decide (auditId ∈ _)) eqn:E1; cbn; reflect_hyps; [naive_solver|].
  destruct (bool_decide (_ ∈ row_key <$> _)) eqn:E2; cbn; reflect_hyps; naive_solver.
Qed.

Lemma find_org_count id o d : find_org id d = Some o -> count_where (has_org_id id) (od_orgs d) <> 0%nat.
Proof.
  intros [Ho E]%find_where_Some. unfold count_where.
  assert (o ∈ List.filter (has_org_id id) (od_orgs d)) as Hf by by apply elem_of_filter_bool.
  destruct (List.filter _ _); [by apply not_elem_of_nil in Hf|done].
Qed.

Lemma deletion_needs u id auditId now d r :
  deleteOrganization setting u id auditId now d = Ok r ->
  exists o, find_org id d = Some o /\ deletable o now d /\ webhooks_released id (od_owned d) /\ slot_free auditId (od_orgAudit d).
Proof.
  unfold deleteOrganization, load. intros H. destruct (find_org id d) as [o|]; cbn in H; [|discriminate]. exists o. split; [done|].
  run_result. destruct x1 as [w c]. cbn in *. run_result. reflect_hyps. split_and!.
  - apply deletion_eligible. eauto.
  - by apply (clean_up_Ok id now); eexists.
  - assert (exists d', audit_org_tx auditId now (deletion_audit u id (og_status o) c) (set_orgs x1 (set_owned w d)) = Ok d')
      as Ha%audit_org_tx_Ok by eauto. done.
Qed.

(** C32: When [OrganizationLifecycleService.deleteOrganization] goes through: exactly
    for an organization that is not deleted, has been archived longer than the
    retention period, is under no legal hold, has no issuer live or still active in
    the registry, whose webhooks have no verification challenge and no client
    certificate left, and while no transaction has used the audit slot all such
    transactions share. *)
Theorem deletion_admits_exactly u id auditId now d :
  (exists r, deleteOrganization setting u id auditId now d = Ok r) <->
  exists o, find_org id d = Some o /\ deletable o now d /\ webhooks_released id (od_owned d) /\ slot_free auditId (od_orgAudit d).
Proof.
  split; [intros [r H]; by eapply deletion_needs|]. unfold deleteOrganization, load.
  intros (o & Eo & (el & E1 & E2)%deletion_eligible & ([w c] & Ew)%(clean_up_Ok id now) & Hs).
  rewrite Eo. cbn. rewrite E1. cbn. rewrite E2. cbn. rewrite Ew. cbn. unfold update_one.
  destruct (Nat.eqb_spec (count_where (has_org_id id) (od_orgs d)) 0) as [E|_]; [by apply find_org_count in Eo|]. cbn.
  apply (audit_org_tx_Ok auditId now (deletion_audit u id (og_status o) c)
    (set_orgs (update_where (has_org_id id) (set_tombstone now) (od_orgs d)) (set_owned w d))) in Hs as [d' Hd].
  rewrite Hd. cbn. eauto.
Qed.

(** What a deletion leaves of the tables the organization owned: nothing of its own
    in use, everything of the others. *)
Record cleaned (id : string) (w w' : Owned) : Prop := {
  cd_keys : forall k, k ∈ ow_keys w' -> ak_organizationId k = id -> ak_status k = ResourceStatus.REVOKED;
  cd_hooks : forall h, h ∈ ow_webhooks w' <-> h ∈ ow_webhooks w /\ wh_organizationId h <> id;
  cd_deliveries : forall x, x ∈ ow_deliveries w' <-> x ∈ ow_deliveries w /\
    ~ exists h, h ∈ ow_webhooks w /\ wh_organizationId h = id /\ wh_id h = dl_webhookId x;
  cd_idempotency : forall r, r ∈ ow_idempotency w' <-> r ∈ ow_idempotency w /\ ir_organizationId r <> id;
  cd_other_keys : List.filter (fun k => negb (in_organization id k)) (ow_keys w') =
    List.filter (fun k => negb (in_organization id k)) (ow_keys w);
  cd_issuers : ow_issuers w' = ow_issuers w;
}.

Lemma clean_up_cleaned id now w w' c : clean_up id now w = Ok (w', c) -> cleaned id w w'.
Proof.
  unfold clean_up. intros H. run_result. simplify_eq. split; cbn.
  - intros k (k0 & Hk0 & ->)%elem_of_update_where. unfold key_to_revoke, in_organization. destruct (bool_decide (ak_organizationId k0 = id)) eqn:E; cbn.
    + destruct (bool_decide (ak_status k0 = ResourceStatus.REVOKED)) eqn:E2; cbn; [by reflect_hyps|done].
    + by reflect_hyps.
  - intros h. rewrite elem_of_delete_where. unfold webhook_of. by rewrite bool_decide_eq_false.
  - intros y. rewrite elem_of_delete_where. unfold delivery_of. rewrite bool_decide_eq_false, list_elem_of_fmap.
    setoid_rewrite elem_of_filter_bool. unfold webhook_of. setoid_rewrite bool_decide_eq_true. naive_solver.
  - intros r. rewrite elem_of_delete_where. unfold idempotency_of. by rewrite bool_decide_eq_false.
  - generalize (ow_keys w). intros l. clear. unfold update_where. induction l as [|k l IH]; [done|]. rewrite fmap_cons. cbn [List.filter].
    assert (in_organization id (if key_to_revoke id k then revoke_row now k else k) = in_organization id k) as -> by by case_match.
    rewrite IH. destruct (in_organization id k) eqn:E; [done|]. cbn. f_equal. unfold key_to_revoke. by rewrite E.
  - done.
Qed.

(** A deletion revokes every API key of the organization, deletes its webhooks,
    their deliveries and its idempotency records, and leaves its row as a tombstone;
    its issuers, members and invitations, and every row of the other organizations,
    are as they were. *)
Theorem deletion_cleans_up u id auditId now d d' c :
  NoDup (og_id <$> od_orgs d) -> deleteOrganization setting u id auditId now d = Ok (d', c) ->
  cleaned id (od_owned d) (od_owned d') /\
  (exists o, find_org id d = Some o /\ find_org id d' = Some (set_tombstone now o)) /\
  (forall id', id' <> id -> find_org id' d' = find_org id' d) /\
  od_members d' = od_members d /\ od_invitations d' = od_invitations d.
Proof.
  unfold deleteOrganization, load. intros Hnd H. destruct (find_org id d) as [o|] eqn:Eo; cbn in H; [|discriminate].
  run_result. destruct x1 as [w c']. cbn in *. open_writes. simplify_eq.
  cbn [od_owned set_org_audit set_orgs set_owned od_members od_invitations].
  split_and!; [by eapply clean_up_cleaned| | |done..].
  - exists o. split; [done|]. unfold find_org in *. cbn. rewrite find_where_update by done. rewrite Eo. cbn.
    apply find_where_Some in Eo as [_ ->]. done.
  - intros id' Hne. unfold find_org. cbn. rewrite find_where_update by done.
    destruct (find_where (has_org_id id') (od_orgs d)) as [o'|] eqn:E'; [|done]. cbn.
    apply find_where_Some in E' as [_ E']. unfold has_org_id in *. reflect_hyps. rewrite bool_decide_false; [done|congruence].
Qed.

End deletion.

(** ** The life of an organization *)

Section life.
Context (sha256 : string -> string) (setting : RetentionSetting).

Abbreviation op_step := (op_step sha256).
Abbreviation org_step := (org_step sha256 setting).
Abbreviation tx_step := (tx_step setting).
Abbreviation retired := (retired setting).

Definition org_evolves (o o' : Organization) : Prop :=
  og_id o' = og_id o /\ og_slug o' = og_slug o /\
  (is_Some (og_deletedAt o) -> og_deletedAt o' = og_deletedAt o /\ og_archivedAt o' = og_archivedAt o /\
                               og_legalHoldAt o' = og_legalHoldAt o) /\
  (og_deletedAt o = None -> forall t, og_deletedAt o' = Some t -> retired o' t).

Lemma org_evolves_refl o : org_evolves o o.
Proof. split_and!; [done..|congruence]. Qed.

Record orgs_evolve (l l' : list Organization) : Prop := {
  oe_old : forall o, o ∈ l -> exists o', o' ∈ l' /\ org_evolves o o';
  oe_new : forall o', o' ∈ l' -> og_deletedAt o' = None \/ exists o, o ∈ l /\ org_evolves o o';
  oe_ids : NoDup (og_id <$> l) -> NoDup (og_id <$> l');
}.

Lemma orgs_same l : orgs_evolve l l.
Proof. split; [|intros o' Ho; right|done]; eauto using org_evolves_refl. Qed.

Lemma orgs_update p f l :
  (forall o, o ∈ l -> p o = true -> org_evolves o (f o)) -> orgs_evolve l (update_where p f l).
Proof.
  intros Hf.
  assert (forall o, o ∈ l -> org_evolves o (if p o then f o else o)) as H.
  { intros o Ho. destruct (p o) eqn:E; eauto using org_evolves_refl. }
  split.
  - intros o Ho. eexists. split; [by apply updated_row|auto].
  - intros o' (o & Ho & ->)%elem_of_update_where. right. eauto.
  - intros Hnd. assert (og_id <$> update_where p f l = og_id <$> l) as ->; [|done].
    unfold update_where. rewrite <- list_fmap_compose. apply list_fmap_ext. intros i o Ho. cbn.
    by destruct (H o (list_elem_of_lookup_2 _ _ _ Ho)).
Qed.

Lemma orgs_add o l : og_id o ∉ og_id <$> l -> og_deletedAt o = None -> orgs_evolve l (l ++ [o]).
Proof.
  intros Hid Hd. split; [| |by intros; apply NoDup_fmap_snoc].
  - intros x Hx. exists x. split; [set_solver|apply org_evolves_refl].
  - intros x [Hx|Hx%list_elem_of_singleton]%elem_of_app; [right|left; by subst]. eauto using org_evolves_refl.
Qed.

(** An update of a row that is not deleted, or of other columns. *)
Lemma undeleted_evolves o o' :
  og_id o' = og_id o -> og_slug o' = og_slug o -> og_deletedAt o = None -> og_deletedAt o' = None -> org_evolves o o'.
Proof. intros ? ? Hd Hd'. split_and!; [done..| |]; rewrite Hd; [by intros [? [=]]|congruence]. Qed.

Lemma op_orgs f op d d' ops adm : op_step f op d = Ok (d', ops, adm) -> orgs_evolve (od_orgs d) (od_orgs d').
Proof.
  intros H. op_cases op; open_writes; cbn [od_orgs] in *; reflect_hyps.
  all: first [apply orgs_same|by apply orgs_add|idtac].
  all: apply orgs_update; intros o _ _; split_and!; cbn; [done..|congruence].
Qed.

Lemma unset_spec {A} (x : option A) : unset x = true <-> x = None.
Proof. by destruct x. Qed.

Lemma tx_orgs d d' : tx_step d d' -> NoDup (og_id <$> od_orgs d) -> orgs_evolve (od_orgs d) (od_orgs d').
Proof.
  intros H Hnd. destruct H as [| | | |u id auditId now d' c H|];
    [unfold archive, restore, placeLegalHold, releaseLegalHold, transition in *..| |apply orgs_same].
  1-4: open_writes; apply orgs_update; intros o _ Hp.
  1-4: unfold archivable, restorable, holdable, releasable in Hp; reflect_hyps;
    match goal with H : unset (og_deletedAt _) = true |- _ => apply unset_spec in H end; by apply undeleted_evolves.
  destruct (deletion_needs _ _ _ _ _ _ _ H) as (o & [Ho E]%find_where_Some & (Hd & (Hr & Hh) & _) & _).
  unfold deleteOrganization in H. run_result. repeat (case_match; simplify_eq). open_writes. simplify_eq. cbn.
  apply orgs_update. intros o1 Ho1 E1. unfold has_org_id in *. reflect_hyps.
  assert (o1 = o) as -> by (eapply (key_unique og_id); eauto; congruence).
  split_and!; [done..|rewrite Hd; by intros [? [=]]|]. intros _ t [= <-]. by split.
Qed.

(** A row keeps its id and slug, and once deleted its life cycle columns. *)
Definition org_kept (o o' : Organization) : Prop :=
  og_id o' = og_id o /\ og_slug o' = og_slug o /\
  (is_Some (og_deletedAt o) -> og_deletedAt o' = og_deletedAt o /\ og_archivedAt o' = og_archivedAt o /\
                               og_legalHoldAt o' = og_legalHoldAt o).
Definition orgs_kept (s s' : OrgSys) : Prop :=
  forall o, o ∈ od_orgs (os_db s) -> exists o', o' ∈ od_orgs (os_db s') /\ org_kept o o'.

#[export] Instance orgs_kept_preorder : PreOrder orgs_kept.
Proof.
  split; [intros s o Ho; by exists o|]. intros s1 s2 s3 H1 H2 o Ho.
  destruct (H1 o Ho) as (o2 & Ho2 & E1 & E2 & E3). destruct (H2 o2 Ho2) as (o3 & Ho3 & F1 & F2 & F3).
  exists o3. split; [done|]. split_and!; [congruence..|]. intros Hd. destruct (E3 Hd) as (D1 & D2 & D3).
  rewrite D1 in F3. destruct (F3 Hd) as (G1 & G2 & G3). split_and!; congruence.
Qed.

Record retired_inv (s : OrgSys) : Prop := {
  ri_ids : NoDup (og_id <$> od_orgs (os_db s));
  ri_retired : forall o t, o ∈ od_orgs (os_db s) -> og_deletedAt o = Some t -> retired o t;
}.

Lemma evolve_retired s s' :
  orgs_evolve (od_orgs (os_db s)) (od_orgs (os_db s')) -> retired_inv s -> retired_inv s' /\ orgs_kept s s'.
Proof.
  intros [H1 H2 H3] [I1 I2]. split; [split; [auto|]|].
  - intros o' t Ho' Ht. destruct (H2 o' Ho') as [E|(o & Ho & _ & _ & E3 & E4)]; [congruence|].
    destruct (og_deletedAt o) as [t0|] eqn:Ed; [|auto]. destruct (E3 ltac:(eauto)) as (D1 & D2 & D3).
    eapply retired_columns; [exact D2|exact D3|]. apply I2; [done|congruence].
  - intros o Ho. destruct (H1 o Ho) as (o' & Ho' & E1 & E2 & E3 & _). by exists o'.
Qed.

Lemma step_retired s s' : org_step s s' -> retired_inv s -> retired_inv s' /\ orgs_kept s s'.
Proof.
  intros Hs Hi. apply evolve_retired; [|done]. destruct Hs as [|l1 op l2 f d ops adm _ H| | |d H|].
  1,3,4,6: apply orgs_same.
  - by eapply op_orgs.
  - apply tx_orgs; [done|by apply ri_ids].
Qed.

(** C15: Deletion is earned and final.  In every run of the services - profile
    updates, archiving, restoring, holds, deletions and the other requests in any
    interleaving -, an organization marked deleted had been archived for more than
    the configured retention period and was under no legal hold when it was deleted;
    from then on nothing changes when it was archived and deleted or puts it under
    hold, and no organization ever disappears or changes its slug. *)
Theorem deleted_organizations_retired s s' :
  NoDup (og_id <$> od_orgs (os_db s)) ->
  (forall o t, o ∈ od_orgs (os_db s) -> og_deletedAt o = Some t -> retired o t) -> rtc org_step s s' ->
  (forall o t, o ∈ od_orgs (os_db s') -> og_deletedAt o = Some t -> retired o t) /\ orgs_kept s s'.
Proof.
  intros Hnd Hd Hr. assert (retired_inv s) as Hi by done. split.
  - apply (rtc_invariant org_step retired_inv) in Hr; [by destruct Hr| |done]. intros x y Hxy Hx. by apply (step_retired x y).
  - by apply (rtc_preorder org_step retired_inv orgs_kept step_retired).
Qed.

(** ** Owners *)

(** The updates a failed request leaves behind are not a handler in progress. *)
Definition in_progress (op : OrgOp) : bool := match op with SessionsWrite _ None => false | _ => true end.
Definition one_handler (s : OrgSys) : Prop := (length (List.filter in_progress (os_ops s)) <= 1)%nat.

(** Requests one at a time: the steps after which at most one is in progress. *)
Definition serial_step (s s' : OrgSys) : Prop := org_step s s' /\ one_handler s'.

Definition has_owner (org : string) (ms : list Member) : Prop := exists m, m ∈ ms /\ owner_of org m = true.

(** What a handler that may take an owner away has seen. *)
Fixpoint owner_safe (ms : list Member) (op : OrgOp) : Prop :=
  match op with
  | MemberGuard _ _ _ next => owner_safe ms next
  | RoleCount _ org m _ _ | RemoveCount _ org m _ => m ∈ ms /\ mb_organizationId m = org
  | RoleWrite _ org m role _ =>
      (m ∈ ms /\ mb_organizationId m = org) /\ (demotes m role = true -> count_where (owner_of org) ms <> 1%nat)
  | RemoveDelete _ org m _ =>
      (m ∈ ms /\ mb_organizationId m = org) /\
      (mb_role m = OrganizationMemberRole.OWNER -> count_where (owner_of org) ms <> 1%nat)
  | _ => True
  end.

Lemma other_owner ms org id :
  NoDup (mb_id <$> ms) -> has_owner org ms -> count_where (owner_of org) ms <> 1%nat ->
  exists m, m ∈ ms /\ owner_of org m = true /\ mb_id m <> id.
Proof.
  intros Hnd (m0 & Hm0 & E0) Hc. unfold count_where in Hc.
  pose proof (NoDup_fmap_filter mb_id (owner_of org) ms Hnd) as Hf.
  assert (m0 ∈ List.filter (owner_of org) ms) as Hin by by apply elem_of_filter_bool.
  destruct (List.filter (owner_of org) ms) as [|m1 [|m2 l]] eqn:E; [by apply not_elem_of_nil in Hin|done|].
  assert (forall m, m ∈ m1 :: m2 :: l -> m ∈ ms /\ owner_of org m = true) as H
    by (intros m; rewrite <- E; by rewrite elem_of_filter_bool).
  destruct (decide (mb_id m1 = id)) as [<-|Hne].
  - exists m2. destruct (H m2); [set_solver|]. split_and!; [done..|]. inversion_clear Hf. set_solver.
  - exists m1. by destruct (H m1); [set_solver|].
Qed.

Lemma load_member_spec org id d m :
  load_member org id d = Ok m -> m ∈ od_members d /\ mb_organizationId m = org.
Proof.
  unfold load_member. destruct (find_where _ _) as [m'|] eqn:E; [|done]. case_bool_decide; [|done]. intros [= <-].
  by apply find_where_Some in E as [? _].
Qed.

Lemma role_keeps_owner ms m org0 role org :
  NoDup (mb_id <$> ms) -> m ∈ ms -> mb_organizationId m = org0 ->
  (demotes m role = true -> count_where (owner_of org0) ms <> 1%nat) ->
  has_owner org ms -> has_owner org (update_where (has_member_id (mb_id m)) (with_role role) ms).
Proof.
  intros Hnd Hm Ho Hs Hown.
  assert (exists x, x ∈ ms /\ owner_of org x = true /\ (mb_id x = mb_id m -> role = OrganizationMemberRole.OWNER)) as (x & Hx & Ex & Hi).
  { destruct Hown as (x & Hx & Ex). destruct (decide (role = OrganizationMemberRole.OWNER)) as [->|Hr]; [by exists x|].
    destruct (decide (mb_id x = mb_id m)) as [Eid|Hne]; [|by exists x].
    assert (x = m) as -> by (eapply (key_unique mb_id); eauto). apply owner_of_spec in Ex as [Eo Er].
    assert (org0 = org) as -> by congruence.
    destruct (other_owner ms org (mb_id m)) as (y & Hy & Ey & Hne); [done| | |by exists y].
    - exists m. by rewrite owner_of_spec.
    - apply Hs. unfold demotes. rewrite Er, bool_decide_true by done. by rewrite bool_decide_false. }
  eexists. split; [by apply (updated_row _ _ _ _ Hx)|]. destruct (has_member_id (mb_id m) x) eqn:E; [|done].
  apply has_member_id_spec in E. apply owner_of_spec. apply owner_of_spec in Ex as [? _]. auto.
Qed.

Lemma remove_keeps_owner ms m org0 org :
  NoDup (mb_id <$> ms) -> m ∈ ms -> mb_organizationId m = org0 ->
  (mb_role m = OrganizationMemberRole.OWNER -> count_where (owner_of org0) ms <> 1%nat) ->
  has_owner org ms -> has_owner org (List.filter (fun x => negb (has_member_id (mb_id m) x)) ms).
Proof.
  intros Hnd Hm Ho Hs Hown.
  assert (exists x, x ∈ ms /\ owner_of org x = true /\ mb_id x <> mb_id m) as (x & Hx & Ex & Hne).
  { destruct Hown as (x & Hx & Ex). destruct (decide (mb_id x = mb_id m)) as [Eid|Hne]; [|by exists x].
    assert (x = m) as -> by (eapply (key_unique mb_id); eauto). pose proof Ex as [Eo Er]%owner_of_spec.
    assert (org0 = org) as -> by congruence. apply other_owner; [done|by exists m|auto]. }
  exists x. split; [|done]. apply elem_of_filter_bool. split; [done|]. apply negb_true_iff, not_true_iff_false.
  by intros ?%has_member_id_spec.
Qed.

Record owners_go (ms ms' : list Member) (ops : list OrgOp) : Prop := {
  og_owner : forall org, has_owner org ms -> has_owner org ms';
  og_unique : NoDup (mb_id <$> ms');
  og_next : Forall (owner_safe ms') ops;
}.

Lemma owners_same ms ops : NoDup (mb_id <$> ms) -> Forall (owner_safe ms) ops -> owners_go ms ms ops.
Proof. by split. Qed.

Lemma owners_add m ms ops : NoDup (mb_id <$> ms) -> mb_id m ∉ mb_id <$> ms -> Forall (owner_safe (ms ++ [m])) ops -> owners_go ms (ms ++ [m]) ops.
Proof. split; [|by apply NoDup_fmap_snoc|done]. intros org (x & Hx & E). exists x. split; [set_solver|done]. Qed.

Lemma owners_role u org m role c ms op :
  NoDup (mb_id <$> ms) -> owner_safe ms (RoleWrite u org m role c) ->
  (forall ms', owner_safe ms' op) -> owners_go ms (update_where (has_member_id (mb_id m)) (with_role role) ms) [op].
Proof.
  intros Hnd [[Hm Ho] Hs] Hop. split; [|by rewrite update_where_keys|by apply Forall_singleton].
  intros org'. by eapply role_keeps_owner.
Qed.
Lemma owners_remove u org m c ms op :
  NoDup (mb_id <$> ms) -> owner_safe ms (RemoveDelete u org m c) ->
  (forall ms', owner_safe ms' op) -> owners_go ms (List.filter (fun x => negb (has_member_id (mb_id m) x)) ms) [op].
Proof.
  intros Hnd [[Hm Ho] Hs] Hop. split; [|by apply NoDup_fmap_filter|by apply Forall_singleton].
  intros org'. by eapply remove_keeps_owner.
Qed.

Lemma finished_safe ms c : Forall (owner_safe ms) (finished c).
Proof. destruct c; by repeat constructor. Qed.
Lemma thrown_safe ms c : Forall (owner_safe ms) (thrown c).
Proof. destruct c; by repeat constructor. Qed.
Lemma failed_safe ms f op : Forall (owner_safe ms) (op_failed f op).
Proof.
  destruct op; cbn [op_failed]; try apply thrown_safe; try (by repeat constructor).
  apply Forall_app. split; [case_match; [apply thrown_safe|constructor]|by repeat constructor].
Qed.
Lemma visible_safe u o next op ms : visible_next u o next = Ok op -> owner_safe ms op.
Proof. destruct next; cbn; intros H; by run_result. Qed.
Lemma apply_safe e rest a ms : owner_safe ms (apply_entry e rest a).
Proof. unfold apply_entry. by repeat case_match. Qed.
Lemma answer_safe u expected i now a op ms : answer_check u expected i now a = Ok op -> owner_safe ms op.
Proof. unfold answer_check. intros H. by run_result. Qed.

Lemma op_owners f op d d' ops adm :
  op_step f op d = Ok (d', ops, adm) -> NoDup (mb_id <$> od_members d) -> owner_safe (od_members d) op ->
  owners_go (od_members d) (od_members d') ops.
Proof.
  intros H Hnd Hop. op_cases op; open_writes; cbn [od_members] in *; reflect_hyps.
  all: try (apply owners_same; [done|]).
  all: try (by repeat constructor); try apply finished_safe.
  all: try (by apply owners_add; [..|repeat constructor]).
  all: try (apply Forall_singleton; by eauto using visible_safe, answer_safe, apply_safe).
  - apply Forall_singleton. cbn. by eapply load_member_spec.
  - apply Forall_singleton. cbn. split; [by eapply load_member_spec|]. congruence.
  - apply Forall_singleton. cbn. split; [done|]. intros _. unfold final_owner_check in *. run_result. by apply Nat.eqb_neq.
  - by eapply owners_role.
  - by eapply owners_role.
  - apply Forall_singleton. cbn. by eapply load_member_spec.
  - apply Forall_singleton. cbn. split; [by eapply load_member_spec|]. congruence.
  - apply Forall_singleton. cbn. split; [done|]. intros _. unfold final_owner_check in *. run_result. by apply Nat.eqb_neq.
  - by eapply owners_remove.
Qed.

Lemma idle_safe ms op : in_progress op = false -> owner_safe ms op.
Proof. by destruct op. Qed.

Lemma idle_members f op d d' ops adm :
  op_step f op d = Ok (d', ops, adm) -> in_progress op = false -> od_members d' = od_members d.
Proof. destruct op; cbn; try done. destruct n; [done|]. intros H _. case_match; unfold write in *; open_writes; by simplify_eq. Qed.

(** The others in flight, when one makes a step, are idle or see the same members. *)
Lemma others_safe f op d d' ops adm l1 l2 :
  op_step f op d = Ok (d', ops, adm) -> (length (List.filter in_progress (l1 ++ op :: l2)) <= 1)%nat ->
  Forall (owner_safe (od_members d)) (l1 ++ l2) -> Forall (owner_safe (od_members d')) (l1 ++ l2).
Proof.
  intros H Hone Hs. destruct (in_progress op) eqn:E; [|by rewrite (idle_members _ _ _ _ _ _ H E)].
  rewrite List.filter_app in Hone. cbn in Hone. rewrite E, length_app in Hone. cbn in Hone.
  apply Forall_forall. intros x Hx. apply idle_safe. destruct (in_progress x) eqn:Ex; [|done].
  assert (x ∈ List.filter in_progress (l1 ++ l2)) as Hf by by apply elem_of_filter_bool.
  rewrite List.filter_app in Hf. apply list_elem_of_In in Hf.
  assert (length (List.filter in_progress l1 ++ List.filter in_progress l2) = 0%nat) as Hl by (rewrite length_app; lia).
  apply length_zero_iff_nil in Hl. by rewrite Hl in Hf.
Qed.

Record owners_inv (s : OrgSys) : Prop := {
  oi_ids : NoDup (mb_id <$> od_members (os_db s));
  oi_one : one_handler s;
  oi_safe : Forall (owner_safe (od_members (os_db s))) (os_ops s);
}.
Definition owners_kept (s s' : OrgSys) : Prop :=
  forall org, has_owner org (od_members (os_db s)) -> has_owner org (od_members (os_db s')).
#[export] Instance owners_kept_preorder : PreOrder owners_kept.
Proof. split; [by intros s org|]. intros s1 s2 s3 H1 H2 org H. auto. Qed.

Lemma route_safe op ms : Route op -> owner_safe ms op.
Proof. by destruct 1. Qed.

Lemma serial_owners s s' : serial_step s s' -> owners_inv s -> owners_inv s' /\ owners_kept s s'.
Proof.
  intros [Hs Hone'] [Hnd Hone Hsafe]. destruct Hs as [op Hr|l1 op l2 f d ops adm E H|l1 op l2 f E|l1 op l2 E|d H|us ss w a].
  - split; [|by intros ?]. split; [done..|]. apply Forall_app_2; [done|]. by apply Forall_singleton, route_safe.
  - unfold one_handler in Hone. rewrite E in Hone, Hsafe.
    pose proof Hsafe as [Ho1 [Hop Ho2]%Forall_cons]%Forall_app. destruct (op_owners _ _ _ _ _ _ H Hnd Hop) as [G1 G2 G3].
    split; [|done]. split; [done..|]. cbn. pose proof (others_safe _ _ _ _ _ _ l1 l2 H Hone) as Hl.
    rewrite !Forall_app in Hl. rewrite !Forall_app. naive_solver.
  - split; [|by intros ?]. split; [done..|]. cbn. rewrite E in Hsafe. apply Forall_app in Hsafe as [Ho1 [_ Ho2]%Forall_cons].
    rewrite !Forall_app. split_and!; [done|apply failed_safe|done].
  - split; [|by intros ?]. split; [done..|]. cbn. rewrite E in Hsafe. apply Forall_app in Hsafe as [Ho1 [_ Ho2]%Forall_cons].
    rewrite Forall_app. by split.
  - apply tx_tables in H as (Em & _). unfold owners_kept. cbn. rewrite Em. split; [|done]. split; cbn; [by rewrite Em|done|by rewrite Em].
  - split; [|by intros ?]. by split.
Qed.

(** C25: As long as requests are served one at a time - each with any outcome,
    interrupted at any point, with the retirement and clean-up transactions and the
    other services at work in between -, an organization that has an owner never
    loses its last one: neither role changes, removals, imports nor the
    recommendations of an access review can take it away. *)
Theorem last_owner_kept s s' org :
  os_ops s = [] -> NoDup (mb_id <$> od_members (os_db s)) -> rtc serial_step s s' ->
  has_owner org (od_members (os_db s)) -> has_owner org (od_members (os_db s')).
Proof.
  intros Eo Hnd Hr. assert (owners_inv s) as Hi.
  { split; [done|unfold one_handler; rewrite Eo; cbn; lia|rewrite Eo; constructor]. }
  by apply (rtc_preorder serial_step owners_inv owners_kept serial_owners s s' Hr Hi).
Qed.
End life.

(** ** Executable runs *)

Inductive Action := Arrive (op : OrgOp) | Go (k : nat) (f : Fresh).

Section drive.
Context (sha256 : string -> string) (setting : RetentionSetting).

(** Start a handler, or let the [k]-th in flight make its next step. *)
Definition act (a : Action) (s : OrgSys) : option OrgSys :=
  match a with
  | Arrive op => Some {| os_db := os_db s; os_ops := os_ops s ++ [op]; os_admitted := os_admitted s |}
  | Go k f =>
      match os_ops s !! k with
      | None => None
      | Some op =>
          match op_step sha256 f op (os_db s) with
          | Ok (d, ops, adm) =>
              Some {| os_db := d; os_ops := take k (os_ops s) ++ ops ++ drop (S k) (os_ops s); os_admitted := os_admitted s ++ adm |}
          | Err _ => None
          end
      end
  end.

(** Every state reached satisfies [ok]. *)
Fixpoint drive (ok : OrgSys -> bool) (l : list Action) (s : OrgSys) : option OrgSys :=
  match l with
  | [] => Some s
  | a :: l => match act a s with Some s' => if ok s' then drive ok l s' else None | None => None end
  end.

Definition routed (a : Action) : Prop := match a with Arrive op => Route op | Go _ _ => True end.

Lemma act_sound a s s' : routed a -> act a s = Some s' -> org_step sha256 setting s s'.
Proof.
  destruct a as [op|k f]; cbn; intros Hr H; [simplify_eq; by constructor|].
  destruct (os_ops s !! k) as [op|] eqn:Ek; [|done]. destruct (op_step sha256 f op (os_db s)) as [[[d ops] adm]|] eqn:E; [|done].
  simplify_eq. eapply step_go; [|exact E]. symmetry. by apply take_drop_middle.
Qed.

Lemma drive_sound ok l s s' :
  Forall routed l -> drive ok l s = Some s' -> rtc (fun x y => org_step sha256 setting x y /\ ok y = true) s s'.
Proof.
  intros Hl. revert s. induction Hl as [|a l Ha _ IH]; cbn; intros s H; [simplify_eq; apply rtc_refl|].
  destruct (act a s) as [s1|] eqn:E; [|done]. destruct (ok s1) eqn:Eo; [|done].
  eapply rtc_l; [split; [by eapply act_sound|exact Eo]|auto].
Qed.

Lemma drive_run l s s' : Forall routed l -> drive (fun _ => true) l s = Some s' -> rtc (org_step sha256 setting) s s'.
Proof. intros Hl H. eapply rtc_subrel; [|by eapply drive_sound]. by intros x y [? _]. Qed.

Definition one_handler_b (s : OrgSys) : bool := (length (List.filter in_progress (os_ops s)) <=? 1)%nat.
Lemma drive_serial l s s' : Forall routed l -> drive one_handler_b l s = Some s' -> rtc (serial_step sha256 setting) s s'.
Proof.
  intros Hl H. eapply rtc_subrel; [|by eapply drive_sound]. intros x y [? E]. split; [done|]. by apply Nat.leb_le.
Qed.
End drive.

(** ** Witnesses *)

Module DemoOrganizations.
Definition hash (s : string) : string := s.
Definition fresh (id : string) (now : Z) : Fresh :=
  {| fr_id := id; fr_ids := fun n => String (Ascii.ascii_of_nat (97 + n)) id; fr_audit := String.append "audit-" id;
     fr_secret := String.append "secret-" id; fr_now := now; fr_pick := 0; fr_message := "failed" |}.
Definition user (id : string) (role : UserRole.t) : Account :=
  {| ac_id := id; ac_walletAddress := String.append "G" (toUpperCase id); ac_walletHash := id; ac_role := role;
     ac_status := ResourceStatus.ACTIVE; ac_displayName := None; ac_lastLoginAt := None |}.
Definition caller (a : Account) : Caller :=
  {| cl_id := ac_id a; cl_walletAddress := ac_walletAddress a; cl_role := ac_role a |}.
Definition ann := user "ann" UserRole.WORKER.
Definition bob := user "bob" UserRole.WORKER.
Definition eve := user "eve" UserRole.WORKER.
Definition root := user "root" UserRole.ADMIN.
Definition member (id : string) (a : Account) (role : OrganizationMemberRole.t) : Member :=
  new_member id "acme" (ac_id a) role 0.
Definition acme : Organization := new_org "acme" "Acme" "acme" None "root".
Definition nothing : Owned :=
  {| ow_issuers := []; ow_keys := []; ow_webhooks := []; ow_deliveries := []; ow_challenges := []; ow_certificates := [];
     ow_idempotency := [] |}.
Definition db (o : Organization) (ms : list Member) : OrgDb :=
  {| od_orgs := [o]; od_members := ms; od_invitations := []; od_users := [ann; bob; eve; root]; od_sessions := [];
     od_imports := []; od_results := []; od_campaigns := []; od_entries := []; od_owned := nothing;
     od_orgAudit := {| auditRows := []; cursors := [] |} |}.
Definition sys (d : OrgDb) : OrgSys := {| os_db := d; os_ops := []; os_admitted := [] |}.
Definition run (l : list Action) (s : OrgSys) : OrgSys := default s (drive hash (fun _ => true) l s).
Definition run_serial (l : list Action) (s : OrgSys) : OrgSys := default s (drive hash one_handler_b l s).

(** The handler at position [k] makes the steps with the given ids, one second apart. *)
Definition steps (k : nat) (ids : list string) (from : Z) : list Action :=
  imap (fun n id => Go k (fresh id (from + 1000 * Z.of_nat n))) ids.

Lemma routed_steps k ids from : Forall routed (steps k ids from).
Proof. apply Forall_forall. intros a. unfold steps. rewrite elem_of_lookup_imap. by intros (? & ? & -> & _). Qed.

Definition two_owners : OrgSys :=
  sys (db acme [member "m1" ann OrganizationMemberRole.OWNER; member "m2" bob OrganizationMemberRole.OWNER]).
Definition demotion (by_ : Account) (memberId : string) : Action :=
  Arrive (guarded (caller by_) "acme" OrganizationMemberRole.OWNER
    (RoleGuard (caller by_) "acme" memberId OrganizationMemberRole.MEMBER Reply)).
Definition demote_bob : list Action := demotion ann "m2" :: steps 0 ["a"; "b"; "c"; "d"; "e"; "f"; "g"; "h"] 1000.
Definition invite_eve : list Action :=
  Arrive (org_guarded (caller ann) "acme" OrganizationMemberRole.ADMIN (InviteOrg (caller ann) "acme"
    {| iv_recipientWalletAddress := ac_walletAddress eve; iv_role := OrganizationMemberRole.MEMBER; iv_ttlSeconds := None |})) ::
  steps 0 ["a"; "b"; "c"; "d"; "e"; "f"; "invite"; "g"] 1000.
Definition eve_accepts : list Action :=
  Arrive (Resolve (caller eve) "invite.secret-invite" (expected_org None None) Accept) :: steps 0 ["h"; "m3"] 20000.

(** An organization archived for forty days, with a key and a webhook. *)
Definition old_acme : Organization := set_archive (Some 1000) acme.
Definition key : ApiKey :=
  {| ak_id := "key"; ak_organizationId := "acme"; ak_createdById := "root"; ak_name := "key"; ak_prefix := "12345678";
     ak_keyHash := "hash"; ak_scopes := []; ak_status := ResourceStatus.ACTIVE; ak_lastUsedAt := None; ak_rotatedAt := None;
     ak_revokedAt := None; ak_expiresAt := None; ak_createdAt := 0; ak_rotationFamilyId := None; ak_overlapExpiresAt := None |}.
Definition hook : Webhook :=
  {| wh_id := "hook"; wh_organizationId := "acme"; wh_url := "https://example.com/"; wh_secretEncrypted := "sealed";
     wh_events := []; wh_predicate := None; wh_status := ResourceStatus.ACTIVE; wh_mtlsRequired := false;
     wh_payloadVersion := "1"; wh_revision := 0 |}.
Definition owning (cs : list Challenge) (d : OrgDb) : OrgDb :=
  set_owned {| ow_issuers := []; ow_keys := [key]; ow_webhooks := [hook]; ow_deliveries := []; ow_challenges := cs;
               ow_certificates := []; ow_idempotency := [] |} d.
Definition retirable : OrgDb := owning [] (db old_acme [member "m1" ann OrganizationMemberRole.OWNER]).
Definition forty_days : Z := 40 * DAY_MS.
Definition deleted : OrgDb * Cleanup :=
  match deleteOrganization SettingAbsent (caller root) "acme" "audit" forty_days retirable with
  | Ok r => r
  | Err _ => (retirable, {| cu_apiKeysRevoked := 0; cu_webhooksDeleted := 0; cu_webhookDeliveriesDeleted := 0;
                            cu_idempotencyRecordsDeleted := 0 |})
  end.

Definition reviewed : OrgDb :=
  set_reviews [] [new_entry "entry" "campaign" (member "m2" bob OrganizationMemberRole.OWNER)] (os_db two_owners).
End DemoOrganizations.

Section witnesses.
Import DemoOrganizations.

Lemma invitations_grant_once_witness :
  length (os_admitted (run (invite_eve ++ eve_accepts) two_owners)) = 1%nat /\
  NoDup (ad_invitation <$> os_admitted (run (invite_eve ++ eve_accepts) two_owners)).
Proof.
  split; [vm_compute; reflexivity|].
  refine (proj1 (invitations_grant_once hash SettingAbsent two_owners _ eq_refl eq_refl _ _)); [constructor|].
  apply (drive_run _ _ (invite_eve ++ eve_accepts)); [|vm_compute; reflexivity].
  apply Forall_app_2; (apply Forall_cons; split; [constructor|apply routed_steps]).
Defined.

Lemma reviewed_member_not_removable_witness :
  op_step hash (fresh "x" 9000) (RemoveDelete (caller ann) "acme" (member "m2" bob OrganizationMemberRole.OWNER) Reply)
    (os_db (run demote_bob (sys reviewed))) = Err OrgForeignKey.
Proof.
  eapply (proj2 (reviewed_member_not_removable hash SettingAbsent (sys reviewed) (run demote_bob (sys reviewed)) _ _ _ _ _
    (new_entry "entry" "campaign" (member "m2" bob OrganizationMemberRole.OWNER)) _ _ _ _)).
  Unshelve.
  - intros x Hx. vm_compute in Hx |- *. apply list_elem_of_singleton in Hx as ->. right. left.
  - apply (drive_run _ _ demote_bob); [|vm_compute; reflexivity]. apply Forall_cons. split; [constructor|apply routed_steps].
  - left.
  - reflexivity.
Defined.

Lemma deletion_cleans_up_witness :
  cleaned "acme" (od_owned retirable) (od_owned deleted.1).
Proof.
  refine (proj1 (deletion_cleans_up SettingAbsent (caller root) "acme" "audit" forty_days retirable deleted.1 deleted.2 _ _)).
  - repeat constructor. apply not_elem_of_nil.
  - vm_compute. reflexivity.
Defined.

Lemma deleted_organizations_retired_witness :
  exists o, od_orgs deleted.1 = [o] /\ og_deletedAt o = Some forty_days /\ retired SettingAbsent o forty_days.
Proof.
  destruct (od_orgs deleted.1) as [|o [|]] eqn:E; [vm_compute in E; discriminate| |vm_compute in E; discriminate].
  assert (og_deletedAt o = Some forty_days) as Ho by (vm_compute in E; by injection E as <-).
  exists o. split; [reflexivity|]. split; [exact Ho|].
  refine (proj1 (deleted_organizations_retired hash SettingAbsent (sys retirable) (sys deleted.1) _ _ _) o _ _ Ho).
  - repeat constructor. apply not_elem_of_nil.
  - intros x t Hx Hd. vm_compute in Hx. apply list_elem_of_singleton in Hx as ->. discriminate.
  - apply rtc_once. apply (step_tx hash SettingAbsent (sys retirable) deleted.1).
    apply (tx_delete SettingAbsent _ (caller root) "acme" "audit" forty_days _ deleted.2). vm_compute. reflexivity.
  - change (o ∈ od_orgs deleted.1). rewrite E. by apply list_elem_of_singleton.
Defined.

Lemma last_owner_kept_witness : has_owner "acme" (od_members (os_db (run_serial demote_bob two_owners))).
Proof.
  refine (last_owner_kept hash SettingAbsent two_owners _ "acme" eq_refl _ _ _).
  - apply (bool_decide_unpack _). vm_compute. exact I.
  - apply (drive_serial _ _ demote_bob); [|vm_compute; reflexivity]. apply Forall_cons. split; [constructor|apply routed_steps].
  - exists (member "m1" ann OrganizationMemberRole.OWNER). split; [left|vm_compute; reflexivity].
Defined.
End witnesses.
