(* ===== verification/OrganizationRuns.v ===== *)
(** * Organizations: runs that defeat a check

    Concrete runs of [OrganizationSystem], evaluated: two requests that together do
    what each alone is refused, routes that skip a rule another route enforces, and
    transactions that can no longer commit. *)

From S2P Require Import Prelude JsData Calendar Encoding IsoDate Canonical Schema AuditChain Accounts Idempotency WebhookStore ApiKeys.
From S2P Require Import Organizations OrganizationLifecycle OrganizationInvitations MembershipImport OrganizationSystem OrganizationFacts.
Import DemoOrganizations.

Local Open Scope string_scope.
Local Open Scope Z_scope.
Local Open Scope list_scope.

(** A run of routed requests, and what is left after it. *)
Ltac demo_run :=
  match goal with
  | |- rtc _ _ (run ?l _) /\ _ =>
      split; [apply (drive_run _ _ l);
                [repeat (apply Forall_app_2 || (apply Forall_cons; split) || apply routed_steps || constructor);
                 vm_compute; congruence
                |vm_compute; reflexivity]
             |vm_compute; repeat split]
  end.
Abbreviation step := (org_step hash SettingAbsent).

(** Two owners demote each other: both counts find two owners, and none is left. *)
Definition demote_each_other : list Action :=
  [demotion ann "m2"; demotion bob "m1"] ++
  steps 0 ["a"; "b"; "c"; "d"] 1000 ++ steps 1 ["e"; "f"; "g"; "h"] 1000 ++ steps 0 ["i"] 2000 ++ steps 1 ["j"] 2000.
Lemma owners_demote_each_other :
  rtc step two_owners (run demote_each_other two_owners) /\
  owner_count "acme" (os_db two_owners) = 2%nat /\ owner_count "acme" (os_db (run demote_each_other two_owners)) = 0%nat.
Proof. demo_run. Qed.

(** An administrator of the organization, who may not invite an owner, assigns one. *)
Definition with_admin : OrgSys :=
  sys (db acme [member "m1" ann OrganizationMemberRole.OWNER; member "m2" bob OrganizationMemberRole.ADMIN]).
Definition bob_assigns_eve : list Action :=
  Arrive (guarded (caller bob) "acme" OrganizationMemberRole.ADMIN
    (AssignGuard (caller bob) "acme" "eve" OrganizationMemberRole.OWNER)) :: steps 0 ["a"; "b"; "c"; "d"; "m3"; "e"] 1000.
Lemma admin_assigns_owner :
  rtc step with_admin (run bob_assigns_eve with_admin) /\
  getMemberRole "eve" "acme" (os_db (run bob_assigns_eve with_admin)) = Some OrganizationMemberRole.OWNER /\
  invite_role_check (caller bob) "acme" {| iv_recipientWalletAddress := "GEVE"; iv_role := OrganizationMemberRole.OWNER;
    iv_ttlSeconds := None |} (os_db with_admin) = Err OrgForbidden.
Proof. demo_run. Qed.

(** A viewer, neither creator nor administrator, renames the organization. *)
Definition with_viewer : OrgSys :=
  sys (db acme [member "m1" ann OrganizationMemberRole.OWNER; member "m2" bob OrganizationMemberRole.VIEWER]).
Definition bob_renames : list Action :=
  Arrive (Visible (caller bob) "acme" (UpdateProfile {| pf_name := Some "Bobs"; pf_website := None; pf_expectedRevision := 0 |})) ::
  steps 0 ["a"; "b"; "c"; "d"; "e"; "f"] 1000.
Lemma viewer_updates_profile :
  rtc step with_viewer (run bob_renames with_viewer) /\
  og_name <$> find_org "acme" (os_db (run bob_renames with_viewer)) = Some "Bobs".
Proof. demo_run. Qed.

(** The id of an invitation is enough to accept it. *)
Definition eve_accepts_by_id : list Action :=
  Arrive (Resolve (caller eve) "invite" (expected_org None None) Accept) :: steps 0 ["h"; "i"; "m3"] 20000.
Lemma invitation_accepted_without_secret :
  rtc step two_owners (run (invite_eve ++ eve_accepts_by_id) two_owners) /\
  length (os_admitted (run (invite_eve ++ eve_accepts_by_id) two_owners)) = 1%nat.
Proof. demo_run. Qed.

(** A revocation that read the invitation before its acceptance reports it revoked;
    the member stays. *)
Definition ann_revokes : Action :=
  Arrive (org_guarded (caller ann) "acme" OrganizationMemberRole.ADMIN (RevokeGuard (caller ann) "acme" "invite")).
Definition revoke_while_accepting : list Action :=
  invite_eve ++ [ann_revokes] ++ steps 0 ["h"; "i"; "j"] 20000 ++
  [Arrive (Resolve (caller eve) "invite" (expected_org None None) Accept)] ++ steps 1 ["k"; "l"; "m3"] 30000 ++ steps 0 ["n"; "o"] 40000.
Lemma accepted_invitation_revoked :
  rtc step two_owners (run revoke_while_accepting two_owners) /\
  in_status <$> find_invitation "invite" (os_db (run revoke_while_accepting two_owners)) = Some InvitationStatus.REVOKED /\
  getMemberRole "eve" "acme" (os_db (run revoke_while_accepting two_owners)) = Some OrganizationMemberRole.MEMBER.
Proof. demo_run. Qed.

(** An archived organization takes a new member. *)
Definition archived_meanwhile : OrgSys :=
  let d := os_db (run invite_eve two_owners) in sys (set_orgs [old_acme] d).
Lemma archived_organization_admits :
  rtc step archived_meanwhile (run eve_accepts archived_meanwhile) /\
  og_archivedAt <$> find_org "acme" (os_db archived_meanwhile) = Some (Some 1000) /\
  getMemberRole "eve" "acme" (os_db (run eve_accepts archived_meanwhile)) = Some OrganizationMemberRole.MEMBER.
Proof. demo_run. Qed.

(** An import cancelled before it starts runs to its end. *)
Definition import_eve : list Action :=
  Arrive (ImportGuard (caller ann) "acme" {| di_version := None; di_filename := None;
    di_members := [{| rw_walletAddress := "GEVE"; rw_role := OrganizationMemberRole.MEMBER |}] |}) ::
  steps 0 ["a"; "job"; "row"; "b"; "c"] 1000.
Definition cancel_import : list Action := Arrive (CancelGuard (caller ann) "acme" "job") :: steps 1 ["d"; "e"; "f"; "g"] 10000.
Definition process_import : list Action := steps 0 ["h"; "i"; "j"; "k"; "m3"; "l"; "n"; "o"; "p"] 20000.
Lemma cancelled_import_runs :
  rtc step two_owners (run (import_eve ++ cancel_import ++ process_import) two_owners) /\
  ij_status <$> find_import "job" (os_db (run (import_eve ++ cancel_import) two_owners)) = Some ImportStatus.CANCELLED /\
  ij_status <$> find_import "job" (os_db (run (import_eve ++ cancel_import ++ process_import) two_owners)) = Some ImportStatus.COMPLETED /\
  getMemberRole "eve" "acme" (os_db (run (import_eve ++ cancel_import ++ process_import) two_owners)) = Some OrganizationMemberRole.MEMBER.
Proof. demo_run. Qed.

(** The recommendations of a cancelled review are applied. *)
Definition review_ann : list Action :=
  Arrive (ReviewGuard (caller ann) "acme" "Q1" None) :: steps 0 ["a"; "b"; "review"; "c"] 1000.
Definition decide_bob : list Action :=
  Arrive (EntryGuard (caller ann) "acme" "review" "breview"
    {| dc_decision := ReviewDecision.ROLE_CHANGE; dc_recommendedRole := Some OrganizationMemberRole.VIEWER; dc_notes := None |}) ::
  steps 0 ["d"; "e"; "f"; "g"; "h"; "i"] 10000.
Definition cancel_review : list Action :=
  Arrive (CloseGuard (caller ann) "acme" "review" CampaignStatus.CANCELLED) :: steps 0 ["j"; "k"; "l"; "m"] 20000.
Definition apply_review : list Action :=
  Arrive (ApplyGuard (caller ann) "acme" "review") ::
  steps 0 ["n"; "o"; "p"; "q"; "r"; "s"; "t"; "u"; "v"; "w"; "x"; "y"; "z"] 30000.
Lemma cancelled_review_applied :
  rtc step two_owners (run (review_ann ++ decide_bob ++ cancel_review ++ apply_review) two_owners) /\
  cp_status <$> od_campaigns (os_db (run (review_ann ++ decide_bob ++ cancel_review) two_owners)) = [CampaignStatus.CANCELLED] /\
  getMemberRole "bob" "acme" (os_db (run (review_ann ++ decide_bob ++ cancel_review ++ apply_review) two_owners)) =
    Some OrganizationMemberRole.VIEWER.
Proof. demo_run. Qed.

(** The route of [OrganizationsController] marks a live organization under legal hold
    as deleted, and its API keys stay active. *)
Definition held : OrgSys :=
  sys (owning [] (db (set_hold (Some (500, "case")) acme) [member "m1" ann OrganizationMemberRole.OWNER])).
Definition root_deletes : list Action := Arrive (Visible (caller root) "acme" DeleteProfile) :: steps 0 ["a"; "b"; "c"] 1000.
Lemma held_organization_marked_deleted :
  rtc step held (run root_deletes held) /\
  (og_status <$> find_org "acme" (os_db (run root_deletes held)) = Some ResourceStatus.DELETED /\
   ak_status <$> ow_keys (od_owned (os_db (run root_deletes held))) = [ResourceStatus.ACTIVE]) /\
  getDeletionEligibility SettingAbsent "acme" 1000 (os_db held) =
    Ok {| el_organizationId := "acme"; el_lifecycleState := LIVE; el_eligible := false;
          el_blockers := [NOT_ARCHIVED; LEGAL_HOLD]; el_deletableAfter := None |}.
Proof. demo_run. Qed.

(** ** Transactions that cannot commit *)

(** Once one lifecycle transaction has written its audit record, none commits again. *)
Lemma lifecycle_slot_taken setting u id reference auditId now d :
  (SYSTEM_CHAIN_KEY, 0) ∈ row_key <$> auditRows (od_orgAudit d) ->
  (exists e, archive u id auditId now d = Err e) /\ (exists e, restore u id auditId now d = Err e) /\
  (exists e, placeLegalHold u id reference auditId now d = Err e) /\ (exists e, releaseLegalHold u id auditId now d = Err e) /\
  (exists e, deleteOrganization setting u id auditId now d = Err e).
Proof.
  intros Hslot.
  assert (forall d' args, od_orgAudit d' = od_orgAudit d -> exists e, audit_org_tx auditId now args d' = Err e) as Ha.
  { intros d' args E. destruct (audit_org_tx auditId now args d') as [x|e] eqn:Ex; [|eauto].
    assert (exists x, audit_org_tx auditId now args d' = Ok x) as [_ Hs]%audit_org_tx_Ok by eauto. by rewrite E in Hs. }
  assert (forall p f args, exists e, (d ← transition p f id d; audit_org_tx auditId now args d) = Err e) as Ht.
  { intros p f args. destruct (transition p f id d) as [x|e] eqn:E; cbn; [|eauto]. apply Ha.
    unfold transition in E. by run_result. }
  split_and!; [apply Ht..|]. destruct (deleteOrganization setting u id auditId now d) as [r|e] eqn:E; [|eauto].
  apply deletion_needs in E as (o & _ & _ & _ & _ & Hs). by destruct Hs.
Qed.

(** A webhook that was ever asked to prove its destination blocks the deletion of its
    organization: its challenges are never deleted and restrict the delete. *)
Lemma challenged_webhook_blocks_deletion setting u id auditId now d h c :
  h ∈ ow_webhooks (od_owned d) -> wh_organizationId h = id -> c ∈ ow_challenges (od_owned d) -> vc_webhookId c = wh_id h ->
  exists e, deleteOrganization setting u id auditId now d = Err e.
Proof.
  intros Hh Ho Hc E. destruct (deleteOrganization setting u id auditId now d) as [r|e] eqn:Ed; [|eauto].
  apply deletion_needs in Ed as (o & _ & _ & Hw & _). by destruct (proj1 (Hw h Hh Ho) c Hc).
Qed.
